(** * Quiz session synchronisation and integrity monitoring

    A shallow embedding of the client-side quiz session code:
    - [QuizTimer]       (components/QuizTimer.jsx): the countdown timer,
    - [SecurityWrapper] (components/SecurityWrapper): the integrity monitor,
    - [QuizSocket]      (hooks/useSocket: useSocket and useQuizSocket),
    - [QuizPage]        (pages/QuizPage): the session controller,
    - [App]             (App.jsx): the route guards around the pages,
    - [Auth]            (hooks/useAuth.jsx): the request that [apiCall] builds.

    React components are modelled as state machines.  A component state
    holds the values of its [useState] cells, the dependency values its
    effects last ran with, and the clean-up closure each effect returned.
    The browser resources an effect acquires (intervals, DOM listeners,
    channel handlers) live in an explicit environment, so that releasing
    them is a property to prove and not a matter of definition. *)

From Stdlib Require Import ZArith List String Ascii Bool Lia DecimalString.
From Stdlib Require DecimalZ DecimalPos.
From stdpp Require Import base gmap strings list functions.

Open Scope Z_scope.

(** ** JavaScript built-ins used by the components *)

Module JS.

(** [Number.prototype.toString] on an integer-valued number. *)
Definition toString (n : Z) : string :=
  NilZero.string_of_int (Z.to_int n).

(** [String.prototype.padStart(targetLength, padString)] for a
    one-character pad string: the pad is repeated in front of the string
    until the target length is reached; a string that is already long
    enough is returned unchanged. *)
Fixpoint repeat_char (c : ascii) (k : nat) (s : string) : string :=
  match k with
  | O => s
  | S k' => String c (repeat_char c k' s)
  end.

Definition padStart (targetLength : nat) (c : ascii) (s : string) : string :=
  repeat_char c (targetLength - String.length s) s.

(** [Math.floor (a / b)] on integers with [b > 0]. *)
Definition floor_div (a b : Z) : Z := a / b.

(** The [%] operator on integers: the remainder has the sign of the
    dividend. *)
Definition rem (a b : Z) : Z := Z.rem a b.

(** [Math.max] on two integers. *)
Definition max (a b : Z) : Z := Z.max a b.

(** [v || 0] for a numeric value that may be [null]/[undefined]: 0 is
    falsy, so it is replaced by 0 as well. *)
Definition or_zero (v : option Z) : Z :=
  match v with
  | Some n => if n =? 0 then 0 else n
  | None => 0
  end.

(** Truthiness of a string that may be [undefined]. *)
Definition truthy_string (v : option string) : bool :=
  match v with
  | Some s => negb (String.eqb s "")
  | None => false
  end.

(** A string that may be [undefined], interpolated into a template
    literal. *)
Definition template (v : option string) : string :=
  match v with
  | Some s => s
  | None => "undefined"
  end.

End JS.

(** ** Decimal digits, used to state what a rendered time looks like *)

Definition digit_value (c : ascii) : option Z :=
  let n := Z.of_nat (nat_of_ascii c) in
  if (48 <=? n) && (n <=? 57) then Some (n - 48) else None.

(** [two_digits s v]: [s] is exactly two decimal digits whose value is [v]. *)
Definition two_digits (s : string) (v : Z) : Prop :=
  ∃ c1 c2 d1 d2,
    s = String c1 (String c2 EmptyString) ∧
    digit_value c1 = Some d1 ∧ digit_value c2 = Some d2 ∧
    v = 10 * d1 + d2.

Definition two_digitsb (s : string) (v : Z) : bool :=
  match s with
  | String c1 (String c2 EmptyString) =>
      match digit_value c1, digit_value c2 with
      | Some d1, Some d2 => v =? 10 * d1 + d2
      | _, _ => false
      end
  | _ => false
  end.

(** A bounded universal statement over [0 <= v < n], checked by running it. *)
Definition all_below (n : nat) (p : Z → bool) : bool :=
  forallb (λ k, p (Z.of_nat k)) (seq 0 n).

(** ** The browser resources the components acquire *)

Module Browser.

(** The three [setInterval] call sites of the session. *)
Inductive interval_site :=
| CountdownTick   (* QuizTimer.jsx line 32, every 1000 ms *)
| TimerResync     (* QuizTimer.jsx line 64, every 120000 ms *)
| SocketResync.   (* useQuizSocket line 184, every 30000 ms *)

Record interval := Interval {
  i_id : nat;
  i_site : interval_site;
  i_delay : Z
}.

(** Event targets.  A socket is named by the identity of the object that
    [io(...)] returned. *)
Inductive target :=
| Document
| Window
| Socket (sock : nat).

(** A registered listener: the target, the event type and the identity of
    the function object that was registered. *)
Record listener := Listener {
  l_target : target;
  l_type : string;
  l_fn : nat
}.

#[global] Instance interval_site_eq_dec : EqDecision interval_site.
Proof. solve_decision. Defined.
#[global] Instance target_eq_dec : EqDecision target.
Proof. solve_decision. Defined.
#[global] Instance listener_eq_dec : EqDecision listener.
Proof. solve_decision. Defined.

Record env := Env {
  fresh : nat;                 (* next unused object identity / timer id *)
  intervals : list interval;   (* the active intervals *)
  listeners : list listener;   (* the attached listeners *)
  head_nodes : list nat;       (* style nodes appended to document.head *)
  connections : list nat       (* the sockets that are not disconnected *)
}.

Definition empty : env := Env 0 [] [] [] [].

(** A new function or DOM object: its identity is unused so far. *)
Definition new_object (e : env) : nat * env :=
  (fresh e,
   Env (S (fresh e)) (intervals e) (listeners e) (head_nodes e) (connections e)).

Definition setInterval (site : interval_site) (delay : Z) (e : env) : nat * env :=
  (fresh e,
   Env (S (fresh e)) (intervals e ++ [Interval (fresh e) site delay])
       (listeners e) (head_nodes e) (connections e)).

Definition clearInterval (id : nat) (e : env) : env :=
  Env (fresh e) (filter (λ i, i_id i ≠ id) (intervals e))
      (listeners e) (head_nodes e) (connections e).

(** A clean-up that clears the interval an effect created, if any. *)
Definition clear (cleanup : option nat) (e : env) : env :=
  match cleanup with
  | Some id => clearInterval id e
  | None => e
  end.

(** Whether the browser holds an interval created at [site]. *)
Definition active (site : interval_site) (e : env) : bool :=
  existsb (λ i, bool_decide (i_site i = site)) (intervals e).

Fixpoint remove_first {A} `{EqDecision A} (x : A) (l : list A) : list A :=
  match l with
  | [] => []
  | y :: l' => if decide (x = y) then l' else y :: remove_first x l'
  end.

(** [target.addEventListener(type, fn)]: registering the same function for
    the same type a second time has no effect. *)
Definition addEventListener (t : target) (ty : string) (fn : nat) (e : env) : env :=
  if decide (Listener t ty fn ∈ listeners e) then e
  else Env (fresh e) (intervals e) (listeners e ++ [Listener t ty fn])
           (head_nodes e) (connections e).

Definition removeEventListener (t : target) (ty : string) (fn : nat) (e : env) : env :=
  Env (fresh e) (intervals e) (remove_first (Listener t ty fn) (listeners e))
      (head_nodes e) (connections e).

(** [socket.on(type, fn)] appends the handler; [socket.off(type, fn)]
    removes its first registration. *)
Definition socket_on (sock : nat) (ty : string) (fn : nat) (e : env) : env :=
  Env (fresh e) (intervals e) (listeners e ++ [Listener (Socket sock) ty fn])
      (head_nodes e) (connections e).

Definition socket_off (sock : nat) (ty : string) (fn : nat) (e : env) : env :=
  removeEventListener (Socket sock) ty fn e.

Definition appendChild (node : nat) (e : env) : env :=
  Env (fresh e) (intervals e) (listeners e) (head_nodes e ++ [node]) (connections e).

Definition removeChild (node : nat) (e : env) : env :=
  Env (fresh e) (intervals e) (listeners e) (remove_first node (head_nodes e))
      (connections e).

(** [io(url, options)]: a new socket object, which starts connecting. *)
Definition io (e : env) : nat * env :=
  (fresh e,
   Env (S (fresh e)) (intervals e) (listeners e) (head_nodes e)
       (connections e ++ [fresh e])).

Definition socket_disconnect (sock : nat) (e : env) : env :=
  Env (fresh e) (intervals e) (listeners e) (head_nodes e)
      (filter (λ s, s ≠ sock) (connections e)).

End Browser.

(** ** The countdown timer (QuizTimer.jsx) *)

Module QuizTimer.

(** The props.  A callback prop is [None] when it is not supplied and
    otherwise carries the identity of the function object, which is what
    an effect's dependency array compares. *)
Record Props := mkProps {
  initialTimeRemaining : option Z;
  onTimeUp : option nat;
  onTimeSync : option nat
}.

(** Calls the component makes to its callback props. *)
Inductive call := CallOnTimeUp | CallOnTimeSync.

#[global] Instance call_eq_dec : EqDecision call.
Proof. solve_decision. Defined.

Record State := mkState {
  props : Props;             (* the props of the last render *)
  timeRemaining : Z;         (* useState, line 12 *)
  isWarning : bool;          (* useState, line 13 *)
  isCritical : bool;         (* useState, line 14 *)
  countdown : option nat;    (* interval the countdown effect has to clear *)
  resync : option nat        (* interval the resync effect has to clear *)
}.

Inductive band := Normal | Warning | Critical.

(** The band shown: [getTimerColor], [getBackgroundColor] and the alerts
    (lines 82-92, 108-124) test [isCritical] first, then [isWarning]. *)
Definition band_of (isWarning isCritical : bool) : band :=
  if isCritical then Critical
  else if isWarning then Warning
  else Normal.

(** The flags the interval callback sets for the post-decrement value
    (lines 37-46), as the pair (isWarning, isCritical). *)
Definition classify (newTime : Z) : bool * bool :=
  if (newTime <=? 60) && (newTime >? 30) then (true, false)
  else if newTime <=? 30 then (true, true)
  else (false, false).

(** The band shown after a tick that left [newTime]. *)
Definition band_at (newTime : Z) : band :=
  let '(w, c) := classify newTime in band_of w c.

(** Truthiness of a callback prop. *)
Definition supplied (cb : option nat) : bool :=
  match cb with Some _ => true | None => false end.

(** The body of the countdown effect (lines 25-57) for the rendered
    [timeRemaining] and [onTimeUp]. *)
Definition countdown_effect (tr : Z) (p : Props) (e : Browser.env)
  : option nat * Browser.env * list call :=
  if tr <=? 0 then
    (None, e, if supplied (onTimeUp p) then [CallOnTimeUp] else [])
  else
    let '(id, e') := Browser.setInterval Browser.CountdownTick 1000 e in
    (Some id, e', []).

(** The body of the resync effect (lines 62-68). *)
Definition resync_effect (p : Props) (e : Browser.env) : option nat * Browser.env :=
  match onTimeSync p with
  | None => (None, e)
  | Some _ =>
      let '(id, e') := Browser.setInterval Browser.TimerResync 120000 e in
      (Some id, e')
  end.

(** The body of the prop-synchronising effect (lines 18-20): the state
    update it requests, if any. *)
Definition sync_effect (p : Props) : option Z := initialTimeRemaining p.

(** Mounting: first render with [useState(initialTimeRemaining || 0)],
    then every effect runs once.  The update requested by the first
    effect is applied in a second render; the countdown effect runs again
    there when [timeRemaining] changed. *)
Definition mount (p : Props) (e : Browser.env) : State * Browser.env * list call :=
  let tr := JS.or_zero (initialTimeRemaining p) in
  let '(cd, e1, c1) := countdown_effect tr p e in
  let '(rs, e2) := resync_effect p e1 in
  match sync_effect p with
  | Some v =>
      if v =? tr then (mkState p tr false false cd rs, e2, c1)
      else
        let '(cd', e3, c2) := countdown_effect v p (Browser.clear cd e2) in
        (mkState p v false false cd' rs, e3, c1 ++ c2)
  | None => (mkState p tr false false cd rs, e2, c1)
  end.

Definition opt_eqb {A} `{EqDecision A} (a b : option A) : bool :=
  bool_decide (a = b).

(** A render with props [p'] and state values [tr'], [w'], [c'], followed
    by the commit: the clean-ups of the effects whose dependencies changed
    since the last render, then the bodies of those effects, in the order
    of declaration; then, if the first effect requested a different
    [timeRemaining], one more render for it. *)
Definition render (p' : Props) (tr' : Z) (w' c' : bool)
    (s : State) (e : Browser.env) : State * Browser.env * list call :=
  let d1 := negb (opt_eqb (initialTimeRemaining (props s)) (initialTimeRemaining p')) in
  let d2 := negb (timeRemaining s =? tr')
            || negb (opt_eqb (onTimeUp (props s)) (onTimeUp p')) in
  let d3 := negb (opt_eqb (onTimeSync (props s)) (onTimeSync p')) in
  let e1 := if d2 then Browser.clear (countdown s) e else e in
  let e2 := if d3 then Browser.clear (resync s) e1 else e1 in
  let '(cd, e3, c1) :=
    if d2 then countdown_effect tr' p' e2 else (countdown s, e2, []) in
  let '(rs, e4) := if d3 then resync_effect p' e3 else (resync s, e3) in
  match (if d1 then sync_effect p' else None) with
  | Some v =>
      if v =? tr' then (mkState p' tr' w' c' cd rs, e4, c1)
      else
        let '(cd', e5, c2) := countdown_effect v p' (Browser.clear cd e4) in
        (mkState p' v w' c' cd' rs, e5, c1 ++ c2)
  | None => (mkState p' tr' w' c' cd rs, e4, c1)
  end.

(** The countdown interval fires (lines 33-54), if the browser still has
    it: the state updater decrements, sets the band flags and calls
    [onTimeUp] at 0; the component then renders with the new state. *)
Definition tick (s : State) (e : Browser.env) : State * Browser.env * list call :=
  if negb (Browser.active Browser.CountdownTick e) then (s, e, [])
  else
      let prev := timeRemaining s in
      let newTime := JS.max 0 (prev - 1) in
      let '(w, c) := classify newTime in
      let c0 := if (newTime =? 0) && supplied (onTimeUp (props s))
                then [CallOnTimeUp] else [] in
      let '(s', e', c1) := render (props s) newTime w c s e in
      (s', e', c0 ++ c1).

(** The resync interval fires (line 65). *)
Definition resync_tick (s : State) (e : Browser.env) : State * Browser.env * list call :=
  if Browser.active Browser.TimerResync e then (s, e, [CallOnTimeSync])
  else (s, e, []).

(** The parent renders the component again with props [p']. *)
Definition rerender (p' : Props) (s : State) (e : Browser.env)
  : State * Browser.env * list call :=
  render p' (timeRemaining s) (isWarning s) (isCritical s) s e.

(** Unmounting runs the clean-up of every effect. *)
Definition unmount (s : State) (e : Browser.env) : Browser.env :=
  Browser.clear (resync s) (Browser.clear (countdown s) e).

Inductive event :=
| Tick
| ResyncTick
| Rerender (p' : Props).

Definition step (ev : event) (s : State) (e : Browser.env)
  : State * Browser.env * list call :=
  match ev with
  | Tick => tick s e
  | ResyncTick => resync_tick s e
  | Rerender p' => rerender p' s e
  end.

Fixpoint run (evs : list event) (s : State) (e : Browser.env)
  : State * Browser.env * list call :=
  match evs with
  | [] => (s, e, [])
  | ev :: evs' =>
      let '(s1, e1, c1) := step ev s e in
      let '(s2, e2, c2) := run evs' s1 e1 in
      (s2, e2, c1 ++ c2)
  end.

(** A session of the timer: mount, then the events. *)
Definition session (p : Props) (evs : list event)
  : State * Browser.env * list call :=
  let '(s0, e0, c0) := mount p Browser.empty in
  let '(s1, e1, c1) := run evs s0 e0 in
  (s1, e1, c0 ++ c1).

(** How often [onTimeUp] was called. *)
Definition expiries (cs : list call) : nat :=
  count_occ call_eq_dec cs CallOnTimeUp.

(** [formatTime] (lines 71-80). *)
Definition formatTime (seconds : Z) : string :=
  let hours := JS.floor_div seconds 3600 in
  let minutes := JS.floor_div (JS.rem seconds 3600) 60 in
  let secs := JS.rem seconds 60 in
  if hours >? 0 then
    JS.toString hours +:+ ":" +:+
    JS.padStart 2 "0" (JS.toString minutes) +:+ ":" +:+
    JS.padStart 2 "0" (JS.toString secs)
  else
    JS.toString minutes +:+ ":" +:+ JS.padStart 2 "0" (JS.toString secs).

End QuizTimer.

(** *** What the specification calls [H:MM:SS] and [M:SS] *)

(** [renders_HMMSS str s]: [str] is an unpadded hour count of at least one,
    a colon, two digits of minutes, a colon and two digits of seconds, and
    the three fields together denote [s] seconds. *)
Definition renders_HMMSS (str : string) (s : Z) : Prop :=
  ∃ h m sec mm ss,
    str = JS.toString h +:+ ":" +:+ mm +:+ ":" +:+ ss ∧
    two_digits mm m ∧ two_digits ss sec ∧
    1 <= h ∧ 0 <= m < 60 ∧ 0 <= sec < 60 ∧
    s = 3600 * h + 60 * m + sec.

(** [renders_MSS str s]: [str] is an unpadded minute count, a colon and two
    digits of seconds, denoting [s] seconds. *)
Definition renders_MSS (str : string) (s : Z) : Prop :=
  ∃ m sec ss,
    str = JS.toString m +:+ ":" +:+ ss ∧
    two_digits ss sec ∧
    0 <= m < 60 ∧ 0 <= sec < 60 ∧
    s = 60 * m + sec.


(** ** What the session makes observable *)

(** The payload of an outbound channel event. *)
Inductive answer := OptA | OptB | OptC | OptD.

#[global] Instance answer_eq_dec : EqDecision answer.
Proof. solve_decision. Defined.

Inductive payload :=
| NoData
| JoinQuiz (session_token : string)
| SubmitAnswer (question_id : string) (selected_answer : answer) (time_taken : Z)
| NextQuestion (question_index : Z).

Inductive output :=
| TabSwitchDetected (blurCount maxBlurCount : Z)  (* console.warn, line 148 *)
| MaxTabSwitchesExceeded                          (* console.error, line 152 *)
| TabFocusRegained                                (* console.log, line 158 *)
| Emit (sock : nat) (event : string) (data : payload)  (* socket.emit *)
| Navigate (path : string).                       (* navigate(path) *)

(** ** The integrity monitor (SecurityWrapper) *)

Module SecurityWrapper.

(** What the clean-up of the first effect (lines 129-136) refers to: the
    five handlers and the style element created by that run. *)
Record guard := mkGuard {
  handleContextMenu : nat;
  handleSelectStart : nat;
  handleDragStart : nat;
  handleKeyDown : nat;
  handleKeyUp : nat;
  style : nat
}.

(** The closure of one run of the second effect (lines 143-167): the
    local variable [blurCount] and the two handlers. *)
Record monitor := mkMonitor {
  blurCount : Z;
  handleBlur : nat;
  handleFocus : nat
}.

Definition maxBlurCount : Z := 3.

Record State := mkState {
  enabled : bool;                 (* the prop of the last render *)
  guard_effect : option guard;    (* clean-up of the first effect *)
  blur_effect : option monitor    (* clean-up of the second effect *)
}.

(** Lines 98-126. *)
Definition guard_setup (e : Browser.env) : guard * Browser.env :=
  let '(hContextMenu, e) := Browser.new_object e in
  let '(hSelectStart, e) := Browser.new_object e in
  let '(hDragStart, e) := Browser.new_object e in
  let '(hKeyDown, e) := Browser.new_object e in
  let '(hKeyUp, e) := Browser.new_object e in
  let e := Browser.addEventListener Browser.Document "contextmenu" hContextMenu e in
  let e := Browser.addEventListener Browser.Document "selectstart" hSelectStart e in
  let e := Browser.addEventListener Browser.Document "dragstart" hDragStart e in
  let e := Browser.addEventListener Browser.Document "keydown" hKeyDown e in
  let e := Browser.addEventListener Browser.Document "keyup" hKeyUp e in
  let '(st, e) := Browser.new_object e in
  let e := Browser.appendChild st e in
  (mkGuard hContextMenu hSelectStart hDragStart hKeyDown hKeyUp st, e).

(** Lines 129-136. *)
Definition guard_cleanup (g : guard) (e : Browser.env) : Browser.env :=
  let e := Browser.removeEventListener Browser.Document "contextmenu" (handleContextMenu g) e in
  let e := Browser.removeEventListener Browser.Document "selectstart" (handleSelectStart g) e in
  let e := Browser.removeEventListener Browser.Document "dragstart" (handleDragStart g) e in
  let e := Browser.removeEventListener Browser.Document "keydown" (handleKeyDown g) e in
  let e := Browser.removeEventListener Browser.Document "keyup" (handleKeyUp g) e in
  Browser.removeChild (style g) e.

(** Lines 143-162: [let blurCount = 0], the two handlers, and their
    registration on the window. *)
Definition blur_setup (e : Browser.env) : monitor * Browser.env :=
  let '(hBlur, e) := Browser.new_object e in
  let '(hFocus, e) := Browser.new_object e in
  let e := Browser.addEventListener Browser.Window "blur" hBlur e in
  let e := Browser.addEventListener Browser.Window "focus" hFocus e in
  (mkMonitor 0 hBlur hFocus, e).

(** Lines 164-167. *)
Definition blur_cleanup (m : monitor) (e : Browser.env) : Browser.env :=
  let e := Browser.removeEventListener Browser.Window "blur" (handleBlur m) e in
  Browser.removeEventListener Browser.Window "focus" (handleFocus m) e.

(** Both effects start with [if (!enabled) return]. *)
Definition run_effects (en : bool) (e : Browser.env) : State * Browser.env :=
  if en then
    let '(g, e) := guard_setup e in
    let '(m, e) := blur_setup e in
    (mkState en (Some g) (Some m), e)
  else (mkState en None None, e).

Definition run_cleanups (s : State) (e : Browser.env) : Browser.env :=
  let e := match guard_effect s with Some g => guard_cleanup g e | None => e end in
  match blur_effect s with Some m => blur_cleanup m e | None => e end.

Definition mount (en : bool) (e : Browser.env) : State * Browser.env :=
  run_effects en e.

(** A render with the prop [enabled = en].  Both effects depend on
    [enabled] only: when it is unchanged nothing runs, otherwise the
    clean-ups of the last run are called and the effects run again. *)
Definition render (en : bool) (s : State) (e : Browser.env) : State * Browser.env :=
  if bool_decide (en = enabled s) then (s, e)
  else run_effects en (run_cleanups s e).

Definition unmount (s : State) (e : Browser.env) : Browser.env :=
  run_cleanups s e.

(** What [handleBlur] logs once it has incremented the count to [n]
    (lines 148-154). *)
Definition TabSwitchDetected_or_more (n : Z) : list output :=
  TabSwitchDetected n maxBlurCount ::
  (if n >=? maxBlurCount then [MaxTabSwitchesExceeded] else []).

(** [handleBlur] (lines 146-155), acting on the closure it belongs to. *)
Definition handleBlur_body (m : monitor) : monitor * list output :=
  let n := blurCount m + 1 in
  (mkMonitor n (handleBlur m) (handleFocus m), TabSwitchDetected_or_more n).

(** The window loses focus: the browser calls the [blur] listeners it
    holds.  Only the closure of the current effect run can be among
    them. *)
Definition blur (s : State) (e : Browser.env) : State * list output :=
  match blur_effect s with
  | Some m =>
      if decide (Browser.Listener Browser.Window "blur" (handleBlur m)
                   ∈ Browser.listeners e)
      then let '(m', out) := handleBlur_body m in
           (mkState (enabled s) (guard_effect s) (Some m'), out)
      else (s, [])
  | None => (s, [])
  end.

(** The window regains focus (lines 157-159). *)
Definition focus (s : State) (e : Browser.env) : State * list output :=
  match blur_effect s with
  | Some m =>
      if decide (Browser.Listener Browser.Window "focus" (handleFocus m)
                   ∈ Browser.listeners e)
      then (s, [TabFocusRegained])
      else (s, [])
  | None => (s, [])
  end.

(** The violation count the monitor currently holds, if it is attached. *)
Definition count (s : State) : option Z := blurCount <$> blur_effect s.

Inductive event :=
| Blur
| Focus
| SetEnabled (en : bool).

Definition step (ev : event) (s : State) (e : Browser.env)
  : State * Browser.env * list output :=
  match ev with
  | Blur => let '(s', out) := blur s e in (s', e, out)
  | Focus => let '(s', out) := focus s e in (s', e, out)
  | SetEnabled en => let '(s', e') := render en s e in (s', e', [])
  end.

Fixpoint run (evs : list event) (s : State) (e : Browser.env)
  : State * Browser.env * list output :=
  match evs with
  | [] => (s, e, [])
  | ev :: evs' =>
      let '(s1, e1, o1) := step ev s e in
      let '(s2, e2, o2) := run evs' s1 e1 in
      (s2, e2, o1 ++ o2)
  end.

(** A session of the monitor: mounted enabled, then the events. *)
Definition session (evs : list event) : State * Browser.env * list output :=
  let '(s0, e0) := mount true Browser.empty in
  run evs s0 e0.

(** *** The handlers of the first effect (lines 8-96) *)

(** A keyboard event: the key and the modifier keys that are held. *)
Record KeyboardEvent := mkKeyboardEvent {
  key : string;
  ctrlKey : bool;
  shiftKey : bool;
  altKey : bool;
  metaKey : bool
}.

(** What a handler did with the event it was called with. *)
Record handled := mkHandled {
  defaultPrevented : bool;   (* e.preventDefault() *)
  clipboardCleared : bool    (* navigator.clipboard.writeText('') *)
}.

Definition untouched : handled := mkHandled false false.
Definition prevented : handled := mkHandled true false.

(** [handleKeyDown] (lines 26-86): a chain of tests, each of which
    prevents the default action and returns. *)
Definition handleKeyDown_body (k : KeyboardEvent) : handled :=
  if String.eqb (key k) "F12" then prevented
  else if ctrlKey k && shiftKey k && String.eqb (key k) "I" then prevented
  else if ctrlKey k && shiftKey k && String.eqb (key k) "J" then prevented
  else if ctrlKey k && String.eqb (key k) "u" then prevented
  else if ctrlKey k && String.eqb (key k) "s" then prevented
  else if ctrlKey k && String.eqb (key k) "a" then prevented
  else if ctrlKey k && String.eqb (key k) "c" then prevented
  else if ctrlKey k && String.eqb (key k) "v" then prevented
  else if ctrlKey k && String.eqb (key k) "x" then prevented
  else if ctrlKey k && String.eqb (key k) "p" then prevented
  else untouched.

(** [handleKeyUp] (lines 89-96). *)
Definition handleKeyUp_body (k : KeyboardEvent) : handled :=
  if String.eqb (key k) "PrintScreen" then mkHandled true true
  else untouched.

(** The document events the first effect listens to (lines 99-103). *)
Inductive dom_event :=
| ContextMenu
| SelectStart
| DragStart
| KeyDown (k : KeyboardEvent)
| KeyUp (k : KeyboardEvent).

Definition dom_type (ev : dom_event) : string :=
  match ev with
  | ContextMenu => "contextmenu"
  | SelectStart => "selectstart"
  | DragStart => "dragstart"
  | KeyDown _ => "keydown"
  | KeyUp _ => "keyup"
  end.

(** The function that a run of the effect registered for an event. *)
Definition guard_handler (g : guard) (ev : dom_event) : nat :=
  match ev with
  | ContextMenu => handleContextMenu g
  | SelectStart => handleSelectStart g
  | DragStart => handleDragStart g
  | KeyDown _ => handleKeyDown g
  | KeyUp _ => handleKeyUp g
  end.

(** What that function does: [handleContextMenu], [handleSelectStart] and
    [handleDragStart] (lines 8-23) prevent the default action. *)
Definition handler_body (ev : dom_event) : handled :=
  match ev with
  | ContextMenu | SelectStart | DragStart => prevented
  | KeyDown k => handleKeyDown_body k
  | KeyUp k => handleKeyUp_body k
  end.

(** The document dispatches an event: the browser calls the listener it
    holds for it.  Only the handlers of the current run of the effect can
    be among the listeners. *)
Definition dispatch (ev : dom_event) (s : State) (e : Browser.env) : handled :=
  match guard_effect s with
  | Some g =>
      if decide (Browser.Listener Browser.Document (dom_type ev) (guard_handler g ev)
                   ∈ Browser.listeners e)
      then handler_body ev
      else untouched
  | None => untouched
  end.

End SecurityWrapper.

(** ** The channel manager and the synchronizer (useSocket, useQuizSocket) *)

Module QuizSocket.

(** [quizState] (lines 89-94); [timeRemaining] starts as [null]. *)
Record QuizState := mkQuizState {
  timeRemaining : option Z;
  currentQuestionIndex : Z;
  totalQuestions : Z;
  isJoined : bool
}.

Definition initialQuizState : QuizState := mkQuizState None 0 0 false.

(** The payload of [quiz_joined]. *)
Record quiz_joined := mkQuizJoined {
  time_remaining : Z;
  current_question_index : Z;
  total_questions : Z
}.

(** The state updaters of the inbound handlers (lines 106-151). *)
Definition handleQuizJoined (data : quiz_joined) (prev : QuizState) : QuizState :=
  mkQuizState (Some (time_remaining data)) (current_question_index data)
              (total_questions data) true.

Definition handleTimeSync (time_remaining : Z) (prev : QuizState) : QuizState :=
  mkQuizState (Some time_remaining) (currentQuestionIndex prev)
              (totalQuestions prev) (isJoined prev).

Definition handleQuestionChanged (question_index : Z) (prev : QuizState) : QuizState :=
  mkQuizState (timeRemaining prev) question_index
              (totalQuestions prev) (isJoined prev).

Definition handleQuizCompleted (prev : QuizState) : QuizState :=
  mkQuizState (timeRemaining prev) (currentQuestionIndex prev)
              (totalQuestions prev) false.

Definition handleUserJoined (prev : Z) : Z := prev + 1.
Definition handleUserLeft (prev : Z) : Z := JS.max 0 (prev - 1).

(** The closure of one run of the joining effect (lines 97-176): the seven
    handlers it registered, and the values of [quizState.isJoined] and of
    [isConnected] (through [emit]) that its clean-up captured. *)
Record joining := mkJoining {
  hQuizJoined : nat;
  hTimeSync : nat;
  hQuestionChanged : nat;
  hAnswerSubmitted : nat;
  hQuizCompleted : nat;
  hUserJoined : nat;
  hUserLeft : nat;
  seen_isJoined : bool;
  seen_isConnected : bool
}.

Record State := mkState {
  token : option string;          (* the credential, from useAuth *)
  sessionToken : option string;
  socketRef : option nat;         (* socketRef.current *)
  socket : option nat;            (* socketRef.current as the last render read it *)
  isConnected : bool;
  error : option string;
  quizState : QuizState;
  activeUsers : Z;
  connect_effect : option nat;    (* socket the useSocket clean-up disconnects *)
  join_effect : option joining;   (* clean-up of the joining effect *)
  resync_effect : option nat      (* interval the 30 s effect has to clear *)
}.

(** Setters for the cells an event changes. *)
Definition set_connection (c : bool) (err : option string) (s : State) : State :=
  mkState (token s) (sessionToken s) (socketRef s) (socket s) c err
          (quizState s) (activeUsers s)
          (connect_effect s) (join_effect s) (resync_effect s).

Definition set_quizState (q : QuizState) (s : State) : State :=
  mkState (token s) (sessionToken s) (socketRef s) (socket s) (isConnected s)
          (error s) q (activeUsers s)
          (connect_effect s) (join_effect s) (resync_effect s).

Definition set_activeUsers (n : Z) (s : State) : State :=
  mkState (token s) (sessionToken s) (socketRef s) (socket s) (isConnected s)
          (error s) (quizState s) n
          (connect_effect s) (join_effect s) (resync_effect s).

Definition set_effects (sk : option nat) (j : option joining) (r : option nat)
    (s : State) : State :=
  mkState (token s) (sessionToken s) (socketRef s) sk (isConnected s)
          (error s) (quizState s) (activeUsers s)
          (connect_effect s) j r.

(** [emit] (lines 59-63).  [connected] is the value of [isConnected] in
    the render that created this [emit]; [socketRef.current] is read when
    it is called. *)
Definition emit (connected : bool) (s : State) (event : string) (data : payload)
  : list output :=
  match socketRef s with
  | Some sock => if connected then [Emit sock event data] else []
  | None => []
  end.

(** [on] and [off] (lines 65-75). *)
Definition on (s : State) (ty : string) (fn : nat) (e : Browser.env) : Browser.env :=
  match socketRef s with
  | Some sock => Browser.socket_on sock ty fn e
  | None => e
  end.

Definition off (s : State) (ty : string) (fn : nat) (e : Browser.env) : Browser.env :=
  match socketRef s with
  | Some sock => Browser.socket_off sock ty fn e
  | None => e
  end.

(** The effect of useSocket (lines 13-57), run at mount. *)
Definition connect_setup (tok : option string) (e : Browser.env)
  : option nat * Browser.env :=
  if negb (JS.truthy_string tok) then (None, e)
  else
    let '(sock, e) := Browser.io e in
    let '(h1, e) := Browser.new_object e in
    let e := Browser.socket_on sock "connect" h1 e in
    let '(h2, e) := Browser.new_object e in
    let e := Browser.socket_on sock "disconnect" h2 e in
    let '(h3, e) := Browser.new_object e in
    let e := Browser.socket_on sock "connect_error" h3 e in
    let '(h4, e) := Browser.new_object e in
    let e := Browser.socket_on sock "error" h4 e in
    (Some sock, e).

(** Its clean-up (lines 52-56). *)
Definition connect_cleanup (c : option nat) (e : Browser.env) : Browser.env :=
  match c with
  | Some sock => Browser.socket_disconnect sock e
  | None => e
  end.

(** The joining effect (lines 97-160) in a render that read [sk] for
    [socket]. *)
Definition join_setup (sk : option nat) (s : State) (e : Browser.env)
  : option joining * Browser.env * list output :=
  if negb (bool_decide (is_Some sk)) || negb (isConnected s)
     || negb (JS.truthy_string (sessionToken s))
  then (None, e, [])
  else
    let out := emit (isConnected s) s "join_quiz"
                    (JoinQuiz (default ""%string (sessionToken s))) in
    let '(f1, e) := Browser.new_object e in
    let '(f2, e) := Browser.new_object e in
    let '(f3, e) := Browser.new_object e in
    let '(f4, e) := Browser.new_object e in
    let '(f5, e) := Browser.new_object e in
    let '(f6, e) := Browser.new_object e in
    let '(f7, e) := Browser.new_object e in
    let e := on s "quiz_joined" f1 e in
    let e := on s "time_sync" f2 e in
    let e := on s "question_changed" f3 e in
    let e := on s "answer_submitted" f4 e in
    let e := on s "quiz_completed" f5 e in
    let e := on s "user_joined" f6 e in
    let e := on s "user_left" f7 e in
    (Some (mkJoining f1 f2 f3 f4 f5 f6 f7
                     (isJoined (quizState s)) (isConnected s)), e, out).

(** Its clean-up (lines 163-175). *)
Definition join_cleanup (j : joining) (s : State) (e : Browser.env)
  : Browser.env * list output :=
  let e := off s "quiz_joined" (hQuizJoined j) e in
  let e := off s "time_sync" (hTimeSync j) e in
  let e := off s "question_changed" (hQuestionChanged j) e in
  let e := off s "answer_submitted" (hAnswerSubmitted j) e in
  let e := off s "quiz_completed" (hQuizCompleted j) e in
  let e := off s "user_joined" (hUserJoined j) e in
  let e := off s "user_left" (hUserLeft j) e in
  (e, if seen_isJoined j then emit (seen_isConnected j) s "leave_quiz" NoData
      else []).

(** The 30 s effect (lines 179-188). *)
Definition resync_setup (sk : option nat) (s : State) (e : Browser.env)
  : option nat * Browser.env :=
  if negb (bool_decide (is_Some sk)) || negb (isConnected s)
     || negb (isJoined (quizState s))
  then (None, e)
  else
    let '(id, e) := Browser.setInterval Browser.SocketResync 30000 e in
    (Some id, e).

(** Mounting: [socketRef] is still [null] in the first render, so of the
    three effects only the one of useSocket does something. *)
Definition mount (tok sess : option string) (e : Browser.env)
  : State * Browser.env * list output :=
  let s0 := mkState tok sess None None false None initialQuizState 0
                    None None None in
  let '(c, e1) := connect_setup tok e in
  let s1 := mkState tok sess c None false None initialQuizState 0 c None None in
  let '(j, e2, out) := join_setup None s1 e1 in
  let '(r, e3) := resync_setup None s1 e2 in
  (set_effects None j r s1, e3, out).

(** A render after the state cells changed from [old] to [s]: it reads
    [socketRef.current], then cleans up and runs again the effects whose
    dependencies ([socket], [isConnected], [sessionToken], respectively
    [socket], [isConnected], [quizState.isJoined]) changed. *)
Definition render (old s : State) (e : Browser.env)
  : State * Browser.env * list output :=
  let sk := socketRef s in
  let d1 := negb (bool_decide (socket old = sk))
            || negb (bool_decide (isConnected old = isConnected s)) in
  let d2 := d1 || negb (bool_decide (isJoined (quizState old)
                                     = isJoined (quizState s))) in
  let '(e1, o1) :=
    if d1 then
      match join_effect old with
      | Some j => join_cleanup j s e
      | None => (e, [])
      end
    else (e, []) in
  let e2 := if d2 then Browser.clear (resync_effect old) e1 else e1 in
  let '(j, e3, o2) :=
    if d1 then join_setup sk s e2 else (join_effect old, e2, []) in
  let '(r, e4) :=
    if d2 then resync_setup sk s e3 else (resync_effect old, e3) in
  (set_effects sk j r s, e4, o1 ++ o2).

(** Unmounting: the clean-ups of the three effects, in the order of
    declaration. *)
Definition unmount (s : State) (e : Browser.env) : Browser.env * list output :=
  let e1 := connect_cleanup (connect_effect s) e in
  let '(e2, out) :=
    match join_effect s with
    | Some j => join_cleanup j s e1
    | None => (e1, [])
    end in
  (Browser.clear (resync_effect s) e2, out).

(** How many handlers the socket of this hook holds for an event, as
    long as the client has not disconnected it. *)
Definition registered (ty : string) (s : State) (e : Browser.env) : nat :=
  match socketRef s with
  | Some sock =>
      if decide (sock ∈ Browser.connections e) then
        length (filter (λ l, Browser.l_target l = Browser.Socket sock
                             ∧ Browser.l_type l = ty) (Browser.listeners e))
      else O
  | None => O
  end.

(** What the channel delivers. *)
Inductive inbound :=
| Connect
| Disconnect
| ConnectError (message : string)
| Error (message : string)
| QuizJoined (data : quiz_joined)
| TimeSync (time_remaining : Z)
| QuestionChanged (question_index : Z)
| AnswerSubmitted
| QuizCompleted
| UserJoined
| UserLeft.

Definition event_name (ev : inbound) : string :=
  match ev with
  | Connect => "connect"
  | Disconnect => "disconnect"
  | ConnectError _ => "connect_error"
  | Error _ => "error"
  | QuizJoined _ => "quiz_joined"
  | TimeSync _ => "time_sync"
  | QuestionChanged _ => "question_changed"
  | AnswerSubmitted => "answer_submitted"
  | QuizCompleted => "quiz_completed"
  | UserJoined => "user_joined"
  | UserLeft => "user_left"
  end.

(** One call of the handler of an event: the new state cells. *)
Definition handle (ev : inbound) (s : State) : State :=
  match ev with
  | Connect => set_connection true None s
  | Disconnect => set_connection false (error s) s
  | ConnectError m => set_connection false (Some m) s
  | Error m => set_connection (isConnected s) (Some m) s
  | QuizJoined d => set_quizState (handleQuizJoined d (quizState s)) s
  | TimeSync t => set_quizState (handleTimeSync t (quizState s)) s
  | QuestionChanged i => set_quizState (handleQuestionChanged i (quizState s)) s
  | AnswerSubmitted => s
  | QuizCompleted => set_quizState (handleQuizCompleted (quizState s)) s
  | UserJoined => set_activeUsers (handleUserJoined (activeUsers s)) s
  | UserLeft => set_activeUsers (handleUserLeft (activeUsers s)) s
  end.

(** An inbound event: every handler registered for it is called, then
    the hook renders. *)
Definition receive (ev : inbound) (s : State) (e : Browser.env)
  : State * Browser.env * list output :=
  match registered (event_name ev) s e with
  | O => (s, e, [])
  | S n => render s (Nat.iter (S n) (handle ev) s) e
  end.

(** The 30 s interval fires (line 185).  The effect only created it in a
    render with [isConnected] true. *)
Definition resync_tick (s : State) (e : Browser.env) : list output :=
  if Browser.active Browser.SocketResync e
  then emit true s "request_time_sync" NoData
  else [].

(** The outbound operations (lines 191-209), with the [emit] of the
    current render. *)
Definition submitAnswer (questionId : string) (selectedAnswer : answer)
    (timeTaken : Z) (s : State) : list output :=
  emit (isConnected s) s "submit_answer"
       (SubmitAnswer questionId selectedAnswer timeTaken).

Definition nextQuestion (questionIndex : Z) (s : State) : list output :=
  emit (isConnected s) s "next_question" (NextQuestion questionIndex).

Definition finishQuiz (s : State) : list output :=
  emit (isConnected s) s "finish_quiz" NoData.

Definition requestTimeSync (s : State) : list output :=
  emit (isConnected s) s "request_time_sync" NoData.

End QuizSocket.

(** ** The session controller (QuizPage) *)

Module QuizPage.

(** A question as the page uses it: its identifier, which is [undefined]
    when the record has none. *)
Record question := mkQuestion { id : option string }.

(** Calls the page makes to the operations of useQuizSocket and to the
    router. *)
Inductive call :=
| CallSubmitAnswer (questionId : string) (selectedAnswer : answer) (timeTaken : Z)
| CallNextQuestion (questionIndex : Z)
| CallFinishQuiz
| CallNavigate (path : string).

Record State := mkState {
  sessionToken : option string;         (* useParams, line 22 *)
  questions : list question;            (* line 28 *)
  currentQuestionIndex : Z;             (* line 29 *)
  answers : gmap string answer;         (* line 30 *)
  loading : bool;                       (* line 31 *)
  error : string;                       (* line 32 *)
  isSubmitting : bool;                  (* line 33 *)
  questionStartTime : Z;                (* line 34 *)
  securityEnabled : bool;               (* line 37 *)
  warningCount : Z;                     (* line 38 *)
  showSecurityWarning : bool            (* line 39 *)
}.

(** The state of the first render; [now] is [Date.now()]. *)
Definition initial (sess : option string) (now : Z) : State :=
  mkState sess [] 0 ∅ true "" false now true 0 false.

Definition set_index (i now : Z) (s : State) : State :=
  mkState (sessionToken s) (questions s) i (answers s) (loading s) (error s)
          (isSubmitting s)
          (* the effect of lines 56-59 runs when the index changed *)
          (if i =? currentQuestionIndex s then questionStartTime s else now)
          (securityEnabled s) (warningCount s) (showSecurityWarning s).

Definition set_answers (a : gmap string answer) (s : State) : State :=
  mkState (sessionToken s) (questions s) (currentQuestionIndex s) a (loading s)
          (error s) (isSubmitting s) (questionStartTime s)
          (securityEnabled s) (warningCount s) (showSecurityWarning s).

Definition set_isSubmitting (b : bool) (s : State) : State :=
  mkState (sessionToken s) (questions s) (currentQuestionIndex s) (answers s)
          (loading s) (error s) b (questionStartTime s)
          (securityEnabled s) (warningCount s) (showSecurityWarning s).

Definition set_security (en : bool) (wc : Z) (warn : bool) (s : State) : State :=
  mkState (sessionToken s) (questions s) (currentQuestionIndex s) (answers s)
          (loading s) (error s) (isSubmitting s) (questionStartTime s)
          en wc warn.

(** [questions[i]] for a numeric index: [undefined] outside the array. *)
Definition nth_question (qs : list question) (i : Z) : option question :=
  if i <? 0 then None else qs !! Z.to_nat i.

(** [questions[currentQuestionIndex]?.id] (line 92). *)
Definition current_id (s : State) : option string :=
  nth_question (questions s) (currentQuestionIndex s) ≫= id.

(** [handleAnswerSelect] (lines 91-105); [now] is [Date.now()]. *)
Definition handleAnswerSelect (selectedAnswer : answer) (now : Z) (s : State)
  : State * list call :=
  let questionId := current_id s in
  if negb (JS.truthy_string questionId) then (s, [])
  else
    let qid := default ""%string questionId in
    let timeTaken := JS.floor_div (now - questionStartTime s) 1000 in
    (set_answers (<[qid := selectedAnswer]> (answers s)) s,
     [CallSubmitAnswer qid selectedAnswer timeTaken]).

(** [handleNextQuestion] (lines 107-113). *)
Definition handleNextQuestion (now : Z) (s : State) : State * list call :=
  if currentQuestionIndex s <? Z.of_nat (length (questions s)) - 1 then
    let newIndex := currentQuestionIndex s + 1 in
    (set_index newIndex now s, [CallNextQuestion newIndex])
  else (s, []).

(** [handlePreviousQuestion] (lines 115-121). *)
Definition handlePreviousQuestion (now : Z) (s : State) : State * list call :=
  if currentQuestionIndex s >? 0 then
    let newIndex := currentQuestionIndex s - 1 in
    (set_index newIndex now s, [CallNextQuestion newIndex])
  else (s, []).

(** A button of the navigation grid (lines 251-265): there is one for
    every index of [questions], and it only sets the local index. *)
Definition goTo (index : nat) (now : Z) (s : State) : State * list call :=
  if decide (index < length (questions s))%nat
  then (set_index (Z.of_nat index) now s, [])
  else (s, []).

(** [handleFinishQuiz] (lines 123-136).  Nothing is awaited, so the
    [finally] block has reset [isSubmitting] before the next render. *)
Definition handleFinishQuiz (s : State) : State * list call :=
  if isSubmitting s then (s, [])
  else
    (set_isSubmitting false (set_isSubmitting true s),
     [CallFinishQuiz;
      CallNavigate ("/results/" +:+ JS.template (sessionToken s))]).

(** [handleTimeUp] (lines 138-140). *)
Definition handleTimeUp (s : State) : State * list call := handleFinishQuiz s.


(** The security toggle (line 382). *)
Definition toggleSecurity (s : State) : State :=
  set_security (negb (securityEnabled s)) (warningCount s)
               (showSecurityWarning s) s.

(** [loadQuizData] completing (lines 79-81, 87): [qs] is
    [quizResponse.data.questions || []] and [index] is
    [session.current_question_index]. *)
Definition loaded (qs : list question) (index : option Z) (now : Z) (s : State)
  : State :=
  let s1 := set_index (JS.or_zero index) now s in
  mkState (sessionToken s1) qs (currentQuestionIndex s1) (answers s1) false
          (error s1) (isSubmitting s1) (questionStartTime s1)
          (securityEnabled s1) (warningCount s1) (showSecurityWarning s1).

(** [loadQuizData] failing (lines 68, 75, 84, 87). *)
Definition load_failed (message : string) (s : State) : State :=
  mkState (sessionToken s) (questions s) (currentQuestionIndex s) (answers s)
          false message (isSubmitting s) (questionStartTime s)
          (securityEnabled s) (warningCount s) (showSecurityWarning s).

(** Whether the page shows the quiz, and with it SecurityWrapper and
    QuizTimer (lines 156-175). *)
Definition shows_quiz (s : State) : bool :=
  negb (loading s) && String.eqb (error s) "".

(** What the user can do on the page once the quiz is shown. *)
Inductive event :=
| AnswerSelect (selectedAnswer : answer) (now : Z)
| Next (now : Z)
| Previous (now : Z)
| GoTo (index : nat) (now : Z)
| Finish
| ToggleSecurity.

Definition step (ev : event) (s : State) : State * list call :=
  match ev with
  | AnswerSelect a now => handleAnswerSelect a now s
  | Next now => handleNextQuestion now s
  | Previous now => handlePreviousQuestion now s
  | GoTo i now => goTo i now s
  | Finish => handleFinishQuiz s
  | ToggleSecurity => (toggleSecurity s, [])
  end.

Fixpoint run (evs : list event) (s : State) : State * list call :=
  match evs with
  | [] => (s, [])
  | ev :: evs' =>
      let '(s1, c1) := step ev s in
      let '(s2, c2) := run evs' s1 in
      (s2, c1 ++ c2)
  end.



End QuizPage.

(** ** The mounted page: QuizPage with its hook and its two children *)

Module Session.

Record Mounted := mkMounted {
  page : QuizPage.State;
  sock : QuizSocket.State;
  wrapper : option SecurityWrapper.State;
  timer : option QuizTimer.State
}.

(** The page is mounted, or it has been unmounted. *)
Inductive State :=
| Live (m : Mounted)
| Gone.

Definition set_page (p : QuizPage.State) (m : Mounted) : Mounted :=
  mkMounted p (sock m) (wrapper m) (timer m).

Definition set_sock (k : QuizSocket.State) (m : Mounted) : Mounted :=
  mkMounted (page m) k (wrapper m) (timer m).

(** A call of the page, carried out by useQuizSocket or the router. *)
Definition perform (k : QuizSocket.State) (c : QuizPage.call) : list output :=
  match c with
  | QuizPage.CallSubmitAnswer q a t => QuizSocket.submitAnswer q a t k
  | QuizPage.CallNextQuestion i => QuizSocket.nextQuestion i k
  | QuizPage.CallFinishQuiz => QuizSocket.finishQuiz k
  | QuizPage.CallNavigate path => [Navigate path]
  end.

(** A call of the timer to its props (lines 238-239 of the page):
    [onTimeUp] is [handleTimeUp], [onTimeSync] is [requestTimeSync]. *)
Definition answer_call (m : Mounted) (c : QuizTimer.call) : Mounted * list output :=
  match c with
  | QuizTimer.CallOnTimeUp =>
      let '(p, calls) := QuizPage.handleTimeUp (page m) in
      (set_page p m, flat_map (perform (sock m)) calls)
  | QuizTimer.CallOnTimeSync => (m, QuizSocket.requestTimeSync (sock m))
  end.

Fixpoint answer_calls (m : Mounted) (cs : list QuizTimer.call)
  : Mounted * list output :=
  match cs with
  | [] => (m, [])
  | c :: cs' =>
      let '(m1, o1) := answer_call m c in
      let '(m2, o2) := answer_calls m1 cs' in
      (m2, o1 ++ o2)
  end.

(** Whether a render of SecurityWrapper with [enabled = en] moves its
    children.  The component returns them inside a [div] when it is
    enabled and inside a fragment when it is not (lines 170-190 of
    SecurityWrapper), so the page's own elements sit one level deeper in
    one case than in the other: when [enabled] changes, React finds other
    elements at their old positions, unmounts the components below and
    mounts them anew. *)
Definition children_move (w : option SecurityWrapper.State) (en : bool) : bool :=
  match w with
  | Some w0 => negb (bool_decide (en = SecurityWrapper.enabled w0))
  | None => false
  end.

(** The page renders its children (lines 175-242) when it shows the quiz.
    Every render creates new [handleTimeUp] and [requestTimeSync]
    functions, so QuizTimer always sees changed callback props.  A
    QuizTimer that is moved is unmounted and a new one is mounted with the
    props of this render. *)
Definition render_children (m : Mounted) (e : Browser.env)
  : Mounted * Browser.env * list QuizTimer.call :=
  if QuizPage.shows_quiz (page m) then
    let en := QuizPage.securityEnabled (page m) in
    let '(w, e1) :=
      match wrapper m with
      | None => SecurityWrapper.mount en e
      | Some w => SecurityWrapper.render en w e
      end in
    let '(onTimeUp, e2) := Browser.new_object e1 in
    let '(onTimeSync, e3) := Browser.new_object e2 in
    let props :=
      QuizTimer.mkProps (QuizSocket.timeRemaining (QuizSocket.quizState (sock m)))
                        (Some onTimeUp) (Some onTimeSync) in
    let '(t, e4, calls) :=
      match timer m with
      | None => QuizTimer.mount props e3
      | Some t =>
          if children_move (wrapper m) en
          then QuizTimer.mount props (QuizTimer.unmount t e3)
          else QuizTimer.rerender props t e3
      end in
    (mkMounted (page m) (sock m) (Some w) (Some t), e4, calls)
  else
    let e1 := match timer m with
              | Some t => QuizTimer.unmount t e
              | None => e
              end in
    let e2 := match wrapper m with
              | Some w => SecurityWrapper.unmount w e1
              | None => e1
              end in
    (mkMounted (page m) (sock m) None None, e2, []).

(** Unmounting the page: the clean-ups of the children and of the hook. *)
Definition unmount (m : Mounted) (e : Browser.env) : Browser.env * list output :=
  let e1 := match timer m with
            | Some t => QuizTimer.unmount t e
            | None => e
            end in
  let e2 := match wrapper m with
            | Some w => SecurityWrapper.unmount w e1
            | None => e1
            end in
  QuizSocket.unmount (sock m) e2.

Definition navigates (out : list output) : bool :=
  existsb (λ o, match o with Navigate _ => true | _ => false end) out.

(** The end of an event: the page renders again if a state cell changed,
    the calls its children made are answered, and a [navigate] away from
    the route unmounts the page. *)
Definition settle (rerender : bool) (m : Mounted) (e : Browser.env)
    (cs : list QuizTimer.call) (out : list output)
  : State * Browser.env * list output :=
  let '(m1, e1, cs1) :=
    if rerender then render_children m e else (m, e, []) in
  let '(m2, out2) := answer_calls m1 (cs ++ cs1) in
  let out' := out ++ out2 in
  if navigates out' then
    let '(e2, out3) := unmount m2 e1 in (Gone, e2, out' ++ out3)
  else (Live m2, e1, out').

Inductive event :=
| Loaded (qs : list QuizPage.question) (index : option Z) (now : Z)
| LoadFailed (message : string)
| Channel (ev : QuizSocket.inbound)
| CountdownTick
| TimerResyncTick
| SocketResyncTick
| WindowBlur
| WindowFocus
| User (ev : QuizPage.event)
| Unmount.

(** Whether an inbound event that was handled makes the page render:
    [setQuizState] always stores a new object; the other setters only
    cause a render when the value changes. *)
Definition channel_rerenders (ev : QuizSocket.inbound) (k k' : QuizSocket.State)
  : bool :=
  match ev with
  | QuizSocket.QuizJoined _ | QuizSocket.TimeSync _
  | QuizSocket.QuestionChanged _ | QuizSocket.QuizCompleted => true
  | QuizSocket.AnswerSubmitted => false
  | QuizSocket.Connect | QuizSocket.Disconnect
  | QuizSocket.ConnectError _ | QuizSocket.Error _ =>
      negb (bool_decide (QuizSocket.isConnected k = QuizSocket.isConnected k'
                         ∧ QuizSocket.error k = QuizSocket.error k'))
  | QuizSocket.UserJoined | QuizSocket.UserLeft =>
      negb (QuizSocket.activeUsers k =? QuizSocket.activeUsers k')
  end.

(** Whether a user event makes the page render. *)
Definition user_rerenders (ev : QuizPage.event) (p p' : QuizPage.State)
    (calls : list QuizPage.call) : bool :=
  match ev with
  | QuizPage.AnswerSelect _ _ => negb (bool_decide (calls = []))
  | QuizPage.Next _ | QuizPage.Previous _ | QuizPage.GoTo _ _ =>
      negb (QuizPage.currentQuestionIndex p =? QuizPage.currentQuestionIndex p')
  | QuizPage.Finish => false
  | QuizPage.ToggleSecurity => true
  end.

Definition step_live (ev : event) (m : Mounted) (e : Browser.env)
  : State * Browser.env * list output :=
  match ev with
  | Loaded qs index now =>
      if QuizPage.loading (page m)
      then settle true (set_page (QuizPage.loaded qs index now (page m)) m) e [] []
      else (Live m, e, [])
  | LoadFailed message =>
      if QuizPage.loading (page m)
      then settle true (set_page (QuizPage.load_failed message (page m)) m) e [] []
      else (Live m, e, [])
  | Channel cev =>
      match QuizSocket.registered (QuizSocket.event_name cev) (sock m) e with
      | O => (Live m, e, [])
      | S _ =>
          let '(k, e1, out) := QuizSocket.receive cev (sock m) e in
          settle (channel_rerenders cev (sock m) k) (set_sock k m) e1 [] out
      end
  | CountdownTick =>
      match timer m with
      | Some t =>
          let '(t', e1, cs) := QuizTimer.tick t e in
          settle false (mkMounted (page m) (sock m) (wrapper m) (Some t')) e1 cs []
      | None => (Live m, e, [])
      end
  | TimerResyncTick =>
      match timer m with
      | Some t =>
          let '(t', e1, cs) := QuizTimer.resync_tick t e in
          settle false (mkMounted (page m) (sock m) (wrapper m) (Some t')) e1 cs []
      | None => (Live m, e, [])
      end
  | SocketResyncTick =>
      settle false m e [] (QuizSocket.resync_tick (sock m) e)
  | WindowBlur =>
      match wrapper m with
      | Some w =>
          let '(w', out) := SecurityWrapper.blur w e in
          settle false (mkMounted (page m) (sock m) (Some w') (timer m)) e [] out
      | None => (Live m, e, [])
      end
  | WindowFocus =>
      match wrapper m with
      | Some w =>
          let '(w', out) := SecurityWrapper.focus w e in
          settle false (mkMounted (page m) (sock m) (Some w') (timer m)) e [] out
      | None => (Live m, e, [])
      end
  | User uev =>
      if QuizPage.shows_quiz (page m) then
        let '(p, calls) := QuizPage.step uev (page m) in
        settle (user_rerenders uev (page m) p calls) (set_page p m) e []
               (flat_map (perform (sock m)) calls)
      else (Live m, e, [])
  | Unmount =>
      let '(e1, out) := unmount m e in (Gone, e1, out)
  end.

Definition step (ev : event) (s : State) (e : Browser.env)
  : State * Browser.env * list output :=
  match s with
  | Live m => step_live ev m e
  | Gone => (Gone, e, [])
  end.

Fixpoint run (evs : list event) (s : State) (e : Browser.env)
  : State * Browser.env * list output :=
  match evs with
  | [] => (s, e, [])
  | ev :: evs' =>
      let '(s1, e1, o1) := step ev s e in
      let '(s2, e2, o2) := run evs' s1 e1 in
      (s2, e2, o1 ++ o2)
  end.

(** Mounting the page with the route parameter [sess] ([undefined] when
    the route that rendered the page has no parameter of that name), the
    credential [tok] and a browser that holds nothing yet. *)
Definition mount (tok : option string) (sess : option string) (now : Z)
  : State * Browser.env * list output :=
  let '(k, e, out) := QuizSocket.mount tok sess Browser.empty in
  (Live (mkMounted (QuizPage.initial sess now) k None None), e, out).

(** A whole session: mount, then the events. *)
Definition session (tok : option string) (sess : option string) (now : Z)
    (evs : list event) : State * Browser.env * list output :=
  let '(s0, e0, o0) := mount tok sess now in
  let '(s1, e1, o1) := run evs s0 e0 in
  (s1, e1, o0 ++ o1).

End Session.

(** ** The route guards (App.jsx) *)

Module App.

(** The user object of the auth context, as far as the guards read it;
    [role] is [undefined] when the object has none. *)
Record user := mkUser { role : option string }.

(** What a guard renders. *)
Inductive rendered :=
| LoadingSpinner
| NavigateTo (to : string)    (* <Navigate to=... replace /> *)
| Children.

(** [ProtectedRoute] (lines 23-39). *)
Definition ProtectedRoute (adminOnly : bool) (u : option user) (loading : bool)
  : rendered :=
  if loading then LoadingSpinner
  else match u with
       | None => NavigateTo "/login"
       | Some usr =>
           if adminOnly && negb (bool_decide (role usr = Some "admin"%string))
           then NavigateTo "/dashboard"
           else Children
       end.

(** [PublicRoute] (lines 42-54). *)
Definition PublicRoute (u : option user) (loading : bool) : rendered :=
  if loading then LoadingSpinner
  else match u with
       | Some _ => NavigateTo "/dashboard"
       | None => Children
       end.

(** The element of a route: a page inside one of the guards, or the
    redirection of the default routes. *)
Inductive element :=
| Public
| Protected (adminOnly : bool)
| Default.

(** The route table (lines 65-112): path pattern and element. *)
Definition routes : list (string * element) :=
  [("/login", Public);
   ("/register", Public);
   ("/dashboard", Protected false);
   ("/quiz/:quizId", Protected false);
   ("/result/:sessionToken", Protected false);
   ("/admin", Protected true);
   ("/admin/quizzes", Protected true);
   ("/admin/users", Protected true);
   ("/", Default);
   ("*", Default)]%string.

Definition render_element (el : element) (u : option user) (loading : bool)
  : rendered :=
  match el with
  | Public => PublicRoute u loading
  | Protected adminOnly => ProtectedRoute adminOnly u loading
  | Default => NavigateTo "/dashboard"
  end.

(** The element of the route whose pattern is literally [path]: this is
    the route that a path without parameters, such as the target of a
    redirection, is matched to. *)
Definition route_of (path : string) : option element :=
  snd <$> List.find (λ r, String.eqb (fst r) path) routes.

(** Rendering the element of a route and following the redirections, at
    most [fuel] of them: the element that is finally shown. *)
Fixpoint follow (fuel : nat) (el : element) (u : option user) (loading : bool)
  : option element :=
  match render_element el u loading with
  | NavigateTo to =>
      match fuel with
      | O => None
      | S fuel' =>
          match route_of to with
          | Some el' => follow fuel' el' u loading
          | None => None
          end
      end
  | LoadingSpinner | Children => Some el
  end.

End App.

(** ** The request of [apiCall] (hooks/useAuth.jsx) *)

Module Auth.

(** A property value of the [options] object: a string, or an object
    whose properties are strings, such as [headers]. *)
Inductive value :=
| Str (s : string)
| Obj (props : gmap string string).

(** The properties that spreading a value copies: those of an object, the
    characters of a string under their indices, nothing for [undefined]. *)
Definition own_properties (v : option value) : gmap string string :=
  match v with
  | Some (Obj props) => props
  | Some (Str s) =>
      list_to_map (imap (λ i c, (JS.toString (Z.of_nat i), String c EmptyString))
                        (list_ascii_of_string s))
  | None => ∅
  end.

Definition API_BASE_URL : string := "http://localhost:5001/api".

Record request := mkRequest {
  url : string;
  config : gmap string value
}.

(** The arguments of [fetch] that [apiCall] builds (lines 14-22).  In an
    object literal a later property replaces an earlier one of the same
    name, so that in a union the later spread stands on the left. *)
Definition apiCall_request (token : option string) (endpoint : string)
    (options : gmap string value) : request :=
  let authorization : gmap string string :=
    if JS.truthy_string token
    then {[ "Authorization"%string := ("Bearer " +:+ default "" token)%string ]}
    else ∅ in
  let headers : gmap string string :=
    own_properties (options !! "headers"%string) ∪
    (authorization ∪ {[ "Content-Type"%string := "application/json"%string ]}) in
  mkRequest (API_BASE_URL +:+ endpoint)
            (options ∪ {[ "headers"%string := Obj headers ]}).

End Auth.

(** ** Predicates used to state the properties *)

Definition index_in_range (s : QuizPage.State) : Prop :=
  0 <= QuizPage.currentQuestionIndex s
     < Z.of_nat (length (QuizPage.questions s)).

Definition joined_in_range (q : QuizSocket.QuizState) : Prop :=
  QuizSocket.isJoined q = true →
  0 <= QuizSocket.currentQuestionIndex q < QuizSocket.totalQuestions q.

(** An event that delivers a remaining time. *)
Definition delivers_time (ev : Session.event) : Prop :=
  match ev with
  | Session.Channel (QuizSocket.QuizJoined _)
  | Session.Channel (QuizSocket.TimeSync _) => True
  | _ => False
  end.

(** The remaining time the synchronizer holds, while the page is mounted. *)
Definition synchronizer_time (s : Session.State) : option (option Z) :=
  match s with
  | Session.Live m =>
      Some (QuizSocket.timeRemaining (QuizSocket.quizState (Session.sock m)))
  | Session.Gone => None
  end.

(** *** Who holds which browser resource *)

(** For every [setInterval] call site, the interval that the clean-up of
    an effect has yet to clear. *)
Abbreviation slots := (Browser.interval_site → option nat).

(** The intervals of the browser are exactly the ones the effects hold:
    every active interval is held by the effect of its call site, and every
    held interval is active.  Identities are unique and below [fresh]. *)
Record intervals_ok (slot : slots) (e : Browser.env) : Prop := mkIntervalsOk {
  io_fresh : ∀ i, i ∈ Browser.intervals e → (Browser.i_id i < Browser.fresh e)%nat;
  io_nodup : NoDup (Browser.i_id <$> Browser.intervals e);
  io_owned : ∀ i, i ∈ Browser.intervals e →
                  slot (Browser.i_site i) = Some (Browser.i_id i);
  io_held : ∀ k id, slot k = Some id →
                    ∃ d, Browser.Interval id k d ∈ Browser.intervals e
}.

(** An operation that leaves the intervals alone. *)
Definition same_intervals (e e' : Browser.env) : Prop :=
  Browser.intervals e' = Browser.intervals e ∧
  (Browser.fresh e <= Browser.fresh e')%nat.

(** An operation that only touches the intervals. *)
Definition only_intervals (e e' : Browser.env) : Prop :=
  Browser.listeners e' = Browser.listeners e ∧
  Browser.head_nodes e' = Browser.head_nodes e ∧
  Browser.connections e' = Browser.connections e ∧
  (Browser.fresh e <= Browser.fresh e')%nat.

(** The intervals the timer holds, over the ones [frame] says others hold. *)
Definition timer_slots (cd rs : option nat) (frame : slots) : slots :=
  λ k, match k with
       | Browser.CountdownTick => cd
       | Browser.TimerResync => rs
       | Browser.SocketResync => frame Browser.SocketResync
       end.

Definition no_slots : slots := λ _, None.

(** The timer holds what the browser has of its two intervals, and its
    countdown interval exists exactly while the remaining time is
    positive. *)
Definition timer_ok (t : QuizTimer.State) (frame : slots) (e : Browser.env) : Prop :=
  intervals_ok (timer_slots (QuizTimer.countdown t) (QuizTimer.resync t) frame) e ∧
  (QuizTimer.countdown t = None ↔ QuizTimer.timeRemaining t <= 0).

(** Removing the first occurrence of each element of [xs]. *)
Definition remove_all {A} `{EqDecision A} (xs l : list A) : list A :=
  foldl (λ acc x, Browser.remove_first x acc) l xs.

(** A list of browser objects is tracked: every object in it was created
    before [fresh], occurs once, and is [allowed] to be there. *)
Record tracked {A} (ident : A → nat) (allowed : A → Prop) (l : list A)
    (fresh : nat) : Prop := mkTracked {
  tr_fresh : ∀ x, x ∈ l → (ident x < fresh)%nat;
  tr_nodup : NoDup l;
  tr_allowed : ∀ x, x ∈ l → allowed x
}.

(** The listeners the clean-ups of SecurityWrapper will remove. *)
Definition guard_listeners (g : SecurityWrapper.guard) : list Browser.listener :=
  [Browser.Listener Browser.Document "contextmenu" (SecurityWrapper.handleContextMenu g);
   Browser.Listener Browser.Document "selectstart" (SecurityWrapper.handleSelectStart g);
   Browser.Listener Browser.Document "dragstart" (SecurityWrapper.handleDragStart g);
   Browser.Listener Browser.Document "keydown" (SecurityWrapper.handleKeyDown g);
   Browser.Listener Browser.Document "keyup" (SecurityWrapper.handleKeyUp g)].

Definition monitor_listeners (m : SecurityWrapper.monitor) : list Browser.listener :=
  [Browser.Listener Browser.Window "blur" (SecurityWrapper.handleBlur m);
   Browser.Listener Browser.Window "focus" (SecurityWrapper.handleFocus m)].

Definition wrapper_listeners (w : option SecurityWrapper.State)
  : list Browser.listener :=
  match w with
  | Some s =>
      from_option guard_listeners [] (SecurityWrapper.guard_effect s) ++
      from_option monitor_listeners [] (SecurityWrapper.blur_effect s)
  | None => []
  end.

Definition wrapper_nodes (w : option SecurityWrapper.State) : list nat :=
  match w with
  | Some s => from_option (λ g, [SecurityWrapper.style g]) []
                          (SecurityWrapper.guard_effect s)
  | None => []
  end.

(** The handlers the clean-up of the joining effect will remove. *)
Definition joining_listeners (sock : nat) (j : QuizSocket.joining)
  : list Browser.listener :=
  [Browser.Listener (Browser.Socket sock) "quiz_joined" (QuizSocket.hQuizJoined j);
   Browser.Listener (Browser.Socket sock) "time_sync" (QuizSocket.hTimeSync j);
   Browser.Listener (Browser.Socket sock) "question_changed" (QuizSocket.hQuestionChanged j);
   Browser.Listener (Browser.Socket sock) "answer_submitted" (QuizSocket.hAnswerSubmitted j);
   Browser.Listener (Browser.Socket sock) "quiz_completed" (QuizSocket.hQuizCompleted j);
   Browser.Listener (Browser.Socket sock) "user_joined" (QuizSocket.hUserJoined j);
   Browser.Listener (Browser.Socket sock) "user_left" (QuizSocket.hUserLeft j)].

Definition socket_listeners (k : QuizSocket.State) : list Browser.listener :=
  match QuizSocket.socketRef k, QuizSocket.join_effect k with
  | Some sock, Some j => joining_listeners sock j
  | _, _ => []
  end.

(** The four handlers useSocket registers on its socket (lines 29-49).
    No clean-up removes them. *)
Definition connection_handler (l : Browser.listener) : Prop :=
  (∃ sock, Browser.l_target l = Browser.Socket sock) ∧
  Browser.l_type l ∈ ["connect"; "disconnect"; "connect_error"; "error"]%string.

(** Every attached listener is a connection handler or one that [owned]
    lists. *)
Definition listeners_ok (owned : list Browser.listener) (e : Browser.env) : Prop :=
  tracked Browser.l_fn (λ l, connection_handler l ∨ l ∈ owned)
          (Browser.listeners e) (Browser.fresh e).

Definition nodes_ok (owned : list nat) (e : Browser.env) : Prop :=
  tracked (λ n, n) (λ n, n ∈ owned) (Browser.head_nodes e) (Browser.fresh e).

(** Every open connection is the one the clean-up of useSocket closes. *)
Definition connections_ok (conn : option nat) (e : Browser.env) : Prop :=
  ∀ c, c ∈ Browser.connections e → conn = Some c.

(** Everything the browser holds is held by a clean-up of the session. *)
Definition env_ok (slot : slots) (ls : list Browser.listener) (ns : list nat)
    (conn : option nat) (e : Browser.env) : Prop :=
  intervals_ok slot e ∧ listeners_ok ls e ∧ nodes_ok ns e ∧ connections_ok conn e.

Definition session_slots (m : Session.Mounted) : slots :=
  timer_slots (Session.timer m ≫= QuizTimer.countdown)
              (Session.timer m ≫= QuizTimer.resync)
              (λ _, QuizSocket.resync_effect (Session.sock m)).

Definition session_ok (m : Session.Mounted) (e : Browser.env) : Prop :=
  env_ok (session_slots m)
         (wrapper_listeners (Session.wrapper m) ++ socket_listeners (Session.sock m))
         (wrapper_nodes (Session.wrapper m))
         (QuizSocket.connect_effect (Session.sock m)) e ∧
  (∀ t, Session.timer m = Some t →
        QuizTimer.countdown t = None ↔ QuizTimer.timeRemaining t <= 0).

(** What unmounting leaves behind: no interval, no style node, no open
    connection, and no listener other than the connection handlers. *)
Definition released (e : Browser.env) : Prop :=
  Browser.intervals e = [] ∧
  Browser.head_nodes e = [] ∧
  Browser.connections e = [] ∧
  ∀ l, l ∈ Browser.listeners e → connection_handler l.

Definition state_ok (s : Session.State) (e : Browser.env) : Prop :=
  match s with
  | Session.Live m => session_ok m e
  | Session.Gone => released e
  end.

(** *** Sequences of time_sync events and local ticks *)

Definition sync_or_tick (ev : Session.event) : Prop :=
  match ev with
  | Session.CountdownTick
  | Session.Channel (QuizSocket.TimeSync _) => True
  | _ => False
  end.

(** The [time_remaining] of the last [time_sync] event of a sequence. *)
Definition last_sync (evs : list Session.event) : option Z :=
  list.last (omap (λ ev, match ev with
                    | Session.Channel (QuizSocket.TimeSync t) => Some t
                    | _ => None
                    end) evs).

(** What decides whether the hook receives an event: the open connections
    and the handlers registered on sockets. *)
Definition on_socket (l : Browser.listener) : Prop :=
  match Browser.l_target l with
  | Browser.Socket _ => True
  | _ => False
  end.

#[global] Instance on_socket_dec (l : Browser.listener) : Decision (on_socket l).
Proof. unfold on_socket. destruct (Browser.l_target l); apply _. Defined.

Definition socket_view (e : Browser.env) : list nat * list Browser.listener :=
  (Browser.connections e, filter on_socket (Browser.listeners e)).

(** *** Outputs, events and listeners, for the further properties *)

(** An output that is a console message. *)
Definition console (o : output) : Prop :=
  match o with
  | TabSwitchDetected _ _ | MaxTabSwitchesExceeded | TabFocusRegained => True
  | Emit _ _ _ | Navigate _ => False
  end.

(** The channel events that a list of outputs sends, in order. *)
Definition emitted (out : list output) : list string :=
  omap (λ o, match o with Emit _ ev _ => Some ev | _ => None end) out.

(** The channel event that answering a call of the timer can send. *)
Definition call_event (c : QuizTimer.call) : string :=
  match c with
  | QuizTimer.CallOnTimeUp => "finish_quiz"
  | QuizTimer.CallOnTimeSync => "request_time_sync"
  end.

(** The channel events that handling an event of the session can send. *)
Definition may_send (ev : Session.event) : list string :=
  match ev with
  | Session.Loaded _ _ _ | Session.LoadFailed _ | Session.CountdownTick =>
      ["finish_quiz"; "leave_quiz"]
  | Session.Channel _ => ["leave_quiz"; "join_quiz"; "finish_quiz"]
  | Session.TimerResyncTick | Session.SocketResyncTick => ["request_time_sync"]
  | Session.WindowBlur | Session.WindowFocus => []
  | Session.User (QuizPage.AnswerSelect _ _) =>
      ["submit_answer"; "finish_quiz"; "leave_quiz"]
  | Session.User (QuizPage.Next _) | Session.User (QuizPage.Previous _) =>
      ["next_question"; "finish_quiz"; "leave_quiz"]
  | Session.User (QuizPage.GoTo _ _) | Session.User QuizPage.Finish
  | Session.User QuizPage.ToggleSecurity => ["finish_quiz"; "leave_quiz"]
  | Session.Unmount => ["leave_quiz"]
  end.

(** The events for which the joining effect of useQuizSocket registers a
    handler (lines 154-160). *)
Definition quiz_events : list string :=
  ["quiz_joined"; "time_sync"; "question_changed"; "answer_submitted";
   "quiz_completed"; "user_joined"; "user_left"].

(** An inbound event of the connection itself, handled by useSocket. *)
Definition connection_event (ev : QuizSocket.inbound) : Prop :=
  match ev with
  | QuizSocket.Connect | QuizSocket.Disconnect
  | QuizSocket.ConnectError _ | QuizSocket.Error _ => True
  | _ => False
  end.

(** An output that is not a channel event. *)
Definition not_emit (o : output) : Prop :=
  match o with Emit _ _ _ => False | _ => True end.

(** An output that is not the channel event [name]. *)
Definition not_event (name : string) (o : output) : Prop :=
  match o with Emit _ ev _ => ev ≠ name | _ => True end.

(** An output that, if it is a channel event, goes to the socket that
    [socketRef] refers to. *)
Definition to_socket (k : QuizSocket.State) (o : output) : Prop :=
  match o with
  | Emit sock _ _ => QuizSocket.socketRef k = Some sock
  | _ => True
  end.

(** An event that does not take the connection down. *)
Definition stays_connected (ev : Session.event) : Prop :=
  match ev with
  | Session.Channel QuizSocket.Disconnect
  | Session.Channel (QuizSocket.ConnectError _) => False
  | _ => True
  end.

(** The intervals the browser holds that were created at [site]. *)
Definition intervals_of (site : Browser.interval_site) (e : Browser.env)
  : list Browser.interval :=
  filter (λ i, Browser.i_site i = site) (Browser.intervals e).

(** A string in which a colon occurs. *)
Fixpoint has_colon (s : string) : Prop :=
  match s with
  | EmptyString => False
  | String c s' => c = ":"%char ∨ has_colon s'
  end.

(** The listeners of the current run of the first effect are attached. *)
Definition guard_attached (s : SecurityWrapper.State) (e : Browser.env) : Prop :=
  match SecurityWrapper.guard_effect s with
  | Some g =>
      SecurityWrapper.enabled s = true ∧
      ∀ ev, Browser.Listener Browser.Document (SecurityWrapper.dom_type ev)
              (SecurityWrapper.guard_handler g ev) ∈ Browser.listeners e
  | None => SecurityWrapper.enabled s = false
  end.

(** *** The children as the page wires them *)

(** While QuizTimer is mounted the page shows the quiz, the props of the
    timer's last render are the ones of lines 236-242 (the synchronizer's
    remaining time, and [handleTimeUp] for [onTimeUp]), and SecurityWrapper
    is mounted and was last rendered with the page's [securityEnabled]. *)
Definition wired (m : Session.Mounted) : Prop :=
  ∀ t, Session.timer m = Some t →
    QuizPage.shows_quiz (Session.page m) = true ∧
    QuizTimer.initialTimeRemaining (QuizTimer.props t)
      = QuizSocket.timeRemaining (QuizSocket.quizState (Session.sock m)) ∧
    QuizTimer.supplied (QuizTimer.onTimeUp (QuizTimer.props t)) = true ∧
    ∃ w, Session.wrapper m = Some w ∧
         SecurityWrapper.enabled w = QuizPage.securityEnabled (Session.page m).

(** The hook's [socket] is the one of its last render: once an inbound
    event has made the hook render, it is [socketRef.current]; before
    that, the joining effect has not run. *)
Definition socket_read (k : QuizSocket.State) : Prop :=
  QuizSocket.join_effect k = None ∨ QuizSocket.socket k = QuizSocket.socketRef k.

(** *** The time the timer shows *)

(** The time QuizTimer shows after an event, from the time [shown] it
    showed before and the time [held] the synchronizer held before: a
    countdown tick takes one off a positive time, and a [time_sync]
    replaces the time only when its value is not the one the synchronizer
    already held. *)
Definition shown_step (ev : Session.event) (held : option Z) (shown : Z) : Z :=
  match ev with
  | Session.Channel (QuizSocket.TimeSync v) =>
      if decide (held = Some v) then shown else v
  | Session.CountdownTick => if 0 <? shown then shown - 1 else shown
  | _ => shown
  end.

(** The time the synchronizer holds after an event. *)
Definition held_step (ev : Session.event) (held : option Z) : option Z :=
  match ev with
  | Session.Channel (QuizSocket.TimeSync v) => Some v
  | _ => held
  end.

Fixpoint shown_after (evs : list Session.event) (held : option Z) (shown : Z) : Z :=
  match evs with
  | [] => shown
  | ev :: evs' => shown_after evs' (held_step ev held) (shown_step ev held shown)
  end.

(** * Properties *)

(** ** Rendering the remaining time *)

Lemma two_digitsb_sound s v : two_digitsb s v = true → two_digits s v.
Proof.
  unfold two_digitsb, two_digits.
  destruct s as [|c1 [|c2 [|]]]; try discriminate.
  destruct (digit_value c1) as [d1|] eqn:E1; try discriminate.
  destruct (digit_value c2) as [d2|] eqn:E2; try discriminate.
  intros H%Z.eqb_eq. by exists c1, c2, d1, d2.
Qed.

Lemma all_below_spec n p v :
  all_below n p = true → 0 <= v < Z.of_nat n → p v = true.
Proof.
  unfold all_below. rewrite forallb_forall. intros H Hv.
  specialize (H (Z.to_nat v)).
  rewrite Z2Nat.id in H by lia. apply H.
  apply in_seq. lia.
Qed.

Lemma pad2_two_digits v :
  0 <= v < 60 → two_digits (JS.padStart 2 "0" (JS.toString v)) v.
Proof.
  intros Hv. apply two_digitsb_sound.
  apply (all_below_spec 60 (λ v, two_digitsb (JS.padStart 2 "0" (JS.toString v)) v));
    [by vm_compute | lia].
Qed.

(** C8. For every non-negative number of seconds [s], [formatTime] renders
    [s] as H:MM:SS when [s >= 3600] and as M:SS otherwise, the minute and
    second fields being zero-padded to two digits; 125 seconds render as
    2:05 and 300 seconds as 5:00. *)
Theorem formatTime_renders (s : Z) :
  0 <= s →
  (3600 <= s → renders_HMMSS (QuizTimer.formatTime s) s) ∧
  (s < 3600 → renders_MSS (QuizTimer.formatTime s) s) ∧
  QuizTimer.formatTime 125 = "2:05"%string ∧
  QuizTimer.formatTime 300 = "5:00"%string.
Proof.
  intros Hs.
  assert (Hrem3600 : JS.rem s 3600 = s mod 3600)
    by (unfold JS.rem; rewrite Z.rem_mod_nonneg; lia).
  assert (Hrem60 : JS.rem s 60 = s mod 60)
    by (unfold JS.rem; rewrite Z.rem_mod_nonneg; lia).
  pose proof (Z.mod_pos_bound s 3600 ltac:(lia)) as Hm3600.
  pose proof (Z.mod_pos_bound s 60 ltac:(lia)) as Hm60.
  pose proof (Z.div_mod s 3600 ltac:(lia)) as Hd3600.
  pose proof (Z.div_mod (s mod 3600) 60 ltac:(lia)) as Hd60.
  assert (Hsec : (s mod 3600) mod 60 = s mod 60).
  { apply Z.mod_mod_divide. by exists 60. }
  assert (Hmin : 0 <= (s mod 3600) / 60 < 60).
  { split; [apply Z.div_pos; lia | apply Z.div_lt_upper_bound; lia]. }
  split; [|split; [|split; reflexivity]].
  - intros Hge. unfold QuizTimer.formatTime, JS.floor_div.
    assert (Hh : 1 <= s / 3600) by (apply Z.div_le_lower_bound; lia).
    destruct (Z.gtb_spec (s / 3600) 0) as [_|]; [|lia].
    rewrite Hrem3600, Hrem60.
    exists (s / 3600), ((s mod 3600) / 60), (s mod 60).
    eexists _, _. split; [reflexivity|].
    repeat split; try lia; try (apply pad2_two_digits; lia).
  - intros Hlt. unfold QuizTimer.formatTime, JS.floor_div.
    assert (Hh : s / 3600 = 0) by (apply Z.div_small; lia).
    rewrite Hh. simpl (0 >? 0).  cbv iota.
    rewrite Hrem3600, Hrem60.
    assert (Hs3600 : s mod 3600 = s) by (apply Z.mod_small; lia).
    exists ((s mod 3600) / 60), (s mod 60). eexists. split; [reflexivity|].
    repeat split; try lia; try (apply pad2_two_digits; lia).
Qed.

Lemma formatTime_renders_witness :
  renders_HMMSS (QuizTimer.formatTime 3725) 3725 ∧
  renders_MSS (QuizTimer.formatTime 125) 125.
Proof.
  split.
  - apply (formatTime_renders 3725); lia.
  - apply (formatTime_renders 125); lia.
Defined.

(** ** The bands of the countdown *)

Lemma tick_active (s : QuizTimer.State) (e : Browser.env) :
  Browser.active Browser.CountdownTick e = true →
  let newTime := JS.max 0 (QuizTimer.timeRemaining s - 1) in
  ∃ e' cs,
    QuizTimer.tick s e =
      (QuizTimer.mkState (QuizTimer.props s) newTime
         (fst (QuizTimer.classify newTime)) (snd (QuizTimer.classify newTime))
         (if QuizTimer.timeRemaining s =? newTime then QuizTimer.countdown s
          else fst (fst (QuizTimer.countdown_effect newTime (QuizTimer.props s)
                           (Browser.clear (QuizTimer.countdown s) e))))
         (QuizTimer.resync s), e', cs).
Proof.
  intros Hact newTime. unfold QuizTimer.tick. rewrite Hact. cbn [negb].
  fold newTime. destruct (QuizTimer.classify newTime) as [w c] eqn:Hc.
  unfold QuizTimer.render, QuizTimer.opt_eqb.
  rewrite !bool_decide_eq_true_2 by done. cbn [negb orb].
  rewrite orb_false_r.
  destruct (QuizTimer.timeRemaining s =? newTime) eqn:Hd; cbn [negb].
  - eexists _, _. reflexivity.
  - destruct (QuizTimer.countdown_effect newTime (QuizTimer.props s)
                (Browser.clear (QuizTimer.countdown s) e)) as [[cd e3] c1] eqn:He.
    eexists _, _. reflexivity.
Qed.

(** C4. The band is a function of the post-decrement value alone and is
    exact at the boundaries: above 60 it is Normal, from 31 to 60 Warning,
    from 0 to 30 Critical (so 61 is Normal, 60 and 31 are Warning, 30 and 0
    are Critical), and a tick that leaves [r] sets the flags of that band. *)
Theorem band_exact_at_boundaries (r : Z) :
  0 <= r →
  (60 < r → QuizTimer.band_at r = QuizTimer.Normal) ∧
  (31 <= r <= 60 → QuizTimer.band_at r = QuizTimer.Warning) ∧
  (r <= 30 → QuizTimer.band_at r = QuizTimer.Critical) ∧
  QuizTimer.band_at 61 = QuizTimer.Normal ∧
  QuizTimer.band_at 60 = QuizTimer.Warning ∧
  QuizTimer.band_at 31 = QuizTimer.Warning ∧
  QuizTimer.band_at 30 = QuizTimer.Critical ∧
  QuizTimer.band_at 0 = QuizTimer.Critical ∧
  (∀ s e,
     Browser.active Browser.CountdownTick e = true →
     JS.max 0 (QuizTimer.timeRemaining s - 1) = r →
     let s' := fst (fst (QuizTimer.tick s e)) in
     QuizTimer.timeRemaining s' = r ∧
     QuizTimer.band_of (QuizTimer.isWarning s') (QuizTimer.isCritical s')
       = QuizTimer.band_at r).
Proof.
  intros Hr. unfold QuizTimer.band_at, QuizTimer.classify, QuizTimer.band_of.
  repeat split; try reflexivity.
  - intros H. destruct (Z.leb_spec r 60); [lia|]. cbn.
    destruct (Z.leb_spec r 30); [lia|]. reflexivity.
  - intros H. destruct (Z.leb_spec r 60); [|lia].
    destruct (Z.gtb_spec r 30); [|lia]. reflexivity.
  - intros H. destruct (Z.leb_spec r 60); [|lia].
    destruct (Z.gtb_spec r 30); [lia|]. cbn.
    destruct (Z.leb_spec r 30); [|lia]. reflexivity.
  - destruct (tick_active s e H) as (e' & cs & ->). cbn. exact H0.
  - destruct (tick_active s e H) as (e' & cs & ->). cbn [fst QuizTimer.isWarning QuizTimer.isCritical].
    rewrite H0. unfold QuizTimer.classify.
    destruct ((r <=? 60) && (r >? 30)); [reflexivity|].
    destruct (r <=? 30); reflexivity.
Qed.

Lemma band_exact_at_boundaries_witness :
  QuizTimer.band_at 45 = QuizTimer.Warning.
Proof.
  apply (band_exact_at_boundaries 45); lia.
Defined.

(** ** The integrity monitor and the security toggle *)

Lemma elem_of_addEventListener t ty fn e l :
  l ∈ Browser.listeners (Browser.addEventListener t ty fn e) ↔
  l ∈ Browser.listeners e ∨ l = Browser.Listener t ty fn.
Proof.
  unfold Browser.addEventListener. case_decide as Hin; cbn.
  - split; [by left|]. intros [H| ->]; done.
  - rewrite elem_of_app, list_elem_of_singleton. done.
Qed.

Lemma blur_setup_attached e :
  let '(m, e') := SecurityWrapper.blur_setup e in
  SecurityWrapper.blurCount m = 0 ∧
  Browser.Listener Browser.Window "blur" (SecurityWrapper.handleBlur m)
    ∈ Browser.listeners e'.
Proof.
  unfold SecurityWrapper.blur_setup. cbn. split; [done|].
  rewrite !elem_of_addEventListener. left. by right.
Qed.

Lemma blur_attached (s : SecurityWrapper.State) e m :
  SecurityWrapper.blur_effect s = Some m →
  Browser.Listener Browser.Window "blur" (SecurityWrapper.handleBlur m)
    ∈ Browser.listeners e →
  SecurityWrapper.blur s e =
    (SecurityWrapper.mkState (SecurityWrapper.enabled s)
       (SecurityWrapper.guard_effect s)
       (Some (SecurityWrapper.mkMonitor (SecurityWrapper.blurCount m + 1)
                (SecurityWrapper.handleBlur m) (SecurityWrapper.handleFocus m))),
     SecurityWrapper.TabSwitchDetected_or_more (SecurityWrapper.blurCount m + 1)).
Proof.
  intros Hm Hin. unfold SecurityWrapper.blur. rewrite Hm.
  rewrite decide_True by done. reflexivity.
Qed.

(** C1 fails on the code: two blurs give count 2, and after disabling and
    enabling again one more blur reports count 1, not 3. *)
Lemma toggle_resets_count_example :
  let '(s, _, _) := SecurityWrapper.session
                      [SecurityWrapper.Blur; SecurityWrapper.Blur] in
  let '(s', _, out) :=
    SecurityWrapper.session
      [SecurityWrapper.Blur; SecurityWrapper.Blur;
       SecurityWrapper.SetEnabled false; SecurityWrapper.SetEnabled true;
       SecurityWrapper.Blur] in
  SecurityWrapper.count s = Some 2 ∧
  SecurityWrapper.count s' = Some 1 ∧
  SecurityWrapper.count s' ≠ Some 3 ∧
  out = [TabSwitchDetected 1 3; TabSwitchDetected 2 3; TabSwitchDetected 1 3].
Proof. vm_compute. repeat split; congruence. Qed.

(** C1, amended. While the monitor stays enabled every window blur
    increments its count by one.  Disabling discards the counter with the
    listeners, and enabling again starts a new counter at 0: whatever had
    been accumulated, the first blur after a disable and re-enable reports
    count 1. *)
Theorem toggle_restarts_count (s : SecurityWrapper.State) (e : Browser.env) :
  SecurityWrapper.enabled s = true →
  (∀ m, SecurityWrapper.blur_effect s = Some m →
        Browser.Listener Browser.Window "blur" (SecurityWrapper.handleBlur m)
          ∈ Browser.listeners e →
        SecurityWrapper.count (fst (SecurityWrapper.blur s e))
          = Some (SecurityWrapper.blurCount m + 1)) ∧
  let '(s1, e1) := SecurityWrapper.render false s e in
  let '(s2, e2) := SecurityWrapper.render true s1 e1 in
  let '(s3, out) := SecurityWrapper.blur s2 e2 in
  SecurityWrapper.count s1 = None ∧
  SecurityWrapper.count s2 = Some 0 ∧
  SecurityWrapper.count s3 = Some 1 ∧
  out = [TabSwitchDetected 1 3].
Proof.
  intros Hen. split.
  { intros m Hm Hin. by rewrite (blur_attached s e m Hm Hin). }
  unfold SecurityWrapper.render at 1. rewrite Hen.
  rewrite bool_decide_eq_false_2 by done.
  cbn [SecurityWrapper.run_effects].
  set (e1 := SecurityWrapper.run_cleanups s e).
  unfold SecurityWrapper.render. cbn [SecurityWrapper.enabled].
  rewrite bool_decide_eq_false_2 by done.
  cbn [SecurityWrapper.run_cleanups SecurityWrapper.guard_effect
         SecurityWrapper.blur_effect SecurityWrapper.run_effects].
  destruct (SecurityWrapper.guard_setup e1) as [g eg].
  pose proof (blur_setup_attached eg) as Hb.
  destruct (SecurityWrapper.blur_setup eg) as [m e2].
  destruct Hb as [Hzero Hin].
  erewrite blur_attached; [|reflexivity|exact Hin].
  cbn. rewrite Hzero. done.
Qed.

Lemma toggle_restarts_count_witness :
  let '(s, e, _) := SecurityWrapper.session
                      [SecurityWrapper.Blur; SecurityWrapper.Blur] in
  let '(s1, e1) := SecurityWrapper.render false s e in
  let '(s2, e2) := SecurityWrapper.render true s1 e1 in
  SecurityWrapper.enabled s = true ∧
  SecurityWrapper.count s = Some 2 ∧
  SecurityWrapper.count (fst (SecurityWrapper.blur s2 e2)) = Some 1.
Proof.
  pose proof (toggle_restarts_count
                (fst (fst (SecurityWrapper.session
                             [SecurityWrapper.Blur; SecurityWrapper.Blur])))
                (snd (fst (SecurityWrapper.session
                             [SecurityWrapper.Blur; SecurityWrapper.Blur])))
                eq_refl) as [_ H].
  vm_compute in H. vm_compute. tauto.
Defined.

(** ** Finishing the quiz *)

Lemma handleFinishQuiz_idle (s : QuizPage.State) :
  QuizPage.isSubmitting s = false →
  ∃ s', QuizPage.handleFinishQuiz s =
          (s', [QuizPage.CallFinishQuiz;
                QuizPage.CallNavigate
                  ("/results/" +:+ JS.template (QuizPage.sessionToken s))]) ∧
        QuizPage.isSubmitting s' = false ∧
        QuizPage.warningCount s' = QuizPage.warningCount s ∧
        QuizPage.answers s' = QuizPage.answers s ∧
        QuizPage.questions s' = QuizPage.questions s ∧
        QuizPage.currentQuestionIndex s' = QuizPage.currentQuestionIndex s.
Proof.
  intros H. unfold QuizPage.handleFinishQuiz. rewrite H.
  eexists. split; [reflexivity|]. by cbn.
Qed.

(** ** The answer record *)






(** ** The question index and the unset time *)

Lemma page_step_in_range (ev : QuizPage.event) (s : QuizPage.State) :
  index_in_range s → index_in_range (fst (QuizPage.step ev s)).
Proof.
  unfold index_in_range. intros H. destruct ev; cbn [QuizPage.step].
  - unfold QuizPage.handleAnswerSelect.
    by destruct (negb _).
  - unfold QuizPage.handleNextQuestion.
    destruct (Z.ltb_spec (QuizPage.currentQuestionIndex s)
                (Z.of_nat (length (QuizPage.questions s)) - 1)); cbn; lia.
  - unfold QuizPage.handlePreviousQuestion.
    destruct (Z.gtb_spec (QuizPage.currentQuestionIndex s) 0); cbn; lia.
  - unfold QuizPage.goTo. destruct (decide _); cbn; lia.
  - unfold QuizPage.handleFinishQuiz.
    by destruct (QuizPage.isSubmitting s).
  - done.
Qed.

Lemma answer_calls_sock (m : Session.Mounted) (cs : list QuizTimer.call) :
  Session.sock (fst (Session.answer_calls m cs)) = Session.sock m.
Proof.
  revert m. induction cs as [|c cs IH]; intros m; [done|].
  cbn [Session.answer_calls].
  destruct (Session.answer_call m c) as [m1 o1] eqn:E1.
  specialize (IH m1). destruct (Session.answer_calls m1 cs) as [m2 o2].
  cbn in *. rewrite IH.
  destruct c; cbn in E1.
  - destruct (QuizPage.handleTimeUp (Session.page m)).
    by injection E1 as <- _.
  - by injection E1 as <- _.
Qed.

Lemma render_children_sock (m : Session.Mounted) (e : Browser.env) :
  Session.sock (fst (fst (Session.render_children m e))) = Session.sock m.
Proof.
  unfold Session.render_children.
  destruct (QuizPage.shows_quiz (Session.page m)); [|done].
  destruct (match Session.wrapper m with
            | Some w => _ | None => _ end) as [w e1].
  cbn.
  by destruct (match Session.timer m with
               | Some t => _ | None => _ end) as [[t e4] calls].
Qed.

Lemma settle_sock (r : bool) (m : Session.Mounted) (e : Browser.env)
    (cs : list QuizTimer.call) (out : list output) :
  ∀ m', fst (fst (Session.settle r m e cs out)) = Session.Live m' →
        Session.sock m' = Session.sock m.
Proof.
  intros m'. unfold Session.settle.
  pose proof (render_children_sock m e) as Hr.
  destruct (if r then Session.render_children m e else (m, e, []))
    as [[m1 e1] cs1] eqn:E1.
  assert (H1 : Session.sock m1 = Session.sock m).
  { destruct r; [by rewrite E1 in Hr|]. by injection E1 as <- _ _. }
  pose proof (answer_calls_sock m1 (cs ++ cs1)) as Ha.
  destruct (Session.answer_calls m1 (cs ++ cs1)) as [m2 out2].
  destruct (Session.navigates (out ++ out2)).
  - by destruct (Session.unmount m2 e1).
  - cbn. intros [= <-]. cbn in Ha. congruence.
Qed.

Lemma socket_render_cells (old s : QuizSocket.State) (e : Browser.env) :
  let s' := fst (fst (QuizSocket.render old s e)) in
  QuizSocket.quizState s' = QuizSocket.quizState s ∧
  QuizSocket.isConnected s' = QuizSocket.isConnected s ∧
  QuizSocket.socketRef s' = QuizSocket.socketRef s ∧
  QuizSocket.socket s' = QuizSocket.socketRef s.
Proof.
  unfold QuizSocket.render. by repeat case_match.
Qed.

Lemma handle_iter_time (ev : QuizSocket.inbound) (n : nat) (s : QuizSocket.State) :
  ¬ delivers_time (Session.Channel ev) →
  QuizSocket.timeRemaining (QuizSocket.quizState (Nat.iter n (QuizSocket.handle ev) s))
  = QuizSocket.timeRemaining (QuizSocket.quizState s).
Proof.
  intros Hev. induction n as [|n IH]; [done|].
  cbn [Nat.iter]. rewrite <- IH.
  destruct ev; cbn in *; done.
Qed.

Lemma step_keeps_time_unset (ev : Session.event) (s : Session.State)
    (e : Browser.env) :
  ¬ delivers_time ev →
  synchronizer_time s = Some None ∨ synchronizer_time s = None →
  let s' := fst (fst (Session.step ev s e)) in
  synchronizer_time s' = Some None ∨ synchronizer_time s' = None.
Proof.
  intros Hev Hs. destruct s as [m|]; [|by right].
  destruct Hs as [Hs|Hs]; [|done]. cbn in Hs. injection Hs as Hs.
  assert (Hsettle : ∀ r m0 e0 cs out,
             Session.sock m0 = Session.sock m →
             let s' := fst (fst (Session.settle r m0 e0 cs out)) in
             synchronizer_time s' = Some None ∨ synchronizer_time s' = None).
  { intros r m0 e0 cs out Hm0.
    pose proof (settle_sock r m0 e0 cs out) as H.
    destruct (fst (fst (Session.settle r m0 e0 cs out))) as [m'|]; [|by right].
    left. cbn. rewrite (H m' eq_refl), Hm0, Hs. done. }
  cbn [Session.step]. destruct ev; cbn [Session.step_live].
  - destruct (QuizPage.loading _); [by apply Hsettle|]. left. cbn. by rewrite Hs.
  - destruct (QuizPage.loading _); [by apply Hsettle|]. left. cbn. by rewrite Hs.
  - destruct (QuizSocket.registered _ _ _) as [|n] eqn:Hreg.
    { left. cbn. by rewrite Hs. }
    unfold QuizSocket.receive. rewrite Hreg.
    pose proof (socket_render_cells (Session.sock m)
                  (Nat.iter (S n) (QuizSocket.handle ev) (Session.sock m)) e) as Hc.
    destruct (QuizSocket.render _ _ e) as [[k e1] out].
    destruct Hc as (Hq & _).
    pose proof (settle_sock (Session.channel_rerenders ev (Session.sock m) k)
                  (Session.set_sock k m) e1 [] out) as H.
    destruct (fst (fst (Session.settle _ (Session.set_sock k m) e1 [] out)))
      as [m'|]; [|by right].
    left. cbn. rewrite (H m' eq_refl). cbn [Session.set_sock Session.sock].
    cbn [fst] in Hq. rewrite Hq, handle_iter_time by done. by rewrite Hs.
  - destruct (Session.timer m) as [t|]; [|left; cbn; by rewrite Hs].
    destruct (QuizTimer.tick t e) as [[t' e1] cs]. by apply Hsettle.
  - destruct (Session.timer m) as [t|]; [|left; cbn; by rewrite Hs].
    destruct (QuizTimer.resync_tick t e) as [[t' e1] cs]. by apply Hsettle.
  - by apply Hsettle.
  - destruct (Session.wrapper m) as [w|]; [|left; cbn; by rewrite Hs].
    destruct (SecurityWrapper.blur w e) as [w' out]. by apply Hsettle.
  - destruct (Session.wrapper m) as [w|]; [|left; cbn; by rewrite Hs].
    destruct (SecurityWrapper.focus w e) as [w' out]. by apply Hsettle.
  - destruct (QuizPage.shows_quiz _); [|left; cbn; by rewrite Hs].
    destruct (QuizPage.step ev (Session.page m)) as [p calls]. by apply Hsettle.
  - destruct (Session.unmount m e). by right.
Qed.

Lemma run_keeps_time_unset (evs : list Session.event) (s : Session.State)
    (e : Browser.env) :
  Forall (λ ev, ¬ delivers_time ev) evs →
  synchronizer_time s = Some None ∨ synchronizer_time s = None →
  let s' := fst (fst (Session.run evs s e)) in
  synchronizer_time s' = Some None ∨ synchronizer_time s' = None.
Proof.
  revert s e. induction evs as [|ev evs IH]; intros s e Hevs Hs; [done|].
  apply list.Forall_cons in Hevs as [Hev Hevs].
  cbn [Session.run].
  pose proof (step_keeps_time_unset ev s e Hev Hs) as H1.
  destruct (Session.step ev s e) as [[s1 e1] o1].
  specialize (IH s1 e1 Hevs H1).
  by destruct (Session.run evs s1 e1) as [[s2 e2] o2].
Qed.

(** C7 fails on the code: a [question_changed] event with an index outside
    the range is stored as it is, also once joined; and a [time_sync] that
    arrives before any [quiz_joined] sets the remaining time. *)
Lemma question_changed_unchecked_example :
  let '(s, _, _) :=
    Session.session (Some "tok"%string) (Some "sess"%string) 0
      [Session.Channel QuizSocket.Connect;
       Session.Channel (QuizSocket.QuizJoined (QuizSocket.mkQuizJoined 125 0 2));
       Session.Channel (QuizSocket.QuestionChanged 5)] in
  let '(s', _, _) :=
    Session.session (Some "tok"%string) (Some "sess"%string) 0
      [Session.Channel QuizSocket.Connect;
       Session.Channel (QuizSocket.TimeSync 300)] in
  (∃ m, s = Session.Live m ∧
        QuizSocket.isJoined (QuizSocket.quizState (Session.sock m)) = true ∧
        QuizSocket.currentQuestionIndex (QuizSocket.quizState (Session.sock m)) = 5 ∧
        QuizSocket.totalQuestions (QuizSocket.quizState (Session.sock m)) = 2 ∧
        ¬ joined_in_range (QuizSocket.quizState (Session.sock m))) ∧
  (∃ m', s' = Session.Live m' ∧
         QuizSocket.isJoined (QuizSocket.quizState (Session.sock m')) = false ∧
         synchronizer_time s' = Some (Some 300)).
Proof.
  vm_compute. split.
  - eexists. split; [reflexivity|]. cbn. split_and!; try reflexivity.
    intros H. specialize (H eq_refl). destruct H as [_ H]. discriminate H.
  - eexists. split; [reflexivity|]. cbn. by split.
Qed.

(** C7, amended. Local next, previous and direct navigation (and every
    other user event) keep the page's index within the loaded questions.
    An inbound [question_changed] stores the received index unchecked, so
    afterwards the synchronizer's index is in range exactly when the
    received index is.  The synchronizer's remaining time is unset at mount
    and stays unset as long as neither [quiz_joined] nor [time_sync] is
    delivered. *)
Theorem index_and_time_invariants :
  (∀ ev s, index_in_range s → index_in_range (fst (QuizPage.step ev s))) ∧
  (∀ i q,
     let q' := QuizSocket.handleQuestionChanged i q in
     QuizSocket.currentQuestionIndex q' = i ∧
     QuizSocket.totalQuestions q' = QuizSocket.totalQuestions q ∧
     QuizSocket.isJoined q' = QuizSocket.isJoined q ∧
     (QuizSocket.isJoined q = true →
      joined_in_range q' ↔ 0 <= i < QuizSocket.totalQuestions q)) ∧
  (∀ tok sess now evs,
     Forall (λ ev, ¬ delivers_time ev) evs →
     let s := fst (fst (Session.session tok sess now evs)) in
     synchronizer_time s = Some None ∨ synchronizer_time s = None).
Proof.
  split_and!.
  - apply page_step_in_range.
  - intros i q. cbn. split_and!; try done.
    intros Hj. unfold joined_in_range. cbn. rewrite Hj. naive_solver.
  - intros tok sess now evs Hevs. unfold Session.session, Session.mount.
    destruct (QuizSocket.mount tok sess Browser.empty) as [[k e] out] eqn:Em.
    assert (Hk : QuizSocket.timeRemaining (QuizSocket.quizState k) = None).
    { unfold QuizSocket.mount in Em.
      repeat case_match; simplify_eq/=; done. }
    pose proof (run_keeps_time_unset evs
                  (Session.Live (Session.mkMounted (QuizPage.initial sess now) k None None))
                  e Hevs) as H.
    destruct (Session.run evs _ e) as [[s1 e1] o1].
    apply H. left. cbn. by rewrite Hk.
Qed.

Lemma index_and_time_invariants_witness :
  let s := QuizPage.loaded [QuizPage.mkQuestion (Some "q1"%string);
                            QuizPage.mkQuestion (Some "q2"%string)]
                           (Some 0) 0 (QuizPage.initial (Some "s"%string) 0) in
  index_in_range s ∧
  index_in_range (fst (QuizPage.step (QuizPage.Next 5) s)) ∧
  (joined_in_range
     (QuizSocket.handleQuestionChanged 1
        (QuizSocket.mkQuizState (Some 125) 0 2 true))) ∧
  synchronizer_time
    (fst (fst (Session.session (Some "tok"%string) (Some "s"%string) 0
                 [Session.Channel QuizSocket.Connect;
                  Session.Channel (QuizSocket.QuestionChanged 1)])))
  = Some None.
Proof.
  destruct index_and_time_invariants as (Hnav & Hqc & Htime).
  assert (H0 : index_in_range
                 (QuizPage.loaded [QuizPage.mkQuestion (Some "q1"%string);
                                   QuizPage.mkQuestion (Some "q2"%string)]
                                  (Some 0) 0 (QuizPage.initial (Some "s"%string) 0))).
  { unfold index_in_range. cbn. lia. }
  split_and!.
  - exact H0.
  - apply Hnav, H0.
  - apply (Hqc 1 (QuizSocket.mkQuizState (Some 125) 0 2 true)); [reflexivity|].
    cbn. lia.
  - destruct (Htime (Some "tok"%string) (Some "s"%string) 0
                [Session.Channel QuizSocket.Connect;
                 Session.Channel (QuizSocket.QuestionChanged 1)]) as [H|H].
    + repeat constructor; cbn; tauto.
    + exact H.
    + vm_compute in H. discriminate H.
Defined.

(** ** Intervals: held by an effect if and only if active *)

Lemma intervals_ok_ext (slot slot' : slots) (e : Browser.env) :
  (∀ k, slot k = slot' k) → intervals_ok slot e → intervals_ok slot' e.
Proof.
  intros Heq [H1 H2 H3 H4]. split; [done|done| |].
  - intros i Hi. rewrite <- Heq. by apply H3.
  - intros k id Hk. apply H4. by rewrite Heq.
Qed.

Lemma intervals_ok_same (slot : slots) (e e' : Browser.env) :
  same_intervals e e' → intervals_ok slot e → intervals_ok slot e'.
Proof.
  intros [Hi Hf] [H1 H2 H3 H4]. split; rewrite ?Hi; try done.
  intros i Hin. specialize (H1 i Hin). lia.
Qed.

Lemma intervals_ok_unique (slot : slots) (e : Browser.env) i j :
  intervals_ok slot e →
  i ∈ Browser.intervals e → j ∈ Browser.intervals e →
  Browser.i_id i = Browser.i_id j → i = j.
Proof.
  intros [_ Hnd _ _] Hi Hj Hid.
  apply list_elem_of_lookup in Hi as [a Ha].
  apply list_elem_of_lookup in Hj as [b Hb].
  assert (a = b).
  { eapply NoDup_lookup; [exact Hnd| |].
    - rewrite list_lookup_fmap, Ha. reflexivity.
    - rewrite list_lookup_fmap, Hb. cbn. by rewrite Hid. }
  subst b. congruence.
Qed.

Lemma intervals_ok_clear (slot : slots) (k : Browser.interval_site)
    (e : Browser.env) :
  intervals_ok slot e →
  intervals_ok (<[k := @None nat]> slot) (Browser.clear (slot k) e) ∧
  only_intervals e (Browser.clear (slot k) e).
Proof.
  intros Hok. destruct (slot k) as [id|] eqn:Hk; cbn; split;
    try done.
  - pose proof Hok as [H1 H2 H3 H4].
    split; cbn.
    + intros i [? Hi]%list_elem_of_filter. by apply H1.
    + eapply sublist_NoDup; [exact H2|].
      apply fmap_sublist, sublist_filter.
    + intros i [Hne Hi]%list_elem_of_filter.
      destruct (decide (Browser.i_site i = k)) as [<-|Hsite].
      * specialize (H3 i Hi). congruence.
      * rewrite fn_lookup_insert_ne by done. by apply H3.
    + intros k' id' Hk'.
      destruct (decide (k = k')) as [<-|Hkk].
      { by rewrite fn_lookup_insert in Hk'. }
      rewrite fn_lookup_insert_ne in Hk' by done.
      destruct (H4 k' id' Hk') as [d Hd]. exists d.
      apply list_elem_of_filter. split; [|done]. cbn.
      intros ->. destruct (H4 k id Hk) as [d0 Hd0].
      pose proof (intervals_ok_unique slot e _ _ Hok Hd Hd0 eq_refl) as Heq.
      congruence.
  - eapply intervals_ok_ext; [|exact Hok].
    intros k'. destruct (decide (k = k')) as [<-|Hkk].
    + by rewrite fn_lookup_insert.
    + by rewrite fn_lookup_insert_ne.
Qed.

Lemma intervals_ok_set (slot : slots) (k : Browser.interval_site) (d : Z)
    (e : Browser.env) :
  intervals_ok slot e → slot k = None →
  let '(id, e') := Browser.setInterval k d e in
  intervals_ok (<[k := Some id]> slot) e' ∧ only_intervals e e'.
Proof.
  intros [H1 H2 H3 H4] Hk. cbn. split; [|split_and!; cbn; try done; lia].
  split; cbn.
  - intros i [Hi| ->%list_elem_of_singleton]%elem_of_app; cbn; [|lia].
    specialize (H1 i Hi). lia.
  - rewrite fmap_app. apply list.NoDup_app. split; [done|]. cbn.
    split; [|apply NoDup_singleton].
    intros x [i [Hx Hi]]%list_elem_of_fmap Hx'%list_elem_of_singleton.
    specialize (H1 i Hi). lia.
  - intros i [Hi| ->%list_elem_of_singleton]%elem_of_app; cbn.
    + destruct (decide (k = Browser.i_site i)) as [->|Hne].
      * specialize (H3 i Hi). congruence.
      * rewrite fn_lookup_insert_ne by done. by apply H3.
    + by rewrite fn_lookup_insert.
  - intros k' id' Hk'. destruct (decide (k = k')) as [<-|Hne].
    + rewrite fn_lookup_insert in Hk'. injection Hk' as <-.
      exists d. apply elem_of_app. right. by apply list_elem_of_singleton.
    + rewrite fn_lookup_insert_ne in Hk' by done.
      destruct (H4 k' id' Hk') as [d' Hd']. exists d'.
      apply elem_of_app. by left.
Qed.

Lemma intervals_ok_active (slot : slots) (k : Browser.interval_site)
    (e : Browser.env) :
  intervals_ok slot e →
  Browser.active k e = true ↔ is_Some (slot k).
Proof.
  intros [H1 H2 H3 H4]. unfold Browser.active. rewrite existsb_exists. split.
  - intros (i & Hi%list_elem_of_In & Hs%bool_decide_eq_true).
    specialize (H3 i Hi). rewrite Hs in H3. by eexists.
  - intros [id Hid]. destruct (H4 k id Hid) as [d Hd].
    eexists. split; [apply list_elem_of_In; exact Hd|].
    by apply bool_decide_eq_true.
Qed.

Lemma only_intervals_refl (e : Browser.env) : only_intervals e e.
Proof. by split_and!. Qed.

Lemma only_intervals_trans (e1 e2 e3 : Browser.env) :
  only_intervals e1 e2 → only_intervals e2 e3 → only_intervals e1 e3.
Proof.
  intros (A1 & A2 & A3 & A4) (B1 & B2 & B3 & B4).
  split_and!; [congruence|congruence|congruence|lia].
Qed.

(** ** The timer and its two intervals *)

Lemma timer_clear_countdown cd rs (frame : slots) (e : Browser.env) :
  intervals_ok (timer_slots cd rs frame) e →
  intervals_ok (timer_slots None rs frame) (Browser.clear cd e) ∧
  only_intervals e (Browser.clear cd e).
Proof.
  intros Hok.
  destruct (intervals_ok_clear _ Browser.CountdownTick e Hok) as [H1 H2].
  split; [|exact H2].
  eapply intervals_ok_ext; [|exact H1]. by intros [].
Qed.

Lemma timer_clear_resync cd rs (frame : slots) (e : Browser.env) :
  intervals_ok (timer_slots cd rs frame) e →
  intervals_ok (timer_slots cd None frame) (Browser.clear rs e) ∧
  only_intervals e (Browser.clear rs e).
Proof.
  intros Hok.
  destruct (intervals_ok_clear _ Browser.TimerResync e Hok) as [H1 H2].
  split; [|exact H2].
  eapply intervals_ok_ext; [|exact H1]. by intros [].
Qed.

Lemma timer_countdown_effect tr p rs (frame : slots) (e : Browser.env) :
  intervals_ok (timer_slots None rs frame) e →
  let '(cd, e', cs) := QuizTimer.countdown_effect tr p e in
  intervals_ok (timer_slots cd rs frame) e' ∧ only_intervals e e' ∧
  (cd = None ↔ tr <= 0) ∧
  cs = (if (tr <=? 0) && QuizTimer.supplied (QuizTimer.onTimeUp p)
        then [QuizTimer.CallOnTimeUp] else []).
Proof.
  intros Hok. unfold QuizTimer.countdown_effect.
  destruct (Z.leb_spec tr 0) as [Hle|Hgt].
  - split_and!; [done|apply only_intervals_refl|done|].
    by destruct (QuizTimer.supplied _).
  - pose proof (intervals_ok_set _ Browser.CountdownTick 1000 e Hok eq_refl) as H.
    destruct (Browser.setInterval Browser.CountdownTick 1000 e) as [id e'].
    destruct H as [H1 H2]. split_and!; [|done| |done].
    + eapply intervals_ok_ext; [|exact H1]. by intros [].
    + split; [done|lia].
Qed.

Lemma timer_resync_effect p cd (frame : slots) (e : Browser.env) :
  intervals_ok (timer_slots cd None frame) e →
  let '(rs, e') := QuizTimer.resync_effect p e in
  intervals_ok (timer_slots cd rs frame) e' ∧ only_intervals e e'.
Proof.
  intros Hok. unfold QuizTimer.resync_effect.
  destruct (QuizTimer.onTimeSync p).
  - pose proof (intervals_ok_set _ Browser.TimerResync 120000 e Hok eq_refl) as H.
    destruct (Browser.setInterval Browser.TimerResync 120000 e) as [id e'].
    destruct H as [H1 H2]. split; [|done].
    eapply intervals_ok_ext; [|exact H1]. by intros [].
  - split; [done|apply only_intervals_refl].
Qed.

(** The countdown effect running again: clean-up, then body. *)
Lemma timer_countdown_rerun tr p cd rs (frame : slots) (e : Browser.env) :
  intervals_ok (timer_slots cd rs frame) e →
  let '(cd', e', cs) :=
    QuizTimer.countdown_effect tr p (Browser.clear cd e) in
  intervals_ok (timer_slots cd' rs frame) e' ∧ only_intervals e e' ∧
  (cd' = None ↔ tr <= 0) ∧
  cs = (if (tr <=? 0) && QuizTimer.supplied (QuizTimer.onTimeUp p)
        then [QuizTimer.CallOnTimeUp] else []).
Proof.
  intros Hok. destruct (timer_clear_countdown _ _ _ _ Hok) as [H1 H2].
  pose proof (timer_countdown_effect tr p _ _ _ H1) as H.
  destruct (QuizTimer.countdown_effect tr p (Browser.clear cd e)) as [[cd' e'] cs].
  destruct H as (H3 & H4 & H5 & H6). split_and!; try done.
  by eapply only_intervals_trans.
Qed.

Lemma timer_resync_rerun p cd rs (frame : slots) (e : Browser.env) :
  intervals_ok (timer_slots cd rs frame) e →
  let '(rs', e') := QuizTimer.resync_effect p (Browser.clear rs e) in
  intervals_ok (timer_slots cd rs' frame) e' ∧ only_intervals e e'.
Proof.
  intros Hok. destruct (timer_clear_resync _ _ _ _ Hok) as [H1 H2].
  pose proof (timer_resync_effect p _ _ _ H1) as H.
  destruct (QuizTimer.resync_effect p (Browser.clear rs e)) as [rs' e'].
  destruct H as (H3 & H4). split; [done|].
  by eapply only_intervals_trans.
Qed.

Lemma timer_mount_ok p (frame : slots) (e : Browser.env) :
  intervals_ok (timer_slots None None frame) e →
  let '(t, e', cs) := QuizTimer.mount p e in
  timer_ok t frame e' ∧ only_intervals e e' ∧
  QuizTimer.props t = p ∧
  (QuizTimer.initialTimeRemaining p = None →
   QuizTimer.timeRemaining t = 0 ∧
   cs = if QuizTimer.supplied (QuizTimer.onTimeUp p)
        then [QuizTimer.CallOnTimeUp] else []).
Proof.
  intros Hok. unfold QuizTimer.mount.
  pose proof (timer_countdown_effect
                (JS.or_zero (QuizTimer.initialTimeRemaining p)) p _ _ _ Hok) as H1.
  destruct (QuizTimer.countdown_effect _ p e) as [[cd e1] c1].
  destruct H1 as (H1 & O1 & Z1 & C1).
  pose proof (timer_resync_effect p _ _ _ H1) as H2.
  destruct (QuizTimer.resync_effect p e1) as [rs e2].
  destruct H2 as (H2 & O2).
  unfold QuizTimer.sync_effect.
  destruct (QuizTimer.initialTimeRemaining p) as [v|] eqn:Hv.
  - destruct (Z.eqb_spec v (JS.or_zero (Some v))) as [Heq|Hne].
    + split_and!; [split; [done|] |by eapply only_intervals_trans|done|done].
      cbn [QuizTimer.countdown QuizTimer.timeRemaining]. done.
    + pose proof (timer_countdown_rerun v p _ _ _ _ H2) as H3.
      destruct (QuizTimer.countdown_effect v p (Browser.clear cd e2))
        as [[cd' e3] c2].
      destruct H3 as (H3 & O3 & Z3 & C3).
      split_and!; [split; [done|] | |done|done].
      * cbn [QuizTimer.countdown QuizTimer.timeRemaining]. done.
      * eapply only_intervals_trans; [|exact O3].
        by eapply only_intervals_trans.
  - split_and!; [split; [done|] |by eapply only_intervals_trans|done|].
    + cbn [QuizTimer.countdown QuizTimer.timeRemaining]. done.
    + intros _. split; [done|]. rewrite C1. done.
Qed.

Lemma timer_phase_clear_countdown (d : bool) cd rs (frame : slots) e :
  intervals_ok (timer_slots cd rs frame) e →
  intervals_ok (timer_slots (if d then None else cd) rs frame)
               (if d then Browser.clear cd e else e) ∧
  only_intervals e (if d then Browser.clear cd e else e).
Proof.
  intros Hok. destruct d; [by apply timer_clear_countdown|].
  split; [done|apply only_intervals_refl].
Qed.

Lemma timer_phase_clear_resync (d : bool) cd rs (frame : slots) e :
  intervals_ok (timer_slots cd rs frame) e →
  intervals_ok (timer_slots cd (if d then None else rs) frame)
               (if d then Browser.clear rs e else e) ∧
  only_intervals e (if d then Browser.clear rs e else e).
Proof.
  intros Hok. destruct d; [by apply timer_clear_resync|].
  split; [done|apply only_intervals_refl].
Qed.

Lemma timer_phase_countdown (d : bool) tr p cd rs (frame : slots) e :
  intervals_ok (timer_slots (if d then None else cd) rs frame) e →
  let '(cd', e', cs) :=
    if d then QuizTimer.countdown_effect tr p e else (cd, e, []) in
  intervals_ok (timer_slots cd' rs frame) e' ∧ only_intervals e e' ∧
  (if d then cd' = None ↔ tr <= 0 else cd' = cd).
Proof.
  intros Hok. destruct d.
  - pose proof (timer_countdown_effect tr p _ _ _ Hok) as H.
    destruct (QuizTimer.countdown_effect tr p e) as [[cd' e'] cs]. tauto.
  - split_and!; [done|apply only_intervals_refl|done].
Qed.

Lemma timer_phase_resync (d : bool) p cd rs (frame : slots) e :
  intervals_ok (timer_slots cd (if d then None else rs) frame) e →
  let '(rs', e') := if d then QuizTimer.resync_effect p e else (rs, e) in
  intervals_ok (timer_slots cd rs' frame) e' ∧ only_intervals e e'.
Proof.
  intros Hok. destruct d.
  - by apply timer_resync_effect.
  - split; [done|apply only_intervals_refl].
Qed.

Lemma timer_render_ok p' tr' w' c' (t : QuizTimer.State) (frame : slots)
    (e : Browser.env) :
  timer_ok t frame e →
  let '(t', e', cs) := QuizTimer.render p' tr' w' c' t e in
  timer_ok t' frame e' ∧ only_intervals e e' ∧ QuizTimer.props t' = p'.
Proof.
  intros [Hok Hz]. unfold QuizTimer.render.
  set (d1 := negb (QuizTimer.opt_eqb _ (QuizTimer.initialTimeRemaining p'))).
  set (d2 := negb (QuizTimer.timeRemaining t =? tr') || _).
  set (d3 := negb (QuizTimer.opt_eqb _ (QuizTimer.onTimeSync p'))).
  assert (Hd2 : d2 = false → QuizTimer.timeRemaining t = tr').
  { unfold d2. intros [H _]%orb_false_elim.
    by apply negb_false_iff, Z.eqb_eq in H. }
  destruct (timer_phase_clear_countdown d2 _ _ _ _ Hok) as [A1 B1].
  destruct (timer_phase_clear_resync d3 _ _ _ _ A1) as [A2 B2].
  pose proof (timer_phase_countdown d2 tr' p' _ _ _ _ A2) as H3.
  destruct (if d2 then QuizTimer.countdown_effect tr' p' _ else _)
    as [[cd e3] c1].
  destruct H3 as (A3 & B3 & Z3).
  pose proof (timer_phase_resync d3 p' _ _ _ _ A3) as H4.
  destruct (if d3 then QuizTimer.resync_effect p' e3 else _) as [rs e4].
  destruct H4 as (A4 & B4).
  assert (B : only_intervals e e4) by eauto using only_intervals_trans.
  assert (Z : cd = None ↔ tr' <= 0).
  { destruct d2; [done|]. rewrite Z3, <- (Hd2 eq_refl). done. }
  destruct (if d1 then QuizTimer.sync_effect p' else None) as [v|].
  - destruct (Z.eqb_spec v tr') as [Hv|Hv].
    + split_and!; [split; done|done|done].
    + pose proof (timer_countdown_rerun v p' _ _ _ _ A4) as H5.
      destruct (QuizTimer.countdown_effect v p' (Browser.clear cd e4))
        as [[cd' e5] c2].
      destruct H5 as (A5 & B5 & Z5 & _).
      split_and!; [split; done| |done].
      by eapply only_intervals_trans.
  - split_and!; [split; done|done|done].
Qed.

Lemma tick_inactive (t : QuizTimer.State) (e : Browser.env) :
  Browser.active Browser.CountdownTick e = false →
  QuizTimer.tick t e = (t, e, []).
Proof. intros H. unfold QuizTimer.tick. by rewrite H. Qed.

Lemma tick_calls (t : QuizTimer.State) (e : Browser.env) :
  Browser.active Browser.CountdownTick e = true →
  let newTime := JS.max 0 (QuizTimer.timeRemaining t - 1) in
  ∃ c1, snd (QuizTimer.tick t e) =
        (if (newTime =? 0) && QuizTimer.supplied (QuizTimer.onTimeUp (QuizTimer.props t))
         then [QuizTimer.CallOnTimeUp] else []) ++ c1.
Proof.
  intros H newTime. unfold QuizTimer.tick. rewrite H. cbn [negb].
  fold newTime. destruct (QuizTimer.classify newTime) as [w c].
  destruct (QuizTimer.render _ newTime w c t e) as [[t' e'] c1].
  by exists c1.
Qed.

Lemma timer_tick_ok (t : QuizTimer.State) (frame : slots) (e : Browser.env) :
  timer_ok t frame e →
  let '(t', e', cs) := QuizTimer.tick t e in
  timer_ok t' frame e' ∧ only_intervals e e'.
Proof.
  intros Hok. unfold QuizTimer.tick.
  destruct (negb _); [split; [done|apply only_intervals_refl]|].
  destruct (QuizTimer.classify _) as [w c].
  pose proof (timer_render_ok (QuizTimer.props t)
                (JS.max 0 (QuizTimer.timeRemaining t - 1)) w c t frame e Hok) as H.
  destruct (QuizTimer.render _ _ w c t e) as [[t' e'] c1]. tauto.
Qed.

Lemma timer_step_ok (ev : QuizTimer.event) (t : QuizTimer.State)
    (frame : slots) (e : Browser.env) :
  timer_ok t frame e →
  let '(t', e', cs) := QuizTimer.step ev t e in
  timer_ok t' frame e' ∧ only_intervals e e'.
Proof.
  intros Hok. destruct ev; cbn [QuizTimer.step].
  - by apply timer_tick_ok.
  - unfold QuizTimer.resync_tick.
    destruct (Browser.active _ e); (split; [done|apply only_intervals_refl]).
  - unfold QuizTimer.rerender.
    pose proof (timer_render_ok p' (QuizTimer.timeRemaining t)
                  (QuizTimer.isWarning t) (QuizTimer.isCritical t) t frame e Hok) as H.
    destruct (QuizTimer.render _ _ _ _ t e) as [[t' e'] c1]. tauto.
Qed.

Lemma timer_run_ok (evs : list QuizTimer.event) (t : QuizTimer.State)
    (frame : slots) (e : Browser.env) :
  timer_ok t frame e →
  let '(t', e', cs) := QuizTimer.run evs t e in
  timer_ok t' frame e' ∧ only_intervals e e'.
Proof.
  revert t e. induction evs as [|ev evs IH]; intros t e Hok.
  - split; [done|apply only_intervals_refl].
  - cbn [QuizTimer.run].
    pose proof (timer_step_ok ev t frame e Hok) as H1.
    destruct (QuizTimer.step ev t e) as [[t1 e1] c1]. destruct H1 as [H1 O1].
    specialize (IH t1 e1 H1).
    destruct (QuizTimer.run evs t1 e1) as [[t2 e2] c2]. destruct IH as [H2 O2].
    split; [done|by eapply only_intervals_trans].
Qed.

Lemma intervals_ok_empty : intervals_ok (timer_slots None None no_slots) Browser.empty.
Proof.
  split; cbn.
  - intros i Hi. by apply elem_of_nil in Hi.
  - apply NoDup_nil_2.
  - intros i Hi. by apply elem_of_nil in Hi.
  - by intros [] id.
Qed.

Lemma timer_session_ok (p : QuizTimer.Props) (evs : list QuizTimer.event) :
  let '(t, e, cs) := QuizTimer.session p evs in
  timer_ok t no_slots e.
Proof.
  unfold QuizTimer.session.
  pose proof (timer_mount_ok p no_slots Browser.empty intervals_ok_empty) as H0.
  destruct (QuizTimer.mount p Browser.empty) as [[t0 e0] c0].
  destruct H0 as (H0 & _).
  pose proof (timer_run_ok evs t0 no_slots e0 H0) as H1.
  destruct (QuizTimer.run evs t0 e0) as [[t1 e1] c1]. tauto.
Qed.

Lemma timer_ok_active (t : QuizTimer.State) (frame : slots) (e : Browser.env) :
  timer_ok t frame e →
  Browser.active Browser.CountdownTick e = false ↔ QuizTimer.timeRemaining t <= 0.
Proof.
  intros [Hok Hz]. rewrite <- Hz.
  pose proof (intervals_ok_active _ Browser.CountdownTick e Hok) as H.
  cbn in H. destruct (Browser.active Browser.CountdownTick e).
  - destruct (proj1 H eq_refl) as [id ->]. split; discriminate.
  - split; [|done]. intros _.
    destruct (QuizTimer.countdown t) as [id|]; [|done].
    assert (false = true) by (apply H; eauto). discriminate.
Qed.

Lemma expiries_app (c1 c2 : list QuizTimer.call) :
  QuizTimer.expiries (c1 ++ c2) = (QuizTimer.expiries c1 + QuizTimer.expiries c2)%nat.
Proof. apply count_occ_app. Qed.

Lemma rerender_fires_at_zero (t : QuizTimer.State) (e : Browser.env) (cb : nat) :
  QuizTimer.timeRemaining t <= 0 →
  QuizTimer.onTimeUp (QuizTimer.props t) ≠ Some cb →
  QuizTimer.expiries
    (snd (QuizTimer.rerender
            (QuizTimer.mkProps (QuizTimer.initialTimeRemaining (QuizTimer.props t))
               (Some cb) (QuizTimer.onTimeSync (QuizTimer.props t))) t e)) = 1%nat.
Proof.
  intros Hz Hcb. unfold QuizTimer.rerender, QuizTimer.render, QuizTimer.opt_eqb.
  cbn [QuizTimer.initialTimeRemaining QuizTimer.onTimeUp QuizTimer.onTimeSync].
  rewrite Z.eqb_refl.
  rewrite (bool_decide_eq_false_2 (QuizTimer.onTimeUp _ = Some cb)) by done.
  rewrite !bool_decide_eq_true_2 by done.
  cbn [negb orb].
  unfold QuizTimer.countdown_effect.
  rewrite (proj2 (Z.leb_le _ 0) Hz). reflexivity.
Qed.

(** C2 fails on the code: with one second left, the tick that reaches 0
    calls [onTimeUp] in the state updater and the countdown effect, which
    runs again because [timeRemaining] changed, calls it once more. *)
Lemma expiry_fires_twice_example :
  let '(t, _, cs) :=
    QuizTimer.session (QuizTimer.mkProps (Some 1) (Some 0%nat) None)
                      [QuizTimer.Tick] in
  QuizTimer.timeRemaining t = 0 ∧
  cs = [QuizTimer.CallOnTimeUp; QuizTimer.CallOnTimeUp] ∧
  QuizTimer.expiries cs ≠ 1%nat.
Proof. vm_compute. split_and!; [done|done|discriminate]. Qed.

(** C2, amended. In every state of a timer session the countdown interval
    is active exactly while the remaining time is positive: at 0 no tick
    is delivered any more, so the value is not decremented further and
    ticks cause no call.  A tick at a positive value decrements by one, and
    the tick that reaches 0 calls [onTimeUp] (when supplied) at least once
    and leaves no countdown interval.  The callback is not limited to one
    call per session: every further run of the countdown effect at 0, such
    as a render with a new [onTimeUp] function, calls it again. *)
Theorem expiry_fires_and_countdown_stops (p : QuizTimer.Props)
    (evs : list QuizTimer.event) :
  let '(t, e, _) := QuizTimer.session p evs in
  (QuizTimer.timeRemaining t <= 0 ↔
   Browser.active Browser.CountdownTick e = false) ∧
  (QuizTimer.timeRemaining t <= 0 → QuizTimer.tick t e = (t, e, [])) ∧
  (0 < QuizTimer.timeRemaining t →
   let '(t', e', cs) := QuizTimer.tick t e in
   QuizTimer.timeRemaining t' = QuizTimer.timeRemaining t - 1 ∧
   (QuizTimer.timeRemaining t' = 0 →
    is_Some (QuizTimer.onTimeUp (QuizTimer.props t)) →
    (1 <= QuizTimer.expiries cs)%nat ∧
    Browser.active Browser.CountdownTick e' = false)) ∧
  (QuizTimer.timeRemaining t <= 0 →
   ∀ cb, QuizTimer.onTimeUp (QuizTimer.props t) ≠ Some cb →
   QuizTimer.expiries
     (snd (QuizTimer.rerender
             (QuizTimer.mkProps
                (QuizTimer.initialTimeRemaining (QuizTimer.props t))
                (Some cb) (QuizTimer.onTimeSync (QuizTimer.props t))) t e))
   = 1%nat).
Proof.
  pose proof (timer_session_ok p evs) as Hok.
  destruct (QuizTimer.session p evs) as [[t e] cs0].
  pose proof (timer_ok_active t no_slots e Hok) as Hact.
  split_and!.
  - by symmetry.
  - intros Hz. apply tick_inactive. by apply Hact.
  - intros Hpos.
    assert (Ha : Browser.active Browser.CountdownTick e = true).
    { destruct (Browser.active Browser.CountdownTick e); [done|].
      pose proof (proj1 Hact eq_refl). lia. }
    pose proof (timer_tick_ok t no_slots e Hok) as Hok'.
    destruct (tick_active t e Ha) as (e1 & c1 & Htick).
    destruct (tick_calls t e Ha) as (c2 & Hcalls).
    destruct (QuizTimer.tick t e) as [[t' e'] cs].
    destruct Hok' as [Hok' _]. injection Htick as -> -> ->.
    cbn [QuizTimer.timeRemaining]. unfold JS.max in *.
    split; [lia|]. intros Hzero [cb Hcb]. cbn [snd] in Hcalls.
    split.
    + rewrite Hcalls, expiries_app, Hcb.
      rewrite (proj2 (Z.eqb_eq _ 0) Hzero). cbn. lia.
    + apply (timer_ok_active _ no_slots _ Hok'). cbn. lia.
  - intros Hz cb Hcb. by apply rerender_fires_at_zero.
Qed.

Lemma expiry_fires_and_countdown_stops_witness :
  let '(t, e, _) :=
    QuizTimer.session (QuizTimer.mkProps (Some 2) (Some 0%nat) None)
                      [QuizTimer.Tick] in
  QuizTimer.timeRemaining t = 1 ∧
  let '(t', e', cs) := QuizTimer.tick t e in
  QuizTimer.timeRemaining t' = 0 ∧
  (1 <= QuizTimer.expiries cs)%nat ∧
  Browser.active Browser.CountdownTick e' = false.
Proof.
  pose proof (expiry_fires_and_countdown_stops
                (QuizTimer.mkProps (Some 2) (Some 0%nat) None)
                [QuizTimer.Tick]) as H.
  destruct (QuizTimer.session _ [QuizTimer.Tick]) as [[t e] cs0] eqn:E.
  destruct H as (_ & _ & H & _).
  vm_compute in E. injection E as <- <- _.
  split; [reflexivity|].
  specialize (H ltac:(cbn; lia)).
  destruct (QuizTimer.tick _ _) as [[t' e'] cs].
  destruct H as [H1 H2]. cbn in H1.
  split; [exact H1|].
  apply H2; [exact H1|]. by eexists.
Defined.

(** ** Lists of tracked browser objects *)

Section Tracked.
Context {A : Type} `{EqDecision A} (ident : A → nat).

Lemma remove_first_sublist (x : A) (l : list A) :
  Browser.remove_first x l `sublist_of` l.
Proof.
  induction l as [|y l IH]; cbn; [done|].
  case_decide; [by apply sublist_cons|by apply sublist_skip].
Qed.

Lemma elem_of_remove_first (x y : A) (l : list A) :
  NoDup l → y ∈ Browser.remove_first x l ↔ y ∈ l ∧ y ≠ x.
Proof.
  induction l as [|z l IH]; cbn; intros Hnd.
  - split; [by intros ?%elem_of_nil|by intros [?%elem_of_nil _]].
  - apply list.NoDup_cons in Hnd as [Hz Hnd]. case_decide as Hxz.
    + subst z. rewrite elem_of_cons. split.
      * intros Hy. split; [by right|]. by intros ->.
      * intros [[->|Hy] Hne]; done.
    + rewrite !elem_of_cons, (IH Hnd). split.
      * intros [->|[Hy Hne]]; [split; [by left|congruence]|split; [by right|done]].
      * intros [[->|Hy] Hne]; [by left|by right].
Qed.

Lemma remove_all_cons (x : A) (xs l : list A) :
  remove_all (x :: xs) l = remove_all xs (Browser.remove_first x l).
Proof. reflexivity. Qed.

Lemma remove_all_sublist (xs l : list A) : remove_all xs l `sublist_of` l.
Proof.
  revert l. induction xs as [|x xs IH]; intros l; [done|].
  rewrite remove_all_cons.
  etrans; [apply IH|apply remove_first_sublist].
Qed.

Lemma elem_of_remove_all (xs l : list A) (y : A) :
  NoDup l → y ∈ remove_all xs l ↔ y ∈ l ∧ y ∉ xs.
Proof.
  revert l. induction xs as [|x xs IH]; intros l Hnd.
  - cbn. split; [|by intros [? _]].
    intros Hy. split; [done|]. by intros ?%elem_of_nil.
  - rewrite remove_all_cons.
    rewrite IH by (eapply sublist_NoDup; [exact Hnd|apply remove_first_sublist]).
    rewrite elem_of_remove_first by done. rewrite not_elem_of_cons. tauto.
Qed.

Lemma tracked_same (allowed : A → Prop) (l : list A) (f f' : nat) :
  (f <= f')%nat → tracked ident allowed l f → tracked ident allowed l f'.
Proof.
  intros Hf [H1 H2 H3]. split; [|done|done].
  intros x Hx. specialize (H1 x Hx). lia.
Qed.

Lemma tracked_mono (allowed allowed' : A → Prop) (l : list A) (f : nat) :
  (∀ x, x ∈ l → allowed x → allowed' x) →
  tracked ident allowed l f → tracked ident allowed' l f.
Proof.
  intros Hm [H1 H2 H3]. split; [done|done|].
  intros x Hx. by apply Hm; [|apply H3].
Qed.

Lemma tracked_remove_all (allowed allowed' : A → Prop) (xs l : list A) (f : nat) :
  (∀ x, allowed x → x ∉ xs → allowed' x) →
  tracked ident allowed l f → tracked ident allowed' (remove_all xs l) f.
Proof.
  intros Hm [H1 H2 H3]. split.
  - intros x [Hx _]%elem_of_remove_all; [|done]. by apply H1.
  - eapply sublist_NoDup; [exact H2|apply remove_all_sublist].
  - intros x [Hx Hn]%elem_of_remove_all; [|done]. by apply Hm; [apply H3|].
Qed.

Lemma tracked_append (allowed : A → Prop) (new l : list A) (f f' : nat) :
  NoDup new → (f <= f')%nat →
  (∀ x, x ∈ new → (f <= ident x < f')%nat ∧ allowed x) →
  tracked ident allowed l f → tracked ident allowed (l ++ new) f'.
Proof.
  intros Hnd Hf Hnew [H1 H2 H3]. split.
  - intros x [Hx|Hx]%elem_of_app.
    + specialize (H1 x Hx). lia.
    + destruct (Hnew x Hx). lia.
  - apply list.NoDup_app. split_and!; [done| |done].
    intros x Hx Hx'. specialize (H1 x Hx). destruct (Hnew x Hx'). lia.
  - intros x [Hx|Hx]%elem_of_app; [by apply H3|by apply Hnew].
Qed.

Lemma tracked_snoc (allowed : A → Prop) (l : list A) (f : nat) (x : A) :
  x ∉ l → (ident x < f)%nat → allowed x →
  tracked ident allowed l f → tracked ident allowed (l ++ [x]) f.
Proof.
  intros Hx Hf Ha [H1 H2 H3]. split.
  - intros y [Hy| ->%list_elem_of_singleton]%elem_of_app; [by apply H1|done].
  - apply list.NoDup_app. split_and!; [done| |apply NoDup_singleton].
    by intros y Hy ->%list_elem_of_singleton.
  - intros y [Hy| ->%list_elem_of_singleton]%elem_of_app; [by apply H3|done].
Qed.

Lemma tracked_not_elem (allowed : A → Prop) (l : list A) (f : nat) (x : A) :
  tracked ident allowed l f → (f <= ident x)%nat → x ∉ l.
Proof. intros [H1 _ _] Hx Hin. specialize (H1 x Hin). lia. Qed.

End Tracked.

(** ** Browser operations and the resources they move *)

(** Closes the part of [env_ok] that an operation did not touch. *)
Ltac env_frame :=
  first
    [ eassumption
    | eapply intervals_ok_same; [|eassumption]; split; cbn; [reflexivity|lia]
    | unfold listeners_ok, nodes_ok in *; cbn;
      eapply tracked_same; [|eassumption]; cbn; lia ].

Lemma env_ok_new_object slot ls ns conn (e : Browser.env) :
  env_ok slot ls ns conn e →
  env_ok slot ls ns conn (snd (Browser.new_object e)).
Proof.
  intros (Hi & Hl & Hn & Hc). split_and!.
  - eapply intervals_ok_same; [|exact Hi]. split; cbn; [done|lia].
  - eapply tracked_same; [|exact Hl]. cbn. lia.
  - eapply tracked_same; [|exact Hn]. cbn. lia.
  - exact Hc.
Qed.

Lemma env_ok_only_intervals slot slot' ls ns conn (e e' : Browser.env) :
  only_intervals e e' → intervals_ok slot' e' →
  env_ok slot ls ns conn e → env_ok slot' ls ns conn e'.
Proof.
  intros (El & En & Ec & Ef) Hi' (Hi & Hl & Hn & Hc).
  unfold env_ok, listeners_ok, nodes_ok, connections_ok.
  rewrite El, En, Ec. split_and!; [done| | |done].
  - by eapply tracked_same.
  - by eapply tracked_same.
Qed.

Lemma env_ok_weaken slot ls ls' ns ns' conn (e : Browser.env) :
  (∀ l, l ∈ ls → l ∈ ls') → (∀ n, n ∈ ns → n ∈ ns') →
  env_ok slot ls ns conn e → env_ok slot ls' ns' conn e.
Proof.
  intros Hls Hns (Hi & Hl & Hn & Hc). split_and!; [done| | |done].
  - eapply tracked_mono; [|exact Hl]. intros l _ [H|H]; [by left|right; auto].
  - eapply tracked_mono; [|exact Hn]. intros n _ H. auto.
Qed.

Lemma env_ok_slots (slot slot' : slots) ls ns conn (e : Browser.env) :
  (∀ k, slot k = slot' k) →
  env_ok slot ls ns conn e → env_ok slot' ls ns conn e.
Proof.
  intros Hs (Hi & Hl & Hn & Hc). split_and!; try done.
  by eapply intervals_ok_ext.
Qed.

Lemma env_ok_addEventListener slot ls ns conn t ty fn (e : Browser.env) :
  (fn < Browser.fresh e)%nat → Browser.Listener t ty fn ∈ ls →
  env_ok slot ls ns conn e →
  env_ok slot ls ns conn (Browser.addEventListener t ty fn e).
Proof.
  intros Hfn Hin (Hi & Hl & Hn & Hc). unfold Browser.addEventListener.
  case_decide as Hd; [done|]. split_and!; try env_frame.
  unfold listeners_ok. cbn.
  apply tracked_snoc; [done|done|by right|done].
Qed.

Lemma env_ok_removeEventListener slot ls ls' ns conn t ty fn (e : Browser.env) :
  (∀ l, l ∈ ls → l ≠ Browser.Listener t ty fn → l ∈ ls') →
  env_ok slot ls ns conn e →
  env_ok slot ls' ns conn (Browser.removeEventListener t ty fn e).
Proof.
  intros Hsub (Hi & Hl & Hn & Hc). split_and!; try env_frame.
  unfold listeners_ok. cbn.
  change (Browser.remove_first ?x ?l) with (remove_all [x] l).
  eapply tracked_remove_all; [|exact Hl]. cbn.
  intros l [Hc'|Hl'] Hne; [by left|right].
  apply Hsub; [done|]. intros ->. apply Hne. by apply list_elem_of_singleton.
Qed.

Lemma env_ok_appendChild slot ls ns conn n (e : Browser.env) :
  n ∉ Browser.head_nodes e → (n < Browser.fresh e)%nat → n ∈ ns →
  env_ok slot ls ns conn e →
  env_ok slot ls ns conn (Browser.appendChild n e).
Proof.
  intros Hn1 Hn2 Hn3 (Hi & Hl & Hn & Hc). split_and!; try env_frame.
  unfold nodes_ok. cbn. by apply tracked_snoc.
Qed.

Lemma env_ok_removeChild slot ls ns ns' conn n (e : Browser.env) :
  (∀ x, x ∈ ns → x ≠ n → x ∈ ns') →
  env_ok slot ls ns conn e →
  env_ok slot ls ns' conn (Browser.removeChild n e).
Proof.
  intros Hsub (Hi & Hl & Hn & Hc). split_and!; try env_frame.
  unfold nodes_ok. cbn.
  change (Browser.remove_first ?x ?l) with (remove_all [x] l).
  eapply tracked_remove_all; [|exact Hn]. cbn.
  intros x Hx Hne. apply Hsub; [done|].
  intros ->. apply Hne. by apply list_elem_of_singleton.
Qed.

Lemma env_ok_same slot ls ns conn (e e' : Browser.env) :
  Browser.intervals e' = Browser.intervals e →
  Browser.listeners e' = Browser.listeners e →
  Browser.head_nodes e' = Browser.head_nodes e →
  Browser.connections e' = Browser.connections e →
  (Browser.fresh e <= Browser.fresh e')%nat →
  env_ok slot ls ns conn e → env_ok slot ls ns conn e'.
Proof.
  intros Ei El En Ec Ef (Hi & Hl & Hn & Hc).
  unfold env_ok, listeners_ok, nodes_ok, connections_ok.
  rewrite El, En, Ec.
  split_and!; [|by eapply tracked_same|by eapply tracked_same|done].
  eapply intervals_ok_same; [|exact Hi]. by split.
Qed.

Lemma fresh_addEventListener t ty fn e :
  Browser.fresh (Browser.addEventListener t ty fn e) = Browser.fresh e.
Proof. unfold Browser.addEventListener. by case_decide. Qed.

Lemma head_nodes_addEventListener t ty fn e :
  Browser.head_nodes (Browser.addEventListener t ty fn e) = Browser.head_nodes e.
Proof. unfold Browser.addEventListener. by case_decide. Qed.

Lemma env_ok_remove_head slot ls ns conn t ty fn (e : Browser.env) :
  env_ok slot (Browser.Listener t ty fn :: ls) ns conn e →
  env_ok slot ls ns conn (Browser.removeEventListener t ty fn e).
Proof.
  apply env_ok_removeEventListener.
  by intros l [->|Hl]%elem_of_cons Hne.
Qed.

Lemma env_ok_removeChild_head slot ls ns conn n (e : Browser.env) :
  env_ok slot ls (n :: ns) conn e →
  env_ok slot ls ns conn (Browser.removeChild n e).
Proof.
  apply env_ok_removeChild.
  by intros x [->|Hx]%elem_of_cons Hne.
Qed.

(** Membership in a list that is written out. *)
Ltac in_list :=
  repeat first [ apply list_elem_of_here | apply list_elem_of_further ].

(** An inclusion between lists of owned listeners. *)
Ltac list_mem :=
  intros ?; unfold guard_listeners, monitor_listeners, joining_listeners;
  rewrite ?elem_of_app, ?elem_of_cons, ?elem_of_nil; tauto.

(** ** The integrity monitor: every listener it adds, it removes *)

Lemma guard_setup_ok slot ls ns conn (e : Browser.env) :
  env_ok slot ls ns conn e →
  let '(g, e') := SecurityWrapper.guard_setup e in
  env_ok slot (guard_listeners g ++ ls) (SecurityWrapper.style g :: ns) conn e'.
Proof.
  intros Hok. unfold SecurityWrapper.guard_setup.
  cbn -[Browser.addEventListener].
  rewrite !fresh_addEventListener. cbn -[Browser.addEventListener].
  assert (Hn : nodes_ok ns e) by apply Hok.
  apply env_ok_appendChild.
  - cbn -[Browser.addEventListener]. rewrite !head_nodes_addEventListener. cbn.
    eapply (tracked_not_elem (λ n, n)); [exact Hn|]. cbn. lia.
  - cbn. lia.
  - apply list_elem_of_here.
  - eapply (env_ok_same _ _ _ _ (Browser.addEventListener _ _ _ _));
      [reflexivity..|rewrite !fresh_addEventListener; cbn; lia|].
    repeat (apply env_ok_addEventListener;
            [rewrite ?fresh_addEventListener; cbn; lia|in_list|]).
    eapply env_ok_same; [..|eapply env_ok_weaken; [| |exact Hok]]; cbn;
      try reflexivity; try lia.
    + intros l Hl. by repeat apply list_elem_of_further.
    + intros n Hn'. by apply list_elem_of_further.
Qed.

Lemma guard_cleanup_ok slot ls ns conn g (e : Browser.env) :
  env_ok slot (guard_listeners g ++ ls) (SecurityWrapper.style g :: ns) conn e →
  env_ok slot ls ns conn (SecurityWrapper.guard_cleanup g e).
Proof.
  intros Hok. unfold SecurityWrapper.guard_cleanup.
  apply env_ok_removeChild_head.
  by repeat apply env_ok_remove_head.
Qed.

Lemma blur_setup_ok slot ls ns conn (e : Browser.env) :
  env_ok slot ls ns conn e →
  let '(m, e') := SecurityWrapper.blur_setup e in
  env_ok slot (monitor_listeners m ++ ls) ns conn e'.
Proof.
  intros Hok. unfold SecurityWrapper.blur_setup.
  cbn -[Browser.addEventListener].
  repeat (apply env_ok_addEventListener;
          [rewrite ?fresh_addEventListener; cbn; lia|in_list|]).
  eapply env_ok_same; [..|eapply env_ok_weaken; [| |exact Hok]]; cbn;
    try reflexivity; try lia; [|done].
  intros l Hl. by repeat apply list_elem_of_further.
Qed.

Lemma blur_cleanup_ok slot ls ns conn m (e : Browser.env) :
  env_ok slot (monitor_listeners m ++ ls) ns conn e →
  env_ok slot ls ns conn (SecurityWrapper.blur_cleanup m e).
Proof.
  intros Hok. unfold SecurityWrapper.blur_cleanup.
  by repeat apply env_ok_remove_head.
Qed.

Lemma wrapper_run_effects_ok slot ls ns conn en (e : Browser.env) :
  env_ok slot ls ns conn e →
  let '(w, e') := SecurityWrapper.run_effects en e in
  env_ok slot (wrapper_listeners (Some w) ++ ls)
         (wrapper_nodes (Some w) ++ ns) conn e'.
Proof.
  intros Hok. unfold SecurityWrapper.run_effects. destruct en; [|done].
  pose proof (guard_setup_ok _ _ _ _ e Hok) as H1.
  destruct (SecurityWrapper.guard_setup e) as [g e1].
  pose proof (blur_setup_ok _ _ _ _ e1 H1) as H2.
  destruct (SecurityWrapper.blur_setup e1) as [m e2].
  eapply env_ok_weaken; [| |exact H2]; cbn; [list_mem|done].
Qed.

Lemma wrapper_run_cleanups_ok slot ls ns conn w (e : Browser.env) :
  env_ok slot (wrapper_listeners (Some w) ++ ls)
         (wrapper_nodes (Some w) ++ ns) conn e →
  env_ok slot ls ns conn (SecurityWrapper.run_cleanups w e).
Proof.
  intros Hok. unfold SecurityWrapper.run_cleanups.
  unfold wrapper_listeners, wrapper_nodes in Hok.
  destruct (SecurityWrapper.blur_effect w) as [m|],
           (SecurityWrapper.guard_effect w) as [g|]; cbn in Hok.
  - apply blur_cleanup_ok, guard_cleanup_ok.
    eapply env_ok_weaken; [| |exact Hok]; [list_mem|done].
  - by apply blur_cleanup_ok.
  - by apply guard_cleanup_ok.
  - done.
Qed.

Lemma wrapper_render_ok slot ls ns conn en w (e : Browser.env) :
  env_ok slot (wrapper_listeners (Some w) ++ ls)
         (wrapper_nodes (Some w) ++ ns) conn e →
  let '(w', e') := SecurityWrapper.render en w e in
  env_ok slot (wrapper_listeners (Some w') ++ ls)
         (wrapper_nodes (Some w') ++ ns) conn e'.
Proof.
  intros Hok. unfold SecurityWrapper.render. case_bool_decide; [done|].
  apply wrapper_run_effects_ok. by apply wrapper_run_cleanups_ok.
Qed.

Lemma wrapper_blur_owned w (e : Browser.env) :
  wrapper_listeners (Some (fst (SecurityWrapper.blur w e)))
    = wrapper_listeners (Some w) ∧
  wrapper_nodes (Some (fst (SecurityWrapper.blur w e)))
    = wrapper_nodes (Some w).
Proof.
  unfold SecurityWrapper.blur.
  destruct (SecurityWrapper.blur_effect w) as [m|] eqn:Hm; [|done].
  case_decide; [|done]. cbn. by rewrite Hm.
Qed.

Lemma wrapper_focus_owned w (e : Browser.env) :
  fst (SecurityWrapper.focus w e) = w.
Proof.
  unfold SecurityWrapper.focus.
  destruct (SecurityWrapper.blur_effect w) as [m|]; [|done].
  by case_decide.
Qed.

(** ** The hook: channel handlers, the connection and the 30 s interval *)

Lemma connection_handler_intro sock ty fn :
  ty ∈ ["connect"; "disconnect"; "connect_error"; "error"]%string →
  connection_handler (Browser.Listener (Browser.Socket sock) ty fn).
Proof. intros H. split; [by exists sock|done]. Qed.

Lemma connect_setup_ok slot ls ns tok (e : Browser.env) :
  env_ok slot ls ns None e →
  let '(c, e') := QuizSocket.connect_setup tok e in
  env_ok slot ls ns c e'.
Proof.
  intros (Hi & Hl & Hn & Hc). unfold QuizSocket.connect_setup.
  destruct (negb _); [done|]. cbn.
  split_and!.
  - eapply intervals_ok_same; [|exact Hi]. split; cbn; [done|lia].
  - unfold listeners_ok. cbn. rewrite <- !app_assoc. cbn.
    eapply (tracked_append _ _ _ _ (Browser.fresh e)); [| | |exact Hl].
    + repeat (apply list.NoDup_cons; split;
              [rewrite ?elem_of_cons, ?elem_of_nil; intros Hx;
               repeat destruct Hx as [Hx|Hx]; try done; by simplify_eq|]).
      apply NoDup_nil_2.
    + lia.
    + intros x Hx. rewrite ?elem_of_cons, ?elem_of_nil in Hx.
      repeat destruct Hx as [Hx|Hx]; try done; subst x; cbn;
        (split; [lia|left; apply connection_handler_intro; in_list]).
  - eapply tracked_same; [|exact Hn]. cbn. lia.
  - intros c. cbn. intros [Hx|Hx]%elem_of_app.
    + by specialize (Hc c Hx).
    + apply list_elem_of_singleton in Hx. by subst.
Qed.

Lemma connect_cleanup_ok slot ls ns c c' (e : Browser.env) :
  env_ok slot ls ns c e →
  env_ok slot ls ns c' (QuizSocket.connect_cleanup c e) ∧
  Browser.connections (QuizSocket.connect_cleanup c e) = [].
Proof.
  intros (Hi & Hl & Hn & Hc). unfold QuizSocket.connect_cleanup.
  assert (Hnil : Browser.connections
                   (match c with
                    | Some sock => Browser.socket_disconnect sock e
                    | None => e
                    end) = []).
  { apply elem_of_nil_inv. intros x Hx. destruct c as [sock|]; cbn in Hx.
    - apply list_elem_of_filter in Hx as [Hne Hx].
      specialize (Hc x Hx). congruence.
    - by specialize (Hc x Hx). }
  split; [|done]. split_and!.
  - destruct c; env_frame.
  - destruct c; env_frame.
  - destruct c; env_frame.
  - intros x Hx. rewrite Hnil in Hx. by apply elem_of_nil in Hx.
Qed.

Lemma join_setup_ok slot ls ns conn sk s (e : Browser.env) :
  env_ok slot ls ns conn e →
  let '(j, e', out) := QuizSocket.join_setup sk s e in
  env_ok slot
    (match QuizSocket.socketRef s, j with
     | Some sock, Some j => joining_listeners sock j
     | _, _ => []
     end ++ ls) ns conn e'.
Proof.
  intros Hok. unfold QuizSocket.join_setup.
  destruct (_ || _); [by destruct (QuizSocket.socketRef s)|].
  unfold QuizSocket.on. destruct (QuizSocket.socketRef s) as [sock|]; cbn.
  - destruct Hok as (Hi & Hl & Hn & Hc). split_and!.
    + eapply intervals_ok_same; [|exact Hi]. split; cbn; [done|lia].
    + unfold listeners_ok. cbn. rewrite <- !app_assoc. cbn.
      eapply (tracked_append _ _ _ _ (Browser.fresh e)).
      * repeat (apply list.NoDup_cons; split;
                [rewrite ?elem_of_cons, ?elem_of_nil; intros Hx;
                 repeat destruct Hx as [Hx|Hx]; try done; by simplify_eq|]).
        apply NoDup_nil_2.
      * lia.
      * intros x Hx. split.
        -- rewrite ?elem_of_cons, ?elem_of_nil in Hx.
           repeat destruct Hx as [Hx|Hx]; try done; subst x; cbn; lia.
        -- right. revert Hx. rewrite ?elem_of_cons, ?elem_of_nil. tauto.
      * eapply tracked_mono; [|exact Hl].
        intros x _ [H|H]; [by left|]. right. by in_list.
    + eapply tracked_same; [|exact Hn]. cbn. lia.
    + done.
  - eapply env_ok_same; [..|exact Hok]; cbn; try done. lia.
Qed.

Lemma join_cleanup_ok slot ls ns conn j s (e : Browser.env) :
  env_ok slot
    (match QuizSocket.socketRef s with
     | Some sock => joining_listeners sock j
     | None => []
     end ++ ls) ns conn e →
  env_ok slot ls ns conn (fst (QuizSocket.join_cleanup j s e)).
Proof.
  intros Hok. unfold QuizSocket.join_cleanup, QuizSocket.off. cbn [fst].
  destruct (QuizSocket.socketRef s) as [sock|]; [|done].
  unfold Browser.socket_off. by repeat apply env_ok_remove_head.
Qed.

Lemma socket_listeners_cells (old k : QuizSocket.State) :
  QuizSocket.socketRef k = QuizSocket.socketRef old →
  QuizSocket.join_effect k = QuizSocket.join_effect old →
  socket_listeners k = socket_listeners old.
Proof. intros H1 H2. unfold socket_listeners. by rewrite H1, H2. Qed.

Lemma socket_phase_join_cleanup (d : bool) slot ls ns conn old s
    (e : Browser.env) :
  QuizSocket.socketRef s = QuizSocket.socketRef old →
  env_ok slot (socket_listeners old ++ ls) ns conn e →
  let '(e1, o1) :=
    if d then match QuizSocket.join_effect old with
              | Some j => QuizSocket.join_cleanup j s e
              | None => (e, [])
              end
    else (e, []) in
  env_ok slot ((if d then [] else socket_listeners old) ++ ls) ns conn e1.
Proof.
  intros Href Hok. destruct d; [|done].
  unfold socket_listeners in Hok. rewrite <- Href in Hok.
  destruct (QuizSocket.join_effect old) as [j|].
  - pose proof (join_cleanup_ok slot ls ns conn j s e) as H.
    destruct (QuizSocket.join_cleanup j s e) as [e1 o1]. apply H.
    by destruct (QuizSocket.socketRef s).
  - by destruct (QuizSocket.socketRef s).
Qed.

Lemma socket_phase_join_setup (d : bool) slot ls ns conn old sk s
    (e : Browser.env) :
  QuizSocket.socketRef s = QuizSocket.socketRef old →
  env_ok slot ((if d then [] else socket_listeners old) ++ ls) ns conn e →
  let '(j, e3, o2) :=
    if d then QuizSocket.join_setup sk s e
    else (QuizSocket.join_effect old, e, []) in
  env_ok slot
    (match QuizSocket.socketRef s, j with
     | Some sock, Some j => joining_listeners sock j
     | _, _ => []
     end ++ ls) ns conn e3.
Proof.
  intros Href Hok. destruct d.
  - by apply join_setup_ok.
  - unfold socket_listeners in Hok. by rewrite Href.
Qed.

Lemma socket_clear_resync cd rs r (e : Browser.env) :
  intervals_ok (timer_slots cd rs (λ _, r)) e →
  intervals_ok (timer_slots cd rs (λ _, None)) (Browser.clear r e) ∧
  only_intervals e (Browser.clear r e).
Proof.
  intros Hok.
  destruct (intervals_ok_clear _ Browser.SocketResync e Hok) as [H1 H2].
  split; [|exact H2].
  eapply intervals_ok_ext; [|exact H1]. by intros [].
Qed.

Lemma socket_resync_setup cd rs sk s (e : Browser.env) :
  intervals_ok (timer_slots cd rs (λ _, None)) e →
  let '(r, e') := QuizSocket.resync_setup sk s e in
  intervals_ok (timer_slots cd rs (λ _, r)) e' ∧ only_intervals e e'.
Proof.
  intros Hok. unfold QuizSocket.resync_setup.
  destruct (_ || _); [split; [done|apply only_intervals_refl]|].
  pose proof (intervals_ok_set _ Browser.SocketResync 30000 e Hok eq_refl) as H.
  destruct (Browser.setInterval Browser.SocketResync 30000 e) as [id e'].
  destruct H as [H1 H2]. split; [|done].
  eapply intervals_ok_ext; [|exact H1]. by intros [].
Qed.

Lemma socket_render_ok cd rs ls ns (old s : QuizSocket.State) (e : Browser.env) :
  QuizSocket.socketRef s = QuizSocket.socketRef old →
  QuizSocket.connect_effect s = QuizSocket.connect_effect old →
  env_ok (timer_slots cd rs (λ _, QuizSocket.resync_effect old))
         (socket_listeners old ++ ls) ns (QuizSocket.connect_effect old) e →
  let '(k, e', out) := QuizSocket.render old s e in
  env_ok (timer_slots cd rs (λ _, QuizSocket.resync_effect k))
         (socket_listeners k ++ ls) ns (QuizSocket.connect_effect k) e' ∧
  QuizSocket.socketRef k = QuizSocket.socketRef old.
Proof.
  intros Href Hconn Hok. unfold QuizSocket.render.
  set (d1 := negb _ || negb _). set (d2 := d1 || _).
  pose proof (socket_phase_join_cleanup d1 _ ls ns _ old s e Href Hok) as H1.
  destruct (if d1 then _ else _) as [e1 o1].
  assert (H2 : env_ok (timer_slots cd rs
                         (λ _, if d2 then None else QuizSocket.resync_effect old))
                      ((if d1 then [] else socket_listeners old) ++ ls) ns
                      (QuizSocket.connect_effect old)
                      (if d2 then Browser.clear (QuizSocket.resync_effect old) e1
                       else e1)).
  { destruct d2; [|done].
    destruct (socket_clear_resync cd rs _ e1 (proj1 H1)) as [A B].
    eapply env_ok_only_intervals; [exact B|exact A|exact H1]. }
  pose proof (socket_phase_join_setup d1 _ ls ns _ old (QuizSocket.socketRef s) s
                _ Href H2) as H3.
  destruct (if d1 then QuizSocket.join_setup _ _ _ else _) as [[j e3] o2].
  assert (H4 : let '(r, e4) :=
                 if d2 then QuizSocket.resync_setup (QuizSocket.socketRef s) s e3
                 else (QuizSocket.resync_effect old, e3) in
               env_ok (timer_slots cd rs (λ _, r))
                 (match QuizSocket.socketRef s, j with
                  | Some sock, Some j => joining_listeners sock j
                  | _, _ => []
                  end ++ ls) ns (QuizSocket.connect_effect old) e4).
  { destruct d2; [|done].
    pose proof (socket_resync_setup cd rs (QuizSocket.socketRef s) s e3 (proj1 H3)) as H.
    destruct (QuizSocket.resync_setup _ s e3) as [r e4]. destruct H as [A B].
    eapply env_ok_only_intervals; [exact B|exact A|exact H3]. }
  destruct (if d2 then QuizSocket.resync_setup _ _ _ else _) as [r e4].
  cbn. split; [|done]. by rewrite Hconn.
Qed.

Lemma env_ok_empty :
  env_ok (timer_slots None None no_slots) [] [] None Browser.empty.
Proof.
  split_and!.
  - apply intervals_ok_empty.
  - split; cbn; [by intros x ?%elem_of_nil|apply NoDup_nil_2|by intros x ?%elem_of_nil].
  - split; cbn; [by intros x ?%elem_of_nil|apply NoDup_nil_2|by intros x ?%elem_of_nil].
  - by intros c ?%elem_of_nil.
Qed.

Lemma socket_mount_ok tok sess :
  let '(k, e, out) := QuizSocket.mount tok sess Browser.empty in
  env_ok (timer_slots None None (λ _, QuizSocket.resync_effect k))
         (socket_listeners k) [] (QuizSocket.connect_effect k) e ∧
  QuizSocket.timeRemaining (QuizSocket.quizState k) = None.
Proof.
  unfold QuizSocket.mount.
  pose proof (connect_setup_ok _ _ _ tok _ env_ok_empty) as H.
  destruct (QuizSocket.connect_setup tok Browser.empty) as [c e1].
  cbn. split; [|done].
  assert (Hl : socket_listeners
                 (QuizSocket.set_effects None None None
                    (QuizSocket.mkState tok sess c None false None
                       QuizSocket.initialQuizState 0 c None None)) = []).
  { unfold socket_listeners. cbn. by destruct c. }
  rewrite Hl.
  eapply env_ok_slots; [|exact H]. by intros [].
Qed.

Lemma join_cleanup_connections j s (e : Browser.env) :
  Browser.connections (fst (QuizSocket.join_cleanup j s e)) = Browser.connections e.
Proof.
  unfold QuizSocket.join_cleanup, QuizSocket.off. cbn [fst].
  by destruct (QuizSocket.socketRef s).
Qed.

Lemma socket_unmount_ok cd rs ls ns (k : QuizSocket.State) (e : Browser.env) :
  env_ok (timer_slots cd rs (λ _, QuizSocket.resync_effect k))
         (socket_listeners k ++ ls) ns (QuizSocket.connect_effect k) e →
  let e' := fst (QuizSocket.unmount k e) in
  env_ok (timer_slots cd rs (λ _, None)) ls ns None e' ∧
  Browser.connections e' = [].
Proof.
  intros Hok. unfold QuizSocket.unmount.
  destruct (connect_cleanup_ok _ _ _ _ None e Hok) as [H1 Hnil].
  set (e1 := QuizSocket.connect_cleanup _ e) in *.
  assert (H2 : let '(e2, out) :=
                 match QuizSocket.join_effect k with
                 | Some j => QuizSocket.join_cleanup j k e1
                 | None => (e1, [])
                 end in
               env_ok (timer_slots cd rs (λ _, QuizSocket.resync_effect k))
                      ls ns None e2 ∧ Browser.connections e2 = []).
  { unfold socket_listeners in H1.
    destruct (QuizSocket.join_effect k) as [j|].
    - pose proof (join_cleanup_ok
                    (timer_slots cd rs (λ _, QuizSocket.resync_effect k))
                    ls ns None j k e1) as H.
      pose proof (join_cleanup_connections j k e1) as Hc.
      destruct (QuizSocket.join_cleanup j k e1) as [e2 out]. cbn [fst] in *.
      split; [|congruence]. apply H. by destruct (QuizSocket.socketRef k).
    - split; [|done]. by destruct (QuizSocket.socketRef k). }
  destruct (match QuizSocket.join_effect k with
            | Some j => _ | None => _ end) as [e2 out].
  destruct H2 as [H2 Hnil2]. cbn [fst].
  destruct (socket_clear_resync cd rs _ e2 (proj1 H2)) as [A B].
  split.
  - eapply env_ok_only_intervals; [exact B|exact A|exact H2].
  - destruct B as (_ & _ & -> & _). done.
Qed.

(** ** The mounted page holds what the browser holds *)

Lemma session_ok_ext (m m' : Session.Mounted) (e : Browser.env) :
  Session.wrapper m' = Session.wrapper m →
  Session.timer m' = Session.timer m →
  Session.sock m' = Session.sock m →
  session_ok m e → session_ok m' e.
Proof.
  intros Hw Ht Hs. unfold session_ok, session_slots. by rewrite Hw, Ht, Hs.
Qed.

Lemma session_ok_intro (m : Session.Mounted) (e : Browser.env) :
  env_ok (session_slots m)
         (wrapper_listeners (Session.wrapper m) ++ socket_listeners (Session.sock m))
         (wrapper_nodes (Session.wrapper m) ++ [])
         (QuizSocket.connect_effect (Session.sock m)) e →
  (∀ t, Session.timer m = Some t →
        QuizTimer.countdown t = None ↔ QuizTimer.timeRemaining t <= 0) →
  session_ok m e.
Proof. intros H1 H2. split; [|done]. by rewrite app_nil_r in H1. Qed.

Lemma env_ok_released slot conn (e : Browser.env) :
  (∀ k, slot k = None) →
  env_ok slot [] [] conn e → Browser.connections e = [] → released e.
Proof.
  intros Hs (Hi & Hl & Hn & Hc) Hnil. split_and!; [| |done|].
  - apply elem_of_nil_inv. intros i Hin.
    pose proof (io_owned _ _ Hi i Hin) as H. by rewrite Hs in H.
  - apply elem_of_nil_inv. intros n Hin.
    pose proof (tr_allowed _ _ _ _ Hn n Hin) as H. by apply elem_of_nil in H.
  - intros l Hin. destruct (tr_allowed _ _ _ _ Hl l Hin) as [H|H]; [done|].
    by apply elem_of_nil in H.
Qed.

(** Unmounting the children of the page. *)
Lemma timer_unmount_ok (t : QuizTimer.State) (frame : slots) (e : Browser.env) :
  intervals_ok (timer_slots (QuizTimer.countdown t) (QuizTimer.resync t) frame) e →
  intervals_ok (timer_slots None None frame) (QuizTimer.unmount t e) ∧
  only_intervals e (QuizTimer.unmount t e).
Proof.
  intros Hok. unfold QuizTimer.unmount.
  destruct (timer_clear_countdown _ _ _ _ Hok) as [A1 B1].
  destruct (timer_clear_resync _ _ _ _ A1) as [A2 B2].
  split; [done|]. by eapply only_intervals_trans.
Qed.

Lemma children_unmount_ok (m : Session.Mounted) (e : Browser.env) :
  session_ok m e →
  let e1 := match Session.timer m with
            | Some t => QuizTimer.unmount t e
            | None => e
            end in
  let e2 := match Session.wrapper m with
            | Some w => SecurityWrapper.unmount w e1
            | None => e1
            end in
  session_ok (Session.mkMounted (Session.page m) (Session.sock m) None None) e2.
Proof.
  intros [Hok Hz]. cbn zeta.
  set (F := λ _ : Browser.interval_site, QuizSocket.resync_effect (Session.sock m)).
  assert (H1 : env_ok (timer_slots None None F)
                 (wrapper_listeners (Session.wrapper m)
                  ++ socket_listeners (Session.sock m))
                 (wrapper_nodes (Session.wrapper m) ++ [])
                 (QuizSocket.connect_effect (Session.sock m))
                 (match Session.timer m with
                  | Some t => QuizTimer.unmount t e
                  | None => e
                  end)).
  { rewrite app_nil_r. unfold session_slots in Hok. fold F in Hok.
    destruct (Session.timer m) as [t|]; cbn in Hok; [|done].
    unfold QuizTimer.unmount.
    destruct (timer_clear_countdown _ _ _ _ (proj1 Hok)) as [A1 B1].
    destruct (timer_clear_resync _ _ _ _ A1) as [A2 B2].
    eapply env_ok_only_intervals; [|exact A2|exact Hok].
    by eapply only_intervals_trans. }
  apply session_ok_intro; [|done]. cbn.
  destruct (Session.wrapper m) as [w|]; [|done].
  by apply wrapper_run_cleanups_ok.
Qed.

Lemma session_unmount_released (m : Session.Mounted) (e : Browser.env) :
  session_ok m e → released (fst (Session.unmount m e)).
Proof.
  intros Hok. unfold Session.unmount.
  pose proof (children_unmount_ok m e Hok) as [H _]. cbn zeta in H.
  cbn in H. unfold session_slots in H. cbn in H.
  set (e2 := match Session.wrapper m with
             | Some w => _ | None => _ end) in *.
  destruct (socket_unmount_ok None None [] [] (Session.sock m) e2) as [H1 H2].
  { by rewrite app_nil_r. }
  eapply env_ok_released; [|exact H1|exact H2]. by intros [].
Qed.

Lemma render_children_ok (m : Session.Mounted) (e : Browser.env) :
  session_ok m e →
  let '(m', e', cs) := Session.render_children m e in
  session_ok m' e'.
Proof.
  intros Hok. unfold Session.render_children.
  destruct (QuizPage.shows_quiz (Session.page m)); [|by apply children_unmount_ok].
  destruct Hok as [Hok Hz].
  set (F := λ _ : Browser.interval_site, QuizSocket.resync_effect (Session.sock m)).
  set (S0 := session_slots m) in *.
  assert (H1 : let '(w, e1) :=
                 match Session.wrapper m with
                 | Some w => SecurityWrapper.render
                               (QuizPage.securityEnabled (Session.page m)) w e
                 | None => SecurityWrapper.mount
                             (QuizPage.securityEnabled (Session.page m)) e
                 end in
               env_ok S0 (wrapper_listeners (Some w)
                          ++ socket_listeners (Session.sock m))
                      (wrapper_nodes (Some w) ++ [])
                      (QuizSocket.connect_effect (Session.sock m)) e1).
  { destruct (Session.wrapper m) as [w|].
    - apply wrapper_render_ok. by rewrite app_nil_r.
    - by apply wrapper_run_effects_ok. }
  destruct (match Session.wrapper m with
            | Some w => _ | None => _ end) as [w e1].
  apply env_ok_new_object in H1.
  destruct (Browser.new_object e1) as [onTimeUp e2]. cbn [snd] in H1.
  apply env_ok_new_object in H1.
  destruct (Browser.new_object e2) as [onTimeSync e3]. cbn [snd] in H1.
  set (props := QuizTimer.mkProps _ _ _).
  set (mv := Session.children_move _ _). clearbody mv.
  assert (H2 : let '(t, e4, calls) :=
                 match Session.timer m with
                 | Some t =>
                     if mv then QuizTimer.mount props (QuizTimer.unmount t e3)
                     else QuizTimer.rerender props t e3
                 | None => QuizTimer.mount props e3
                 end in
               timer_ok t F e4 ∧ only_intervals e3 e4).
  { unfold S0, session_slots in H1. fold F in H1.
    destruct (Session.timer m) as [t|]; cbn in H1; [destruct mv|].
    - destruct (timer_unmount_ok t F e3 (proj1 H1)) as [A0 B0].
      pose proof (timer_mount_ok props F _ A0) as H.
      destruct (QuizTimer.mount props _) as [[t' e4] calls].
      destruct H as (A & B & _). split; [done|].
      by eapply only_intervals_trans.
    - unfold QuizTimer.rerender.
      pose proof (timer_render_ok props (QuizTimer.timeRemaining t)
                    (QuizTimer.isWarning t) (QuizTimer.isCritical t) t F e3) as H.
      destruct (QuizTimer.render _ _ _ _ t e3) as [[t' e4] calls].
      destruct H as (A & B & _); [|done].
      split; [apply H1|by apply Hz].
    - pose proof (timer_mount_ok props F e3 (proj1 H1)) as H.
      destruct (QuizTimer.mount props e3) as [[t' e4] calls]. tauto. }
  destruct (match Session.timer m with
            | Some t => _ | None => _ end) as [[t e4] calls].
  destruct H2 as [[A Z] B].
  apply session_ok_intro; cbn.
  - eapply env_ok_only_intervals; [exact B|exact A|exact H1].
  - by intros t' [= <-].
Qed.

Lemma answer_calls_frame (m : Session.Mounted) (cs : list QuizTimer.call) :
  let m' := fst (Session.answer_calls m cs) in
  Session.wrapper m' = Session.wrapper m ∧
  Session.timer m' = Session.timer m ∧
  Session.sock m' = Session.sock m.
Proof.
  revert m. induction cs as [|c cs IH]; intros m; [done|].
  cbn [Session.answer_calls].
  destruct (Session.answer_call m c) as [m1 o1] eqn:E1.
  specialize (IH m1). destruct (Session.answer_calls m1 cs) as [m2 o2].
  cbn in *. destruct IH as (-> & -> & ->).
  destruct c; cbn in E1.
  - destruct (QuizPage.handleTimeUp (Session.page m)).
    by injection E1 as <- _.
  - by injection E1 as <- _.
Qed.

Lemma settle_ok (r : bool) (m : Session.Mounted) (e : Browser.env)
    (cs : list QuizTimer.call) (out : list output) :
  session_ok m e →
  let '(s', e', _) := Session.settle r m e cs out in
  state_ok s' e'.
Proof.
  intros Hok. unfold Session.settle.
  assert (H1 : let '(m1, e1, cs1) :=
                 if r then Session.render_children m e else (m, e, []) in
               session_ok m1 e1).
  { destruct r; [by apply render_children_ok|done]. }
  destruct (if r then _ else _) as [[m1 e1] cs1].
  pose proof (answer_calls_frame m1 (cs ++ cs1)) as Hf.
  destruct (Session.answer_calls m1 (cs ++ cs1)) as [m2 out2].
  cbn in Hf. destruct Hf as (Hw & Ht & Hs).
  assert (H2 : session_ok m2 e1) by by eapply session_ok_ext.
  destruct (Session.navigates _).
  - pose proof (session_unmount_released m2 e1 H2) as H3.
    by destruct (Session.unmount m2 e1).
  - done.
Qed.

Lemma handle_iter_effects (ev : QuizSocket.inbound) (n : nat) (s : QuizSocket.State) :
  let s' := Nat.iter n (QuizSocket.handle ev) s in
  QuizSocket.socketRef s' = QuizSocket.socketRef s ∧
  QuizSocket.socket s' = QuizSocket.socket s ∧
  QuizSocket.connect_effect s' = QuizSocket.connect_effect s ∧
  QuizSocket.join_effect s' = QuizSocket.join_effect s ∧
  QuizSocket.resync_effect s' = QuizSocket.resync_effect s.
Proof.
  induction n as [|n IH]; [done|].
  cbn [Nat.iter]. cbn zeta in IH. destruct IH as (<- & <- & <- & <- & <-).
  by destruct ev.
Qed.

Lemma socket_receive_ok (ev : QuizSocket.inbound) (m : Session.Mounted)
    (e : Browser.env) :
  session_ok m e →
  let '(k, e', out) := QuizSocket.receive ev (Session.sock m) e in
  session_ok (Session.set_sock k m) e'.
Proof.
  intros [Hok Hz]. unfold QuizSocket.receive.
  destruct (QuizSocket.registered _ _ e) as [|n]; [by destruct m|].
  destruct (handle_iter_effects ev (S n) (Session.sock m)) as (Href & _ & Hc & _).
  pose proof (socket_render_ok
                (Session.timer m ≫= QuizTimer.countdown)
                (Session.timer m ≫= QuizTimer.resync)
                (wrapper_listeners (Session.wrapper m))
                (wrapper_nodes (Session.wrapper m))
                (Session.sock m) _ e Href Hc) as H.
  destruct (QuizSocket.render _ _ e) as [[k e1] out].
  destruct H as [H _].
  { eapply env_ok_weaken; [| |exact Hok]; [|done].
    intros l. rewrite !elem_of_app. tauto. }
  split; [|done]. cbn.
  eapply env_ok_weaken; [| |exact H]; [|done].
  intros l. rewrite !elem_of_app. tauto.
Qed.

Lemma step_live_ok (ev : Session.event) (m : Session.Mounted) (e : Browser.env) :
  session_ok m e →
  let '(s', e', _) := Session.step_live ev m e in
  state_ok s' e'.
Proof.
  intros Hok. destruct ev; cbn [Session.step_live].
  - destruct (QuizPage.loading _); [|done].
    apply settle_ok. by eapply session_ok_ext.
  - destruct (QuizPage.loading _); [|done].
    apply settle_ok. by eapply session_ok_ext.
  - destruct (QuizSocket.registered _ _ e); [done|].
    pose proof (socket_receive_ok ev m e Hok) as H.
    destruct (QuizSocket.receive ev (Session.sock m) e) as [[k e1] out].
    by apply settle_ok.
  - destruct (Session.timer m) as [t|] eqn:Ht; [|done].
    destruct Hok as [Hok Hz].
    pose proof (timer_tick_ok t
                  (λ _, QuizSocket.resync_effect (Session.sock m)) e) as H.
    destruct (QuizTimer.tick t e) as [[t' e1] cs].
    destruct H as [[A Z] B].
    { split; [|by apply Hz]. unfold session_slots in Hok.
      rewrite Ht in Hok. apply Hok. }
    apply settle_ok. split; cbn.
    + eapply env_ok_only_intervals; [exact B|exact A|exact Hok].
    + by intros t0 [= <-].
  - destruct (Session.timer m) as [t|] eqn:Ht; [|done].
    unfold QuizTimer.resync_tick.
    destruct (Browser.active _ e); apply settle_ok;
      (eapply session_ok_ext; [..|exact Hok]; done).
  - by apply settle_ok.
  - destruct (Session.wrapper m) as [w|] eqn:Hw; [|done].
    destruct (wrapper_blur_owned w e) as [H1 H2].
    destruct (SecurityWrapper.blur w e) as [w' out]. cbn [fst] in *.
    apply settle_ok. destruct Hok as [Hok Hz]. split; [|done].
    unfold session_slots in *.
    cbn [Session.wrapper Session.timer Session.sock].
    rewrite H1, H2. by rewrite Hw in Hok.
  - destruct (Session.wrapper m) as [w|] eqn:Hw; [|done].
    pose proof (wrapper_focus_owned w e) as H1.
    destruct (SecurityWrapper.focus w e) as [w' out]. cbn [fst] in *. subst w'.
    apply settle_ok. eapply session_ok_ext; [..|exact Hok]; done.
  - destruct (QuizPage.shows_quiz _); [|done].
    destruct (QuizPage.step ev (Session.page m)) as [p calls].
    apply settle_ok. by eapply session_ok_ext.
  - pose proof (session_unmount_released m e Hok) as H.
    by destruct (Session.unmount m e).
Qed.

Lemma step_ok (ev : Session.event) (s : Session.State) (e : Browser.env) :
  state_ok s e →
  let '(s', e', _) := Session.step ev s e in
  state_ok s' e'.
Proof.
  intros Hok. destruct s as [m|]; [by apply step_live_ok|done].
Qed.

Lemma run_ok (evs : list Session.event) (s : Session.State) (e : Browser.env) :
  state_ok s e →
  let '(s', e', _) := Session.run evs s e in
  state_ok s' e'.
Proof.
  revert s e. induction evs as [|ev evs IH]; intros s e Hok; [done|].
  cbn [Session.run].
  pose proof (step_ok ev s e Hok) as H1.
  destruct (Session.step ev s e) as [[s1 e1] o1].
  specialize (IH s1 e1 H1).
  by destruct (Session.run evs s1 e1) as [[s2 e2] o2].
Qed.

Lemma session_state_ok tok sess now (evs : list Session.event) :
  let '(s, e, _) := Session.session tok sess now evs in
  state_ok s e.
Proof.
  unfold Session.session, Session.mount.
  pose proof (socket_mount_ok tok sess) as H0.
  destruct (QuizSocket.mount tok sess Browser.empty) as [[k e0] o0].
  destruct H0 as [H0 _].
  pose proof (run_ok evs
                (Session.Live (Session.mkMounted (QuizPage.initial sess now) k None None))
                e0) as H.
  destruct (Session.run evs _ e0) as [[s1 e1] o1].
  apply H. split; [exact H0|done].
Qed.

(** C9 fails on the code as stated: the four handlers that useSocket
    registers on the socket have no matching [off]; unmounting right after
    mounting leaves them attached to the disconnected socket. *)
Lemma connection_handlers_stay_example :
  let '(s, e, _) :=
    Session.session (Some "tok"%string) (Some "sess"%string) 0 [Session.Unmount] in
  s = Session.Gone ∧
  Browser.intervals e = [] ∧
  Browser.connections e = [] ∧
  Browser.listeners e =
    [Browser.Listener (Browser.Socket 0) "connect" 1;
     Browser.Listener (Browser.Socket 0) "disconnect" 2;
     Browser.Listener (Browser.Socket 0) "connect_error" 3;
     Browser.Listener (Browser.Socket 0) "error" 4] ∧
  Browser.listeners e ≠ [].
Proof. vm_compute. split_and!; done. Qed.

(** C9, amended. Whatever happened since the page was mounted, once it is
    unmounted (by an explicit unmount in any state, or by the navigation
    that follows a finish) the browser holds no interval, no style node and
    no open connection, and the only listeners left are the four
    connection handlers of useSocket on the disconnected socket: every
    document and window listener and every quiz-event handler has been
    removed. *)
Theorem unmount_releases (tok : option string) (sess : option string) (now : Z)
    (evs : list Session.event) :
  let '(s, e, _) := Session.session tok sess now evs in
  match s with
  | Session.Live m => released (fst (Session.unmount m e))
  | Session.Gone => released e
  end.
Proof.
  pose proof (session_state_ok tok sess now evs) as H.
  destruct (Session.session tok sess now evs) as [[s e] out].
  destruct s as [m|]; [|done]. by apply session_unmount_released.
Qed.

(** ** What the children and the timer do is invisible to the channel *)

Lemma filter_remove_first {A} `{EqDecision A} (P : A → Prop)
    `{∀ x, Decision (P x)} (x : A) (l : list A) :
  ¬ P x → filter P (Browser.remove_first x l) = filter P l.
Proof.
  intros Hx. induction l as [|y l IH]; [done|].
  cbn [Browser.remove_first]. case_decide as Hxy.
  - subst y. by rewrite filter_cons_False.
  - by rewrite !filter_cons, IH.
Qed.

Lemma view_only_intervals (e e' : Browser.env) :
  only_intervals e e' → socket_view e' = socket_view e.
Proof. intros (H1 & _ & H2 & _). unfold socket_view. by rewrite H1, H2. Qed.

Lemma view_addEventListener t ty fn (e : Browser.env) :
  ¬ on_socket (Browser.Listener t ty fn) →
  socket_view (Browser.addEventListener t ty fn e) = socket_view e.
Proof.
  intros Ht. unfold Browser.addEventListener, socket_view.
  case_decide; [done|]. cbn. rewrite list.filter_app, filter_cons_False by done.
  by rewrite filter_nil, app_nil_r.
Qed.

Lemma view_removeEventListener t ty fn (e : Browser.env) :
  ¬ on_socket (Browser.Listener t ty fn) →
  socket_view (Browser.removeEventListener t ty fn e) = socket_view e.
Proof.
  intros Ht. unfold socket_view. cbn. by rewrite filter_remove_first.
Qed.

Lemma connections_addEventListener t ty fn (e : Browser.env) :
  Browser.connections (Browser.addEventListener t ty fn e) = Browser.connections e.
Proof. unfold Browser.addEventListener. by case_decide. Qed.

Lemma filter_addEventListener t ty fn (e : Browser.env) :
  ¬ on_socket (Browser.Listener t ty fn) →
  filter on_socket (Browser.listeners (Browser.addEventListener t ty fn e))
  = filter on_socket (Browser.listeners e).
Proof. intros H. by injection (view_addEventListener t ty fn e H). Qed.

Lemma filter_removeEventListener t ty fn (e : Browser.env) :
  ¬ on_socket (Browser.Listener t ty fn) →
  filter on_socket (Browser.listeners (Browser.removeEventListener t ty fn e))
  = filter on_socket (Browser.listeners e).
Proof. intros H. by injection (view_removeEventListener t ty fn e H). Qed.

Lemma view_run_effects en (e : Browser.env) :
  socket_view (snd (SecurityWrapper.run_effects en e)) = socket_view e.
Proof.
  unfold SecurityWrapper.run_effects. destruct en; [|done].
  unfold SecurityWrapper.guard_setup, SecurityWrapper.blur_setup.
  cbn -[Browser.addEventListener]. unfold Browser.appendChild, socket_view.
  repeat (progress (cbn -[Browser.addEventListener filter];
                    rewrite ?connections_addEventListener,
                      ?filter_addEventListener by (cbn; tauto))).
  done.
Qed.

Lemma view_run_cleanups w (e : Browser.env) :
  socket_view (SecurityWrapper.run_cleanups w e) = socket_view e.
Proof.
  unfold SecurityWrapper.run_cleanups, SecurityWrapper.blur_cleanup,
    SecurityWrapper.guard_cleanup, socket_view.
  destruct (SecurityWrapper.blur_effect w), (SecurityWrapper.guard_effect w);
    unfold Browser.removeChild;
    repeat (progress (cbn -[Browser.removeEventListener filter];
                      rewrite ?filter_removeEventListener by (cbn; tauto)));
    done.
Qed.

Lemma view_wrapper_render en w (e : Browser.env) :
  socket_view (snd (SecurityWrapper.render en w e)) = socket_view e.
Proof.
  unfold SecurityWrapper.render. case_bool_decide; [done|].
  by rewrite view_run_effects, view_run_cleanups.
Qed.

Lemma SecurityWrapper_unmount_view (w : option SecurityWrapper.State)
    (e : Browser.env) :
  socket_view (match w with
               | Some w => SecurityWrapper.unmount w e
               | None => e
               end) = socket_view e.
Proof. destruct w; [apply view_run_cleanups|done]. Qed.

Lemma only_intervals_clear o (e : Browser.env) :
  only_intervals e (Browser.clear o e).
Proof. destruct o; by split_and!. Qed.

Lemma only_intervals_countdown_effect tr p (e : Browser.env) :
  only_intervals e (snd (fst (QuizTimer.countdown_effect tr p e))).
Proof.
  unfold QuizTimer.countdown_effect. destruct (tr <=? 0); cbn.
  - apply only_intervals_refl.
  - split_and!; cbn; try done. lia.
Qed.

Lemma only_intervals_resync_effect p (e : Browser.env) :
  only_intervals e (snd (QuizTimer.resync_effect p e)).
Proof.
  unfold QuizTimer.resync_effect. destruct (QuizTimer.onTimeSync p); cbn.
  - split_and!; cbn; try done. lia.
  - apply only_intervals_refl.
Qed.

Lemma only_intervals_render p' tr' w' c' t (e : Browser.env) :
  only_intervals e (snd (fst (QuizTimer.render p' tr' w' c' t e))).
Proof.
  unfold QuizTimer.render.
  set (d1 := negb (QuizTimer.opt_eqb _ (QuizTimer.initialTimeRemaining p'))).
  set (d2 := negb (QuizTimer.timeRemaining t =? tr') || _).
  set (d3 := negb (QuizTimer.opt_eqb _ (QuizTimer.onTimeSync p'))).
  set (e1 := if d2 then _ else e).
  assert (A1 : only_intervals e e1)
    by (unfold e1; destruct d2; [apply only_intervals_clear|apply only_intervals_refl]).
  set (e2 := if d3 then _ else e1).
  assert (A2 : only_intervals e e2).
  { eapply only_intervals_trans; [exact A1|]. unfold e2.
    destruct d3; [apply only_intervals_clear|apply only_intervals_refl]. }
  assert (A3 : only_intervals e
                 (snd (fst (if d2 then QuizTimer.countdown_effect tr' p' e2
                            else (QuizTimer.countdown t, e2, []))))).
  { eapply only_intervals_trans; [exact A2|].
    destruct d2; [apply only_intervals_countdown_effect|apply only_intervals_refl]. }
  destruct (if d2 then QuizTimer.countdown_effect tr' p' e2 else _)
    as [[cd e3] c1]. cbn [fst snd] in A3.
  assert (A4 : only_intervals e
                 (snd (if d3 then QuizTimer.resync_effect p' e3
                       else (QuizTimer.resync t, e3)))).
  { eapply only_intervals_trans; [exact A3|].
    destruct d3; [apply only_intervals_resync_effect|apply only_intervals_refl]. }
  destruct (if d3 then QuizTimer.resync_effect p' e3 else _) as [rs e4].
  cbn [snd] in A4.
  destruct (if d1 then _ else None) as [v|]; [|done].
  destruct (v =? tr'); [done|].
  pose proof (only_intervals_countdown_effect v p' (Browser.clear cd e4)) as A5.
  destruct (QuizTimer.countdown_effect v p' _) as [[cd' e5] c2]. cbn in *.
  eapply only_intervals_trans; [exact A4|].
  eapply only_intervals_trans; [apply only_intervals_clear|exact A5].
Qed.

Lemma only_intervals_mount p (e : Browser.env) :
  only_intervals e (snd (fst (QuizTimer.mount p e))).
Proof.
  unfold QuizTimer.mount.
  pose proof (only_intervals_countdown_effect
                (JS.or_zero (QuizTimer.initialTimeRemaining p)) p e) as A1.
  destruct (QuizTimer.countdown_effect _ p e) as [[cd e1] c1]. cbn in A1.
  pose proof (only_intervals_resync_effect p e1) as A2.
  destruct (QuizTimer.resync_effect p e1) as [rs e2]. cbn in A2.
  assert (A : only_intervals e e2) by by eapply only_intervals_trans.
  destruct (QuizTimer.sync_effect p) as [v|]; [|done].
  destruct (v =? _); [done|].
  pose proof (only_intervals_countdown_effect v p (Browser.clear cd e2)) as A5.
  destruct (QuizTimer.countdown_effect v p _) as [[cd' e5] c2]. cbn in *.
  eapply only_intervals_trans; [exact A|].
  eapply only_intervals_trans; [apply only_intervals_clear|exact A5].
Qed.

Lemma only_intervals_unmount t (e : Browser.env) :
  only_intervals e (QuizTimer.unmount t e).
Proof.
  unfold QuizTimer.unmount.
  eapply only_intervals_trans; apply only_intervals_clear.
Qed.

Lemma only_intervals_tick t (e : Browser.env) :
  only_intervals e (snd (fst (QuizTimer.tick t e))).
Proof.
  unfold QuizTimer.tick. destruct (negb _); [apply only_intervals_refl|].
  destruct (QuizTimer.classify _) as [w c].
  pose proof (only_intervals_render (QuizTimer.props t)
                (JS.max 0 (QuizTimer.timeRemaining t - 1)) w c t e) as A.
  by destruct (QuizTimer.render _ _ w c t e) as [[t' e'] c1].
Qed.

Lemma view_new_object (e : Browser.env) :
  socket_view (snd (Browser.new_object e)) = socket_view e.
Proof. done. Qed.

Lemma view_render_children (m : Session.Mounted) (e : Browser.env) :
  let '(m', e', cs) := Session.render_children m e in
  socket_view e' = socket_view e ∧ Session.sock m' = Session.sock m.
Proof.
  unfold Session.render_children.
  destruct (QuizPage.shows_quiz (Session.page m)).
  - assert (H1 : socket_view
                   (snd (match Session.wrapper m with
                         | Some w => SecurityWrapper.render
                                       (QuizPage.securityEnabled (Session.page m)) w e
                         | None => SecurityWrapper.mount
                                     (QuizPage.securityEnabled (Session.page m)) e
                         end)) = socket_view e).
    { destruct (Session.wrapper m);
        [apply view_wrapper_render|apply view_run_effects]. }
    destruct (match Session.wrapper m with
              | Some w => _ | None => _ end) as [w e1]. cbn [snd] in H1.
    pose proof (view_new_object e1) as H2.
    destruct (Browser.new_object e1) as [onTimeUp e2]. cbn [snd] in H2.
    pose proof (view_new_object e2) as H3.
    destruct (Browser.new_object e2) as [onTimeSync e3]. cbn [snd] in H3.
    rewrite H2, H1 in H3.
    set (props := QuizTimer.mkProps _ _ _).
    set (mv := Session.children_move _ _). clearbody mv.
    assert (H4 : only_intervals e3
                   (snd (fst (match Session.timer m with
                              | Some t =>
                                  if mv
                                  then QuizTimer.mount props (QuizTimer.unmount t e3)
                                  else QuizTimer.rerender props t e3
                              | None => QuizTimer.mount props e3
                              end)))).
    { destruct (Session.timer m); [destruct mv|];
        [|apply only_intervals_render|apply only_intervals_mount].
      eapply only_intervals_trans;
        [apply only_intervals_unmount|apply only_intervals_mount]. }
    destruct (match Session.timer m with
              | Some t => _ | None => _ end) as [[t e4] calls].
    cbn [fst snd] in H4. split; [|done].
    by rewrite (view_only_intervals _ _ H4).
  - split; [|done].
    rewrite SecurityWrapper_unmount_view.
    destruct (Session.timer m) as [t|]; [|done].
    apply view_only_intervals, only_intervals_unmount.
Qed.

(** ** Time synchronisation: what the synchronizer holds *)

Lemma filter_on_socket (sock : nat) (ty : string) (l : list Browser.listener) :
  filter (λ x, Browser.l_target x = Browser.Socket sock ∧ Browser.l_type x = ty)
         (filter on_socket l)
  = filter (λ x, Browser.l_target x = Browser.Socket sock ∧ Browser.l_type x = ty) l.
Proof.
  induction l as [|x l IH]; [done|].
  rewrite (filter_cons on_socket).
  destruct (decide (on_socket x)) as [Hx|Hx].
  - by rewrite !filter_cons, IH.
  - rewrite IH, filter_cons_False; [done|].
    intros [Ht _]. apply Hx. unfold on_socket. by rewrite Ht.
Qed.

Lemma registered_view ty (k k' : QuizSocket.State) (e e' : Browser.env) :
  QuizSocket.socketRef k' = QuizSocket.socketRef k →
  socket_view e' = socket_view e →
  QuizSocket.registered ty k' e' = QuizSocket.registered ty k e.
Proof.
  intros Href [= Hc Hl]. unfold QuizSocket.registered. rewrite Href, Hc.
  destruct (QuizSocket.socketRef k) as [sock|]; [|done].
  case_decide; [|done].
  by rewrite <- (filter_on_socket sock ty (Browser.listeners e')), Hl,
    filter_on_socket.
Qed.

Lemma handle_iter_time_sync (v : Z) (n : nat) (s : QuizSocket.State) :
  let s' := Nat.iter (S n) (QuizSocket.handle (QuizSocket.TimeSync v)) s in
  QuizSocket.timeRemaining (QuizSocket.quizState s') = Some v ∧
  QuizSocket.isJoined (QuizSocket.quizState s')
    = QuizSocket.isJoined (QuizSocket.quizState s) ∧
  QuizSocket.isConnected s' = QuizSocket.isConnected s.
Proof.
  induction n as [|n IH]; [done|].
  cbn zeta in *. destruct IH as (_ & <- & <-). by rewrite Nat.iter_succ.
Qed.

Lemma receive_time_sync (v : Z) (k : QuizSocket.State) (e : Browser.env) :
  QuizSocket.socket k = QuizSocket.socketRef k →
  (0 < QuizSocket.registered "time_sync" k e)%nat →
  ∃ k', QuizSocket.receive (QuizSocket.TimeSync v) k e = (k', e, []) ∧
        QuizSocket.timeRemaining (QuizSocket.quizState k') = Some v ∧
        QuizSocket.socketRef k' = QuizSocket.socketRef k ∧
        QuizSocket.socket k' = QuizSocket.socketRef k'.
Proof.
  intros Hsock Hreg. unfold QuizSocket.receive. cbn [QuizSocket.event_name].
  destruct (QuizSocket.registered "time_sync" k e) as [|n]; [lia|].
  destruct (handle_iter_time_sync v n k) as (Ht & Hj & Hc).
  destruct (handle_iter_effects (QuizSocket.TimeSync v) (S n) k)
    as (Href & _ & _ & _ & _).
  set (s' := Nat.iter (S n) _ k) in *.
  unfold QuizSocket.render.
  rewrite Href, Hc, Hj, Hsock.
  rewrite !bool_decide_eq_true_2 by done. cbn [negb orb].
  eexists. split; [reflexivity|].
  split_and!; [exact Ht|exact Href|].
  cbn [QuizSocket.socket QuizSocket.socketRef QuizSocket.set_effects].
  by rewrite Href.
Qed.

Lemma settle_view (r : bool) (m : Session.Mounted) (e : Browser.env)
    (cs : list QuizTimer.call) (out : list output) :
  let '(s', e', _) := Session.settle r m e cs out in
  ∀ m', s' = Session.Live m' →
        socket_view e' = socket_view e ∧ Session.sock m' = Session.sock m.
Proof.
  unfold Session.settle.
  assert (H1 : let '(m1, e1, cs1) :=
                 if r then Session.render_children m e else (m, e, []) in
               socket_view e1 = socket_view e ∧ Session.sock m1 = Session.sock m).
  { destruct r; [apply view_render_children|done]. }
  destruct (if r then _ else _) as [[m1 e1] cs1]. destruct H1 as [Hv Hs].
  pose proof (answer_calls_sock m1 (cs ++ cs1)) as Ha.
  destruct (Session.answer_calls m1 (cs ++ cs1)) as [m2 out2]. cbn [fst] in Ha.
  destruct (Session.navigates _).
  - by destruct (Session.unmount m2 e1).
  - intros m' [= <-]. split; [done|congruence].
Qed.

Lemma sync_step (ev : Session.event) (m : Session.Mounted) (e : Browser.env) :
  sync_or_tick ev →
  QuizSocket.socket (Session.sock m) = QuizSocket.socketRef (Session.sock m) →
  (0 < QuizSocket.registered "time_sync" (Session.sock m) e)%nat →
  let '(s1, e1, _) := Session.step_live ev m e in
  ∀ m1, s1 = Session.Live m1 →
    QuizSocket.socket (Session.sock m1) = QuizSocket.socketRef (Session.sock m1) ∧
    (0 < QuizSocket.registered "time_sync" (Session.sock m1) e1)%nat ∧
    QuizSocket.timeRemaining (QuizSocket.quizState (Session.sock m1)) =
      match ev with
      | Session.Channel (QuizSocket.TimeSync v) => Some v
      | _ => QuizSocket.timeRemaining (QuizSocket.quizState (Session.sock m))
      end.
Proof.
  intros Hev Hsock Hreg.
  destruct ev as [| |cev| | | | | | |]; try done; cbn [Session.step_live].
  - destruct cev; try done. cbn [QuizSocket.event_name].
    destruct (receive_time_sync time_remaining (Session.sock m) e Hsock Hreg)
      as (k' & Hrecv & Ht & Href & Hs').
    destruct (QuizSocket.registered "time_sync" (Session.sock m) e) as [|n] eqn:E;
      [lia|].
    rewrite Hrecv.
    pose proof (settle_view
                  (Session.channel_rerenders (QuizSocket.TimeSync time_remaining)
                     (Session.sock m) k')
                  (Session.set_sock k' m) e [] []) as Hv.
    destruct (Session.settle _ (Session.set_sock k' m) e [] []) as [[s1 e1] o1].
    intros m1 Hm1. destruct (Hv m1 Hm1) as [Hview Hk]. cbn in Hk.
    rewrite Hk. split_and!; [done| |done].
    rewrite (registered_view _ (Session.sock m) k' e e1 Href Hview). lia.
  - destruct (Session.timer m) as [t|].
    + pose proof (only_intervals_tick t e) as Ho.
      destruct (QuizTimer.tick t e) as [[t' e0] cs]. cbn [fst snd] in Ho.
      pose proof (settle_view false
                    (Session.mkMounted (Session.page m) (Session.sock m)
                       (Session.wrapper m) (Some t')) e0 cs []) as Hv.
      destruct (Session.settle false _ e0 cs []) as [[s1 e1] o1].
      intros m1 Hm1. destruct (Hv m1 Hm1) as [Hview Hk]. cbn in Hk.
      rewrite Hk. split_and!; [done| |done].
      rewrite (registered_view _ (Session.sock m) (Session.sock m) e e1 eq_refl);
        [done|].
      by rewrite Hview, (view_only_intervals _ _ Ho).
    + by intros m1 [= <-].
Qed.

Lemma run_gone (evs : list Session.event) (e : Browser.env) :
  fst (fst (Session.run evs Session.Gone e)) = Session.Gone.
Proof.
  induction evs as [|ev evs IH]; [done|]. cbn.
  by destruct (Session.run evs Session.Gone e) as [[s2 e2] o2].
Qed.

Lemma last_sync_cons (ev : Session.event) (evs : list Session.event)
    (cur : option Z) :
  match last_sync (ev :: evs) with Some v => Some v | None => cur end =
  match last_sync evs with
  | Some v => Some v
  | None => match ev with
            | Session.Channel (QuizSocket.TimeSync v) => Some v
            | _ => cur
            end
  end.
Proof.
  unfold last_sync. cbn [omap].
  destruct ev as [| |[]| | | | | | |]; cbn; try done.
  rewrite last_cons. by destruct (list.last _).
Qed.

Lemma run_syncs (evs : list Session.event) (m : Session.Mounted)
    (e : Browser.env) :
  QuizSocket.socket (Session.sock m) = QuizSocket.socketRef (Session.sock m) →
  (0 < QuizSocket.registered "time_sync" (Session.sock m) e)%nat →
  Forall sync_or_tick evs →
  ∀ m', fst (fst (Session.run evs (Session.Live m) e)) = Session.Live m' →
    QuizSocket.timeRemaining (QuizSocket.quizState (Session.sock m')) =
      match last_sync evs with
      | Some v => Some v
      | None => QuizSocket.timeRemaining (QuizSocket.quizState (Session.sock m))
      end.
Proof.
  revert m e. induction evs as [|ev evs IH]; intros m e Hsock Hreg Hevs m'.
  - cbn. by intros [= <-].
  - apply list.Forall_cons in Hevs as [Hev Hevs].
    rewrite last_sync_cons. cbn [Session.run Session.step].
    pose proof (sync_step ev m e Hev Hsock Hreg) as H1.
    destruct (Session.step_live ev m e) as [[s1 e1] o1].
    destruct s1 as [m1|].
    + destruct (H1 m1 eq_refl) as (Hs1 & Hr1 & Ht1).
      specialize (IH m1 e1 Hs1 Hr1 Hevs m').
      destruct (Session.run evs (Session.Live m1) e1) as [[s2 e2] o2].
      cbn [fst] in *. intros Hm'. rewrite (IH Hm'), Ht1. done.
    + pose proof (run_gone evs e1) as Hg.
      destruct (Session.run evs Session.Gone e1) as [[s2 e2] o2].
      cbn [fst] in *. by rewrite Hg.
Qed.

(** ** Mounting the timer before any server time *)

Lemma timer_mount_unset cb sync (e : Browser.env) :
  ∃ t e', QuizTimer.mount (QuizTimer.mkProps None (Some cb) sync) e
          = (t, e', [QuizTimer.CallOnTimeUp]) ∧
          QuizTimer.timeRemaining t = 0 ∧
          QuizTimer.countdown t = None ∧
          Browser.active Browser.CountdownTick e'
            = Browser.active Browser.CountdownTick e.
Proof.
  unfold QuizTimer.mount, QuizTimer.resync_effect. cbn.
  destruct sync; cbn; eexists _, _; (split; [reflexivity|]); split_and!; try done.
  unfold Browser.active. cbn. rewrite existsb_app. cbn.
  by rewrite !orb_false_r.
Qed.

Lemma navigates_app (a b : list output) :
  Session.navigates (a ++ b) = Session.navigates a || Session.navigates b.
Proof. apply existsb_app. Qed.

Lemma loaded_before_time (m : Session.Mounted) (e : Browser.env)
    (qs : list QuizPage.question) (index : option Z) (now' : Z) :
  QuizPage.loading (Session.page m) = true →
  QuizPage.error (Session.page m) = ""%string →
  QuizPage.isSubmitting (Session.page m) = false →
  Session.timer m = None →
  QuizSocket.timeRemaining (QuizSocket.quizState (Session.sock m)) = None →
  let '(s, _, out) := Session.step_live (Session.Loaded qs index now') m e in
  s = Session.Gone ∧
  Navigate ("/results/" +:+ JS.template (QuizPage.sessionToken (Session.page m)))
       ∈ out ∧
  ∀ sock, QuizSocket.socketRef (Session.sock m) = Some sock →
          QuizSocket.isConnected (Session.sock m) = true →
          Emit sock "finish_quiz" NoData ∈ out.
Proof.
  intros Hload Herr Hsub Htimer Htime.
  cbn [Session.step_live]. rewrite Hload.
  unfold Session.settle, Session.render_children.
  cbn [Session.page Session.set_page Session.wrapper Session.timer Session.sock].
  assert (Hshow : QuizPage.shows_quiz
                    (QuizPage.loaded qs index now' (Session.page m)) = true).
  { unfold QuizPage.shows_quiz.
    cbn [QuizPage.loaded QuizPage.loading QuizPage.error QuizPage.set_index].
    by rewrite Herr. }
  rewrite Hshow, Htimer, Htime.
  destruct (match Session.wrapper m with
            | Some w => _ | None => _ end) as [w e1].
  destruct (Browser.new_object e1) as [cb1 e2].
  destruct (Browser.new_object e2) as [cb2 e3].
  destruct (timer_mount_unset cb1 (Some cb2) e3) as (t & e4 & -> & _).
  cbn [app Session.answer_calls Session.answer_call Session.page].
  unfold QuizPage.handleTimeUp.
  destruct (handleFinishQuiz_idle (QuizPage.loaded qs index now' (Session.page m)))
    as (p' & -> & _).
  { by cbn. }
  cbn [flat_map Session.perform app Session.sock QuizPage.loaded
       QuizPage.sessionToken QuizPage.set_index].
  rewrite !app_nil_r. rewrite navigates_app. cbn [Session.navigates existsb orb].
  rewrite orb_true_r.
  destruct (Session.unmount _ e4) as [e5 out3].
  split_and!; [done| |].
  - rewrite !elem_of_app. left. right. apply list_elem_of_here.
  - intros sock Href Hconn. rewrite !elem_of_app. left. left.
    unfold QuizSocket.finishQuiz, QuizSocket.emit. rewrite Href, Hconn.
    apply list_elem_of_here.
Qed.

(** C10. Mounted with an unset initial time, the timer starts at 0 and its
    countdown effect calls [onTimeUp] at once, without creating a countdown
    interval.  On the page this happens whenever the quiz data are loaded
    while the synchronizer's time is still unset, that is before
    [quiz_joined] has arrived: the page shows the quiz, the timer mounts
    with [quizState.timeRemaining] still [null], and [handleTimeUp]
    finishes the quiz (emitting [finish_quiz] when connected) and navigates
    to the results, which unmounts the page. *)
Theorem unset_time_expires_at_mount :
  (∀ cb sync e,
     let '(t, e', calls) :=
       QuizTimer.mount (QuizTimer.mkProps None (Some cb) sync) e in
     QuizTimer.timeRemaining t = 0 ∧
     calls = [QuizTimer.CallOnTimeUp] ∧
     QuizTimer.countdown t = None ∧
     Browser.active Browser.CountdownTick e'
       = Browser.active Browser.CountdownTick e) ∧
  (∀ m e qs index now',
     QuizPage.loading (Session.page m) = true →
     QuizPage.error (Session.page m) = ""%string →
     QuizPage.isSubmitting (Session.page m) = false →
     Session.timer m = None →
     QuizSocket.timeRemaining (QuizSocket.quizState (Session.sock m)) = None →
     let '(s, _, out) := Session.step_live (Session.Loaded qs index now') m e in
     s = Session.Gone ∧
     Navigate ("/results/" +:+ JS.template (QuizPage.sessionToken (Session.page m)))
       ∈ out ∧
     ∀ sock, QuizSocket.socketRef (Session.sock m) = Some sock →
             QuizSocket.isConnected (Session.sock m) = true →
             Emit sock "finish_quiz" NoData ∈ out).
Proof.
  split.
  - intros cb sync e.
    by destruct (timer_mount_unset cb sync e) as (t & e' & -> & ? & ? & ?).
  - apply loaded_before_time.
Qed.

Lemma unset_time_expires_at_mount_witness :
  let '(s0, e0, _) :=
    Session.session (Some "tok"%string) (Some "sess"%string) 0
      [Session.Channel QuizSocket.Connect] in
  ∀ m, s0 = Session.Live m →
  let '(s, _, out) :=
    Session.step_live
      (Session.Loaded [QuizPage.mkQuestion (Some "q1"%string)] (Some 0) 5) m e0 in
  s = Session.Gone ∧
  Navigate "/results/sess" ∈ out ∧
  Emit 0 "finish_quiz" NoData ∈ out.
Proof.
  destruct (Session.session _ _ _ _) as [[s0 e0] o0] eqn:E.
  vm_compute in E. injection E as <- He _.
  intros m [= <-].
  match goal with
  | |- context [Session.step_live _ ?m _] =>
      pose proof (proj2 unset_time_expires_at_mount m
                    e0 [QuizPage.mkQuestion (Some "q1"%string)] (Some 0) 5
                    eq_refl eq_refl eq_refl eq_refl eq_refl) as H
  end.
  destruct (Session.step_live _ _ _) as [[s e] out].
  destruct H as (H1 & H2 & H3). split_and!; [exact H1|exact H2|].
  by apply (H3 0%nat).
Defined.

(** * Further properties of the code *)

(** ** The page state across the events of a session *)

Lemma handleFinishQuiz_state (p : QuizPage.State) :
  fst (QuizPage.handleFinishQuiz p) = p.
Proof.
  unfold QuizPage.handleFinishQuiz.
  destruct (QuizPage.isSubmitting p) eqn:E; [done|].
  destruct p. cbn in *. by subst.
Qed.

Lemma answer_calls_page (m : Session.Mounted) (cs : list QuizTimer.call) :
  Session.page (fst (Session.answer_calls m cs)) = Session.page m.
Proof.
  revert m. induction cs as [|c cs IH]; intros m; [done|].
  cbn [Session.answer_calls].
  destruct (Session.answer_call m c) as [m1 o1] eqn:E1.
  specialize (IH m1). destruct (Session.answer_calls m1 cs) as [m2 o2].
  cbn in *. rewrite IH.
  destruct c; cbn in E1.
  - unfold QuizPage.handleTimeUp in E1.
    pose proof (handleFinishQuiz_state (Session.page m)) as H.
    destruct (QuizPage.handleFinishQuiz (Session.page m)) as [p calls].
    injection E1 as <- _. by cbn in *.
  - by injection E1 as <- _.
Qed.

Lemma render_children_page (m : Session.Mounted) (e : Browser.env) :
  Session.page (fst (fst (Session.render_children m e))) = Session.page m.
Proof.
  unfold Session.render_children.
  destruct (QuizPage.shows_quiz (Session.page m)); [|done].
  destruct (match Session.wrapper m with
            | Some w => _ | None => _ end) as [w e1].
  cbn.
  by destruct (match Session.timer m with
               | Some t => _ | None => _ end) as [[t e4] calls].
Qed.

Lemma settle_page (r : bool) (m : Session.Mounted) (e : Browser.env)
    (cs : list QuizTimer.call) (out : list output) :
  ∀ m', fst (fst (Session.settle r m e cs out)) = Session.Live m' →
        Session.page m' = Session.page m.
Proof.
  intros m'. unfold Session.settle.
  pose proof (render_children_page m e) as Hr.
  destruct (if r then Session.render_children m e else (m, e, []))
    as [[m1 e1] cs1] eqn:E1.
  assert (H1 : Session.page m1 = Session.page m).
  { destruct r; [by rewrite E1 in Hr|]. by injection E1 as <- _ _. }
  pose proof (answer_calls_page m1 (cs ++ cs1)) as Ha.
  destruct (Session.answer_calls m1 (cs ++ cs1)) as [m2 out2].
  destruct (Session.navigates (out ++ out2)).
  - by destruct (Session.unmount m2 e1).
  - cbn. intros [= <-]. cbn in Ha. congruence.
Qed.

(** A property of the page state that the end of loading and the user's
    actions on the shown quiz keep is kept by every event of a session. *)
Lemma step_live_page (P : QuizPage.State → Prop) :
  (∀ qs i now p, QuizPage.loading p = true → P p →
                  P (QuizPage.loaded qs i now p)) →
  (∀ msg p, QuizPage.loading p = true → P p → P (QuizPage.load_failed msg p)) →
  (∀ ev p, QuizPage.shows_quiz p = true → P p → P (fst (QuizPage.step ev p))) →
  ∀ ev m e m', P (Session.page m) →
    fst (fst (Session.step_live ev m e)) = Session.Live m' →
    P (Session.page m').
Proof.
  intros Hl Hf Hu ev m e m' HP.
  assert (Hsettle : ∀ r m0 e0 cs out,
             P (Session.page m0) →
             fst (fst (Session.settle r m0 e0 cs out)) = Session.Live m' →
             P (Session.page m')).
  { intros r m0 e0 cs out H0 E. by rewrite (settle_page r m0 e0 cs out m' E). }
  destruct ev; cbn [Session.step_live].
  - destruct (QuizPage.loading _) eqn:Hld; [|by intros [= <-]].
    apply Hsettle. cbn. by apply Hl.
  - destruct (QuizPage.loading _) eqn:Hld; [|by intros [= <-]].
    apply Hsettle. cbn. by apply Hf.
  - destruct (QuizSocket.registered _ _ _); [by intros [= <-]|].
    destruct (QuizSocket.receive _ _ _) as [[k e1] out]. by apply Hsettle.
  - destruct (Session.timer m) as [t|]; [|by intros [= <-]].
    destruct (QuizTimer.tick t e) as [[t' e1] cs]. by apply Hsettle.
  - destruct (Session.timer m) as [t|]; [|by intros [= <-]].
    destruct (QuizTimer.resync_tick t e) as [[t' e1] cs]. by apply Hsettle.
  - by apply Hsettle.
  - destruct (Session.wrapper m) as [w|]; [|by intros [= <-]].
    destruct (SecurityWrapper.blur w e) as [w' out]. by apply Hsettle.
  - destruct (Session.wrapper m) as [w|]; [|by intros [= <-]].
    destruct (SecurityWrapper.focus w e) as [w' out]. by apply Hsettle.
  - destruct (QuizPage.shows_quiz _) eqn:Hsh; [|by intros [= <-]].
    pose proof (Hu ev _ Hsh HP) as H1.
    destruct (QuizPage.step ev (Session.page m)) as [p calls]. by apply Hsettle.
  - by destruct (Session.unmount m e).
Qed.

Lemma run_page (P : QuizPage.State → Prop) :
  (∀ qs i now p, QuizPage.loading p = true → P p →
                  P (QuizPage.loaded qs i now p)) →
  (∀ msg p, QuizPage.loading p = true → P p → P (QuizPage.load_failed msg p)) →
  (∀ ev p, QuizPage.shows_quiz p = true → P p → P (fst (QuizPage.step ev p))) →
  ∀ evs m e m', P (Session.page m) →
    fst (fst (Session.run evs (Session.Live m) e)) = Session.Live m' →
    P (Session.page m').
Proof.
  intros Hl Hf Hu evs. induction evs as [|ev evs IH]; intros m e m' HP.
  { cbn. by intros [= <-]. }
  cbn [Session.run Session.step].
  pose proof (step_live_page P Hl Hf Hu ev m e) as H1.
  destruct (Session.step_live ev m e) as [[s1 e1] o1].
  destruct s1 as [m1|].
  - specialize (IH m1 e1 m' (H1 m1 HP eq_refl)).
    by destruct (Session.run evs (Session.Live m1) e1) as [[s2 e2] o2].
  - pose proof (run_gone evs e1) as Hg.
    destruct (Session.run evs Session.Gone e1) as [[s2 e2] o2].
    cbn in *. by subst.
Qed.

(** ** The violation counter of the page is never driven *)

Lemma page_step_warnings (ev : QuizPage.event) (p : QuizPage.State) :
  QuizPage.warningCount (fst (QuizPage.step ev p)) = QuizPage.warningCount p ∧
  QuizPage.showSecurityWarning (fst (QuizPage.step ev p))
    = QuizPage.showSecurityWarning p.
Proof.
  destruct ev; cbn [QuizPage.step].
  - unfold QuizPage.handleAnswerSelect. by destruct (negb _).
  - unfold QuizPage.handleNextQuestion. by destruct (_ <? _).
  - unfold QuizPage.handlePreviousQuestion. by destruct (_ >? _).
  - unfold QuizPage.goTo. by destruct (decide _).
  - by rewrite handleFinishQuiz_state.
  - done.
Qed.

Lemma blur_logs (w : SecurityWrapper.State) (e : Browser.env) :
  Forall console (snd (SecurityWrapper.blur w e)).
Proof.
  unfold SecurityWrapper.blur. destruct (SecurityWrapper.blur_effect w) as [mo|];
    [|by constructor].
  destruct (decide _); [|by constructor].
  cbn. unfold SecurityWrapper.TabSwitchDetected_or_more.
  destruct (_ >=? _); repeat constructor.
Qed.

Lemma console_navigates (out : list output) :
  Forall console out → Session.navigates out = false.
Proof.
  unfold Session.navigates. induction 1 as [|o out Ho _ IH]; [done|].
  cbn. rewrite IH. by destruct o.
Qed.

(** X1. No event of a session calls [handleSecurityViolation]: the page's
    violation counter stays at 0 and its warning stays hidden for as long
    as the page is mounted.  A window blur is counted inside
    SecurityWrapper only: it leaves the page, the hook and the timer as
    they are and the browser untouched, and produces console messages and
    nothing else, so it never finishes the quiz. *)
Theorem violation_counter_never_driven :
  (∀ tok sess now evs,
     match fst (fst (Session.session tok sess now evs)) with
     | Session.Live m =>
         QuizPage.warningCount (Session.page m) = 0 ∧
         QuizPage.showSecurityWarning (Session.page m) = false
     | Session.Gone => True
     end) ∧
  (∀ m e,
     let '(s', e', out) := Session.step_live Session.WindowBlur m e in
     e' = e ∧ Forall console out ∧
     ∃ m', s' = Session.Live m' ∧
           Session.page m' = Session.page m ∧
           Session.sock m' = Session.sock m ∧
           Session.timer m' = Session.timer m).
Proof.
  split.
  - intros tok sess now evs. unfold Session.session, Session.mount.
    destruct (QuizSocket.mount tok sess Browser.empty) as [[k e0] o0].
    pose proof (run_page
                  (λ p, QuizPage.warningCount p = 0 ∧
                        QuizPage.showSecurityWarning p = false)) as H.
    specialize (H ltac:(done) ltac:(done)).
    specialize (H ltac:(by intros ev p _ [<- <-]; apply page_step_warnings)).
    specialize (H evs (Session.mkMounted (QuizPage.initial sess now) k None None) e0).
    destruct (Session.run evs _ e0) as [[s1 e1] o1]. cbn [fst] in *.
    destruct s1 as [m|]; [|done]. by apply H.
  - intros m e. cbn [Session.step_live].
    destruct (Session.wrapper m) as [w|] eqn:Hw.
    + pose proof (blur_logs w e) as Hlog.
      destruct (SecurityWrapper.blur w e) as [w' out]. cbn [snd] in Hlog.
      unfold Session.settle. cbn [app Session.answer_calls].
      rewrite app_nil_r, (console_navigates out Hlog).
      split_and!; [done|done|]. by eexists.
    + split_and!; [done|constructor|]. by eexists.
Qed.

(** ** The guard against a double submission *)

Lemma page_step_idle (ev : QuizPage.event) (p : QuizPage.State) :
  QuizPage.isSubmitting (fst (QuizPage.step ev p)) = QuizPage.isSubmitting p ∧
  QuizPage.sessionToken (fst (QuizPage.step ev p)) = QuizPage.sessionToken p.
Proof.
  destruct ev; cbn [QuizPage.step].
  - unfold QuizPage.handleAnswerSelect. by destruct (negb _).
  - unfold QuizPage.handleNextQuestion. by destruct (_ <? _).
  - unfold QuizPage.handlePreviousQuestion. by destruct (_ >? _).
  - unfold QuizPage.goTo. by destruct (decide _).
  - by rewrite handleFinishQuiz_state.
  - done.
Qed.

(** X2. [handleFinishQuiz] sets [isSubmitting] and resets it in the same
    call, so no render of a session ever sees it set: the guard of line
    124 never stops a call, and the Finish button of a page that shows the
    quiz always sends the page to the results of its session, which
    unmounts it. *)
Theorem submission_guard_never_engages :
  (∀ tok sess now evs,
     match fst (fst (Session.session tok sess now evs)) with
     | Session.Live m =>
         QuizPage.isSubmitting (Session.page m) = false ∧
         QuizPage.sessionToken (Session.page m) = sess
     | Session.Gone => True
     end) ∧
  (∀ p, fst (QuizPage.handleFinishQuiz p) = p) ∧
  (∀ m e,
     QuizPage.isSubmitting (Session.page m) = false →
     QuizPage.shows_quiz (Session.page m) = true →
     let '(s', _, out) :=
       Session.step_live (Session.User QuizPage.Finish) m e in
     s' = Session.Gone ∧
     Navigate ("/results/" +:+ JS.template (QuizPage.sessionToken (Session.page m)))
       ∈ out).
Proof.
  split_and!.
  - intros tok sess now evs. unfold Session.session, Session.mount.
    destruct (QuizSocket.mount tok sess Browser.empty) as [[k e0] o0].
    pose proof (run_page
                  (λ p, QuizPage.isSubmitting p = false ∧
                        QuizPage.sessionToken p = sess)) as H.
    specialize (H ltac:(done) ltac:(done)).
    specialize (H ltac:(by intros ev p _ [<- <-]; apply page_step_idle)).
    specialize (H evs (Session.mkMounted (QuizPage.initial sess now) k None None) e0).
    destruct (Session.run evs _ e0) as [[s1 e1] o1]. cbn [fst] in *.
    destruct s1 as [m|]; [|done]. by apply H.
  - apply handleFinishQuiz_state.
  - intros m e Hidle Hshow. cbn [Session.step_live QuizPage.step]. rewrite Hshow.
    destruct (handleFinishQuiz_idle (Session.page m) Hidle) as (p' & -> & _).
    cbn [Session.user_rerenders flat_map Session.perform app].
    unfold Session.settle. cbn [app Session.answer_calls].
    rewrite !app_nil_r, navigates_app. cbn [Session.navigates existsb orb].
    rewrite orb_true_r.
    destruct (Session.unmount _ e) as [e2 out3].
    split; [done|]. rewrite !elem_of_app. left. right. apply list_elem_of_here.
Qed.

Lemma submission_guard_never_engages_witness :
  let '(s0, e0, _) :=
    Session.session (Some "tok"%string) (Some "sess"%string) 0
      [Session.Channel QuizSocket.Connect;
       Session.Channel (QuizSocket.QuizJoined (QuizSocket.mkQuizJoined 125 0 2));
       Session.Loaded [QuizPage.mkQuestion (Some "q1"%string)] (Some 0) 0] in
  ∀ m, s0 = Session.Live m →
  let '(s', _, out) := Session.step_live (Session.User QuizPage.Finish) m e0 in
  s' = Session.Gone ∧ Navigate "/results/sess" ∈ out.
Proof.
  destruct (Session.session _ _ _ _) as [[s0 e0] o0] eqn:E.
  vm_compute in E. injection E as <- He _.
  intros m [= <-].
  match goal with
  | |- context [Session.step_live _ ?m _] =>
      pose proof (proj2 (proj2 submission_guard_never_engages) m e0
                    eq_refl eq_refl) as H
  end.
  destruct (Session.step_live _ _ _) as [[s e] out].
  exact H.
Defined.

(** ** Inbound events and the page's own question index *)

Lemma handle_iter_question_changed (i : Z) (n : nat) (s : QuizSocket.State) :
  QuizSocket.currentQuestionIndex
    (QuizSocket.quizState
       (Nat.iter (S n) (QuizSocket.handle (QuizSocket.QuestionChanged i)) s)) = i.
Proof. by rewrite Nat.iter_succ. Qed.

(** X3. The page renders from its own [currentQuestionIndex]; nothing that
    arrives on the channel changes the page state.  A [question_changed]
    event stores its index in the synchronizer's [quizState], which the
    page never reads, and leaves the question on the screen where it
    was. *)
Theorem channel_leaves_page_alone :
  (∀ cev m e,
     match fst (fst (Session.step_live (Session.Channel cev) m e)) with
     | Session.Live m' => Session.page m' = Session.page m
     | Session.Gone => True
     end) ∧
  (∀ i m e,
     (0 < QuizSocket.registered "question_changed" (Session.sock m) e)%nat →
     match fst (fst (Session.step_live
                       (Session.Channel (QuizSocket.QuestionChanged i)) m e)) with
     | Session.Live m' =>
         QuizSocket.currentQuestionIndex
           (QuizSocket.quizState (Session.sock m')) = i ∧
         QuizPage.currentQuestionIndex (Session.page m')
           = QuizPage.currentQuestionIndex (Session.page m)
     | Session.Gone => True
     end).
Proof.
  assert (Hpage : ∀ cev m e,
     match fst (fst (Session.step_live (Session.Channel cev) m e)) with
     | Session.Live m' => Session.page m' = Session.page m
     | Session.Gone => True
     end).
  { intros cev m e. cbn [Session.step_live].
    destruct (QuizSocket.registered _ _ _); [done|].
    destruct (QuizSocket.receive _ _ _) as [[k e1] out].
    pose proof (settle_page (Session.channel_rerenders cev (Session.sock m) k)
                  (Session.set_sock k m) e1 [] out) as H.
    destruct (fst (fst (Session.settle _ _ e1 [] out))) as [m'|]; [|done].
    by rewrite (H m' eq_refl). }
  split; [exact Hpage|].
  intros i m e Hreg. specialize (Hpage (QuizSocket.QuestionChanged i) m e).
  cbn [Session.step_live QuizSocket.event_name] in *.
  unfold QuizSocket.receive in *. cbn [QuizSocket.event_name] in *.
  destruct (QuizSocket.registered "question_changed" (Session.sock m) e) as [|n];
    [lia|].
  pose proof (socket_render_cells (Session.sock m)
                (Nat.iter (S n) (QuizSocket.handle (QuizSocket.QuestionChanged i))
                   (Session.sock m)) e) as Hc.
  destruct (QuizSocket.render _ _ e) as [[k e1] out].
  destruct Hc as (Hq & _). cbn [fst] in Hq.
  pose proof (settle_sock
                (Session.channel_rerenders (QuizSocket.QuestionChanged i)
                   (Session.sock m) k)
                (Session.set_sock k m) e1 [] out) as H.
  destruct (fst (fst (Session.settle _ _ e1 [] out))) as [m'|]; [|done].
  rewrite (H m' eq_refl), Hpage. cbn [Session.set_sock Session.sock].
  by rewrite Hq, handle_iter_question_changed.
Qed.

Lemma channel_leaves_page_alone_witness :
  let '(s0, e0, _) :=
    Session.session (Some "tok"%string) (Some "sess"%string) 0
      [Session.Channel QuizSocket.Connect;
       Session.Channel (QuizSocket.QuizJoined (QuizSocket.mkQuizJoined 125 0 2));
       Session.Loaded [QuizPage.mkQuestion (Some "q1"%string);
                       QuizPage.mkQuestion (Some "q2"%string)] (Some 0) 0] in
  ∀ m, s0 = Session.Live m →
  match fst (fst (Session.step_live
                    (Session.Channel (QuizSocket.QuestionChanged 1)) m e0)) with
  | Session.Live m' =>
      QuizSocket.currentQuestionIndex (QuizSocket.quizState (Session.sock m')) = 1 ∧
      QuizPage.currentQuestionIndex (Session.page m') = 0
  | Session.Gone => True
  end.
Proof.
  destruct (Session.session _ _ _ _) as [[s0 e0] o0] eqn:E.
  vm_compute in E. injection E as <- He _.
  intros m [= <-].
  match goal with
  | |- context [Session.step_live _ ?m _] =>
      pose proof (proj2 channel_leaves_page_alone 1 m e0) as H
  end.
  apply H. rewrite <- He. vm_compute. lia.
Defined.

(** ** Next and Previous *)

(** X4. Next and Previous undo each other inside the list of questions and
    tell the server each new index; at the last question Next does
    nothing, at the first one Previous does nothing.  The buttons of the
    navigation grid change the index without telling the server. *)
Theorem next_previous_round_trip (s : QuizPage.State) (t1 t2 : Z) :
  let i := QuizPage.currentQuestionIndex s in
  let n := Z.of_nat (length (QuizPage.questions s)) in
  (0 <= i < n - 1 →
   let '(s', calls) := QuizPage.run [QuizPage.Next t1; QuizPage.Previous t2] s in
   QuizPage.currentQuestionIndex s' = i ∧
   calls = [QuizPage.CallNextQuestion (i + 1); QuizPage.CallNextQuestion i]) ∧
  (0 < i <= n - 1 →
   let '(s', calls) := QuizPage.run [QuizPage.Previous t1; QuizPage.Next t2] s in
   QuizPage.currentQuestionIndex s' = i ∧
   calls = [QuizPage.CallNextQuestion (i - 1); QuizPage.CallNextQuestion i]) ∧
  (n - 1 <= i → QuizPage.handleNextQuestion t1 s = (s, [])) ∧
  (i <= 0 → QuizPage.handlePreviousQuestion t1 s = (s, [])) ∧
  (∀ k, snd (QuizPage.goTo k t1 s) = [] ∧
        ((k < length (QuizPage.questions s))%nat →
         QuizPage.currentQuestionIndex (fst (QuizPage.goTo k t1 s)) = Z.of_nat k)).
Proof.
  cbn zeta. split_and!.
  - intros Hi. cbn [QuizPage.run QuizPage.step].
    unfold QuizPage.handleNextQuestion.
    destruct (Z.ltb_spec (QuizPage.currentQuestionIndex s)
                (Z.of_nat (length (QuizPage.questions s)) - 1)); [|lia].
    unfold QuizPage.handlePreviousQuestion.
    cbn [QuizPage.set_index QuizPage.currentQuestionIndex].
    destruct (Z.gtb_spec (QuizPage.currentQuestionIndex s + 1) 0); [|lia].
    cbn. split; [lia|]. do 2 f_equal. f_equal. lia.
  - intros Hi. cbn [QuizPage.run QuizPage.step].
    unfold QuizPage.handlePreviousQuestion.
    destruct (Z.gtb_spec (QuizPage.currentQuestionIndex s) 0); [|lia].
    unfold QuizPage.handleNextQuestion.
    cbn [QuizPage.set_index QuizPage.currentQuestionIndex QuizPage.questions].
    destruct (Z.ltb_spec (QuizPage.currentQuestionIndex s - 1)
                (Z.of_nat (length (QuizPage.questions s)) - 1)); [|lia].
    cbn. split; [lia|]. do 2 f_equal. f_equal. lia.
  - intros Hi. unfold QuizPage.handleNextQuestion.
    by destruct (Z.ltb_spec (QuizPage.currentQuestionIndex s)
                   (Z.of_nat (length (QuizPage.questions s)) - 1)); [lia|].
  - intros Hi. unfold QuizPage.handlePreviousQuestion.
    by destruct (Z.gtb_spec (QuizPage.currentQuestionIndex s) 0); [lia|].
  - intros k. unfold QuizPage.goTo. destruct (decide _); [done|].
    split; [done|]. intros. lia.
Qed.

Lemma next_previous_round_trip_witness :
  let s := QuizPage.loaded [QuizPage.mkQuestion (Some "q1"%string);
                            QuizPage.mkQuestion (Some "q2"%string)]
                           (Some 0) 0 (QuizPage.initial (Some "s"%string) 0) in
  let '(s', calls) := QuizPage.run [QuizPage.Next 5; QuizPage.Previous 9] s in
  QuizPage.currentQuestionIndex s' = 0 ∧
  calls = [QuizPage.CallNextQuestion 1; QuizPage.CallNextQuestion 0].
Proof.
  apply (next_previous_round_trip
           (QuizPage.loaded [QuizPage.mkQuestion (Some "q1"%string);
                             QuizPage.mkQuestion (Some "q2"%string)]
                            (Some 0) 0 (QuizPage.initial (Some "s"%string) 0)) 5 9).
  cbn. lia.
Defined.

(** ** Invariants of a running session *)

Lemma run_gone_out (evs : list Session.event) (e : Browser.env) :
  Session.run evs Session.Gone e = (Session.Gone, e, []).
Proof.
  induction evs as [|ev evs IH]; [done|]. cbn. by rewrite IH.
Qed.

(** A property [I] of the mounted page and the browser that every allowed
    event keeps, together with a property [Q] of what each such event
    outputs, holds along every run of allowed events. *)
Lemma run_invariant (E : Session.event → Prop)
    (I : Session.Mounted → Browser.env → Prop) (Q : output → Prop) :
  (∀ ev m e, E ev → session_ok m e → I m e →
     let '(s', e', out) := Session.step_live ev m e in
     Forall Q out ∧ ∀ m', s' = Session.Live m' → I m' e') →
  ∀ evs m e, Forall E evs → session_ok m e → I m e →
     let '(s', e', out) := Session.run evs (Session.Live m) e in
     Forall Q out ∧ ∀ m', s' = Session.Live m' → session_ok m' e' ∧ I m' e'.
Proof.
  intros Hstep evs. induction evs as [|ev evs IH]; intros m e Hevs Hok HI.
  { cbn. split; [constructor|]. by intros m' [= <-]. }
  apply list.Forall_cons in Hevs as [Hev Hevs].
  cbn [Session.run Session.step].
  pose proof (Hstep ev m e Hev Hok HI) as H1.
  pose proof (step_live_ok ev m e Hok) as Hok1.
  destruct (Session.step_live ev m e) as [[s1 e1] o1].
  destruct H1 as [HQ1 HI1]. destruct s1 as [m1|].
  - specialize (IH m1 e1 Hevs Hok1 (HI1 m1 eq_refl)).
    destruct (Session.run evs (Session.Live m1) e1) as [[s2 e2] o2].
    destruct IH as [HQ2 HI2]. split; [|done]. by apply Forall_app.
  - rewrite run_gone_out. split; [by rewrite app_nil_r|done].
Qed.

Lemma session_invariant (E : Session.event → Prop)
    (I : Session.Mounted → Browser.env → Prop) (Q : output → Prop)
    tok sess now (evs : list Session.event) :
  (∀ ev m e, E ev → session_ok m e → I m e →
     let '(s', e', out) := Session.step_live ev m e in
     Forall Q out ∧ ∀ m', s' = Session.Live m' → I m' e') →
  (let '(s0, e0, out0) := Session.mount tok sess now in
   Forall Q out0 ∧ ∀ m0, s0 = Session.Live m0 → I m0 e0) →
  Forall E evs →
  let '(s', e', out) := Session.session tok sess now evs in
  Forall Q out ∧ ∀ m', s' = Session.Live m' → session_ok m' e' ∧ I m' e'.
Proof.
  intros Hstep H0 Hevs. unfold Session.session.
  pose proof (session_state_ok tok sess now []) as Hok0.
  unfold Session.session in Hok0. cbn [Session.run] in Hok0.
  destruct (Session.mount tok sess now) as [[s0 e0] out0] eqn:Em.
  destruct H0 as [HQ0 HI0].
  assert (∃ m0, s0 = Session.Live m0) as [m0 ->].
  { unfold Session.mount in Em.
    destruct (QuizSocket.mount tok sess Browser.empty) as [[k e] out].
    injection Em as <- _ _. by eexists. }
  pose proof (run_invariant E I Q Hstep evs m0 e0 Hevs Hok0 (HI0 m0 eq_refl)) as H.
  destruct (Session.run evs (Session.Live m0) e0) as [[s1 e1] o1].
  destruct H as [HQ1 HI1]. split; [|done]. by apply Forall_app.
Qed.

(** ** What the outputs of an event send on the channel *)

Lemma emitted_app (a b : list output) :
  emitted (a ++ b) = emitted a ++ emitted b.
Proof. apply omap_app. Qed.

Lemma emitted_emit c k name d :
  emitted (QuizSocket.emit c k name d) ⊆ [name].
Proof.
  unfold QuizSocket.emit.
  destruct (QuizSocket.socketRef k); [|apply list_subseteq_nil].
  destruct c; [done|apply list_subseteq_nil].
Qed.

Lemma navigates_emit c k name d :
  Session.navigates (QuizSocket.emit c k name d) = false.
Proof.
  unfold QuizSocket.emit. destruct (QuizSocket.socketRef k); [|done].
  by destruct c.
Qed.

Lemma answer_calls_emitted (m : Session.Mounted) (cs : list QuizTimer.call) :
  emitted (snd (Session.answer_calls m cs)) ⊆ call_event <$> cs.
Proof.
  revert m. induction cs as [|c cs IH]; intros m; [done|].
  cbn [Session.answer_calls].
  destruct (Session.answer_call m c) as [m1 o1] eqn:E1.
  specialize (IH m1). destruct (Session.answer_calls m1 cs) as [m2 o2].
  cbn [snd] in *. rewrite emitted_app, fmap_cons.
  intros x [Hx|Hx]%elem_of_app; [|right; by apply IH].
  destruct c; cbn in E1.
  - unfold QuizPage.handleTimeUp, QuizPage.handleFinishQuiz in E1.
    destruct (QuizPage.isSubmitting _); injection E1 as <- <-;
      [cbn in Hx; by apply elem_of_nil in Hx|].
    cbn [flat_map Session.perform app] in Hx.
    rewrite emitted_app in Hx. apply elem_of_app in Hx as [Hx|Hx].
    + apply emitted_emit in Hx. apply list_elem_of_singleton in Hx as ->. left.
    + cbn in Hx. by apply elem_of_nil in Hx.
  - injection E1 as <- <-. apply emitted_emit in Hx.
    apply list_elem_of_singleton in Hx as ->. left.
Qed.

Lemma answer_calls_sync (m : Session.Mounted) (cs : list QuizTimer.call) :
  Forall (λ c, c = QuizTimer.CallOnTimeSync) cs →
  Session.navigates (snd (Session.answer_calls m cs)) = false.
Proof.
  revert m. induction cs as [|c cs IH]; intros m Hcs; [done|].
  apply list.Forall_cons in Hcs as [-> Hcs].
  cbn [Session.answer_calls Session.answer_call].
  specialize (IH m Hcs). destruct (Session.answer_calls m cs) as [m2 o2].
  cbn [snd] in *. rewrite navigates_app, IH.
  unfold QuizSocket.requestTimeSync. by rewrite navigates_emit.
Qed.

Lemma countdown_effect_calls tr p e :
  Forall (λ c, c = QuizTimer.CallOnTimeUp)
         (snd (QuizTimer.countdown_effect tr p e)).
Proof.
  unfold QuizTimer.countdown_effect. destruct (_ <=? _); cbn.
  - destruct (QuizTimer.supplied _); repeat constructor.
  - constructor.
Qed.

Lemma timer_render_calls p' tr' w' c' t e :
  Forall (λ c, c = QuizTimer.CallOnTimeUp)
         (snd (QuizTimer.render p' tr' w' c' t e)).
Proof.
  unfold QuizTimer.render.
  set (d1 := negb (QuizTimer.opt_eqb _ (QuizTimer.initialTimeRemaining p'))).
  set (d2 := negb (QuizTimer.timeRemaining t =? tr') || _).
  set (d3 := negb (QuizTimer.opt_eqb _ (QuizTimer.onTimeSync p'))).
  set (e1 := if d2 then _ else e).
  set (e2 := if d3 then _ else e1).
  assert (H1 : Forall (λ c, c = QuizTimer.CallOnTimeUp)
                 (snd (if d2 then QuizTimer.countdown_effect tr' p' e2
                       else (QuizTimer.countdown t, e2, [])))).
  { destruct d2; [apply countdown_effect_calls|constructor]. }
  destruct (if d2 then QuizTimer.countdown_effect tr' p' e2 else _)
    as [[cd e3] c1]. cbn [snd] in H1.
  destruct (if d3 then QuizTimer.resync_effect p' e3 else _) as [rs e4].
  destruct (if d1 then _ else None) as [v|]; [|done].
  destruct (v =? tr'); [done|].
  pose proof (countdown_effect_calls v p' (Browser.clear cd e4)) as H2.
  destruct (QuizTimer.countdown_effect v p' _) as [[cd' e5] c2].
  cbn [snd] in *. by apply Forall_app.
Qed.

Lemma timer_mount_calls p e :
  Forall (λ c, c = QuizTimer.CallOnTimeUp) (snd (QuizTimer.mount p e)).
Proof.
  unfold QuizTimer.mount.
  pose proof (countdown_effect_calls (JS.or_zero (QuizTimer.initialTimeRemaining p))
                p e) as H1.
  destruct (QuizTimer.countdown_effect _ p e) as [[cd e1] c1]. cbn [snd] in H1.
  destruct (QuizTimer.resync_effect p e1) as [rs e2].
  destruct (QuizTimer.sync_effect p) as [v|]; [|done].
  destruct (v =? _); [done|].
  pose proof (countdown_effect_calls v p (Browser.clear cd e2)) as H2.
  destruct (QuizTimer.countdown_effect v p _) as [[cd' e3] c2].
  cbn [snd] in *. by apply Forall_app.
Qed.

Lemma timer_tick_calls t e :
  Forall (λ c, c = QuizTimer.CallOnTimeUp) (snd (QuizTimer.tick t e)).
Proof.
  unfold QuizTimer.tick. destruct (negb _); [constructor|].
  destruct (QuizTimer.classify _) as [w c].
  pose proof (timer_render_calls (QuizTimer.props t)
                (JS.max 0 (QuizTimer.timeRemaining t - 1)) w c t e) as H.
  destruct (QuizTimer.render _ _ w c t e) as [[t' e'] c1]. cbn [snd] in *.
  apply Forall_app. split; [|done].
  destruct (_ && _); repeat constructor.
Qed.

Lemma render_children_calls (m : Session.Mounted) (e : Browser.env) :
  Forall (λ c, c = QuizTimer.CallOnTimeUp) (snd (Session.render_children m e)).
Proof.
  unfold Session.render_children.
  destruct (QuizPage.shows_quiz _); [|constructor].
  destruct (match Session.wrapper m with
            | Some w => _ | None => _ end) as [w e1].
  destruct (Browser.new_object e1) as [cb1 e2].
  destruct (Browser.new_object e2) as [cb2 e3].
  destruct (Session.timer m) as [t|];
    [destruct (Session.children_move _ _)|].
  - pose proof (timer_mount_calls
                  (QuizTimer.mkProps
                     (QuizSocket.timeRemaining (QuizSocket.quizState (Session.sock m)))
                     (Some cb1) (Some cb2)) (QuizTimer.unmount t e3)) as H.
    by destruct (QuizTimer.mount _ _) as [[t' e4] calls].
  - pose proof (timer_render_calls
                  (QuizTimer.mkProps
                     (QuizSocket.timeRemaining (QuizSocket.quizState (Session.sock m)))
                     (Some cb1) (Some cb2))
                  (QuizTimer.timeRemaining t) (QuizTimer.isWarning t)
                  (QuizTimer.isCritical t) t e3) as H.
    unfold QuizTimer.rerender.
    by destruct (QuizTimer.render _ _ _ _ t e3) as [[t' e4] calls].
  - pose proof (timer_mount_calls
                  (QuizTimer.mkProps
                     (QuizSocket.timeRemaining (QuizSocket.quizState (Session.sock m)))
                     (Some cb1) (Some cb2)) e3) as H.
    by destruct (QuizTimer.mount _ e3) as [[t' e4] calls].
Qed.

Lemma join_cleanup_emitted j k e :
  emitted (snd (QuizSocket.join_cleanup j k e)) ⊆ ["leave_quiz"].
Proof.
  unfold QuizSocket.join_cleanup. cbn [snd].
  destruct (QuizSocket.seen_isJoined j); [apply emitted_emit|apply list_subseteq_nil].
Qed.

Lemma join_setup_emitted sk k e :
  emitted (snd (QuizSocket.join_setup sk k e)) ⊆ ["join_quiz"].
Proof.
  unfold QuizSocket.join_setup. destruct (_ || _); [apply list_subseteq_nil|].
  repeat (destruct (Browser.new_object _) as [? ?]).
  cbn [snd]. apply emitted_emit.
Qed.

Lemma socket_unmount_emitted k e :
  emitted (snd (QuizSocket.unmount k e)) ⊆ ["leave_quiz"].
Proof.
  unfold QuizSocket.unmount. destruct (QuizSocket.join_effect k) as [j|].
  - pose proof (join_cleanup_emitted j k
                  (QuizSocket.connect_cleanup (QuizSocket.connect_effect k) e)) as H.
    by destruct (QuizSocket.join_cleanup j k _) as [e2 out].
  - apply list_subseteq_nil.
Qed.

Lemma session_unmount_emitted m e :
  emitted (snd (Session.unmount m e)) ⊆ ["leave_quiz"].
Proof. unfold Session.unmount. apply socket_unmount_emitted. Qed.

Lemma socket_render_emitted old s e :
  emitted (snd (QuizSocket.render old s e)) ⊆ ["leave_quiz"; "join_quiz"].
Proof.
  unfold QuizSocket.render.
  set (d1 := negb _ || negb _). set (d2 := d1 || _).
  assert (H1 : emitted (snd (if d1 then
                               match QuizSocket.join_effect old with
                               | Some j => QuizSocket.join_cleanup j s e
                               | None => (e, [])
                               end
                             else (e, []))) ⊆ ["leave_quiz"]).
  { destruct d1; [|apply list_subseteq_nil].
    destruct (QuizSocket.join_effect old);
      [apply join_cleanup_emitted|apply list_subseteq_nil]. }
  destruct (if d1 then match QuizSocket.join_effect old with _ => _ end else _)
    as [e1 o1].
  set (e2 := if d2 then _ else _).
  assert (H2 : emitted (snd (if d1 then QuizSocket.join_setup (QuizSocket.socketRef s) s e2
                             else (QuizSocket.join_effect old, e2, [])))
               ⊆ ["join_quiz"]).
  { destruct d1; [apply join_setup_emitted|apply list_subseteq_nil]. }
  destruct (if d1 then QuizSocket.join_setup _ s e2 else _) as [[j e3] o2].
  destruct (if d2 then QuizSocket.resync_setup _ s e3 else _) as [r e4].
  cbn [snd] in *. rewrite emitted_app.
  intros x [Hx|Hx]%elem_of_app.
  - apply H1 in Hx. apply list_elem_of_singleton in Hx as ->. left.
  - apply H2 in Hx. apply list_elem_of_singleton in Hx as ->. right. left.
Qed.

Lemma receive_emitted ev k e :
  emitted (snd (QuizSocket.receive ev k e)) ⊆ ["leave_quiz"; "join_quiz"].
Proof.
  unfold QuizSocket.receive.
  destruct (QuizSocket.registered _ _ _); [apply list_subseteq_nil|].
  apply socket_render_emitted.
Qed.

(** What the end of an event can send: what was already to be sent, what
    answering the calls sends, and [leave_quiz] from the clean-up when the
    page is left. *)
Lemma settle_emitted (r : bool) (m : Session.Mounted) (e : Browser.env)
    (cs : list QuizTimer.call) (out : list output) :
  emitted (snd (Session.settle r m e cs out))
  ⊆ emitted out ++ (call_event <$> cs) ++ ["finish_quiz"; "leave_quiz"].
Proof.
  unfold Session.settle.
  pose proof (render_children_calls m e) as Hr.
  destruct (if r then Session.render_children m e else (m, e, []))
    as [[m1 e1] cs1] eqn:E1.
  assert (H1 : Forall (λ c, c = QuizTimer.CallOnTimeUp) cs1).
  { destruct r; [by rewrite E1 in Hr|]. injection E1 as _ _ <-. constructor. }
  pose proof (answer_calls_emitted m1 (cs ++ cs1)) as Ha.
  destruct (Session.answer_calls m1 (cs ++ cs1)) as [m2 out2]. cbn [snd] in Ha.
  assert (H2 : emitted (out ++ out2)
               ⊆ emitted out ++ (call_event <$> cs) ++ ["finish_quiz"; "leave_quiz"]).
  { rewrite emitted_app. intros x [Hx|Hx]%elem_of_app.
    - apply elem_of_app. by left.
    - apply Ha in Hx. rewrite fmap_app in Hx. apply elem_of_app in Hx as [Hx|Hx].
      + rewrite !elem_of_app. right. by left.
      + apply list_elem_of_fmap in Hx as (c & -> & Hc).
        rewrite list.Forall_forall in H1. rewrite (H1 c Hc).
        rewrite !elem_of_app. right. right. left. }
  destruct (Session.navigates _); [|exact H2].
  pose proof (session_unmount_emitted m2 e1) as Hu.
  destruct (Session.unmount m2 e1) as [e2 out3]. cbn [snd] in *.
  rewrite emitted_app. intros x [Hx|Hx]%elem_of_app; [by apply H2|].
  apply Hu in Hx. apply list_elem_of_singleton in Hx as ->.
  rewrite !elem_of_app. right. right. right. left.
Qed.

(** An event that renders nothing and only asks for the time leaves the
    page mounted. *)
Lemma settle_quiet (m : Session.Mounted) (e : Browser.env)
    (cs : list QuizTimer.call) (out : list output) :
  Forall (λ c, c = QuizTimer.CallOnTimeSync) cs →
  Session.navigates out = false →
  ∃ m', Session.settle false m e cs out
        = (Session.Live m', e, out ++ snd (Session.answer_calls m cs)).
Proof.
  intros Hcs Hout. unfold Session.settle. rewrite app_nil_r.
  pose proof (answer_calls_sync m cs Hcs) as Hn.
  destruct (Session.answer_calls m cs) as [m2 out2]. cbn [snd] in *.
  rewrite navigates_app, Hout, Hn. by eexists.
Qed.

(** ** Which event sends what *)

Lemma emitted_console (out : list output) :
  Forall console out → emitted out = [].
Proof.
  induction 1 as [|o out Ho _ IH]; [done|].
  unfold emitted in *. cbn. rewrite IH. by destruct o.
Qed.

Lemma focus_logs (w : SecurityWrapper.State) (e : Browser.env) :
  Forall console (snd (SecurityWrapper.focus w e)).
Proof.
  unfold SecurityWrapper.focus. destruct (SecurityWrapper.blur_effect w) as [mo|];
    [|by constructor].
  destruct (decide _); repeat constructor.
Qed.

Lemma resync_tick_calls t e :
  Forall (λ c, c = QuizTimer.CallOnTimeSync) (snd (QuizTimer.resync_tick t e)).
Proof.
  unfold QuizTimer.resync_tick. destruct (Browser.active _ _); repeat constructor.
Qed.

Lemma user_step_emitted (uev : QuizPage.event) (p : QuizPage.State)
    (k : QuizSocket.State) :
  emitted (flat_map (Session.perform k) (snd (QuizPage.step uev p)))
  ⊆ match uev with
    | QuizPage.AnswerSelect _ _ => ["submit_answer"]
    | QuizPage.Next _ | QuizPage.Previous _ => ["next_question"]
    | QuizPage.Finish => ["finish_quiz"]
    | QuizPage.GoTo _ _ | QuizPage.ToggleSecurity => []
    end.
Proof.
  destruct uev; cbn [QuizPage.step].
  - unfold QuizPage.handleAnswerSelect. destruct (negb _); [apply list_subseteq_nil|].
    cbn [snd flat_map Session.perform]. rewrite app_nil_r. apply emitted_emit.
  - unfold QuizPage.handleNextQuestion. destruct (_ <? _); [|apply list_subseteq_nil].
    cbn [snd flat_map Session.perform]. rewrite app_nil_r. apply emitted_emit.
  - unfold QuizPage.handlePreviousQuestion.
    destruct (_ >? _); [|apply list_subseteq_nil].
    cbn [snd flat_map Session.perform]. rewrite app_nil_r. apply emitted_emit.
  - unfold QuizPage.goTo. destruct (decide _); apply list_subseteq_nil.
  - unfold QuizPage.handleFinishQuiz.
    destruct (QuizPage.isSubmitting p); [apply list_subseteq_nil|].
    cbn [snd flat_map Session.perform app]. rewrite emitted_app.
    intros x [Hx|Hx]%elem_of_app; [by apply emitted_emit in Hx|].
    cbn in Hx. by apply elem_of_nil in Hx.
  - apply list_subseteq_nil.
Qed.

Ltac in_names :=
  repeat first [ apply list_elem_of_here | apply list_elem_of_further ].

Lemma step_live_emitted (ev : Session.event) (m : Session.Mounted)
    (e : Browser.env) :
  emitted (snd (Session.step_live ev m e)) ⊆ may_send ev.
Proof.
  destruct ev as [qs i now|msg|cev| | | | | |uev|]; cbn [Session.step_live may_send].
  - destruct (QuizPage.loading _); [|apply list_subseteq_nil].
    etrans; [apply settle_emitted|]. done.
  - destruct (QuizPage.loading _); [|apply list_subseteq_nil].
    etrans; [apply settle_emitted|]. done.
  - destruct (QuizSocket.registered _ _ _); [apply list_subseteq_nil|].
    pose proof (receive_emitted cev (Session.sock m) e) as Hr.
    destruct (QuizSocket.receive _ _ _) as [[k e1] out]. cbn [snd] in Hr.
    etrans; [apply settle_emitted|]. cbn [fmap list_fmap app].
    intros x [Hx|Hx]%elem_of_app.
    + apply Hr in Hx. apply list_elem_of_In in Hx. cbn in Hx.
      destruct Hx as [<-|[<-|[]]]; in_names.
    + apply list_elem_of_In in Hx. cbn in Hx.
      destruct Hx as [<-|[<-|[]]]; in_names.
  - destruct (Session.timer m) as [t|]; [|apply list_subseteq_nil].
    pose proof (timer_tick_calls t e) as Hc.
    destruct (QuizTimer.tick t e) as [[t' e1] cs]. cbn [snd] in Hc.
    etrans; [apply settle_emitted|]. cbn [emitted omap list_omap app].
    intros x [Hx|Hx]%elem_of_app; [|done].
    apply list_elem_of_fmap in Hx as (c & -> & Hx).
    rewrite list.Forall_forall in Hc. rewrite (Hc c Hx). left.
  - destruct (Session.timer m) as [t|]; [|apply list_subseteq_nil].
    pose proof (resync_tick_calls t e) as Hc.
    destruct (QuizTimer.resync_tick t e) as [[t' e1] cs]. cbn [snd] in Hc.
    destruct (settle_quiet
                (Session.mkMounted (Session.page m) (Session.sock m)
                   (Session.wrapper m) (Some t')) e1 cs [] Hc eq_refl)
      as (m' & ->).
    cbn [snd app]. etrans; [apply answer_calls_emitted|].
    intros x (c & -> & Hx)%list_elem_of_fmap.
    rewrite list.Forall_forall in Hc. rewrite (Hc c Hx). left.
  - destruct (settle_quiet m e [] (QuizSocket.resync_tick (Session.sock m) e))
      as (m' & ->); [constructor| |].
    { unfold QuizSocket.resync_tick. destruct (Browser.active _ _); [|done].
      apply navigates_emit. }
    cbn [snd Session.answer_calls]. rewrite app_nil_r.
    unfold QuizSocket.resync_tick.
    destruct (Browser.active _ _); [apply emitted_emit|apply list_subseteq_nil].
  - destruct (Session.wrapper m) as [w|]; [|apply list_subseteq_nil].
    pose proof (blur_logs w e) as Hlog.
    destruct (SecurityWrapper.blur w e) as [w' out]. cbn [snd] in Hlog.
    destruct (settle_quiet
                (Session.mkMounted (Session.page m) (Session.sock m) (Some w')
                   (Session.timer m)) e [] out)
      as (m' & ->); [constructor|by apply console_navigates|].
    cbn [snd Session.answer_calls]. by rewrite app_nil_r, emitted_console.
  - destruct (Session.wrapper m) as [w|]; [|apply list_subseteq_nil].
    pose proof (focus_logs w e) as Hlog.
    destruct (SecurityWrapper.focus w e) as [w' out]. cbn [snd] in Hlog.
    destruct (settle_quiet
                (Session.mkMounted (Session.page m) (Session.sock m) (Some w')
                   (Session.timer m)) e [] out)
      as (m' & ->); [constructor|by apply console_navigates|].
    cbn [snd Session.answer_calls]. by rewrite app_nil_r, emitted_console.
  - destruct (QuizPage.shows_quiz _);
      [|destruct uev as [| | | | |]; apply list_subseteq_nil].
    pose proof (user_step_emitted uev (Session.page m) (Session.sock m)) as Hu.
    destruct (QuizPage.step uev (Session.page m)) as [p calls]. cbn [snd] in Hu.
    etrans; [apply settle_emitted|]. cbn [fmap list_fmap app].
    intros x [Hx|Hx]%elem_of_app.
    + apply Hu in Hx. destruct uev; apply list_elem_of_In in Hx; cbn in Hx;
        try done; destruct Hx as [<-|[]]; in_names.
    + apply list_elem_of_In in Hx. cbn in Hx.
      destruct Hx as [<-|[<-|[]]]; destruct uev; in_names.
  - pose proof (session_unmount_emitted m e) as Hu.
    by destruct (Session.unmount m e) as [e1 out].
Qed.

(** X5. Every event of a session can send only the channel events that
    [may_send] lists for it.  In particular [submit_answer] is sent only
    when the user selects an option, so an answer selected while the
    channel is down is never sent later; [next_question] is sent only by
    the Next and Previous buttons, never by the navigation grid; the two
    resync intervals send [request_time_sync] and nothing else; window
    blur and focus send nothing. *)
Theorem events_send_only_their_messages (ev : Session.event)
    (m : Session.Mounted) (e : Browser.env) :
  emitted (snd (Session.step_live ev m e)) ⊆ may_send ev ∧
  ("submit_answer" ∈ emitted (snd (Session.step_live ev m e)) →
   ∃ a now, ev = Session.User (QuizPage.AnswerSelect a now)) ∧
  ("next_question" ∈ emitted (snd (Session.step_live ev m e)) →
   ∃ now, ev = Session.User (QuizPage.Next now) ∨
          ev = Session.User (QuizPage.Previous now)).
Proof.
  pose proof (step_live_emitted ev m e) as Hmain.
  split_and!; [exact Hmain| |].
  - intros Hx. apply Hmain in Hx.
    destruct ev as [| | | | | | | |[]|]; cbn in Hx;
      apply list_elem_of_In in Hx; cbn in Hx;
      try (by repeat destruct Hx as [Hx|Hx]).
    by eexists _, _.
  - intros Hx. apply Hmain in Hx.
    destruct ev as [| | | | | | | |[]|]; cbn in Hx;
      apply list_elem_of_In in Hx; cbn in Hx;
      try (by repeat destruct Hx as [Hx|Hx]).
    + eexists. by left.
    + eexists. by right.
Qed.

Lemma events_send_only_their_messages_witness :
  let '(s0, e0, _) :=
    Session.session (Some "tok"%string) (Some "sess"%string) 0
      [Session.Channel QuizSocket.Connect;
       Session.Channel (QuizSocket.QuizJoined (QuizSocket.mkQuizJoined 125 0 2));
       Session.Loaded [QuizPage.mkQuestion (Some "q1"%string)] (Some 0) 0] in
  ∀ m, s0 = Session.Live m →
  "submit_answer"%string
    ∈ emitted (snd (Session.step_live
                      (Session.User (QuizPage.AnswerSelect OptA 7000)) m e0)) ∧
  ∃ a now, Session.User (QuizPage.AnswerSelect OptA 7000)
           = Session.User (QuizPage.AnswerSelect a now).
Proof.
  destruct (Session.session _ _ _ _) as [[s0 e0] o0] eqn:E.
  vm_compute in E. injection E as <- He _.
  intros m [= <-].
  match goal with
  | |- context [Session.step_live ?ev ?m _] =>
      pose proof (proj1 (proj2 (events_send_only_their_messages ev m e0))) as H;
      assert (Hin : "submit_answer"%string
                      ∈ emitted (snd (Session.step_live ev m e0)))
        by (rewrite <- He; vm_compute; left)
  end.
  split; [exact Hin|exact (H Hin)].
Defined.

(** ** The hook's state across the events of a session *)

(** Only an inbound event that is handled changes the state of the hook. *)
Lemma step_live_sock (ev : Session.event) (m : Session.Mounted) (e : Browser.env) :
  ∀ m', fst (fst (Session.step_live ev m e)) = Session.Live m' →
    Session.sock m' = Session.sock m ∨
    ∃ cev n, ev = Session.Channel cev ∧
             QuizSocket.registered (QuizSocket.event_name cev) (Session.sock m) e
               = S n ∧
             Session.sock m' =
               fst (fst (QuizSocket.render (Session.sock m)
                           (Nat.iter (S n) (QuizSocket.handle cev) (Session.sock m))
                           e)).
Proof.
  intros m'.
  assert (Hsettle : ∀ r m0 e0 cs out,
             Session.sock m0 = Session.sock m →
             fst (fst (Session.settle r m0 e0 cs out)) = Session.Live m' →
             Session.sock m' = Session.sock m).
  { intros r m0 e0 cs out H0 E. by rewrite (settle_sock r m0 e0 cs out m' E). }
  destruct ev as [qs i now|msg|cev| | | | | |uev|]; cbn [Session.step_live].
  - destruct (QuizPage.loading _); [|cbn [fst]; intros [= <-]; by left].
    intros E. left. eapply Hsettle; [|exact E]; done.
  - destruct (QuizPage.loading _); [|cbn [fst]; intros [= <-]; by left].
    intros E. left. eapply Hsettle; [|exact E]; done.
  - destruct (QuizSocket.registered _ _ _) as [|n] eqn:Hreg;
      [cbn [fst]; intros [= <-]; by left|].
    unfold QuizSocket.receive. rewrite Hreg.
    destruct (QuizSocket.render _ _ e) as [[k e1] out] eqn:Er.
    intros E. right. exists cev, n. split_and!; [done|done|].
    by rewrite (settle_sock _ _ _ _ _ m' E), Er.
  - destruct (Session.timer m) as [t|]; [|cbn [fst]; intros [= <-]; by left].
    destruct (QuizTimer.tick t e) as [[t' e1] cs]. intros E. left. eapply Hsettle; [|exact E]; done.
  - destruct (Session.timer m) as [t|]; [|cbn [fst]; intros [= <-]; by left].
    destruct (QuizTimer.resync_tick t e) as [[t' e1] cs].
    intros E. left. eapply Hsettle; [|exact E]; done.
  - intros E. left. eapply Hsettle; [|exact E]; done.
  - destruct (Session.wrapper m) as [w|]; [|cbn [fst]; intros [= <-]; by left].
    destruct (SecurityWrapper.blur w e) as [w' out]. intros E. left. eapply Hsettle; [|exact E]; done.
  - destruct (Session.wrapper m) as [w|]; [|cbn [fst]; intros [= <-]; by left].
    destruct (SecurityWrapper.focus w e) as [w' out]. intros E. left. eapply Hsettle; [|exact E]; done.
  - destruct (QuizPage.shows_quiz _); [|cbn [fst]; intros [= <-]; by left].
    destruct (QuizPage.step uev (Session.page m)) as [p calls].
    intros E. left. eapply Hsettle; [|exact E]; done.
  - by destruct (Session.unmount m e).
Qed.

(** The cells of the hook after a render. *)
Lemma socket_render_state (old s : QuizSocket.State) (e : Browser.env) :
  let s' := fst (fst (QuizSocket.render old s e)) in
  QuizSocket.token s' = QuizSocket.token s ∧
  QuizSocket.sessionToken s' = QuizSocket.sessionToken s ∧
  QuizSocket.error s' = QuizSocket.error s ∧
  QuizSocket.activeUsers s' = QuizSocket.activeUsers s ∧
  QuizSocket.connect_effect s' = QuizSocket.connect_effect s.
Proof.
  unfold QuizSocket.render. by repeat case_match.
Qed.

Lemma handle_iter_tokens (ev : QuizSocket.inbound) (n : nat) (s : QuizSocket.State) :
  let s' := Nat.iter n (QuizSocket.handle ev) s in
  QuizSocket.token s' = QuizSocket.token s ∧
  QuizSocket.sessionToken s' = QuizSocket.sessionToken s.
Proof.
  induction n as [|n IH]; [done|].
  cbn [Nat.iter]. cbn zeta in IH. destruct IH as (<- & <-).
  by destruct ev.
Qed.

Lemma filter_none {A} (P : A → Prop) `{∀ x, Decision (P x)} (l : list A) :
  (∀ x, x ∈ l → ¬ P x) → filter P l = [].
Proof.
  intros Hl. destruct (filter P l) as [|x l'] eqn:E; [done|].
  assert (Hx : x ∈ filter P l) by (rewrite E; left).
  apply list_elem_of_filter in Hx as [HP Hx]. by destruct (Hl x Hx).
Qed.

(** Without a joining effect, the socket holds no handler for a quiz
    event. *)
Lemma registered_zero (m : Session.Mounted) (e : Browser.env) (ty : string) :
  session_ok m e →
  QuizSocket.join_effect (Session.sock m) = None →
  ty ∈ quiz_events →
  QuizSocket.registered ty (Session.sock m) e = O.
Proof.
  intros [(_ & Hl & _) _] Hj Hty. unfold QuizSocket.registered.
  destruct (QuizSocket.socketRef (Session.sock m)) as [sock|] eqn:Href; [|done].
  case_decide; [|done].
  rewrite filter_none; [done|].
  intros l Hin [Ht Hy].
  destruct (tr_allowed _ _ _ _ Hl l Hin) as [[_ Hc]|Ho].
  - rewrite Hy in Hc. unfold quiz_events in Hty.
    apply list_elem_of_In in Hc, Hty. cbn in Hc, Hty.
    repeat destruct Hty as [Hty|Hty]; try done; subst ty;
      repeat destruct Hc as [Hc|Hc]; done.
  - apply elem_of_app in Ho as [Ho|Ho].
    + unfold wrapper_listeners in Ho.
      destruct (Session.wrapper m) as [w|]; [|by apply elem_of_nil in Ho].
      apply elem_of_app in Ho as [Ho|Ho].
      * destruct (SecurityWrapper.guard_effect w) as [g|];
          [|by apply elem_of_nil in Ho].
        apply list_elem_of_In in Ho. cbn in Ho.
        repeat destruct Ho as [Ho|Ho]; try done; by subst l.
      * destruct (SecurityWrapper.blur_effect w) as [b|];
          [|by apply elem_of_nil in Ho].
        apply list_elem_of_In in Ho. cbn in Ho.
        repeat destruct Ho as [Ho|Ho]; try done; by subst l.
    + unfold socket_listeners in Ho. rewrite Href, Hj in Ho.
      by apply elem_of_nil in Ho.
Qed.

(** ** Every channel event goes to the socket of the hook *)

Lemma emit_to_socket c k name d :
  Forall (to_socket k) (QuizSocket.emit c k name d).
Proof.
  unfold QuizSocket.emit. destruct (QuizSocket.socketRef k) eqn:E; [|constructor].
  destruct c; repeat constructor. exact E.
Qed.

Lemma to_socket_ext (k k' : QuizSocket.State) (out : list output) :
  QuizSocket.socketRef k' = QuizSocket.socketRef k →
  Forall (to_socket k) out → Forall (to_socket k') out.
Proof.
  intros Href. apply Forall_impl. intros [] H; cbn in *; congruence.
Qed.

Lemma perform_to_socket k (calls : list QuizPage.call) :
  Forall (to_socket k) (flat_map (Session.perform k) calls).
Proof.
  induction calls as [|c calls IH]; [constructor|].
  cbn [flat_map]. apply Forall_app. split; [|done].
  destruct c; cbn [Session.perform]; try apply emit_to_socket.
  repeat constructor.
Qed.

Lemma answer_calls_to_socket (m : Session.Mounted) (cs : list QuizTimer.call) :
  Forall (to_socket (Session.sock m)) (snd (Session.answer_calls m cs)).
Proof.
  revert m. induction cs as [|c cs IH]; intros m; [constructor|].
  cbn [Session.answer_calls].
  assert (H1 : Session.sock (fst (Session.answer_call m c)) = Session.sock m ∧
               Forall (to_socket (Session.sock m)) (snd (Session.answer_call m c))).
  { destruct c; cbn [Session.answer_call].
    - destruct (QuizPage.handleTimeUp (Session.page m)) as [p calls].
      split; [done|]. apply perform_to_socket.
    - split; [done|]. apply emit_to_socket. }
  destruct (Session.answer_call m c) as [m1 o1]. cbn [fst snd] in H1.
  destruct H1 as [Hs H1].
  specialize (IH m1). destruct (Session.answer_calls m1 cs) as [m2 o2].
  cbn [snd] in *. apply Forall_app. split; [done|].
  eapply to_socket_ext; [|exact IH]. by rewrite Hs.
Qed.

Lemma join_cleanup_to_socket j k e :
  Forall (to_socket k) (snd (QuizSocket.join_cleanup j k e)).
Proof.
  unfold QuizSocket.join_cleanup. cbn [snd].
  destruct (QuizSocket.seen_isJoined j); [apply emit_to_socket|constructor].
Qed.

Lemma join_setup_to_socket sk k e :
  Forall (to_socket k) (snd (QuizSocket.join_setup sk k e)).
Proof.
  unfold QuizSocket.join_setup. destruct (_ || _); [constructor|].
  repeat (destruct (Browser.new_object _) as [? ?]).
  cbn [snd]. apply emit_to_socket.
Qed.

Lemma session_unmount_to_socket m e :
  Forall (to_socket (Session.sock m)) (snd (Session.unmount m e)).
Proof.
  unfold Session.unmount, QuizSocket.unmount.
  destruct (QuizSocket.join_effect (Session.sock m)) as [j|]; [|constructor].
  pose proof (join_cleanup_to_socket j (Session.sock m)
                (QuizSocket.connect_cleanup
                   (QuizSocket.connect_effect (Session.sock m))
                   match Session.wrapper m with
                   | Some w =>
                       SecurityWrapper.unmount w
                         match Session.timer m with
                         | Some t => QuizTimer.unmount t e
                         | None => e
                         end
                   | None =>
                       match Session.timer m with
                       | Some t => QuizTimer.unmount t e
                       | None => e
                       end
                   end)) as H.
  by destruct (QuizSocket.join_cleanup j _ _) as [e2 out].
Qed.

Lemma socket_render_to_socket old s e :
  Forall (to_socket s) (snd (QuizSocket.render old s e)).
Proof.
  unfold QuizSocket.render.
  set (d1 := negb _ || negb _). set (d2 := d1 || _).
  assert (H1 : Forall (to_socket s)
                 (snd (if d1 then
                         match QuizSocket.join_effect old with
                         | Some j => QuizSocket.join_cleanup j s e
                         | None => (e, [])
                         end
                       else (e, [])))).
  { destruct d1; [|constructor].
    destruct (QuizSocket.join_effect old);
      [apply join_cleanup_to_socket|constructor]. }
  destruct (if d1 then match QuizSocket.join_effect old with _ => _ end else _)
    as [e1 o1].
  set (e2 := if d2 then _ else _).
  assert (H2 : Forall (to_socket s)
                 (snd (if d1 then QuizSocket.join_setup (QuizSocket.socketRef s) s e2
                       else (QuizSocket.join_effect old, e2, [])))).
  { destruct d1; [apply join_setup_to_socket|constructor]. }
  destruct (if d1 then QuizSocket.join_setup _ s e2 else _) as [[j e3] o2].
  destruct (if d2 then QuizSocket.resync_setup _ s e3 else _) as [r e4].
  cbn [snd] in *. by apply Forall_app.
Qed.

Lemma settle_to_socket (r : bool) (m : Session.Mounted) (e : Browser.env)
    (cs : list QuizTimer.call) (out : list output) :
  Forall (to_socket (Session.sock m)) out →
  Forall (to_socket (Session.sock m)) (snd (Session.settle r m e cs out)).
Proof.
  intros Hout. unfold Session.settle.
  pose proof (render_children_sock m e) as Hr.
  destruct (if r then Session.render_children m e else (m, e, []))
    as [[m1 e1] cs1] eqn:E1.
  assert (H1 : Session.sock m1 = Session.sock m).
  { destruct r; [by rewrite E1 in Hr|]. by injection E1 as <- _ _. }
  pose proof (answer_calls_to_socket m1 (cs ++ cs1)) as Ha.
  pose proof (answer_calls_sock m1 (cs ++ cs1)) as Hs.
  destruct (Session.answer_calls m1 (cs ++ cs1)) as [m2 out2]. cbn [fst snd] in *.
  assert (H2 : Forall (to_socket (Session.sock m)) (out ++ out2)).
  { apply Forall_app. split; [done|].
    eapply to_socket_ext; [|exact Ha]. by rewrite H1. }
  destruct (Session.navigates _); [|exact H2].
  pose proof (session_unmount_to_socket m2 e1) as Hu.
  destruct (Session.unmount m2 e1) as [e2 out3]. cbn [snd] in *.
  apply Forall_app. split; [done|].
  eapply to_socket_ext; [|exact Hu]. by rewrite Hs, H1.
Qed.

Lemma step_live_to_socket (ev : Session.event) (m : Session.Mounted)
    (e : Browser.env) :
  Forall (to_socket (Session.sock m)) (snd (Session.step_live ev m e)).
Proof.
  destruct ev as [qs i now|msg|cev| | | | | |uev|]; cbn [Session.step_live].
  - destruct (QuizPage.loading _); [|constructor].
    apply (settle_to_socket true (Session.set_page _ m)). constructor.
  - destruct (QuizPage.loading _); [|constructor].
    apply (settle_to_socket true (Session.set_page _ m)). constructor.
  - destruct (QuizSocket.registered _ _ _) as [|n] eqn:Hreg; [constructor|].
    unfold QuizSocket.receive. rewrite Hreg.
    pose proof (socket_render_to_socket (Session.sock m)
                  (Nat.iter (S n) (QuizSocket.handle cev) (Session.sock m)) e) as Hr.
    pose proof (socket_render_cells (Session.sock m)
                  (Nat.iter (S n) (QuizSocket.handle cev) (Session.sock m)) e) as Hc.
    destruct (handle_iter_effects cev (S n) (Session.sock m)) as (Href & _).
    destruct (QuizSocket.render _ _ e) as [[k e1] out]. cbn [fst snd] in *.
    destruct Hc as (_ & _ & Hk & _).
    eapply to_socket_ext;
      [|apply (settle_to_socket _ (Session.set_sock k m))].
    + cbn. congruence.
    + cbn. eapply to_socket_ext; [|exact Hr]. congruence.
  - destruct (Session.timer m) as [t|]; [|constructor].
    destruct (QuizTimer.tick t e) as [[t' e1] cs].
    apply (settle_to_socket false (Session.mkMounted _ _ _ _)). constructor.
  - destruct (Session.timer m) as [t|]; [|constructor].
    destruct (QuizTimer.resync_tick t e) as [[t' e1] cs].
    apply (settle_to_socket false (Session.mkMounted _ _ _ _)). constructor.
  - apply settle_to_socket. unfold QuizSocket.resync_tick.
    destruct (Browser.active _ _); [apply emit_to_socket|constructor].
  - destruct (Session.wrapper m) as [w|]; [|constructor].
    pose proof (blur_logs w e) as Hlog.
    destruct (SecurityWrapper.blur w e) as [w' out]. cbn [snd] in Hlog.
    apply (settle_to_socket false (Session.mkMounted _ _ _ _)).
    eapply list.Forall_impl; [exact Hlog|]. by intros [].
  - destruct (Session.wrapper m) as [w|]; [|constructor].
    pose proof (focus_logs w e) as Hlog.
    destruct (SecurityWrapper.focus w e) as [w' out]. cbn [snd] in Hlog.
    apply (settle_to_socket false (Session.mkMounted _ _ _ _)).
    eapply list.Forall_impl; [exact Hlog|]. by intros [].
  - destruct (QuizPage.shows_quiz _); [|constructor].
    destruct (QuizPage.step uev (Session.page m)) as [p calls].
    apply (settle_to_socket _ (Session.set_page p m)). apply perform_to_socket.
  - pose proof (session_unmount_to_socket m e) as Hu.
    by destruct (Session.unmount m e) as [e1 out].
Qed.

(** ** Without a credential *)

Lemma not_emit_emitted (out : list output) :
  Forall not_emit out → emitted out = [].
Proof.
  induction 1 as [|o out Ho _ IH]; [done|].
  unfold emitted in *. cbn. rewrite IH. by destruct o.
Qed.

Lemma registered_no_socket ty (k : QuizSocket.State) (e : Browser.env) :
  QuizSocket.socketRef k = None → QuizSocket.registered ty k e = O.
Proof. intros H. unfold QuizSocket.registered. by rewrite H. Qed.

Lemma connections_none slot ls ns (e : Browser.env) :
  env_ok slot ls ns None e → Browser.connections e = [].
Proof.
  intros (_ & _ & _ & Hc). destruct (Browser.connections e) as [|c l] eqn:E; [done|].
  specialize (Hc c). rewrite E in Hc. by specialize (Hc ltac:(left)).
Qed.

(** X6. Without a credential (no token, or an empty one) useSocket creates
    no socket: whatever happens afterwards, the session sends nothing on
    the channel, the browser holds no connection, and the synchronizer
    keeps its initial state, with the remaining time unset. *)
Theorem no_credential_no_channel (tok : option string) (sess : option string)
    (now : Z) (evs : list Session.event) :
  JS.truthy_string tok = false →
  let '(s, e, out) := Session.session tok sess now evs in
  emitted out = [] ∧
  Browser.connections e = [] ∧
  match s with
  | Session.Live m =>
      QuizSocket.socketRef (Session.sock m) = None ∧
      QuizSocket.isConnected (Session.sock m) = false ∧
      QuizSocket.quizState (Session.sock m) = QuizSocket.initialQuizState
  | Session.Gone => True
  end.
Proof.
  intros Htok.
  pose proof (session_state_ok tok sess now evs) as Hstate.
  pose proof (session_invariant (λ _, True)
                (λ m _, QuizSocket.socketRef (Session.sock m) = None ∧
                        QuizSocket.connect_effect (Session.sock m) = None ∧
                        QuizSocket.isConnected (Session.sock m) = false ∧
                        QuizSocket.quizState (Session.sock m)
                          = QuizSocket.initialQuizState)
                not_emit tok sess now evs) as H.
  destruct (Session.session tok sess now evs) as [[s e] out].
  destruct H as [Hout Hinv].
  - intros ev m e0 _ Hok (Href & Hrest).
    pose proof (step_live_to_socket ev m e0) as Hto.
    pose proof (step_live_sock ev m e0) as Hs.
    destruct (Session.step_live ev m e0) as [[s' e'] out']. cbn [fst snd] in *.
    split.
    + eapply list.Forall_impl; [exact Hto|]. intros [] Ho; try done.
      cbn in Ho. congruence.
    + intros m' ->. destruct (Hs m' eq_refl) as [->|(cev & n & _ & Hreg & _)];
        [done|].
      by rewrite registered_no_socket in Hreg.
  - unfold Session.mount, QuizSocket.mount, QuizSocket.connect_setup.
    rewrite Htok. cbn. split; [constructor|]. by intros m0 [= <-].
  - by apply list.Forall_true.
  - split; [by apply not_emit_emitted|].
    destruct s as [m|].
    + destruct (Hinv m eq_refl) as [[Hok _] (Href & Hc & Hconn & Hq)].
      rewrite Hc in Hok. split; [by eapply connections_none|done].
    + by destruct Hstate as (_ & _ & -> & _).
Qed.

Lemma no_credential_no_channel_witness :
  let '(s, e, out) :=
    Session.session None (Some "sess"%string) 0
      [Session.Channel QuizSocket.Connect;
       Session.Loaded [QuizPage.mkQuestion (Some "q1"%string)] (Some 0) 5] in
  emitted out = [] ∧ Browser.connections e = [] ∧ s = Session.Gone.
Proof.
  pose proof (no_credential_no_channel None (Some "sess"%string) 0
                [Session.Channel QuizSocket.Connect;
                 Session.Loaded [QuizPage.mkQuestion (Some "q1"%string)] (Some 0) 5]
                eq_refl) as H.
  destruct (Session.session _ _ _ _) as [[s e] out] eqn:E.
  destruct H as (H1 & H2 & _). split_and!; [done|done|].
  vm_compute in E. by injection E as <- _ _.
Defined.

(** ** Without a session token *)

Lemma not_event_emitted (name : string) (out : list output) :
  name ∉ emitted out ↔ Forall (not_event name) out.
Proof.
  induction out as [|o out IH].
  - split; [constructor|]. intros _ H. by apply elem_of_nil in H.
  - rewrite list.Forall_cons, <- IH. unfold emitted. cbn [omap list_omap].
    destruct o; cbn; try tauto.
    rewrite not_elem_of_cons. split; intros [? ?]; split; auto.
Qed.

Lemma socket_render_no_join (old s : QuizSocket.State) (e : Browser.env) :
  QuizSocket.join_effect old = None →
  JS.truthy_string (QuizSocket.sessionToken s) = false →
  let '(k, _, out) := QuizSocket.render old s e in
  out = [] ∧ QuizSocket.join_effect k = None.
Proof.
  intros Hj Ht. unfold QuizSocket.render, QuizSocket.join_setup.
  rewrite Hj, Ht. cbn [negb]. rewrite !orb_true_r.
  set (d1 := negb _ || negb _). set (d2 := d1 || _). clearbody d2 d1.
  destruct d1; cbn beta iota zeta;
    by destruct (if d2 then QuizSocket.resync_setup _ _ _ else _) as [r e4].
Qed.

Lemma handle_iter_connection (ev : QuizSocket.inbound) (n : nat)
    (s : QuizSocket.State) :
  connection_event ev →
  QuizSocket.quizState (Nat.iter n (QuizSocket.handle ev) s)
  = QuizSocket.quizState s ∧
  QuizSocket.activeUsers (Nat.iter n (QuizSocket.handle ev) s)
  = QuizSocket.activeUsers s.
Proof.
  intros Hev. induction n as [|n IH]; [done|].
  cbn [Nat.iter]. destruct IH as [<- <-]. by destruct ev.
Qed.

Lemma event_name_quiz (ev : QuizSocket.inbound) :
  connection_event ev ∨ QuizSocket.event_name ev ∈ quiz_events.
Proof.
  destruct ev; cbn; try (by left); right; unfold quiz_events; in_names.
Qed.

(** X7. With a session token that is [undefined] or empty the joining
    effect never runs: the session never sends [join_quiz], the socket
    never holds a handler for a quiz event, so every such event is ignored
    and the synchronizer keeps its initial state, whatever the channel
    delivers. *)
Theorem empty_session_token_never_joins (tok sess : option string) (now : Z)
    (evs : list Session.event) :
  JS.truthy_string sess = false →
  let '(s, e, out) := Session.session tok sess now evs in
  ("join_quiz" ∉ emitted out) ∧
  match s with
  | Session.Live m =>
      QuizSocket.quizState (Session.sock m) = QuizSocket.initialQuizState ∧
      ∀ ev, QuizSocket.event_name ev ∈ quiz_events →
            QuizSocket.receive ev (Session.sock m) e = (Session.sock m, e, [])
  | Session.Gone => True
  end.
Proof.
  intros Hfalsy.
  pose proof (session_invariant (λ _, True)
                (λ m _, JS.truthy_string (QuizSocket.sessionToken (Session.sock m))
                          = false ∧
                        QuizSocket.join_effect (Session.sock m) = None ∧
                        QuizSocket.quizState (Session.sock m)
                          = QuizSocket.initialQuizState)
                (not_event "join_quiz") tok sess now evs) as H.
  destruct (Session.session tok sess now evs) as [[s e] out].
  destruct H as [Hout Hinv].
  - intros ev m e0 _ Hok (Hsess & Hj & Hq).
    assert (Hother : (∀ cev, ev ≠ Session.Channel cev) →
                     Forall (not_event "join_quiz")
                       (snd (Session.step_live ev m e0))).
    { intros Hev. apply not_event_emitted. intros Hin.
      apply step_live_emitted in Hin.
      destruct ev as [| |cev| | | | | |[]|]; try (by destruct (Hev cev));
        apply list_elem_of_In in Hin; cbn in Hin;
        by repeat destruct Hin as [Hin|Hin]. }
    pose proof (step_live_sock ev m e0) as Hs.
    destruct ev as [qs i now'|msg|cev| | | | | |uev|];
      try (specialize (Hother ltac:(done));
           destruct (Session.step_live _ m e0) as [[s' e'] out'] eqn:E;
           cbn [fst snd] in *; split; [exact Hother|];
           intros m' ->; destruct (Hs m' eq_refl) as [->|(cev & n & ? & _)];
           done).
    clear Hother Hs. cbn [Session.step_live].
    destruct (QuizSocket.registered _ _ _) as [|n] eqn:Hreg.
    { split; [constructor|]. by intros m' [= <-]. }
    destruct (event_name_quiz cev) as [Hcev|Hcev];
      [|by rewrite (registered_zero m e0 _ Hok Hj Hcev) in Hreg].
    unfold QuizSocket.receive. rewrite Hreg.
    destruct (handle_iter_tokens cev (S n) (Session.sock m)) as [_ Hst].
    destruct (handle_iter_connection cev (S n) (Session.sock m) Hcev) as [Hqs _].
    set (s1 := Nat.iter (S n) (QuizSocket.handle cev) (Session.sock m)) in *.
    pose proof (socket_render_no_join (Session.sock m) s1 e0 Hj) as Hr.
    pose proof (socket_render_cells (Session.sock m) s1 e0) as Hc.
    pose proof (socket_render_state (Session.sock m) s1 e0) as Hc'.
    destruct (QuizSocket.render (Session.sock m) s1 e0) as [[k e1] out'].
    cbn [fst] in Hc, Hc'. destruct Hc as (Hkq & _). destruct Hc' as (_ & Hks & _).
    destruct Hr as [-> Hkj]; [by rewrite Hst|].
    pose proof (settle_emitted (Session.channel_rerenders cev (Session.sock m) k)
                  (Session.set_sock k m) e1 [] []) as Hem.
    pose proof (settle_sock (Session.channel_rerenders cev (Session.sock m) k)
                  (Session.set_sock k m) e1 [] []) as Hsk.
    destruct (Session.settle _ (Session.set_sock k m) e1 [] []) as [[s' e'] o'].
    cbn [fst snd] in *. split.
    + apply not_event_emitted. intros Hin. apply Hem in Hin.
      apply list_elem_of_In in Hin. cbn in Hin.
      by repeat destruct Hin as [Hin|Hin].
    + intros m' ->. rewrite (Hsk m' eq_refl). cbn [Session.set_sock Session.sock].
      split_and!; [congruence|done|congruence].
  - unfold Session.mount, QuizSocket.mount.
    destruct (QuizSocket.connect_setup tok Browser.empty) as [c e1].
    unfold QuizSocket.join_setup, QuizSocket.resync_setup. cbn.
    split; [constructor|]. intros m0 [= <-]. by cbn.
  - by apply list.Forall_true.
  - split; [by apply not_event_emitted|].
    destruct s as [m|]; [|done].
    destruct (Hinv m eq_refl) as [Hok (Hsess & Hj & Hq)].
    split; [done|]. intros ev Hev. unfold QuizSocket.receive.
    by rewrite (registered_zero m e _ Hok Hj Hev).
Qed.

Lemma empty_session_token_never_joins_witness :
  let '(s, _, out) :=
    Session.session (Some "tok"%string) None 0
      [Session.Channel QuizSocket.Connect;
       Session.Channel (QuizSocket.QuizJoined (QuizSocket.mkQuizJoined 125 0 2));
       Session.Channel (QuizSocket.TimeSync 100)] in
  ("join_quiz" ∉ emitted out) ∧
  ∃ m, s = Session.Live m ∧
       QuizSocket.isConnected (Session.sock m) = true ∧
       QuizSocket.quizState (Session.sock m) = QuizSocket.initialQuizState.
Proof.
  pose proof (empty_session_token_never_joins (Some "tok"%string) None 0
                [Session.Channel QuizSocket.Connect;
                 Session.Channel
                   (QuizSocket.QuizJoined (QuizSocket.mkQuizJoined 125 0 2));
                 Session.Channel (QuizSocket.TimeSync 100)] eq_refl) as H.
  destruct (Session.session _ _ _ _) as [[s e] out] eqn:E.
  destruct H as [Hout Hs]. split; [exact Hout|].
  vm_compute in E. injection E as <- _ _.
  eexists. split; [reflexivity|]. destruct Hs as [Hq _]. by split.
Defined.

(** ** The count of active users *)

Lemma handle_iter_users (ev : QuizSocket.inbound) (n : nat) (s : QuizSocket.State) :
  0 <= QuizSocket.activeUsers s →
  0 <= QuizSocket.activeUsers (Nat.iter n (QuizSocket.handle ev) s).
Proof.
  intros Hs. induction n as [|n IH]; [done|].
  rewrite Nat.iter_succ. set (s' := Nat.iter n _ s) in *.
  destruct ev; cbn; try done.
  - unfold QuizSocket.handleUserJoined. lia.
  - unfold QuizSocket.handleUserLeft, JS.max. lia.
Qed.

(** X8. The count of active users never goes below 0: [user_left] stops
    at 0.  A [user_joined] followed by a [user_left] restores a count that
    was not negative, whereas a [user_left] at 0 is lost, so that a
    following [user_joined] leaves 1. *)
Theorem active_users_never_negative :
  (∀ tok sess now evs,
     match fst (fst (Session.session tok sess now evs)) with
     | Session.Live m => 0 <= QuizSocket.activeUsers (Session.sock m)
     | Session.Gone => True
     end) ∧
  (∀ n, 0 <= n →
        QuizSocket.handleUserLeft (QuizSocket.handleUserJoined n) = n) ∧
  (∀ n, n <= 0 →
        QuizSocket.handleUserJoined (QuizSocket.handleUserLeft n) = 1).
Proof.
  split_and!.
  - intros tok sess now evs.
    pose proof (session_invariant (λ _, True)
                  (λ m _, 0 <= QuizSocket.activeUsers (Session.sock m))
                  (λ _, True) tok sess now evs) as H.
    destruct (Session.session tok sess now evs) as [[s e] out].
    destruct H as [_ Hinv].
    + intros ev m e0 _ Hok Hn.
      pose proof (step_live_sock ev m e0) as Hs.
      destruct (Session.step_live ev m e0) as [[s' e'] out']. cbn [fst] in Hs.
      split; [by apply list.Forall_true|].
      intros m' ->. destruct (Hs m' eq_refl) as [->|(cev & n & _ & _ & ->)];
        [done|].
      destruct (socket_render_state (Session.sock m)
                  (Nat.iter (S n) (QuizSocket.handle cev) (Session.sock m)) e0)
        as (_ & _ & _ & -> & _).
      by apply handle_iter_users.
    + unfold Session.mount, QuizSocket.mount.
      destruct (QuizSocket.connect_setup tok Browser.empty) as [c e1].
      unfold QuizSocket.join_setup, QuizSocket.resync_setup. cbn.
      split; [constructor|]. by intros m0 [= <-].
    + by apply list.Forall_true.
    + cbn. destruct s as [m|]; [|done]. by destruct (Hinv m eq_refl).
  - intros n Hn. unfold QuizSocket.handleUserLeft, QuizSocket.handleUserJoined, JS.max.
    lia.
  - intros n Hn. unfold QuizSocket.handleUserLeft, QuizSocket.handleUserJoined, JS.max.
    lia.
Qed.

Lemma active_users_never_negative_witness :
  QuizSocket.handleUserLeft (QuizSocket.handleUserJoined 2) = 2 ∧
  QuizSocket.handleUserJoined (QuizSocket.handleUserLeft 0) = 1.
Proof.
  split.
  - apply (proj1 (proj2 active_users_never_negative) 2). lia.
  - apply (proj2 (proj2 active_users_never_negative) 0). lia.
Defined.

(** ** Nothing accumulates over renders and reconnections *)

Lemma NoDup_all_equal {A} (l : list A) :
  NoDup l → (∀ x y, x ∈ l → y ∈ l → x = y) → (length l ≤ 1)%nat.
Proof.
  intros Hnd Heq. destruct l as [|x [|y l]]; cbn; [lia|lia|].
  apply list.NoDup_cons in Hnd as [Hx _].
  destruct Hx. rewrite (Heq x y); [left|left|right; left].
Qed.

Lemma intervals_ok_one (slot : slots) (e : Browser.env)
    (site : Browser.interval_site) :
  intervals_ok slot e → (length (intervals_of site e) ≤ 1)%nat.
Proof.
  intros Hok. pose proof Hok as [_ Hnd Hown _].
  apply NoDup_all_equal.
  - apply list.NoDup_filter. by eapply NoDup_fmap_1.
  - intros i j [Hi Hin]%list_elem_of_filter [Hj Hjn]%list_elem_of_filter.
    eapply intervals_ok_unique; [exact Hok|done|done|].
    pose proof (Hown i Hin) as H1. pose proof (Hown j Hjn) as H2.
    rewrite Hi in H1. rewrite Hj in H2. congruence.
Qed.

(** X9. Whatever happened in a session, the browser holds at most one
    interval for each of the three [setInterval] call sites: re-running an
    effect clears the interval of the previous run before it creates a new
    one, so the countdown never runs at double speed and time
    synchronisation is never requested twice per period. *)
Theorem at_most_one_interval_per_site (tok : option string) (sess : option string)
    (now : Z) (evs : list Session.event) (site : Browser.interval_site) :
  let '(_, e, _) := Session.session tok sess now evs in
  (length (intervals_of site e) ≤ 1)%nat.
Proof.
  pose proof (session_state_ok tok sess now evs) as H.
  destruct (Session.session tok sess now evs) as [[s e] out].
  destruct s as [m|].
  - destruct H as [(Hi & _) _]. by eapply intervals_ok_one.
  - destruct H as (Hi & _). unfold intervals_of. rewrite Hi. cbn. lia.
Qed.

Lemma joining_listeners_type sock j (l l' : Browser.listener) :
  l ∈ joining_listeners sock j → l' ∈ joining_listeners sock j →
  Browser.l_type l = Browser.l_type l' → l = l'.
Proof.
  intros Hl Hl' Hty. unfold joining_listeners in *.
  apply list_elem_of_In in Hl, Hl'. cbn in Hl, Hl'.
  repeat destruct Hl as [Hl|Hl]; try done; subst l;
    repeat destruct Hl' as [Hl'|Hl']; try done; subst l'; cbn in Hty;
    done.
Qed.

Lemma registered_at_most_one (m : Session.Mounted) (e : Browser.env) (ty : string) :
  session_ok m e → ty ∈ quiz_events →
  (QuizSocket.registered ty (Session.sock m) e ≤ 1)%nat.
Proof.
  intros Hok Hty.
  destruct (QuizSocket.join_effect (Session.sock m)) as [j|] eqn:Hj;
    [|rewrite (registered_zero m e ty Hok Hj Hty); lia].
  destruct Hok as [(_ & Hl & _) _]. unfold QuizSocket.registered.
  destruct (QuizSocket.socketRef (Session.sock m)) as [sock|] eqn:Href; [|lia].
  case_decide; [|lia].
  apply NoDup_all_equal.
  - apply list.NoDup_filter. apply Hl.
  - assert (Hown : ∀ l, l ∈ Browser.listeners e →
                        Browser.l_target l = Browser.Socket sock →
                        Browser.l_type l = ty →
                        l ∈ joining_listeners sock j).
    { intros l Hin Ht Hy.
      destruct (tr_allowed _ _ _ _ Hl l Hin) as [[_ Hc]|Ho].
      - rewrite Hy in Hc. unfold quiz_events in Hty.
        apply list_elem_of_In in Hc, Hty. cbn in Hc, Hty.
        repeat destruct Hty as [Hty|Hty]; try done; subst ty;
          repeat destruct Hc as [Hc|Hc]; done.
      - apply elem_of_app in Ho as [Ho|Ho].
        + unfold wrapper_listeners in Ho.
          destruct (Session.wrapper m) as [w|]; [|by apply elem_of_nil in Ho].
          apply elem_of_app in Ho as [Ho|Ho].
          * destruct (SecurityWrapper.guard_effect w) as [g|];
              [|by apply elem_of_nil in Ho].
            apply list_elem_of_In in Ho. cbn in Ho.
            repeat destruct Ho as [Ho|Ho]; try done; by subst l.
          * destruct (SecurityWrapper.blur_effect w) as [b|];
              [|by apply elem_of_nil in Ho].
            apply list_elem_of_In in Ho. cbn in Ho.
            repeat destruct Ho as [Ho|Ho]; try done; by subst l.
        + unfold socket_listeners in Ho. by rewrite Href, Hj in Ho. }
    intros l l' [[Ht Hy] Hin]%list_elem_of_filter [[Ht' Hy'] Hin']%list_elem_of_filter.
    eapply joining_listeners_type; [by apply Hown|by apply Hown|congruence].
Qed.

(** X10. At any time of a session the socket holds at most one handler for
    each quiz event: reconnecting removes the handlers of the previous run
    of the joining effect before it registers new ones, so an inbound
    event is never handled twice. *)
Theorem at_most_one_handler_per_event (tok : option string) (sess : option string)
    (now : Z) (evs : list Session.event) :
  let '(s, e, _) := Session.session tok sess now evs in
  match s with
  | Session.Live m =>
      ∀ ev, QuizSocket.event_name ev ∈ quiz_events →
        QuizSocket.receive ev (Session.sock m) e = (Session.sock m, e, []) ∨
        QuizSocket.receive ev (Session.sock m) e
        = QuizSocket.render (Session.sock m)
            (QuizSocket.handle ev (Session.sock m)) e
  | Session.Gone => True
  end.
Proof.
  pose proof (session_state_ok tok sess now evs) as H.
  destruct (Session.session tok sess now evs) as [[s e] out].
  destruct s as [m|]; [|done]. intros ev Hev.
  pose proof (registered_at_most_one m e _ H Hev) as Hle.
  unfold QuizSocket.receive.
  destruct (QuizSocket.registered _ _ e) as [|[|n]]; [by left|by right|lia].
Qed.

(** ** The 30-second resynchronisation *)

Lemma resync_setup_some sk s e :
  is_Some (fst (QuizSocket.resync_setup sk s e)) ↔
  is_Some sk ∧ QuizSocket.isConnected s = true ∧
  QuizSocket.isJoined (QuizSocket.quizState s) = true.
Proof.
  unfold QuizSocket.resync_setup.
  destruct sk as [sock|], (QuizSocket.isConnected s), (QuizSocket.isJoined _); cbn;
    rewrite !is_Some_alt; cbn; intuition congruence.
Qed.

(** After a render the interval of the 30 s effect either comes from a
    new run of the effect or is the one of the previous render, whose
    dependencies were the same. *)
Lemma socket_render_resync (old s : QuizSocket.State) (e : Browser.env) :
  let k := fst (fst (QuizSocket.render old s e)) in
  (is_Some (QuizSocket.resync_effect k) ↔
   is_Some (QuizSocket.socketRef s) ∧ QuizSocket.isConnected s = true ∧
   QuizSocket.isJoined (QuizSocket.quizState s) = true) ∨
  (QuizSocket.resync_effect k = QuizSocket.resync_effect old ∧
   QuizSocket.socket old = QuizSocket.socketRef s ∧
   QuizSocket.isConnected old = QuizSocket.isConnected s ∧
   QuizSocket.isJoined (QuizSocket.quizState old)
   = QuizSocket.isJoined (QuizSocket.quizState s)).
Proof.
  unfold QuizSocket.render.
  destruct (bool_decide_reflect (QuizSocket.socket old = QuizSocket.socketRef s))
    as [H1|H1];
  destruct (bool_decide_reflect (QuizSocket.isConnected old = QuizSocket.isConnected s))
    as [H2|H2];
  destruct (bool_decide_reflect (QuizSocket.isJoined (QuizSocket.quizState old)
                                 = QuizSocket.isJoined (QuizSocket.quizState s)))
    as [H3|H3]; cbn [negb orb];
  repeat match goal with
         | |- context [match ?x with (_, _) => _ end] =>
             lazymatch x with
             | QuizSocket.resync_setup _ _ _ => fail
             | _ => destruct x as [? ?] eqn:?
             end
         end;
  try (right; by split_and!);
  left;
  match goal with
  | |- context [QuizSocket.resync_setup ?a ?b ?c] =>
      pose proof (resync_setup_some a b c) as Hr;
      destruct (QuizSocket.resync_setup a b c) as [r e4]
  end; exact Hr.
Qed.

(** X11. The 30-second interval of useQuizSocket exists exactly while the
    hook is connected and joined: it is created when both hold, cleared
    when either stops holding, and gone after unmounting. *)
Theorem resync_runs_while_joined (tok : option string) (sess : option string)
    (now : Z) (evs : list Session.event) :
  let '(s, e, _) := Session.session tok sess now evs in
  Browser.active Browser.SocketResync e =
  match s with
  | Session.Live m =>
      QuizSocket.isConnected (Session.sock m) &&
      QuizSocket.isJoined (QuizSocket.quizState (Session.sock m))
  | Session.Gone => false
  end.
Proof.
  pose proof (session_state_ok tok sess now evs) as Hstate.
  pose proof (session_invariant (λ _, True)
                (λ m _,
                   (QuizSocket.isConnected (Session.sock m) = true →
                    is_Some (QuizSocket.socket (Session.sock m))) ∧
                   (is_Some (QuizSocket.resync_effect (Session.sock m)) ↔
                    is_Some (QuizSocket.socket (Session.sock m)) ∧
                    QuizSocket.isConnected (Session.sock m) = true ∧
                    QuizSocket.isJoined (QuizSocket.quizState (Session.sock m))
                    = true))
                (λ _, True) tok sess now evs) as H.
  destruct (Session.session tok sess now evs) as [[s e] out].
  destruct H as [_ Hinv].
  - intros ev m e0 _ Hok [Hc Hr].
    pose proof (step_live_sock ev m e0) as Hs.
    destruct (Session.step_live ev m e0) as [[s' e'] out']. cbn [fst] in Hs.
    split; [by apply list.Forall_true|].
    intros m' ->. destruct (Hs m' eq_refl) as [->|(cev & n & _ & Hreg & ->)];
      [done|].
    set (s1 := Nat.iter (S n) (QuizSocket.handle cev) (Session.sock m)).
    destruct (handle_iter_effects cev (S n) (Session.sock m)) as (Href & _).
    fold s1 in Href.
    assert (Hsome : is_Some (QuizSocket.socketRef s1)).
    { rewrite Href. unfold QuizSocket.registered in Hreg.
      by destruct (QuizSocket.socketRef (Session.sock m)). }
    destruct (socket_render_cells (Session.sock m) s1 e0) as (Hq & Hcn & _ & Hsk).
    pose proof (socket_render_resync (Session.sock m) s1 e0) as Hrs.
    cbn zeta in Hrs. rewrite Hq, Hcn, Hsk.
    split; [done|].
    destruct Hrs as [Hrs|(-> & H1 & H2 & H3)]; [exact Hrs|].
    rewrite Hr, H1, H2, H3. done.
  - unfold Session.mount, QuizSocket.mount.
    destruct (QuizSocket.connect_setup tok Browser.empty) as [c e1].
    unfold QuizSocket.join_setup, QuizSocket.resync_setup. cbn.
    split; [constructor|]. intros m0 [= <-]. cbn.
    split; [done|]. split; [intros [? [=]]|intros ([? [=]] & _)].
  - by apply list.Forall_true.
  - destruct s as [m|].
    + destruct (Hinv m eq_refl) as [[(Hi & _) _] [Hc Hr]].
      pose proof (intervals_ok_active _ Browser.SocketResync e Hi) as Ha.
      cbn in Ha.
      destruct (Browser.active Browser.SocketResync e).
      * symmetry. apply andb_true_iff.
        destruct (proj1 Hr (proj1 Ha eq_refl)) as (_ & ? & ?). done.
      * symmetry. apply andb_false_iff.
        destruct (QuizSocket.isConnected (Session.sock m)) eqn:E1; [|by left].
        destruct (QuizSocket.isJoined _) eqn:E2; [|by right].
        assert (is_Some (QuizSocket.resync_effect (Session.sock m))) as Hs
          by (apply Hr; split_and!; [apply Hc|..]; done).
        by pose proof (proj2 Ha Hs).
    + destruct Hstate as (Hi & _). unfold Browser.active. by rewrite Hi.
Qed.

(** ** Leaving the quiz *)

Lemma socket_render_same (old s : QuizSocket.State) (e : Browser.env) :
  QuizSocket.socket old = QuizSocket.socketRef s →
  QuizSocket.isConnected old = QuizSocket.isConnected s →
  let '(k, _, out) := QuizSocket.render old s e in
  out = [] ∧ QuizSocket.join_effect k = QuizSocket.join_effect old.
Proof.
  intros H1 H2. unfold QuizSocket.render.
  rewrite !bool_decide_eq_true_2 by done. cbn [negb orb].
  by destruct (if negb _ then QuizSocket.resync_setup _ _ _ else _) as [r e4].
Qed.

Lemma socket_render_fresh (old s : QuizSocket.State) (e : Browser.env) :
  QuizSocket.join_effect old = None →
  let '(k, _, out) := QuizSocket.render old s e in
  Forall (not_event "leave_quiz") out ∧
  ∀ j, QuizSocket.join_effect k = Some j →
       QuizSocket.seen_isJoined j = QuizSocket.isJoined (QuizSocket.quizState s) ∧
       QuizSocket.isConnected s = true.
Proof.
  intros Hj. unfold QuizSocket.render. rewrite Hj.
  set (d1 := negb _ || negb _). set (d2 := d1 || _). clearbody d2 d1.
  destruct d1; cbn beta iota zeta.
  - unfold QuizSocket.join_setup.
    destruct (negb (bool_decide (is_Some (QuizSocket.socketRef s)))); cbn [orb].
    { destruct (if d2 then QuizSocket.resync_setup _ _ _ else _) as [r er].
      split; [constructor|]. by intros j [=]. }
    destruct (QuizSocket.isConnected s) eqn:Hc; cbn [negb orb].
    2:{ destruct (if d2 then QuizSocket.resync_setup _ _ _ else _) as [r er].
        split; [constructor|]. by intros j [=]. }
    destruct (negb (JS.truthy_string _)).
    { destruct (if d2 then QuizSocket.resync_setup _ _ _ else _) as [r er].
      split; [constructor|]. by intros j [=]. }
    repeat (destruct (Browser.new_object _) as [? ?]).
    destruct (if d2 then QuizSocket.resync_setup _ _ _ else _) as [r er].
    cbn [app]. split.
    + unfold QuizSocket.emit. destruct (QuizSocket.socketRef s); repeat constructor.
      done.
    + by intros j [= <-].
  - destruct (if d2 then QuizSocket.resync_setup _ _ _ else _) as [r er].
    split; [constructor|]. by intros j [=].
Qed.

Lemma emitted_not_event (name : string) (names : list string) (out : list output) :
  emitted out ⊆ names → name ∉ names → Forall (not_event name) out.
Proof.
  intros Hsub Hn. apply not_event_emitted. intros Hin. by apply Hn, Hsub.
Qed.

Lemma session_unmount_no_leave (m : Session.Mounted) (e : Browser.env) :
  (∀ j, QuizSocket.join_effect (Session.sock m) = Some j →
        QuizSocket.seen_isJoined j = false) →
  snd (Session.unmount m e) = [].
Proof.
  intros Hseen. unfold Session.unmount, QuizSocket.unmount.
  destruct (QuizSocket.join_effect (Session.sock m)) as [j|]; [|done].
  unfold QuizSocket.join_cleanup. by rewrite (Hseen j eq_refl).
Qed.

Lemma settle_no_leave (r : bool) (m : Session.Mounted) (e : Browser.env)
    (cs : list QuizTimer.call) (out : list output) :
  (∀ j, QuizSocket.join_effect (Session.sock m) = Some j →
        QuizSocket.seen_isJoined j = false) →
  Forall (not_event "leave_quiz") out →
  Forall (not_event "leave_quiz") (snd (Session.settle r m e cs out)).
Proof.
  intros Hseen Hout. unfold Session.settle.
  pose proof (render_children_sock m e) as Hr.
  destruct (if r then Session.render_children m e else (m, e, []))
    as [[m1 e1] cs1] eqn:E1.
  assert (H1 : Session.sock m1 = Session.sock m).
  { destruct r; [by rewrite E1 in Hr|]. by injection E1 as <- _ _. }
  pose proof (answer_calls_emitted m1 (cs ++ cs1)) as Ha.
  pose proof (answer_calls_sock m1 (cs ++ cs1)) as Hs.
  destruct (Session.answer_calls m1 (cs ++ cs1)) as [m2 out2]. cbn [fst snd] in *.
  assert (H2 : Forall (not_event "leave_quiz") (out ++ out2)).
  { apply Forall_app. split; [done|].
    eapply emitted_not_event; [exact Ha|].
    intros (c & Hc & _)%list_elem_of_fmap. by destruct c. }
  destruct (Session.navigates _); [|exact H2].
  pose proof (session_unmount_no_leave m2 e1) as Hu.
  destruct (Session.unmount m2 e1) as [e2 out3]. cbn [snd] in *.
  rewrite Hu; [by rewrite app_nil_r|]. by rewrite Hs, H1.
Qed.

Lemma handle_iter_connected (ev : QuizSocket.inbound) (n : nat)
    (s : QuizSocket.State) :
  stays_connected (Session.Channel ev) →
  let s' := Nat.iter (S n) (QuizSocket.handle ev) s in
  (QuizSocket.isConnected s = true → QuizSocket.isConnected s' = true) ∧
  (connection_event ev →
   QuizSocket.quizState s' = QuizSocket.quizState s) ∧
  (¬ connection_event ev →
   QuizSocket.isConnected s' = QuizSocket.isConnected s).
Proof.
  intros Hev. induction n as [|n IH].
  - by destruct ev.
  - cbn zeta in *. rewrite Nat.iter_succ.
    set (s1 := Nat.iter (S n) (QuizSocket.handle ev) s) in *.
    destruct IH as (H1 & H2 & H3). split_and!.
    + intros Hc. specialize (H1 Hc). by destruct ev.
    + intros Hcev. rewrite <- (H2 Hcev). by destruct ev.
    + intros Hcev. rewrite <- (H3 Hcev). by destruct ev.
Qed.

(** X12. The clean-up of the joining effect sends [leave_quiz] according to
    the [isJoined] that the effect saw when it ran, and the effect runs
    when the connection comes up, before [quiz_joined] can have arrived.
    So in a session whose connection never goes down, no [leave_quiz] is
    ever sent, whether the quiz was joined or not and however the page is
    left. *)
Theorem leave_quiz_needs_reconnect (tok : option string) (sess : option string)
    (now : Z) (evs : list Session.event) :
  Forall stays_connected evs →
  "leave_quiz" ∉ emitted (snd (Session.session tok sess now evs)).
Proof.
  intros Hevs.
  pose proof (session_invariant stays_connected
                (λ m _,
                   (QuizSocket.isConnected (Session.sock m) = true →
                    QuizSocket.socket (Session.sock m)
                    = QuizSocket.socketRef (Session.sock m)) ∧
                   (QuizSocket.isConnected (Session.sock m) = false →
                    QuizSocket.join_effect (Session.sock m) = None ∧
                    QuizSocket.isJoined (QuizSocket.quizState (Session.sock m))
                    = false) ∧
                   (∀ j, QuizSocket.join_effect (Session.sock m) = Some j →
                         QuizSocket.seen_isJoined j = false))
                (not_event "leave_quiz") tok sess now evs) as H.
  destruct (Session.session tok sess now evs) as [[s e] out].
  destruct H as [Hout _]; [| |done|by apply not_event_emitted].
  - intros ev m e0 Hev Hok (I1 & I2 & I3).
    assert (Hsettle : ∀ r m0 e1 cs out0,
               Session.sock m0 = Session.sock m →
               Forall (not_event "leave_quiz") out0 →
               let '(s', e', out') := Session.settle r m0 e1 cs out0 in
               Forall (not_event "leave_quiz") out' ∧
               ∀ m', s' = Session.Live m' → Session.sock m' = Session.sock m).
    { intros r m0 e1 cs out0 Hm0 Hout0.
      pose proof (settle_no_leave r m0 e1 cs out0) as Hn.
      pose proof (settle_sock r m0 e1 cs out0) as Hs.
      destruct (Session.settle r m0 e1 cs out0) as [[s' e'] out']. cbn [fst snd] in *.
      split; [apply Hn; [by rewrite Hm0|done]|].
      intros m' ->. by rewrite (Hs m' eq_refl). }
    assert (Hkeep : ∀ r m0 e1 cs out0,
               Session.sock m0 = Session.sock m →
               Forall (not_event "leave_quiz") out0 →
               let '(s', e', out') := Session.settle r m0 e1 cs out0 in
               Forall (not_event "leave_quiz") out' ∧
               ∀ m', s' = Session.Live m' →
                 (QuizSocket.isConnected (Session.sock m') = true →
                  QuizSocket.socket (Session.sock m')
                  = QuizSocket.socketRef (Session.sock m')) ∧
                 (QuizSocket.isConnected (Session.sock m') = false →
                  QuizSocket.join_effect (Session.sock m') = None ∧
                  QuizSocket.isJoined (QuizSocket.quizState (Session.sock m'))
                  = false) ∧
                 (∀ j, QuizSocket.join_effect (Session.sock m') = Some j →
                       QuizSocket.seen_isJoined j = false)).
    { intros r m0 e1 cs out0 Hm0 Hout0.
      pose proof (Hsettle r m0 e1 cs out0 Hm0 Hout0) as Hx.
      destruct (Session.settle r m0 e1 cs out0) as [[s' e'] out'].
      destruct Hx as [Hx1 Hx2]. split; [done|].
      intros m' Hm'. by rewrite (Hx2 m' Hm'). }
    destruct ev as [qs i now'|msg|cev| | | | | |uev|]; cbn [Session.step_live].
    + destruct (QuizPage.loading _); [by apply Hkeep; [|constructor]|].
      split; [constructor|]. by intros m' [= <-].
    + destruct (QuizPage.loading _); [by apply Hkeep; [|constructor]|].
      split; [constructor|]. by intros m' [= <-].
    + destruct (QuizSocket.registered _ _ _) as [|n] eqn:Hreg.
      { split; [constructor|]. by intros m' [= <-]. }
      unfold QuizSocket.receive. rewrite Hreg.
      destruct (handle_iter_effects cev (S n) (Session.sock m))
        as (Href & Hsk & _ & Hje & _).
      destruct (handle_iter_connected cev n (Session.sock m) Hev) as (Hc1 & Hc2 & Hc3).
      set (s1 := Nat.iter (S n) (QuizSocket.handle cev) (Session.sock m)) in *.
      pose proof (socket_render_cells (Session.sock m) s1 e0) as Hcells.
      assert (Hrender :
                let '(k, _, out0) := QuizSocket.render (Session.sock m) s1 e0 in
                Forall (not_event "leave_quiz") out0 ∧
                (QuizSocket.isConnected k = false →
                 QuizSocket.join_effect k = None ∧
                 QuizSocket.isJoined (QuizSocket.quizState k) = false) ∧
                (∀ j, QuizSocket.join_effect k = Some j →
                      QuizSocket.seen_isJoined j = false)).
      { destruct (QuizSocket.isConnected (Session.sock m)) eqn:Hconn.
        - (* connected: the dependencies of the joining effect are unchanged *)
          pose proof (socket_render_same (Session.sock m) s1 e0) as Hsame.
          destruct (QuizSocket.render (Session.sock m) s1 e0) as [[k e1] out0].
          cbn [fst] in Hcells. destruct Hcells as (Hq & Hcn & _).
          destruct Hsame as [-> Hj].
          { by rewrite Href, <- (I1 eq_refl). }
          { by rewrite (Hc1 eq_refl). }
          split_and!; [constructor| |by rewrite Hj].
          rewrite Hcn, (Hc1 eq_refl). done.
        - (* not connected: no joining effect to clean up *)
          destruct (I2 eq_refl) as [Hnone Hnj].
          destruct (event_name_quiz cev) as [Hcev|Hcev];
            [|by rewrite (registered_zero m e0 _ Hok Hnone Hcev) in Hreg].
          pose proof (socket_render_fresh (Session.sock m) s1 e0 Hnone) as Hfresh.
          destruct (QuizSocket.render (Session.sock m) s1 e0) as [[k e1] out0].
          cbn [fst] in Hcells. destruct Hcells as (Hq & Hcn & _).
          destruct Hfresh as [Hf1 Hf2]. split_and!; [done| |].
          + intros Hk. rewrite Hq, (Hc2 Hcev). split; [|done].
            destruct (QuizSocket.join_effect k) as [j|] eqn:Hj; [|done].
            destruct (Hf2 j eq_refl) as [_ Hx]. congruence.
          + intros j Hj. destruct (Hf2 j Hj) as [-> _]. by rewrite (Hc2 Hcev). }
      destruct (QuizSocket.render (Session.sock m) s1 e0) as [[k e1] out0].
      cbn [fst] in Hcells. destruct Hcells as (_ & _ & Hkr & Hks).
      destruct Hrender as (Hr1 & Hr2 & Hr3).
      pose proof (settle_no_leave (Session.channel_rerenders cev (Session.sock m) k)
                    (Session.set_sock k m) e1 [] out0 Hr3 Hr1) as Hn.
      pose proof (settle_sock (Session.channel_rerenders cev (Session.sock m) k)
                    (Session.set_sock k m) e1 [] out0) as Hs.
      destruct (Session.settle _ (Session.set_sock k m) e1 [] out0)
        as [[s' e'] out']. cbn [fst snd] in *.
      split; [done|]. intros m' ->. rewrite (Hs m' eq_refl).
      cbn [Session.set_sock Session.sock]. split_and!; [|done|done].
      intros _. by rewrite Hks, Hkr.
    + destruct (Session.timer m) as [t|].
      * destruct (QuizTimer.tick t e0) as [[t' e1] cs].
        by apply Hkeep; [|constructor].
      * split; [constructor|]. by intros m' [= <-].
    + destruct (Session.timer m) as [t|].
      * destruct (QuizTimer.resync_tick t e0) as [[t' e1] cs].
        by apply Hkeep; [|constructor].
      * split; [constructor|]. by intros m' [= <-].
    + apply Hkeep; [done|].
      eapply emitted_not_event with (names := ["request_time_sync"]).
      * unfold QuizSocket.resync_tick.
        destruct (Browser.active _ _); [apply emitted_emit|apply list_subseteq_nil].
      * by intros ?%list_elem_of_singleton.
    + destruct (Session.wrapper m) as [w|].
      * pose proof (blur_logs w e0) as Hlog.
        destruct (SecurityWrapper.blur w e0) as [w' out0]. cbn [snd] in Hlog.
        apply Hkeep; [done|].
        eapply list.Forall_impl; [exact Hlog|]. by intros [].
      * split; [constructor|]. by intros m' [= <-].
    + destruct (Session.wrapper m) as [w|].
      * pose proof (focus_logs w e0) as Hlog.
        destruct (SecurityWrapper.focus w e0) as [w' out0]. cbn [snd] in Hlog.
        apply Hkeep; [done|].
        eapply list.Forall_impl; [exact Hlog|]. by intros [].
      * split; [constructor|]. by intros m' [= <-].
    + destruct (QuizPage.shows_quiz _).
      * pose proof (user_step_emitted uev (Session.page m) (Session.sock m)) as Hu.
        destruct (QuizPage.step uev (Session.page m)) as [p calls]. cbn [snd] in Hu.
        apply Hkeep; [done|].
        eapply emitted_not_event; [exact Hu|].
        destruct uev; intros Hin%list_elem_of_In; cbn in Hin;
          by repeat destruct Hin as [Hin|Hin].
      * split; [constructor|]. by intros m' [= <-].
    + rewrite (surjective_pairing (Session.unmount m e0)).
      rewrite (session_unmount_no_leave m e0 I3). split; [constructor|done].
  - unfold Session.mount, QuizSocket.mount.
    destruct (QuizSocket.connect_setup tok Browser.empty) as [c e1].
    unfold QuizSocket.join_setup, QuizSocket.resync_setup. cbn.
    split; [constructor|]. intros m0 [= <-]. cbn. by split_and!.
Qed.

Lemma leave_quiz_needs_reconnect_witness :
  let evs := [Session.Channel QuizSocket.Connect;
              Session.Channel (QuizSocket.QuizJoined (QuizSocket.mkQuizJoined 125 0 2));
              Session.Loaded [QuizPage.mkQuestion (Some "q1"%string)] (Some 0) 0;
              Session.Unmount] in
  "leave_quiz" ∉ emitted (snd (Session.session (Some "tok"%string) (Some "sess"%string) 0 evs)).
Proof.
  apply (leave_quiz_needs_reconnect (Some "tok"%string) (Some "sess"%string) 0).
  repeat constructor.
Defined.

(** After a reconnection the effect has run again with [isJoined] set, and
    leaving the page does send [leave_quiz]. *)
Lemma leave_quiz_after_reconnect_example :
  emitted (snd (Session.session (Some "tok"%string) (Some "sess"%string) 0
                  [Session.Channel QuizSocket.Connect;
                   Session.Channel
                     (QuizSocket.QuizJoined (QuizSocket.mkQuizJoined 125 0 2));
                   Session.Channel QuizSocket.Disconnect;
                   Session.Channel QuizSocket.Connect;
                   Session.Unmount]))
  = ["join_quiz"; "join_quiz"; "leave_quiz"]%string.
Proof. vm_compute. reflexivity. Qed.

(** ** While the channel is down *)

Lemma emit_disconnected k name d : QuizSocket.emit false k name d = [].
Proof. unfold QuizSocket.emit. by destruct (QuizSocket.socketRef k). Qed.

Lemma perform_disconnected k (calls : list QuizPage.call) :
  QuizSocket.isConnected k = false →
  emitted (flat_map (Session.perform k) calls) = [].
Proof.
  intros Hk. induction calls as [|c calls IH]; [done|].
  cbn [flat_map]. rewrite emitted_app, IH, app_nil_r.
  destruct c; cbn [Session.perform];
    unfold QuizSocket.submitAnswer, QuizSocket.nextQuestion, QuizSocket.finishQuiz;
    rewrite ?Hk, ?emit_disconnected; done.
Qed.

Lemma answer_calls_disconnected (m : Session.Mounted) (cs : list QuizTimer.call) :
  QuizSocket.isConnected (Session.sock m) = false →
  emitted (snd (Session.answer_calls m cs)) = [].
Proof.
  revert m. induction cs as [|c cs IH]; intros m Hk; [done|].
  cbn [Session.answer_calls].
  assert (H1 : Session.sock (fst (Session.answer_call m c)) = Session.sock m ∧
               emitted (snd (Session.answer_call m c)) = []).
  { destruct c; cbn [Session.answer_call].
    - destruct (QuizPage.handleTimeUp (Session.page m)) as [p calls].
      split; [done|]. by apply perform_disconnected.
    - split; [done|]. unfold QuizSocket.requestTimeSync.
      by rewrite Hk, emit_disconnected. }
  destruct (Session.answer_call m c) as [m1 o1]. cbn [fst snd] in H1.
  destruct H1 as [Hs H1].
  specialize (IH m1 ltac:(by rewrite Hs)).
  destruct (Session.answer_calls m1 cs) as [m2 o2].
  cbn [snd] in *. by rewrite emitted_app, H1, IH.
Qed.

Lemma settle_disconnected (r : bool) (m : Session.Mounted) (e : Browser.env)
    (cs : list QuizTimer.call) (out : list output) :
  QuizSocket.isConnected (Session.sock m) = false →
  QuizSocket.join_effect (Session.sock m) = None →
  emitted (snd (Session.settle r m e cs out)) = emitted out.
Proof.
  intros Hk Hj. unfold Session.settle.
  pose proof (render_children_sock m e) as Hr.
  destruct (if r then Session.render_children m e else (m, e, []))
    as [[m1 e1] cs1] eqn:E1.
  assert (H1 : Session.sock m1 = Session.sock m).
  { destruct r; [by rewrite E1 in Hr|]. by injection E1 as <- _ _. }
  pose proof (answer_calls_disconnected m1 (cs ++ cs1) ltac:(by rewrite H1)) as Ha.
  pose proof (answer_calls_sock m1 (cs ++ cs1)) as Hs.
  destruct (Session.answer_calls m1 (cs ++ cs1)) as [m2 out2]. cbn [fst snd] in *.
  destruct (Session.navigates _).
  - unfold Session.unmount, QuizSocket.unmount. rewrite Hs, H1, Hj.
    cbn [snd]. by rewrite !emitted_app, Ha, !app_nil_r.
  - cbn [snd]. by rewrite emitted_app, Ha, app_nil_r.
Qed.

Lemma join_setup_some sk s e j :
  fst (fst (QuizSocket.join_setup sk s e)) = Some j →
  QuizSocket.isConnected s = true.
Proof.
  unfold QuizSocket.join_setup.
  destruct (negb (bool_decide (is_Some sk))); cbn [orb]; [by intros [=]|].
  by destruct (QuizSocket.isConnected s); cbn; [|intros [=]].
Qed.

(** After a render the joining effect and the 30 s effect hold something
    only if the hook is connected. *)
Lemma socket_render_effects (old s : QuizSocket.State) (e : Browser.env) :
  (QuizSocket.isConnected old = false →
   QuizSocket.join_effect old = None ∧ QuizSocket.resync_effect old = None) →
  let k := fst (fst (QuizSocket.render old s e)) in
  QuizSocket.isConnected k = false →
  QuizSocket.join_effect k = None ∧ QuizSocket.resync_effect k = None.
Proof.
  intros Hold. cbn zeta.
  destruct (socket_render_cells old s e) as (_ & Hcn & _). rewrite Hcn.
  intros Hk. split.
  - unfold QuizSocket.render.
    set (d1 := negb _ || negb _). set (d2 := d1 || _).
    destruct (if d1 then match QuizSocket.join_effect old with _ => _ end else _)
      as [e1 o1].
    set (e2 := if d2 then _ else e1).
    assert (H2 : fst (fst (if d1 then QuizSocket.join_setup (QuizSocket.socketRef s) s e2
                           else (QuizSocket.join_effect old, e2, []))) = None).
    { destruct d1 eqn:Hd1.
      - destruct (fst (fst (QuizSocket.join_setup _ s e2))) as [j|] eqn:Hj; [|done].
        apply join_setup_some in Hj. congruence.
      - cbn. unfold d1 in Hd1. apply orb_false_elim in Hd1 as [_ Hd1].
        apply negb_false_iff, bool_decide_eq_true in Hd1.
        apply Hold. congruence. }
    destruct (if d1 then QuizSocket.join_setup _ s e2 else _) as [[j e3] o2].
    by destruct (if d2 then QuizSocket.resync_setup _ s e3 else _) as [r e4].
  - destruct (socket_render_resync old s e) as [Hr|(Hr & _ & Hc & _)].
    + cbn zeta in Hr.
      destruct (QuizSocket.resync_effect (fst (fst (QuizSocket.render old s e))))
        as [r|]; [|done].
      destruct (proj1 Hr ltac:(by eexists)) as (_ & ? & _). congruence.
    + rewrite Hr. apply Hold. congruence.
Qed.

(** X13. While the hook is not connected nothing is sent: whatever the user
    does and whatever the timers do, answers, question changes, the
    finish of the quiz and requests for the time are dropped, without
    being kept for later; the page is still sent to the results. *)
Theorem disconnected_sends_nothing (tok : option string) (sess : option string)
    (now : Z) (evs : list Session.event) (ev : Session.event) :
  let '(s, e, _) := Session.session tok sess now evs in
  match s with
  | Session.Live m =>
      QuizSocket.isConnected (Session.sock m) = false →
      (∀ cev, ev ≠ Session.Channel cev) →
      emitted (snd (Session.step_live ev m e)) = []
  | Session.Gone => True
  end.
Proof.
  pose proof (session_invariant (λ _, True)
                (λ m _,
                   QuizSocket.isConnected (Session.sock m) = false →
                   QuizSocket.join_effect (Session.sock m) = None ∧
                   QuizSocket.resync_effect (Session.sock m) = None)
                (λ _, True) tok sess now evs) as H.
  destruct (Session.session tok sess now evs) as [[s e] out].
  destruct H as [_ Hinv].
  - intros ev0 m e0 _ _ HI.
    pose proof (step_live_sock ev0 m e0) as Hs.
    destruct (Session.step_live ev0 m e0) as [[s' e'] out']. cbn [fst] in Hs.
    split; [by apply list.Forall_true|].
    intros m' ->. destruct (Hs m' eq_refl) as [->|(cev & n & _ & _ & ->)];
      [done|].
    apply socket_render_effects.
    destruct (handle_iter_effects cev (S n) (Session.sock m))
      as (_ & _ & _ & Hj & Hr).
    exact HI.
  - unfold Session.mount, QuizSocket.mount.
    destruct (QuizSocket.connect_setup tok Browser.empty) as [c e1].
    unfold QuizSocket.join_setup, QuizSocket.resync_setup. cbn.
    split; [constructor|]. by intros m0 [= <-].
  - by apply list.Forall_true.
  - destruct s as [m|]; [|done]. intros Hk Hev.
    destruct (Hinv m eq_refl) as [[(Hi & _) _] HI].
    destruct (HI Hk) as [Hj Hr].
    assert (Hact : Browser.active Browser.SocketResync e = false).
    { destruct (Browser.active Browser.SocketResync e) eqn:Ha; [|done].
      apply (intervals_ok_active _ _ _ Hi) in Ha. cbn in Ha.
      rewrite Hr in Ha. by destruct Ha. }
    destruct ev as [qs i now'|msg|cev| | | | | |uev|]; cbn [Session.step_live].
    + destruct (QuizPage.loading _); [|done]. by rewrite settle_disconnected.
    + destruct (QuizPage.loading _); [|done]. by rewrite settle_disconnected.
    + by destruct (Hev cev).
    + destruct (Session.timer m) as [t|]; [|done].
      destruct (QuizTimer.tick t e) as [[t' e1] cs]. by rewrite settle_disconnected.
    + destruct (Session.timer m) as [t|]; [|done].
      destruct (QuizTimer.resync_tick t e) as [[t' e1] cs].
      by rewrite settle_disconnected.
    + rewrite settle_disconnected by done.
      unfold QuizSocket.resync_tick. by rewrite Hact.
    + destruct (Session.wrapper m) as [w|]; [|done].
      pose proof (blur_logs w e) as Hlog.
      destruct (SecurityWrapper.blur w e) as [w' out0]. cbn [snd] in Hlog.
      rewrite settle_disconnected by done. by apply emitted_console.
    + destruct (Session.wrapper m) as [w|]; [|done].
      pose proof (focus_logs w e) as Hlog.
      destruct (SecurityWrapper.focus w e) as [w' out0]. cbn [snd] in Hlog.
      rewrite settle_disconnected by done. by apply emitted_console.
    + destruct (QuizPage.shows_quiz _); [|done].
      destruct (QuizPage.step uev (Session.page m)) as [p calls].
      rewrite settle_disconnected by done. by apply perform_disconnected.
    + unfold Session.unmount, QuizSocket.unmount. by rewrite Hj.
Qed.

Lemma disconnected_sends_nothing_witness :
  let '(s, e, _) :=
    Session.session (Some "tok"%string) (Some "sess"%string) 0
      [Session.Channel QuizSocket.Connect;
       Session.Channel (QuizSocket.QuizJoined (QuizSocket.mkQuizJoined 125 0 2));
       Session.Loaded [QuizPage.mkQuestion (Some "q1"%string)] (Some 0) 0;
       Session.Channel QuizSocket.Disconnect] in
  ∃ m, s = Session.Live m ∧
       snd (Session.step_live (Session.User QuizPage.Finish) m e)
       = [Navigate "/results/sess"] ∧
       emitted (snd (Session.step_live (Session.User QuizPage.Finish) m e)) = [].
Proof.
  pose proof (disconnected_sends_nothing (Some "tok"%string) (Some "sess"%string) 0
                [Session.Channel QuizSocket.Connect;
                 Session.Channel
                   (QuizSocket.QuizJoined (QuizSocket.mkQuizJoined 125 0 2));
                 Session.Loaded [QuizPage.mkQuestion (Some "q1"%string)] (Some 0) 0;
                 Session.Channel QuizSocket.Disconnect]
                (Session.User QuizPage.Finish)) as H.
  destruct (Session.session _ _ _ _) as [[s e] out] eqn:E.
  vm_compute in E. injection E as <- <- _.
  eexists. split; [reflexivity|]. split; [vm_compute; reflexivity|].
  by apply H.
Defined.

(** ** Counting down *)

Lemma or_zero_some (v : Z) : JS.or_zero (Some v) = v.
Proof. unfold JS.or_zero. destruct (Z.eqb_spec v 0); congruence. Qed.

Lemma timer_mount_some (T : Z) cb sync (e : Browser.env) :
  let t := fst (fst (QuizTimer.mount (QuizTimer.mkProps (Some T) cb sync) e)) in
  QuizTimer.timeRemaining t = T ∧
  QuizTimer.isWarning t = false ∧ QuizTimer.isCritical t = false.
Proof.
  unfold QuizTimer.mount. cbn [QuizTimer.initialTimeRemaining QuizTimer.sync_effect].
  rewrite or_zero_some, Z.eqb_refl.
  destruct (QuizTimer.countdown_effect T _ e) as [[cd e1] c1].
  by destruct (QuizTimer.resync_effect _ e1) as [rs e2].
Qed.

(** One tick: a positive remaining time goes down by one and the flags
    are those of the new value; at 0 nothing changes. *)
Lemma timer_tick_value (t : QuizTimer.State) (e : Browser.env) :
  timer_ok t no_slots e →
  0 <= QuizTimer.timeRemaining t →
  let t' := fst (fst (QuizTimer.tick t e)) in
  QuizTimer.timeRemaining t' = Z.max 0 (QuizTimer.timeRemaining t - 1) ∧
  (0 < QuizTimer.timeRemaining t →
   (QuizTimer.isWarning t', QuizTimer.isCritical t')
   = QuizTimer.classify (QuizTimer.timeRemaining t')) ∧
  (QuizTimer.timeRemaining t = 0 → t' = t).
Proof.
  intros Hok Hnn. pose proof (timer_ok_active t no_slots e Hok) as Hact.
  destruct (Browser.active Browser.CountdownTick e) eqn:Ha.
  - assert (0 < QuizTimer.timeRemaining t).
    { destruct (Z.ltb_spec 0 (QuizTimer.timeRemaining t)); [done|].
      by pose proof (proj2 Hact ltac:(lia)). }
    destruct (tick_active t e Ha) as (e' & cs & ->).
    cbn [fst QuizTimer.timeRemaining QuizTimer.isWarning QuizTimer.isCritical].
    unfold JS.max. split_and!; [done| |lia].
    intros _. by destruct (QuizTimer.classify _).
  - rewrite (tick_inactive t e Ha). cbn [fst].
    pose proof (proj1 Hact eq_refl). split_and!; [lia|lia|done].
Qed.

Lemma timer_run_ticks (n : nat) (t : QuizTimer.State) (e : Browser.env) :
  timer_ok t no_slots e →
  0 <= QuizTimer.timeRemaining t →
  let t' := fst (fst (QuizTimer.run (repeat QuizTimer.Tick n) t e)) in
  QuizTimer.timeRemaining t' = Z.max 0 (QuizTimer.timeRemaining t - Z.of_nat n) ∧
  ((QuizTimer.isWarning t, QuizTimer.isCritical t)
   = QuizTimer.classify (QuizTimer.timeRemaining t) ∨
   (0 < n)%nat ∧ 0 < QuizTimer.timeRemaining t →
   (QuizTimer.isWarning t', QuizTimer.isCritical t')
   = QuizTimer.classify (QuizTimer.timeRemaining t')).
Proof.
  revert t e. induction n as [|n IH]; intros t e Hok Hnn.
  { cbn. split; [lia|]. intros [H|[H _]]; [done|lia]. }
  cbn [repeat QuizTimer.run QuizTimer.step].
  pose proof (timer_tick_ok t no_slots e Hok) as Hok1.
  pose proof (timer_tick_value t e Hok Hnn) as Hv.
  destruct (QuizTimer.tick t e) as [[t1 e1] c1]. cbn [fst] in Hv.
  destruct Hok1 as [Hok1 _]. destruct Hv as (Hv1 & Hv2 & Hv3).
  specialize (IH t1 e1 Hok1 ltac:(lia)).
  destruct (QuizTimer.run (repeat QuizTimer.Tick n) t1 e1) as [[t2 e2] c2].
  cbn [fst] in *. destruct IH as [IH1 IH2]. split; [lia|].
  intros Hflags. apply IH2. left.
  destruct (Z.ltb_spec 0 (QuizTimer.timeRemaining t)) as [Hpos|Hz];
    [by apply Hv2|].
  rewrite (Hv3 ltac:(lia)). destruct Hflags as [H|[_ H]]; [done|lia].
Qed.

(** X14. Left alone, the timer counts down by one per tick and stops at 0:
    mounted with [T] seconds, after [n] ticks it holds [max 0 (T - n)],
    and from the first tick on the band shown is the band of the time
    shown. *)
Theorem ticks_count_down (T : Z) (cb sync : option nat) (n : nat) :
  0 <= T →
  let '(t, _, _) :=
    QuizTimer.session (QuizTimer.mkProps (Some T) cb sync)
                      (repeat QuizTimer.Tick n) in
  QuizTimer.timeRemaining t = Z.max 0 (T - Z.of_nat n) ∧
  ((0 < n)%nat → 0 < T →
   QuizTimer.band_of (QuizTimer.isWarning t) (QuizTimer.isCritical t)
   = QuizTimer.band_at (Z.max 0 (T - Z.of_nat n))).
Proof.
  intros HT. unfold QuizTimer.session.
  pose proof (timer_mount_ok (QuizTimer.mkProps (Some T) cb sync) no_slots
                Browser.empty intervals_ok_empty) as Hok.
  pose proof (timer_mount_some T cb sync Browser.empty) as Hm.
  destruct (QuizTimer.mount _ Browser.empty) as [[t0 e0] c0]. cbn [fst] in Hm.
  destruct Hok as (Hok & _). destruct Hm as (Ht & Hw & Hc).
  pose proof (timer_run_ticks n t0 e0 Hok ltac:(lia)) as Hrun.
  destruct (QuizTimer.run (repeat QuizTimer.Tick n) t0 e0) as [[t1 e1] c1].
  cbn [fst] in Hrun. destruct Hrun as [H1 H2]. rewrite Ht in *.
  split; [done|]. intros Hn Hpos.
  specialize (H2 ltac:(right; done)). unfold QuizTimer.band_at.
  rewrite <- H1, <- H2. done.
Qed.

Lemma ticks_count_down_witness :
  let '(t, _, _) :=
    QuizTimer.session (QuizTimer.mkProps (Some 62) (Some 0%nat) None)
                      (repeat QuizTimer.Tick 2) in
  QuizTimer.timeRemaining t = 60 ∧
  QuizTimer.band_of (QuizTimer.isWarning t) (QuizTimer.isCritical t)
  = QuizTimer.Warning.
Proof.
  pose proof (ticks_count_down 62 (Some 0%nat) None 2 ltac:(lia)) as H.
  destruct (QuizTimer.session _ _) as [[t e] cs].
  destruct H as [H1 H2]. split; [exact H1|]. apply H2; lia.
Defined.

(** ** A new time from the server and the band *)

(** What a render does to the cells of the timer. *)
Lemma timer_render_cells p' tr' w' c' t e :
  let t' := fst (fst (QuizTimer.render p' tr' w' c' t e)) in
  QuizTimer.isWarning t' = w' ∧ QuizTimer.isCritical t' = c' ∧
  QuizTimer.timeRemaining t' =
    match QuizTimer.initialTimeRemaining p' with
    | Some v =>
        if decide (QuizTimer.initialTimeRemaining (QuizTimer.props t) = Some v)
        then tr' else v
    | None => tr'
    end.
Proof.
  unfold QuizTimer.render, QuizTimer.opt_eqb, QuizTimer.sync_effect.
  set (d2 := negb (QuizTimer.timeRemaining t =? tr') || _).
  set (d3 := negb (bool_decide (QuizTimer.onTimeSync _ = QuizTimer.onTimeSync p'))).
  set (e1 := if d2 then _ else e).
  set (e2 := if d3 then _ else e1).
  destruct (if d2 then QuizTimer.countdown_effect tr' p' e2 else _)
    as [[cd e3] c1].
  destruct (if d3 then QuizTimer.resync_effect p' e3 else _) as [rs e4].
  destruct (QuizTimer.initialTimeRemaining p') as [v|] eqn:Hp.
  - case_bool_decide as Hd; cbn [negb].
    + rewrite decide_True by done. done.
    + rewrite decide_False by done.
      destruct (Z.eqb_spec v tr') as [->|Hne]; [done|].
      by destruct (QuizTimer.countdown_effect v p' _) as [[cd' e5] c2].
  - by case_bool_decide.
Qed.

(** X15. A render of the timer with a new [initialTimeRemaining] replaces
    the time shown by the new value, and with an unchanged or unset one
    keeps the local value; in neither case does it touch the band flags,
    which only a tick sets.  So after a [time_sync] the band still is the
    one of the old time until the next tick, and a timer mounted with 30
    seconds or less shows no warning before its first tick. *)
Theorem sync_sets_time_not_band :
  (∀ p' t e,
     let t' := fst (fst (QuizTimer.rerender p' t e)) in
     QuizTimer.isWarning t' = QuizTimer.isWarning t ∧
     QuizTimer.isCritical t' = QuizTimer.isCritical t ∧
     (∀ v, QuizTimer.initialTimeRemaining p' = Some v →
           QuizTimer.initialTimeRemaining (QuizTimer.props t) ≠ Some v →
           QuizTimer.timeRemaining t' = v) ∧
     (QuizTimer.initialTimeRemaining p'
      = QuizTimer.initialTimeRemaining (QuizTimer.props t) →
      QuizTimer.timeRemaining t' = QuizTimer.timeRemaining t)) ∧
  (∀ T cb sync e,
     let t := fst (fst (QuizTimer.mount (QuizTimer.mkProps (Some T) cb sync) e)) in
     QuizTimer.timeRemaining t = T ∧
     QuizTimer.band_of (QuizTimer.isWarning t) (QuizTimer.isCritical t)
     = QuizTimer.Normal).
Proof.
  split.
  - intros p' t e. unfold QuizTimer.rerender.
    destruct (timer_render_cells p' (QuizTimer.timeRemaining t)
                (QuizTimer.isWarning t) (QuizTimer.isCritical t) t e)
      as (Hw & Hc & Ht).
    cbn zeta. split_and!; [done|done| |].
    + intros v Hv Hne. rewrite Ht, Hv. by rewrite decide_False.
    + intros Heq. rewrite Ht. destruct (QuizTimer.initialTimeRemaining p'); [|done].
      by rewrite decide_True.
  - intros T cb sync e.
    destruct (timer_mount_some T cb sync e) as (Ht & Hw & Hc).
    cbn zeta. by rewrite Ht, Hw, Hc.
Qed.

Lemma sync_sets_time_not_band_witness :
  let '(t, e, _) :=
    QuizTimer.session (QuizTimer.mkProps (Some 62) (Some 0%nat) None)
                      (repeat QuizTimer.Tick 2) in
  let t' := fst (fst (QuizTimer.rerender
                        (QuizTimer.mkProps (Some 300) (Some 1%nat) None) t e)) in
  QuizTimer.timeRemaining t' = 300 ∧
  QuizTimer.band_of (QuizTimer.isWarning t') (QuizTimer.isCritical t')
  = QuizTimer.Warning.
Proof.
  destruct (QuizTimer.session _ _) as [[t e] cs] eqn:E.
  vm_compute in E. injection E as <- <- _.
  match goal with
  | |- context [QuizTimer.rerender ?p ?t ?e] =>
      destruct (proj1 sync_sets_time_not_band p t e) as (Hw & Hc & Hv & _)
  end.
  cbn zeta. rewrite Hw, Hc. split; [|reflexivity].
  by apply Hv.
Defined.

(** ** Reading a rendered time back *)

Lemma string_of_uint_no_colon (d : Decimal.uint) :
  ¬ has_colon (NilEmpty.string_of_uint d).
Proof. induction d; cbn; [tauto|..]; intros [H|H]; try discriminate; auto. Qed.

Lemma toString_no_colon (n : Z) : ¬ has_colon (JS.toString n).
Proof.
  assert (H : ∀ d, ¬ has_colon (NilZero.string_of_uint d)).
  { intros d. unfold NilZero.string_of_uint.
    destruct d; try apply string_of_uint_no_colon.
    cbn. intros [H|H]; [discriminate|done]. }
  unfold JS.toString, NilZero.string_of_int.
  destruct (Z.to_int n) as [d|d]; [apply H|].
  cbn. intros [Hc|Hc]; [discriminate|by apply (H d)].
Qed.

Lemma toString_inj (n m : Z) : JS.toString n = JS.toString m → n = m.
Proof.
  unfold JS.toString. intros H. apply DecimalZ.to_int_inj.
  assert (Hn : ∀ z, NilZero.int_of_string (NilZero.string_of_int (Z.to_int z))
                    = Some (Z.to_int z)).
  { intros z. apply NilZero.isi; destruct z; cbn; try discriminate;
      intros [= Hp]; by apply DecimalPos.Unsigned.to_uint_nonnil in Hp. }
  pose proof (Hn n) as H1. rewrite H, Hn in H1. congruence.
Qed.

Lemma append_nil (s : string) : "" +:+ s = s.
Proof. reflexivity. Qed.

Lemma append_cons (c : ascii) (s t : string) :
  String c s +:+ t = String c (s +:+ t).
Proof. reflexivity. Qed.

(** A string without colon, a colon and a rest: the two parts are
    determined by the whole. *)
Lemma split_at_colon (p p' r r' : string) :
  ¬ has_colon p → ¬ has_colon p' →
  p +:+ ":" +:+ r = p' +:+ ":" +:+ r' → p = p' ∧ r = r'.
Proof.
  revert p'. induction p as [|c p IH]; intros [|c' p'] Hp Hp';
    repeat (rewrite append_nil || rewrite append_cons).
  - by intros [= ->].
  - intros [= <- _]. destruct Hp'. by left.
  - intros [= -> _]. destruct Hp. by left.
  - intros [= -> H]. destruct (IH p') as [-> ->]; [| |done|done].
    + intros Hc. apply Hp. by right.
    + intros Hc. apply Hp'. by right.
Qed.

Lemma two_digits_inj (s : string) (v v' : Z) :
  two_digits s v → two_digits s v' → v = v'.
Proof.
  intros (c1 & c2 & d1 & d2 & -> & H1 & H2 & ->)
         (c1' & c2' & d1' & d2' & [= <- <-] & H1' & H2' & ->).
  congruence.
Qed.

(** X16. [formatTime] loses nothing: two different non-negative numbers of
    seconds are never rendered as the same text. *)
Theorem formatTime_injective (a b : Z) :
  0 <= a → 0 <= b →
  QuizTimer.formatTime a = QuizTimer.formatTime b → a = b.
Proof.
  intros Ha Hb.
  assert (Hparts : ∀ s, 0 <= s →
            JS.rem s 3600 = s mod 3600 ∧ JS.rem s 60 = s mod 60 ∧
            0 <= s / 3600 ∧ 0 <= (s mod 3600) / 60 < 60 ∧ 0 <= s mod 60 < 60 ∧
            s = 3600 * (s / 3600) + 60 * ((s mod 3600) / 60) + s mod 60).
  { intros s Hs.
    pose proof (Z.mod_pos_bound s 3600 ltac:(lia)).
    pose proof (Z.mod_pos_bound s 60 ltac:(lia)).
    pose proof (Z.div_mod s 3600 ltac:(lia)).
    pose proof (Z.div_mod (s mod 3600) 60 ltac:(lia)).
    assert ((s mod 3600) mod 60 = s mod 60)
      by (apply Z.mod_mod_divide; by exists 60).
    split_and!; try lia;
      try (unfold JS.rem; rewrite Z.rem_mod_nonneg; lia);
      try (apply Z.div_pos; lia); try (apply Z.div_lt_upper_bound; lia). }
  destruct (Hparts a Ha) as (Ra1 & Ra2 & Hha & Hma & Hsa & Ea).
  destruct (Hparts b Hb) as (Rb1 & Rb2 & Hhb & Hmb & Hsb & Eb).
  unfold QuizTimer.formatTime, JS.floor_div. rewrite Ra1, Ra2, Rb1, Rb2.
  pose proof (pad2_two_digits _ Hma) as Pma. pose proof (pad2_two_digits _ Hsa) as Psa.
  pose proof (pad2_two_digits _ Hmb) as Pmb. pose proof (pad2_two_digits _ Hsb) as Psb.
  set (ha := a / 3600) in *. set (ma := (a mod 3600) / 60) in *.
  set (sa := a mod 60) in *.
  set (hb := b / 3600) in *. set (mb := (b mod 3600) / 60) in *.
  set (sb := b mod 60) in *.
  set (pma := JS.padStart 2 "0" (JS.toString ma)) in *.
  set (psa := JS.padStart 2 "0" (JS.toString sa)) in *.
  set (pmb := JS.padStart 2 "0" (JS.toString mb)) in *.
  set (psb := JS.padStart 2 "0" (JS.toString sb)) in *.
  clearbody ha ma sa hb mb sb pma psa pmb psb.
  destruct (ha >? 0) eqn:Ga, (hb >? 0) eqn:Gb; intros H;
    apply split_at_colon in H as [Hh Hrest]; try apply toString_no_colon.
  - apply toString_inj in Hh as ->.
    pose proof Pma as (c1 & c2 & d1 & d2 & E1 & _).
    pose proof Pmb as (c1' & c2' & d1' & d2' & E1' & _).
    rewrite E1, E1' in Hrest. repeat (rewrite append_nil in Hrest || rewrite append_cons in Hrest).
    injection Hrest as -> -> Hs.
    rewrite <- E1' in E1. rewrite E1 in Pma. rewrite Hs in Psa.
    pose proof (two_digits_inj _ _ _ Pma Pmb). pose proof (two_digits_inj _ _ _ Psa Psb).
    lia.
  - pose proof Pma as (c1 & c2 & d1 & d2 & E1 & _).
    pose proof Psa as (c3 & c4 & d3 & d4 & E2 & _).
    pose proof Psb as (c1' & c2' & d1' & d2' & E1' & _).
    rewrite E1, E2, E1' in Hrest.
    by repeat (rewrite append_nil in Hrest || rewrite append_cons in Hrest).
  - pose proof Pmb as (c1 & c2 & d1 & d2 & E1 & _).
    pose proof Psb as (c3 & c4 & d3 & d4 & E2 & _).
    pose proof Psa as (c1' & c2' & d1' & d2' & E1' & _).
    rewrite E1, E2, E1' in Hrest.
    by repeat (rewrite append_nil in Hrest || rewrite append_cons in Hrest).
  - apply toString_inj in Hh as ->. rewrite Hrest in Psa.
    pose proof (two_digits_inj _ _ _ Psa Psb).
    destruct (Z.gtb_spec ha 0), (Z.gtb_spec hb 0); try done. lia.
Qed.

Lemma formatTime_injective_witness :
  QuizTimer.formatTime 125 = QuizTimer.formatTime (120 + 5) ∧ 125 = 120 + 5.
Proof.
  split; [reflexivity|].
  apply (formatTime_injective 125 (120 + 5)); [lia|lia|reflexivity].
Defined.

(** ** The outcome of loading *)

Lemma page_step_loaded (ev : QuizPage.event) (p : QuizPage.State) :
  QuizPage.loading (fst (QuizPage.step ev p)) = QuizPage.loading p ∧
  QuizPage.error (fst (QuizPage.step ev p)) = QuizPage.error p ∧
  QuizPage.questions (fst (QuizPage.step ev p)) = QuizPage.questions p.
Proof.
  destruct ev; cbn [QuizPage.step].
  - unfold QuizPage.handleAnswerSelect. by destruct (negb _).
  - unfold QuizPage.handleNextQuestion. by destruct (_ <? _).
  - unfold QuizPage.handlePreviousQuestion. by destruct (_ >? _).
  - unfold QuizPage.goTo. by destruct (decide _).
  - by rewrite handleFinishQuiz_state.
  - done.
Qed.

(** X17. The page loads its data once: when loading has ended, nothing that
    happens afterwards changes the questions or the error.  A failed load
    is never retried, so a page that shows an error shows it until it is
    left, and never shows the quiz. *)
Theorem load_outcome_is_final (evs : list Session.event) (m : Session.Mounted)
    (e : Browser.env) :
  QuizPage.loading (Session.page m) = false →
  match fst (fst (Session.run evs (Session.Live m) e)) with
  | Session.Live m' =>
      QuizPage.loading (Session.page m') = false ∧
      QuizPage.error (Session.page m') = QuizPage.error (Session.page m) ∧
      QuizPage.questions (Session.page m') = QuizPage.questions (Session.page m) ∧
      QuizPage.shows_quiz (Session.page m') = QuizPage.shows_quiz (Session.page m)
  | Session.Gone => True
  end.
Proof.
  intros Hl.
  pose proof (run_page
                (λ p, QuizPage.loading p = false ∧
                      QuizPage.error p = QuizPage.error (Session.page m) ∧
                      QuizPage.questions p = QuizPage.questions (Session.page m)))
    as H.
  specialize (H ltac:(intros ? ? ? p Hp [Hq _]; congruence)).
  specialize (H ltac:(intros ? p Hp [Hq _]; congruence)).
  specialize (H ltac:(intros ev p _ (<- & <- & <-); apply page_step_loaded)).
  specialize (H evs m e).
  destruct (fst (fst (Session.run evs (Session.Live m) e))) as [m'|]; [|done].
  destruct (H m' ltac:(done) eq_refl) as (H1 & H2 & H3).
  split_and!; try done. unfold QuizPage.shows_quiz. by rewrite H1, H2, Hl.
Qed.

Lemma load_outcome_is_final_witness :
  let '(s0, e0, _) :=
    Session.session (Some "tok"%string) (Some "sess"%string) 0
      [Session.Channel QuizSocket.Connect;
       Session.LoadFailed "Invalid quiz session"] in
  ∀ m, s0 = Session.Live m →
  match fst (fst (Session.run
                    [Session.Loaded [QuizPage.mkQuestion (Some "q1"%string)] (Some 0) 5;
                     Session.User (QuizPage.AnswerSelect OptA 7)]
                    (Session.Live m) e0)) with
  | Session.Live m' =>
      QuizPage.error (Session.page m') = "Invalid quiz session"%string ∧
      QuizPage.questions (Session.page m') = [] ∧
      QuizPage.shows_quiz (Session.page m') = false
  | Session.Gone => True
  end.
Proof.
  destruct (Session.session _ _ _ _) as [[s0 e0] o0] eqn:E.
  vm_compute in E. injection E as <- He _.
  intros m [= <-].
  match goal with
  | |- context [Session.run ?evs (Session.Live ?m) _] =>
      pose proof (load_outcome_is_final evs m e0 eq_refl) as H
  end.
  destruct (fst (fst (Session.run _ _ e0))) as [m'|]; [|done].
  destruct H as (_ & H2 & H3 & H4). by split_and!.
Defined.

(** ** The children of the page *)

Lemma render_children_mounted (m : Session.Mounted) (e : Browser.env) :
  let m' := fst (fst (Session.render_children m e)) in
  (is_Some (Session.timer m') ↔ QuizPage.shows_quiz (Session.page m') = true) ∧
  (is_Some (Session.wrapper m') ↔ QuizPage.shows_quiz (Session.page m') = true).
Proof.
  unfold Session.render_children.
  destruct (QuizPage.shows_quiz (Session.page m)) eqn:Hs.
  - destruct (match Session.wrapper m with
              | Some w => _ | None => _ end) as [w e1].
    destruct (Browser.new_object e1) as [cb1 e2].
    destruct (Browser.new_object e2) as [cb2 e3].
    destruct (match Session.timer m with
              | Some t => _ | None => _ end) as [[t e4] calls].
    cbn. rewrite Hs. by split; split.
  - cbn. rewrite Hs. rewrite !is_Some_alt. by split; split.
Qed.

Lemma settle_mounted (r : bool) (m : Session.Mounted) (e : Browser.env)
    (cs : list QuizTimer.call) (out : list output) :
  r = true ∨
  ((is_Some (Session.timer m) ↔ QuizPage.shows_quiz (Session.page m) = true) ∧
   (is_Some (Session.wrapper m) ↔ QuizPage.shows_quiz (Session.page m) = true)) →
  ∀ m', fst (fst (Session.settle r m e cs out)) = Session.Live m' →
    (is_Some (Session.timer m') ↔ QuizPage.shows_quiz (Session.page m') = true) ∧
    (is_Some (Session.wrapper m') ↔ QuizPage.shows_quiz (Session.page m') = true).
Proof.
  intros Hr m'. unfold Session.settle.
  pose proof (render_children_mounted m e) as Hc.
  destruct (if r then Session.render_children m e else (m, e, []))
    as [[m1 e1] cs1] eqn:E1.
  assert (H1 : (is_Some (Session.timer m1) ↔
                QuizPage.shows_quiz (Session.page m1) = true) ∧
               (is_Some (Session.wrapper m1) ↔
                QuizPage.shows_quiz (Session.page m1) = true)).
  { destruct r; [by rewrite E1 in Hc|]. injection E1 as <- _ _.
    by destruct Hr. }
  pose proof (answer_calls_frame m1 (cs ++ cs1)) as Hf.
  pose proof (answer_calls_page m1 (cs ++ cs1)) as Hp.
  destruct (Session.answer_calls m1 (cs ++ cs1)) as [m2 out2]. cbn [fst] in *.
  destruct Hf as (Hw & Ht & _).
  destruct (Session.navigates _).
  - by destruct (Session.unmount m2 e1).
  - cbn. intros [= <-]. by rewrite Hw, Ht, Hp.
Qed.

Lemma page_step_shows (ev : QuizPage.event) (p : QuizPage.State) :
  QuizPage.shows_quiz (fst (QuizPage.step ev p)) = QuizPage.shows_quiz p.
Proof.
  destruct (page_step_loaded ev p) as (H1 & H2 & _).
  unfold QuizPage.shows_quiz. by rewrite H1, H2.
Qed.

(** X18. QuizTimer and SecurityWrapper are mounted exactly while the page
    shows the quiz: not while it is loading, and not on the error page,
    where no countdown runs and nothing is monitored. *)
Theorem children_mounted_while_shown (tok : option string) (sess : option string)
    (now : Z) (evs : list Session.event) :
  match fst (fst (Session.session tok sess now evs)) with
  | Session.Live m =>
      (is_Some (Session.timer m) ↔ QuizPage.shows_quiz (Session.page m) = true) ∧
      (is_Some (Session.wrapper m) ↔ QuizPage.shows_quiz (Session.page m) = true)
  | Session.Gone => True
  end.
Proof.
  pose proof (session_invariant (λ _, True)
                (λ m _,
                   (is_Some (Session.timer m) ↔
                    QuizPage.shows_quiz (Session.page m) = true) ∧
                   (is_Some (Session.wrapper m) ↔
                    QuizPage.shows_quiz (Session.page m) = true))
                (λ _, True) tok sess now evs) as H.
  destruct (Session.session tok sess now evs) as [[s e] out].
  destruct H as [_ Hinv].
  - intros ev m e0 _ _ HI.
    assert (Hgoal : ∀ m', fst (fst (Session.step_live ev m e0)) = Session.Live m' →
              (is_Some (Session.timer m') ↔
               QuizPage.shows_quiz (Session.page m') = true) ∧
              (is_Some (Session.wrapper m') ↔
               QuizPage.shows_quiz (Session.page m') = true)).
    { intros m'.
      destruct ev as [qs i now'|msg|cev| | | | | |uev|]; cbn [Session.step_live].
      - destruct (QuizPage.loading _); [|by intros [= <-]].
        apply settle_mounted. by left.
      - destruct (QuizPage.loading _); [|by intros [= <-]].
        apply settle_mounted. by left.
      - destruct (QuizSocket.registered _ _ _); [by intros [= <-]|].
        destruct (QuizSocket.receive _ _ _) as [[k e1] out0].
        apply settle_mounted. by right.
      - destruct (Session.timer m) as [t|] eqn:Ht; [|intros [= <-]; by rewrite Ht].
        destruct (QuizTimer.tick t e0) as [[t' e1] cs].
        apply settle_mounted. right. cbn.
        destruct HI as [[HI1 HI2] HI3]. split; [|done].
        split; [intros _; by apply HI1|done].
      - destruct (Session.timer m) as [t|] eqn:Ht; [|intros [= <-]; by rewrite Ht].
        destruct (QuizTimer.resync_tick t e0) as [[t' e1] cs].
        apply settle_mounted. right. cbn.
        destruct HI as [[HI1 HI2] HI3]. split; [|done].
        split; [intros _; by apply HI1|done].
      - apply settle_mounted. by right.
      - destruct (Session.wrapper m) as [w|] eqn:Hw; [|intros [= <-]; by rewrite Hw].
        destruct (SecurityWrapper.blur w e0) as [w' out0].
        apply settle_mounted. right. cbn.
        destruct HI as [HI3 [HI1 HI2]]. split; [done|].
        split; [intros _; by apply HI1|done].
      - destruct (Session.wrapper m) as [w|] eqn:Hw; [|intros [= <-]; by rewrite Hw].
        destruct (SecurityWrapper.focus w e0) as [w' out0].
        apply settle_mounted. right. cbn.
        destruct HI as [HI3 [HI1 HI2]]. split; [done|].
        split; [intros _; by apply HI1|done].
      - destruct (QuizPage.shows_quiz _) eqn:Hs; [|intros [= <-]; by rewrite Hs].
        pose proof (page_step_shows uev (Session.page m)) as Hsh.
        destruct (QuizPage.step uev (Session.page m)) as [p calls].
        apply settle_mounted. right.
        cbn [Session.set_page Session.page Session.timer Session.wrapper fst] in *.
        by rewrite Hsh, Hs.
      - by destruct (Session.unmount m e0). }
    destruct (Session.step_live ev m e0) as [[s' e'] out'].
    split; [by apply list.Forall_true|]. intros m' ->. by apply Hgoal.
  - unfold Session.mount.
    destruct (QuizSocket.mount tok sess Browser.empty) as [[k e1] out0].
    split; [by apply list.Forall_true|]. intros m0 [= <-]. cbn.
    rewrite !is_Some_alt. by split; split.
  - by apply list.Forall_true.
  - cbn. destruct s as [m|]; [|done]. by destruct (Hinv m eq_refl).
Qed.

(** ** The keys and gestures the integrity monitor blocks *)

Ltac eqb_cases :=
  repeat match goal with
         | |- context [String.eqb ?a ?b] =>
             destruct (String.eqb_spec a b); subst; cbn
         end.

(** X19. [handleKeyDown] prevents the default action of exactly these keys:
    F12; I and J while Ctrl and Shift are held; u, s, a, c, v, x and p
    while Ctrl is held.  The comparison is with the key as reported, so
    the upper-case letter that Shift or Caps Lock produces for a Ctrl
    shortcut is let through, and so is every shortcut made with the Meta
    or Alt key alone.  It never touches the clipboard. *)
Theorem keydown_blocks_exactly (k : SecurityWrapper.KeyboardEvent) :
  (SecurityWrapper.defaultPrevented (SecurityWrapper.handleKeyDown_body k) = true ↔
   SecurityWrapper.key k = "F12"%string ∨
   (SecurityWrapper.ctrlKey k = true ∧ SecurityWrapper.shiftKey k = true ∧
    SecurityWrapper.key k ∈ ["I"; "J"]%string) ∨
   (SecurityWrapper.ctrlKey k = true ∧
    SecurityWrapper.key k ∈ ["u"; "s"; "a"; "c"; "v"; "x"; "p"]%string)) ∧
  (SecurityWrapper.ctrlKey k = false → SecurityWrapper.key k ≠ "F12"%string →
   SecurityWrapper.handleKeyDown_body k = SecurityWrapper.untouched) ∧
  (SecurityWrapper.key k ∈ ["U"; "S"; "A"; "C"; "V"; "X"; "P"; "i"; "j"]%string →
   SecurityWrapper.handleKeyDown_body k = SecurityWrapper.untouched) ∧
  SecurityWrapper.clipboardCleared (SecurityWrapper.handleKeyDown_body k) = false.
Proof.
  destruct k as [key ctrl shift alt meta]. cbn.
  unfold SecurityWrapper.handleKeyDown_body. cbn.
  split_and!.
  - destruct ctrl, shift; cbn; eqb_cases;
      rewrite ?elem_of_cons, ?elem_of_nil; split; intros H; try done;
      try tauto; try (repeat destruct H as [H|H]; try done;
                      repeat destruct H as [? H]; repeat destruct H as [H|H]; done).
  - intros -> Hk. cbn. by destruct (String.eqb_spec key "F12").
  - rewrite ?elem_of_cons, ?elem_of_nil. intros H.
    repeat destruct H as [H|H]; try done; subst; cbn;
      destruct ctrl, shift; reflexivity.
  - destruct ctrl, shift; cbn; eqb_cases; reflexivity.
Qed.

Lemma keydown_blocks_exactly_witness :
  SecurityWrapper.handleKeyDown_body
    (SecurityWrapper.mkKeyboardEvent "C" true true false false)
  = SecurityWrapper.untouched ∧
  SecurityWrapper.handleKeyDown_body
    (SecurityWrapper.mkKeyboardEvent "c" false false false true)
  = SecurityWrapper.untouched.
Proof.
  split.
  - apply (proj1 (proj2 (proj2 (keydown_blocks_exactly
             (SecurityWrapper.mkKeyboardEvent "C" true true false false))))).
    cbn. rewrite !elem_of_cons. tauto.
  - by apply (proj1 (proj2 (keydown_blocks_exactly
             (SecurityWrapper.mkKeyboardEvent "c" false false false true)))).
Defined.

(** ** The document listeners while the monitor is enabled *)

Lemma guard_setup_attached (e : Browser.env) :
  let '(g, e') := SecurityWrapper.guard_setup e in
  ∀ ev, Browser.Listener Browser.Document (SecurityWrapper.dom_type ev)
          (SecurityWrapper.guard_handler g ev) ∈ Browser.listeners e'.
Proof.
  unfold SecurityWrapper.guard_setup. cbn -[Browser.addEventListener].
  intros ev. unfold Browser.appendChild. cbn -[Browser.addEventListener].
  rewrite !elem_of_addEventListener. destruct ev; cbn; tauto.
Qed.

Lemma blur_setup_keeps (e : Browser.env) (l : Browser.listener) :
  l ∈ Browser.listeners e →
  l ∈ Browser.listeners (snd (SecurityWrapper.blur_setup e)).
Proof.
  intros Hl. unfold SecurityWrapper.blur_setup. cbn -[Browser.addEventListener].
  rewrite !elem_of_addEventListener. cbn. tauto.
Qed.

Lemma run_effects_attached (en : bool) (e : Browser.env) :
  let '(s, e') := SecurityWrapper.run_effects en e in
  guard_attached s e' ∧ SecurityWrapper.enabled s = en.
Proof.
  unfold SecurityWrapper.run_effects. destruct en; [|done].
  pose proof (guard_setup_attached e) as Hg.
  destruct (SecurityWrapper.guard_setup e) as [g e1].
  pose proof (blur_setup_keeps e1) as Hb.
  destruct (SecurityWrapper.blur_setup e1) as [m e2]. cbn [snd] in Hb.
  split; [|done]. split; [done|]. intros ev. apply Hb, Hg.
Qed.

Lemma wrapper_step_attached (ev : SecurityWrapper.event)
    (s : SecurityWrapper.State) (e : Browser.env) :
  guard_attached s e →
  let '(s', e', _) := SecurityWrapper.step ev s e in
  guard_attached s' e'.
Proof.
  intros Hs. destruct ev; cbn [SecurityWrapper.step].
  - unfold SecurityWrapper.blur.
    destruct (SecurityWrapper.blur_effect s) as [m|]; [|done].
    by destruct (decide _).
  - unfold SecurityWrapper.focus.
    destruct (SecurityWrapper.blur_effect s) as [m|]; [|done].
    by destruct (decide _).
  - unfold SecurityWrapper.render. case_bool_decide; [done|].
    pose proof (run_effects_attached en (SecurityWrapper.run_cleanups s e)) as Hr.
    destruct (SecurityWrapper.run_effects en _) as [s' e']. tauto.
Qed.

Lemma wrapper_run_attached (evs : list SecurityWrapper.event)
    (s : SecurityWrapper.State) (e : Browser.env) :
  guard_attached s e →
  let '(s', e', _) := SecurityWrapper.run evs s e in
  guard_attached s' e'.
Proof.
  revert s e. induction evs as [|ev evs IH]; intros s e Hs; [done|].
  cbn [SecurityWrapper.run].
  pose proof (wrapper_step_attached ev s e Hs) as H1.
  destruct (SecurityWrapper.step ev s e) as [[s1 e1] o1].
  specialize (IH s1 e1 H1).
  by destruct (SecurityWrapper.run evs s1 e1) as [[s2 e2] o2].
Qed.

(** X20. Whatever blurs, focus changes and toggles came before, the
    document events are handled exactly while the monitor is enabled:
    then the context menu, the start of a selection and of a drag are
    prevented and the key handlers are called; while it is disabled every
    event passes untouched. *)
Theorem gestures_blocked_while_enabled (evs : list SecurityWrapper.event)
    (ev : SecurityWrapper.dom_event) :
  let '(s, e, _) := SecurityWrapper.session evs in
  SecurityWrapper.dispatch ev s e =
  if SecurityWrapper.enabled s then SecurityWrapper.handler_body ev
  else SecurityWrapper.untouched.
Proof.
  unfold SecurityWrapper.session, SecurityWrapper.mount.
  pose proof (run_effects_attached true Browser.empty) as H0.
  destruct (SecurityWrapper.run_effects true Browser.empty) as [s0 e0].
  destruct H0 as [H0 _].
  pose proof (wrapper_run_attached evs s0 e0 H0) as H.
  destruct (SecurityWrapper.run evs s0 e0) as [[s e] out].
  unfold guard_attached in H. unfold SecurityWrapper.dispatch.
  destruct (SecurityWrapper.guard_effect s) as [g|].
  - destruct H as [-> Hin]. by rewrite decide_True.
  - by rewrite H.
Qed.

(** ** The route guards *)

(** X21. Once the auth context has loaded, a protected page is rendered
    only for a user, and an admin page only for a user whose role is
    admin; a public page only without a user.  Every route of the table
    ends, after at most two redirections, at a route that renders its
    page: the guards never send the browser in a circle. *)
Theorem guards_protect_and_settle :
  (∀ adminOnly u,
     App.render_element (App.Protected adminOnly) u false = App.Children ↔
     ∃ usr, u = Some usr ∧
            (adminOnly = true → App.role usr = Some "admin"%string)) ∧
  (∀ u, App.render_element App.Public u false = App.Children ↔ u = None) ∧
  (∀ el u, el ∈ (snd <$> App.routes) →
     ∃ el', App.follow 2 el u false = Some el' ∧
            App.render_element el' u false = App.Children) ∧
  App.follow 1 App.Default None false = None.
Proof.
  split_and!.
  - intros adminOnly u. cbn. unfold App.ProtectedRoute.
    destruct u as [usr|]; [|split; [done|by intros (? & [=] & _)]].
    destruct adminOnly; cbn.
    + case_bool_decide as Hr; cbn.
      * split; [|done]. intros _. by exists usr.
      * split; [done|]. intros (usr' & [= <-] & Hadm). by destruct Hr; apply Hadm.
    + split; [|done]. intros _. exists usr. by split.
  - intros u. cbn. unfold App.PublicRoute. by destruct u.
  - intros el u ([p el0] & -> & Hin)%list_elem_of_fmap.
    apply list_elem_of_In in Hin. cbn in Hin.
    repeat destruct Hin as [Hin|Hin]; try done; injection Hin as <- <-;
      (destruct u as [[r]|];
       [destruct (decide (r = Some "admin"%string)) as [->|Hr]|]);
      cbn; unfold App.ProtectedRoute, App.PublicRoute; cbn;
      rewrite ?bool_decide_eq_true_2, ?bool_decide_eq_false_2 by done; cbn;
      (eexists; split; [reflexivity|]);
      cbn; unfold App.ProtectedRoute, App.PublicRoute; cbn;
      rewrite ?bool_decide_eq_true_2, ?bool_decide_eq_false_2 by done; done.
  - reflexivity.
Qed.

Lemma guards_protect_and_settle_witness :
  ∃ el', App.follow 2 (App.Protected true)
           (Some (App.mkUser (Some "user"%string))) false = Some el' ∧
         App.render_element el' (Some (App.mkUser (Some "user"%string))) false
         = App.Children.
Proof.
  apply (proj1 (proj2 (proj2 guards_protect_and_settle))).
  cbn. rewrite !elem_of_cons. tauto.
Defined.

(** ** The headers of a request *)

(** X22. [apiCall] spreads [options] over the configuration it has built:
    a caller that passes [headers] replaces the default headers with its
    own, so that such a request carries neither the JSON content type nor
    the bearer token unless the caller repeats them.  Without [headers]
    in the options the request has the JSON content type and, exactly
    when a token is held, the bearer token, and no other header.  Every
    other option is passed on unchanged. *)
Theorem caller_headers_replace_defaults (token : option string)
    (endpoint : string) (options : gmap string Auth.value) :
  let r := Auth.apiCall_request token endpoint options in
  (∀ v, options !! "headers"%string = Some v →
        Auth.config r !! "headers"%string = Some v) ∧
  (options !! "headers"%string = None →
   ∃ h, Auth.config r !! "headers"%string = Some (Auth.Obj h) ∧
        h !! "Content-Type"%string = Some "application/json"%string ∧
        h !! "Authorization"%string =
          (if JS.truthy_string token
           then Some ("Bearer " +:+ default ""%string token)%string else None) ∧
        ∀ k, k ≠ "Content-Type"%string → k ≠ "Authorization"%string →
             h !! k = None) ∧
  (∀ k, k ≠ "headers"%string → Auth.config r !! k = options !! k).
Proof.
  cbn zeta. unfold Auth.apiCall_request. cbn [Auth.config]. split_and!.
  - intros v Hv. by rewrite lookup_union_l'; [|rewrite Hv].
  - intros Hnone. rewrite lookup_union_r by done. rewrite lookup_singleton_eq.
    eexists. split; [reflexivity|]. rewrite Hnone. cbn [Auth.own_properties].
    rewrite !(left_id_L ∅ (∪)).
    destruct (JS.truthy_string token); split_and!.
    + rewrite lookup_union_r; [by rewrite lookup_singleton_eq|].
      by rewrite lookup_singleton_ne.
    + by rewrite lookup_union_l', lookup_singleton_eq.
    + intros k Hk1 Hk2. rewrite lookup_union_r by (by rewrite lookup_singleton_ne).
      by rewrite lookup_singleton_ne.
    + rewrite (left_id_L ∅ (∪)). by rewrite lookup_singleton_eq.
    + by rewrite (left_id_L ∅ (∪)), lookup_singleton_ne.
    + intros k Hk1 Hk2. rewrite (left_id_L ∅ (∪)). by rewrite lookup_singleton_ne.
  - intros k Hk. destruct (options !! k) as [v|] eqn:Hv.
    + by rewrite lookup_union_l'; [|rewrite Hv].
    + rewrite lookup_union_r by done. by rewrite lookup_singleton_ne.
Qed.

Lemma caller_headers_replace_defaults_witness :
  let r := Auth.apiCall_request (Some "t"%string) "/quizzes"
             {[ "headers"%string := Auth.Obj {[ "Accept"%string := "text/csv"%string ]} ]} in
  Auth.config r !! "headers"%string
  = Some (Auth.Obj {[ "Accept"%string := "text/csv"%string ]}).
Proof.
  apply (proj1 (caller_headers_replace_defaults (Some "t"%string) "/quizzes"
                  {[ "headers"%string :=
                       Auth.Obj {[ "Accept"%string := "text/csv"%string ]} ]})).
  by rewrite lookup_singleton_eq.
Defined.

(** * The timer and the counter on the wired page *)

(** ** The children as the page wires them *)

Lemma timer_render_props p' tr' w' c' t e :
  QuizTimer.props (fst (fst (QuizTimer.render p' tr' w' c' t e))) = p'.
Proof.
  unfold QuizTimer.render.
  set (d1 := negb (QuizTimer.opt_eqb _ (QuizTimer.initialTimeRemaining p'))).
  set (d2 := negb (QuizTimer.timeRemaining t =? tr') || _).
  set (d3 := negb (QuizTimer.opt_eqb _ (QuizTimer.onTimeSync p'))).
  set (e1 := if d2 then _ else e).
  set (e2 := if d3 then _ else e1).
  destruct (if d2 then QuizTimer.countdown_effect tr' p' e2 else _)
    as [[cd e3] c1].
  destruct (if d3 then QuizTimer.resync_effect p' e3 else _) as [rs e4].
  destruct (if d1 then _ else None) as [v|]; [|done].
  destruct (v =? tr'); [done|].
  by destruct (QuizTimer.countdown_effect v p' _) as [[cd' e5] c2].
Qed.

Lemma timer_mount_props p e :
  QuizTimer.props (fst (fst (QuizTimer.mount p e))) = p.
Proof.
  unfold QuizTimer.mount.
  destruct (QuizTimer.countdown_effect _ p e) as [[cd e1] c1].
  destruct (QuizTimer.resync_effect p e1) as [rs e2].
  destruct (QuizTimer.sync_effect p) as [v|]; [|done].
  destruct (v =? _); [done|].
  by destruct (QuizTimer.countdown_effect v p _) as [[cd' e3] c2].
Qed.

Lemma timer_tick_props t e :
  QuizTimer.props (fst (fst (QuizTimer.tick t e))) = QuizTimer.props t.
Proof.
  unfold QuizTimer.tick. destruct (negb _); [done|].
  destruct (QuizTimer.classify _) as [w c].
  pose proof (timer_render_props (QuizTimer.props t)
                (JS.max 0 (QuizTimer.timeRemaining t - 1)) w c t e) as H.
  by destruct (QuizTimer.render _ _ w c t e) as [[t' e'] c1].
Qed.

Lemma wrapper_render_enabled en w e :
  SecurityWrapper.enabled (fst (SecurityWrapper.render en w e)) = en.
Proof.
  unfold SecurityWrapper.render. case_bool_decide as Hen; [done|].
  unfold SecurityWrapper.run_effects. destruct en; [|done].
  destruct (SecurityWrapper.guard_setup _) as [g e1].
  by destruct (SecurityWrapper.blur_setup e1) as [mo e2].
Qed.

Lemma wrapper_mount_enabled en e :
  SecurityWrapper.enabled (fst (SecurityWrapper.mount en e)) = en.
Proof.
  unfold SecurityWrapper.mount, SecurityWrapper.run_effects. destruct en; [|done].
  destruct (SecurityWrapper.guard_setup _) as [g e1].
  by destruct (SecurityWrapper.blur_setup e1) as [mo e2].
Qed.

Lemma wrapper_blur_enabled w e :
  SecurityWrapper.enabled (fst (SecurityWrapper.blur w e)) = SecurityWrapper.enabled w.
Proof.
  unfold SecurityWrapper.blur.
  destruct (SecurityWrapper.blur_effect w) as [mo|]; [|done].
  by destruct (decide _).
Qed.

Lemma wrapper_focus_enabled w e :
  SecurityWrapper.enabled (fst (SecurityWrapper.focus w e)) = SecurityWrapper.enabled w.
Proof.
  unfold SecurityWrapper.focus.
  destruct (SecurityWrapper.blur_effect w) as [mo|]; [|done].
  by destruct (decide _).
Qed.

Lemma render_children_wired (m : Session.Mounted) (e : Browser.env) :
  wired (fst (fst (Session.render_children m e))).
Proof.
  unfold Session.render_children.
  destruct (QuizPage.shows_quiz (Session.page m)) eqn:Hs; [|by intros t].
  assert (Hw : SecurityWrapper.enabled
                 (fst (match Session.wrapper m with
                       | Some w => SecurityWrapper.render
                                     (QuizPage.securityEnabled (Session.page m)) w e
                       | None => SecurityWrapper.mount
                                   (QuizPage.securityEnabled (Session.page m)) e
                       end)) = QuizPage.securityEnabled (Session.page m)).
  { destruct (Session.wrapper m);
      [apply wrapper_render_enabled|apply wrapper_mount_enabled]. }
  destruct (match Session.wrapper m with
            | Some w => _ | None => _ end) as [w e1]. cbn [fst] in Hw.
  destruct (Browser.new_object e1) as [cb1 e2].
  destruct (Browser.new_object e2) as [cb2 e3].
  set (props := QuizTimer.mkProps _ _ _).
  assert (Hp : QuizTimer.props
                 (fst (fst (match Session.timer m with
                            | Some t =>
                                if Session.children_move (Session.wrapper m)
                                     (QuizPage.securityEnabled (Session.page m))
                                then QuizTimer.mount props (QuizTimer.unmount t e3)
                                else QuizTimer.rerender props t e3
                            | None => QuizTimer.mount props e3
                            end))) = props).
  { destruct (Session.timer m); [destruct (Session.children_move _ _)|];
      [apply timer_mount_props|apply timer_render_props|apply timer_mount_props]. }
  destruct (match Session.timer m with
            | Some t => _ | None => _ end) as [[t e4] calls].
  cbn [fst] in *. intros t' [= <-]. rewrite Hp. cbn.
  split_and!; [done|done|done|]. by exists w.
Qed.

Lemma settle_wired (r : bool) (m : Session.Mounted) (e : Browser.env)
    (cs : list QuizTimer.call) (out : list output) :
  r = true ∨ wired m →
  ∀ m', fst (fst (Session.settle r m e cs out)) = Session.Live m' → wired m'.
Proof.
  intros Hr m'. unfold Session.settle.
  pose proof (render_children_wired m e) as Hc.
  destruct (if r then Session.render_children m e else (m, e, []))
    as [[m1 e1] cs1] eqn:E1.
  assert (H1 : wired m1).
  { destruct r; [by rewrite E1 in Hc|]. injection E1 as <- _ _.
    by destruct Hr. }
  pose proof (answer_calls_frame m1 (cs ++ cs1)) as Hf.
  pose proof (answer_calls_page m1 (cs ++ cs1)) as Hp.
  destruct (Session.answer_calls m1 (cs ++ cs1)) as [m2 out2]. cbn [fst] in *.
  destruct Hf as (Hw & Ht & Hk).
  destruct (Session.navigates _).
  - by destruct (Session.unmount m2 e1).
  - cbn. intros [= <-]. unfold wired. by rewrite Hw, Ht, Hp, Hk.
Qed.

Lemma handle_iter_quiet (ev : QuizSocket.inbound) (n : nat) (s : QuizSocket.State) :
  match ev with
  | QuizSocket.QuizJoined _ | QuizSocket.TimeSync _
  | QuizSocket.QuestionChanged _ | QuizSocket.QuizCompleted => False
  | _ => True
  end →
  QuizSocket.quizState (Nat.iter n (QuizSocket.handle ev) s) = QuizSocket.quizState s.
Proof.
  intros Hev. induction n as [|n IH]; [done|].
  cbn [Nat.iter]. rewrite <- IH. by destruct ev.
Qed.

Lemma receive_quiet (ev : QuizSocket.inbound) (k : QuizSocket.State)
    (e : Browser.env) :
  let k' := fst (fst (QuizSocket.receive ev k e)) in
  Session.channel_rerenders ev k k' = false →
  QuizSocket.quizState k' = QuizSocket.quizState k.
Proof.
  cbn zeta. unfold QuizSocket.receive.
  destruct (QuizSocket.registered _ k e) as [|n]; [done|].
  pose proof (socket_render_cells k (Nat.iter (S n) (QuizSocket.handle ev) k) e)
    as (-> & _).
  intros Hr. apply handle_iter_quiet. by destruct ev.
Qed.

Lemma page_step_security (ev : QuizPage.event) (p : QuizPage.State) :
  ev ≠ QuizPage.ToggleSecurity →
  QuizPage.securityEnabled (fst (QuizPage.step ev p)) = QuizPage.securityEnabled p.
Proof.
  intros Hev. destruct ev; cbn [QuizPage.step]; try done.
  - unfold QuizPage.handleAnswerSelect. by destruct (negb _).
  - unfold QuizPage.handleNextQuestion. by destruct (_ <? _).
  - unfold QuizPage.handlePreviousQuestion. by destruct (_ >? _).
  - unfold QuizPage.goTo. by destruct (decide _).
  - by rewrite handleFinishQuiz_state.
Qed.

(** Every event of the mounted page keeps the wiring. *)
Lemma step_live_wired (ev : Session.event) (m : Session.Mounted) (e : Browser.env) :
  wired m →
  ∀ m', fst (fst (Session.step_live ev m e)) = Session.Live m' → wired m'.
Proof.
  intros HI m'.
  destruct ev as [qs i now'|msg|cev| | | | | |uev|]; cbn [Session.step_live].
  - destruct (QuizPage.loading _); [|by intros [= <-]].
    apply settle_wired. by left.
  - destruct (QuizPage.loading _); [|by intros [= <-]].
    apply settle_wired. by left.
  - destruct (QuizSocket.registered _ _ _) eqn:Hreg; [by intros [= <-]|].
    pose proof (receive_quiet cev (Session.sock m) e) as Hq.
    destruct (QuizSocket.receive _ _ _) as [[k e1] out0]. cbn [fst] in Hq.
    apply settle_wired.
    destruct (Session.channel_rerenders cev (Session.sock m) k); [by left|right].
    intros t Ht. cbn in *. rewrite (Hq eq_refl). by apply HI.
  - destruct (Session.timer m) as [t|] eqn:Ht; [|by intros [= <-]].
    pose proof (timer_tick_props t e) as Hp.
    destruct (QuizTimer.tick t e) as [[t' e1] cs]. cbn [fst] in Hp.
    apply settle_wired. right. intros t0 [= <-]. cbn. rewrite Hp. by apply HI.
  - destruct (Session.timer m) as [t|] eqn:Ht; [|by intros [= <-]].
    assert (Hp : fst (fst (QuizTimer.resync_tick t e)) = t).
    { unfold QuizTimer.resync_tick. by destruct (Browser.active _ _). }
    destruct (QuizTimer.resync_tick t e) as [[t' e1] cs]. cbn [fst] in Hp. subst t'.
    apply settle_wired. right. intros t0 [= <-]. cbn. by apply HI.
  - apply settle_wired. by right.
  - destruct (Session.wrapper m) as [w|] eqn:Hw; [|by intros [= <-]].
    pose proof (wrapper_blur_enabled w e) as Hen.
    destruct (SecurityWrapper.blur w e) as [w' out0]. cbn [fst] in Hen.
    apply settle_wired. right. intros t Ht. cbn in *.
    destruct (HI t Ht) as (H1 & H2 & H3 & w0 & Hw0 & H4).
    rewrite Hw in Hw0. injection Hw0 as <-.
    split_and!; try done. exists w'. split; [done|]. by rewrite Hen.
  - destruct (Session.wrapper m) as [w|] eqn:Hw; [|by intros [= <-]].
    pose proof (wrapper_focus_enabled w e) as Hen.
    destruct (SecurityWrapper.focus w e) as [w' out0]. cbn [fst] in Hen.
    apply settle_wired. right. intros t Ht. cbn in *.
    destruct (HI t Ht) as (H1 & H2 & H3 & w0 & Hw0 & H4).
    rewrite Hw in Hw0. injection Hw0 as <-.
    split_and!; try done. exists w'. split; [done|]. by rewrite Hen.
  - destruct (QuizPage.shows_quiz _) eqn:Hs; [|by intros [= <-]].
    pose proof (page_step_shows uev (Session.page m)) as Hsh.
    pose proof (page_step_security uev (Session.page m)) as Hse.
    destruct (QuizPage.step uev (Session.page m)) as [p calls].
    cbn [fst] in *. apply settle_wired.
    assert (uev = QuizPage.ToggleSecurity ∨ uev ≠ QuizPage.ToggleSecurity)
      as [->|Hne] by (destruct uev; (by left) || (by right)); [by left|].
    right. intros t Ht. cbn in *.
    destruct (HI t Ht) as (H1 & H2 & H3 & H4).
    rewrite Hsh, Hse by done. by split_and!.
  - by destruct (Session.unmount m e).
Qed.

Lemma socket_mount_join tok sess (e : Browser.env) :
  QuizSocket.join_effect (fst (fst (QuizSocket.mount tok sess e))) = None.
Proof.
  unfold QuizSocket.mount.
  destruct (QuizSocket.connect_setup tok e) as [c e1].
  unfold QuizSocket.join_setup, QuizSocket.resync_setup. by cbn.
Qed.

Lemma step_live_socket_read (ev : Session.event) (m : Session.Mounted)
    (e : Browser.env) :
  socket_read (Session.sock m) →
  ∀ m', fst (fst (Session.step_live ev m e)) = Session.Live m' →
        socket_read (Session.sock m').
Proof.
  intros HI m' Hm'.
  destruct (step_live_sock ev m e m' Hm') as [->|(cev & n & _ & _ & ->)]; [done|].
  right.
  by destruct (socket_render_cells (Session.sock m)
                 (Nat.iter (S n) (QuizSocket.handle cev) (Session.sock m)) e)
    as (_ & _ & -> & ->).
Qed.

(** In every session the page is wired. *)
Lemma session_wired tok sess now (evs : list Session.event) :
  let '(s, e, _) := Session.session tok sess now evs in
  ∀ m, s = Session.Live m →
       session_ok m e ∧ wired m ∧ socket_read (Session.sock m) ∧
       QuizPage.isSubmitting (Session.page m) = false ∧
       QuizPage.sessionToken (Session.page m) = sess.
Proof.
  pose proof (session_invariant (λ _, True)
                (λ m _, (wired m ∧ socket_read (Session.sock m)) ∧
                        QuizPage.isSubmitting (Session.page m) = false ∧
                        QuizPage.sessionToken (Session.page m) = sess)
                (λ _, True) tok sess now evs) as H.
  destruct (Session.session tok sess now evs) as [[s e] out].
  destruct H as [_ Hinv].
  - intros ev m e0 _ _ ([HI0 HR] & Hsub & Htok).
    pose proof (step_live_socket_read ev m e0 HR) as Hrd.
    assert (Hw : ∀ m', fst (fst (Session.step_live ev m e0)) = Session.Live m' →
                       wired m' ∧ socket_read (Session.sock m')).
    { intros m' Hm'. split; [by eapply step_live_wired|by apply Hrd]. }
    clear Hrd.
    pose proof (step_live_page
                  (λ p, QuizPage.isSubmitting p = false ∧
                        QuizPage.sessionToken p = sess)) as Hp.
    specialize (Hp ltac:(done) ltac:(done)).
    specialize (Hp ltac:(by intros uev p _ [<- <-]; apply page_step_idle)).
    specialize (Hp ev m e0).
    destruct (Session.step_live ev m e0) as [[s' e'] out'].
    split; [by apply list.Forall_true|]. intros m' ->.
    split; [by apply Hw|]. by apply Hp.
  - unfold Session.mount.
    pose proof (socket_mount_join tok sess Browser.empty) as Hj.
    destruct (QuizSocket.mount tok sess Browser.empty) as [[k e1] out0].
    split; [by apply list.Forall_true|]. intros m0 [= <-]. cbn.
    split; [|done]. split; [by intros t|by left].
  - by apply list.Forall_true.
  - intros m ->. destruct (Hinv m eq_refl) as [Hok ([Hw Hr] & Hsub & Htok)].
    by split_and!.
Qed.

(** ** The time the timer shows under time_sync events and ticks *)

(** What the end of an event leaves of the children and the hook. *)
Lemma settle_frame (r : bool) (m : Session.Mounted) (e : Browser.env)
    (cs : list QuizTimer.call) (out : list output) :
  ∀ m', fst (fst (Session.settle r m e cs out)) = Session.Live m' →
    let m1 := if r then fst (fst (Session.render_children m e)) else m in
    Session.timer m' = Session.timer m1 ∧
    Session.wrapper m' = Session.wrapper m1 ∧
    Session.sock m' = Session.sock m1.
Proof.
  intros m'. unfold Session.settle.
  destruct (if r then Session.render_children m e else (m, e, []))
    as [[m1 e1] cs1] eqn:E1.
  assert (H1 : m1 = if r then fst (fst (Session.render_children m e)) else m).
  { destruct r; [by rewrite E1|]. by injection E1 as <- _ _. }
  pose proof (answer_calls_frame m1 (cs ++ cs1)) as Hf.
  destruct (Session.answer_calls m1 (cs ++ cs1)) as [m2 out2]. cbn [fst] in *.
  destruct (Session.navigates _).
  - by destruct (Session.unmount m2 e1).
  - cbn. intros [= <-]. rewrite <- H1. tauto.
Qed.

(** A render of the page that shows the quiz, with a timer that stays
    where it is: the timer takes the synchronizer's time if that is not
    the prop it was last rendered with. *)
Lemma render_children_shown (m : Session.Mounted) (e : Browser.env)
    (t : QuizTimer.State) :
  QuizPage.shows_quiz (Session.page m) = true →
  (∀ w, Session.wrapper m = Some w →
        SecurityWrapper.enabled w = QuizPage.securityEnabled (Session.page m)) →
  Session.timer m = Some t →
  ∃ t', Session.timer (fst (fst (Session.render_children m e))) = Some t' ∧
        QuizTimer.isWarning t' = QuizTimer.isWarning t ∧
        QuizTimer.isCritical t' = QuizTimer.isCritical t ∧
        QuizTimer.timeRemaining t' =
          match QuizSocket.timeRemaining (QuizSocket.quizState (Session.sock m)) with
          | Some v =>
              if decide (QuizTimer.initialTimeRemaining (QuizTimer.props t) = Some v)
              then QuizTimer.timeRemaining t else v
          | None => QuizTimer.timeRemaining t
          end.
Proof.
  intros Hs Hw Ht. unfold Session.render_children. rewrite Hs, Ht.
  assert (Hmv : Session.children_move (Session.wrapper m)
                  (QuizPage.securityEnabled (Session.page m)) = false).
  { unfold Session.children_move. destruct (Session.wrapper m) as [w|]; [|done].
    by rewrite (Hw w eq_refl), bool_decide_eq_true_2. }
  rewrite Hmv.
  destruct (match Session.wrapper m with
            | Some w => _ | None => _ end) as [w e1].
  destruct (Browser.new_object e1) as [cb1 e2].
  destruct (Browser.new_object e2) as [cb2 e3].
  unfold QuizTimer.rerender.
  pose proof (timer_render_cells
                (QuizTimer.mkProps
                   (QuizSocket.timeRemaining (QuizSocket.quizState (Session.sock m)))
                   (Some cb1) (Some cb2))
                (QuizTimer.timeRemaining t) (QuizTimer.isWarning t)
                (QuizTimer.isCritical t) t e3) as H.
  destruct (QuizTimer.render _ _ _ _ t e3) as [[t' e4] calls].
  cbn in *. eexists. split; [reflexivity|]. tauto.
Qed.

Lemma tick_shown (m : Session.Mounted) (e : Browser.env) (t : QuizTimer.State) :
  session_ok m e → Session.timer m = Some t →
  QuizTimer.timeRemaining (fst (fst (QuizTimer.tick t e)))
  = if 0 <? QuizTimer.timeRemaining t then QuizTimer.timeRemaining t - 1
    else QuizTimer.timeRemaining t.
Proof.
  intros [(Hi & _) Hz] Ht. specialize (Hz t Ht).
  pose proof (intervals_ok_active _ Browser.CountdownTick e Hi) as Ha.
  unfold session_slots in Ha. rewrite Ht in Ha. cbn in Ha.
  destruct (Z.ltb_spec 0 (QuizTimer.timeRemaining t)) as [Hpos|Hnp].
  - assert (Hact : Browser.active Browser.CountdownTick e = true).
    { apply Ha. destruct (QuizTimer.countdown t); [done|].
      assert (QuizTimer.timeRemaining t <= 0) by by apply Hz. lia. }
    destruct (tick_active t e Hact) as (e' & cs & ->). cbn. unfold JS.max. lia.
  - assert (Hact : Browser.active Browser.CountdownTick e = false).
    { destruct (Browser.active _ _); [|done].
      destruct (proj1 Ha eq_refl) as [id Hid].
      rewrite (proj2 Hz Hnp) in Hid. discriminate. }
    by rewrite (tick_inactive t e Hact).
Qed.

(** One [time_sync] or tick, seen from the timer. *)
Lemma sync_step_shown (ev : Session.event) (m : Session.Mounted)
    (e : Browser.env) (t : QuizTimer.State) :
  sync_or_tick ev → session_ok m e → wired m →
  QuizSocket.socket (Session.sock m) = QuizSocket.socketRef (Session.sock m) →
  (0 < QuizSocket.registered "time_sync" (Session.sock m) e)%nat →
  Session.timer m = Some t →
  ∀ m1, fst (fst (Session.step_live ev m e)) = Session.Live m1 →
    ∃ t1, Session.timer m1 = Some t1 ∧
          QuizTimer.timeRemaining t1 =
            shown_step ev
              (QuizSocket.timeRemaining (QuizSocket.quizState (Session.sock m)))
              (QuizTimer.timeRemaining t).
Proof.
  intros Hev Hok Hwd Hsock Hreg Ht m1.
  destruct (Hwd t Ht) as (Hshow & Hprop & _ & w & Hw & Hen).
  destruct ev as [| |cev| | | | | | |]; try done; cbn [Session.step_live].
  - destruct cev; try done. cbn [QuizSocket.event_name].
    destruct (receive_time_sync time_remaining (Session.sock m) e Hsock Hreg)
      as (k' & Hrecv & Htime & _).
    destruct (QuizSocket.registered "time_sync" (Session.sock m) e) as [|n];
      [lia|].
    rewrite Hrecv. cbn [Session.channel_rerenders].
    intros Hm1.
    destruct (settle_frame true (Session.set_sock k' m) e [] [] m1 Hm1)
      as (Htm & _). cbn zeta in Htm.
    destruct (render_children_shown (Session.set_sock k' m) e t)
      as (t' & Ht' & _ & _ & Hval); [done| |done|].
    { intros w0 Hw0. cbn in *. congruence. }
    exists t'. split; [congruence|].
    rewrite Hval. cbn [Session.set_sock Session.sock shown_step].
    by rewrite Htime, Hprop.
  - rewrite Ht.
    pose proof (tick_shown m e t Hok Ht) as Hval.
    destruct (QuizTimer.tick t e) as [[t' e1] cs]. cbn [fst] in Hval.
    intros Hm1.
    destruct (settle_frame false _ e1 cs [] m1 Hm1) as (Htm & _).
    cbn in Htm. exists t'. split; [done|]. by rewrite Hval.
Qed.

Lemma run_shown (evs : list Session.event) (m : Session.Mounted)
    (e : Browser.env) (t : QuizTimer.State) :
  Forall sync_or_tick evs → session_ok m e → wired m →
  QuizSocket.socket (Session.sock m) = QuizSocket.socketRef (Session.sock m) →
  (0 < QuizSocket.registered "time_sync" (Session.sock m) e)%nat →
  Session.timer m = Some t →
  ∀ m', fst (fst (Session.run evs (Session.Live m) e)) = Session.Live m' →
    ∃ t', Session.timer m' = Some t' ∧
          QuizTimer.timeRemaining t' =
            shown_after evs
              (QuizSocket.timeRemaining (QuizSocket.quizState (Session.sock m)))
              (QuizTimer.timeRemaining t).
Proof.
  revert m e t. induction evs as [|ev evs IH];
    intros m e t Hevs Hok Hwd Hsock Hreg Ht m'.
  - cbn. intros [= <-]. by exists t.
  - apply list.Forall_cons in Hevs as [Hev Hevs].
    cbn [Session.run Session.step shown_after].
    pose proof (sync_step ev m e Hev Hsock Hreg) as H1.
    pose proof (sync_step_shown ev m e t Hev Hok Hwd Hsock Hreg Ht) as H2.
    pose proof (step_live_ok ev m e Hok) as H3.
    pose proof (step_live_wired ev m e Hwd) as H4.
    destruct (Session.step_live ev m e) as [[s1 e1] o1].
    destruct s1 as [m1|].
    + destruct (H1 m1 eq_refl) as (Hs1 & Hr1 & Ht1).
      destruct (H2 m1 eq_refl) as (t1 & Htm1 & Hv1).
      specialize (IH m1 e1 t1 Hevs H3 (H4 m1 eq_refl) Hs1 Hr1 Htm1 m').
      destruct (Session.run evs (Session.Live m1) e1) as [[s2 e2] o2].
      cbn [fst] in *. intros Hm'. destruct (IH Hm') as (t' & Ht' & Hv').
      exists t'. split; [done|]. rewrite Hv', Hv1. f_equal.
      rewrite Ht1. by destruct ev as [| |[]| | | | | | |].
    + pose proof (run_gone evs e1) as Hg.
      destruct (Session.run evs Session.Gone e1) as [[s2 e2] o2].
      cbn [fst] in *. by rewrite Hg.
Qed.

(** C3, amended. In any state that a session reaches with the hook's
    [time_sync] handler attached, a sequence of [time_sync] events and
    countdown ticks that leaves the page mounted leaves the synchronizer
    with the value of the last [time_sync] (its old value when there was
    none), whatever the ticks did.  The time QuizTimer shows is another
    variable: every tick takes one off it while it is positive, and a
    [time_sync] replaces it only when its value is not the one the
    synchronizer already held.  A [time_sync] applied twice to the
    synchronizer's state is the same as applied once. *)
Theorem time_sync_reaches_timer_only_when_changed (tok sess : option string)
    (now : Z) (pre evs : list Session.event) :
  Forall sync_or_tick evs →
  let '(s0, e0, _) := Session.session tok sess now pre in
  ∀ m, s0 = Session.Live m →
    (0 < QuizSocket.registered "time_sync" (Session.sock m) e0)%nat →
    let held := QuizSocket.timeRemaining (QuizSocket.quizState (Session.sock m)) in
    (∀ m', fst (fst (Session.run evs (Session.Live m) e0)) = Session.Live m' →
       QuizSocket.timeRemaining (QuizSocket.quizState (Session.sock m')) =
         match last_sync evs with
         | Some v => Some v
         | None => held
         end ∧
       ∀ t, Session.timer m = Some t →
         ∃ t', Session.timer m' = Some t' ∧
               QuizTimer.timeRemaining t' =
                 shown_after evs held (QuizTimer.timeRemaining t)) ∧
    (∀ v v' q,
       QuizSocket.timeRemaining
         (QuizSocket.handleTimeSync v (QuizSocket.handleTimeSync v' q)) = Some v) ∧
    (∀ v q,
       QuizSocket.handleTimeSync v (QuizSocket.handleTimeSync v q)
       = QuizSocket.handleTimeSync v q).
Proof.
  intros Hevs.
  pose proof (session_wired tok sess now pre) as Hinv.
  destruct (Session.session tok sess now pre) as [[s0 e0] o0].
  intros m -> Hreg held.
  destruct (Hinv m eq_refl) as (Hok & Hwd & Hrd & _).
  assert (Hsock : QuizSocket.socket (Session.sock m)
                  = QuizSocket.socketRef (Session.sock m)).
  { destruct Hrd as [Hj|]; [|done].
    rewrite (registered_zero m e0 "time_sync" Hok Hj) in Hreg; [lia|].
    unfold quiz_events. in_names. }
  split_and!; [|done|done].
  intros m' Hm'. split.
  - by apply (run_syncs evs m e0).
  - intros t Ht. by apply (run_shown evs m e0 t).
Qed.

Lemma time_sync_reaches_timer_only_when_changed_witness :
  let '(s0, e0, _) :=
    Session.session (Some "tok"%string) (Some "sess"%string) 0
      [Session.Channel QuizSocket.Connect;
       Session.Channel (QuizSocket.QuizJoined (QuizSocket.mkQuizJoined 125 0 2));
       Session.Loaded [QuizPage.mkQuestion (Some "q1"%string)] (Some 0) 0] in
  ∃ m m' t t',
    s0 = Session.Live m ∧ Session.timer m = Some t ∧
    QuizTimer.timeRemaining t = 125 ∧
    fst (fst (Session.run
                [Session.CountdownTick;
                 Session.CountdownTick;
                 Session.Channel (QuizSocket.TimeSync 125);
                 Session.CountdownTick;
                 Session.Channel (QuizSocket.TimeSync 200);
                 Session.CountdownTick;
                 Session.Channel (QuizSocket.TimeSync 200)] (Session.Live m) e0))
      = Session.Live m' ∧
    QuizSocket.timeRemaining (QuizSocket.quizState (Session.sock m')) = Some 200 ∧
    Session.timer m' = Some t' ∧
    QuizTimer.timeRemaining t' = 199.
Proof.
  pose proof (time_sync_reaches_timer_only_when_changed
                (Some "tok"%string) (Some "sess"%string) 0
                [Session.Channel QuizSocket.Connect;
                 Session.Channel
                   (QuizSocket.QuizJoined (QuizSocket.mkQuizJoined 125 0 2));
                 Session.Loaded [QuizPage.mkQuestion (Some "q1"%string)] (Some 0) 0]
                [Session.CountdownTick;
                 Session.CountdownTick;
                 Session.Channel (QuizSocket.TimeSync 125);
                 Session.CountdownTick;
                 Session.Channel (QuizSocket.TimeSync 200);
                 Session.CountdownTick;
                 Session.Channel (QuizSocket.TimeSync 200)]
                ltac:(repeat constructor)) as H.
  destruct (Session.session _ _ _ _) as [[s0 e0] o0] eqn:E.
  vm_compute in E. injection E as <- <- _.
  match type of H with
  | ∀ m, Session.Live ?m0 = Session.Live m → _ =>
      specialize (H m0 eq_refl ltac:(vm_compute; lia)); cbn zeta in H;
      destruct H as (H & _);
      destruct (fst (fst (Session.run _ (Session.Live m0) _))) as [m'|] eqn:E';
        [|vm_compute in E'; discriminate];
      destruct (H m' eq_refl) as (Hh & Ht);
      let tm := eval vm_compute in (Session.timer m0) in
      match tm with
      | Some ?t => destruct (Ht t eq_refl) as (t' & Ht' & Hv');
                   exists m0, m', t, t'
      end
  end.
  split_and!;
    [reflexivity|reflexivity|reflexivity|exact E'|exact Hh|exact Ht'|exact Hv'].
Defined.

(** A [time_sync] that repeats the value the synchronizer holds does not
    reach the timer: after [quiz_joined] with 125 seconds and two ticks,
    [time_sync] with 125 leaves the synchronizer at 125 and the timer at
    123, so the two seconds of local drift are not discarded. *)
Lemma same_time_sync_keeps_local_drift :
  let '(s, _, _) :=
    Session.session (Some "tok"%string) (Some "sess"%string) 0
      [Session.Channel QuizSocket.Connect;
       Session.Channel (QuizSocket.QuizJoined (QuizSocket.mkQuizJoined 125 0 2));
       Session.Loaded [QuizPage.mkQuestion (Some "q1"%string)] (Some 0) 0;
       Session.CountdownTick; Session.CountdownTick;
       Session.Channel (QuizSocket.TimeSync 125)] in
  ∃ m t, s = Session.Live m ∧ Session.timer m = Some t ∧
         QuizSocket.timeRemaining (QuizSocket.quizState (Session.sock m)) = Some 125 ∧
         QuizTimer.timeRemaining t = 123.
Proof. vm_compute. eexists _, _. by split_and!. Qed.

(** ** The violation counter of the page and the expiry of the timer *)







(** ** A security toggle mounts the timer anew *)

Lemma timer_mount_cells p (e : Browser.env) :
  let t := fst (fst (QuizTimer.mount p e)) in
  QuizTimer.timeRemaining t = JS.or_zero (QuizTimer.initialTimeRemaining p) ∧
  QuizTimer.isWarning t = false ∧ QuizTimer.isCritical t = false.
Proof.
  unfold QuizTimer.mount, QuizTimer.sync_effect.
  destruct (QuizTimer.countdown_effect _ p e) as [[cd e1] c1].
  destruct (QuizTimer.resync_effect p e1) as [rs e2].
  destruct (QuizTimer.initialTimeRemaining p) as [v|]; [|done].
  rewrite or_zero_some.
  destruct (Z.eqb_spec v v) as [_|Hne]; [done|].
  by destruct (QuizTimer.countdown_effect v p _) as [[cd' e3] c2].
Qed.

(** A render of the page after [securityEnabled] changed. *)
Lemma render_children_moved (m : Session.Mounted) (e : Browser.env)
    (t : QuizTimer.State) (w : SecurityWrapper.State) :
  QuizPage.shows_quiz (Session.page m) = true →
  Session.wrapper m = Some w →
  SecurityWrapper.enabled w = negb (QuizPage.securityEnabled (Session.page m)) →
  Session.timer m = Some t →
  ∃ t', Session.timer (fst (fst (Session.render_children m e))) = Some t' ∧
        QuizTimer.timeRemaining t' =
          JS.or_zero (QuizSocket.timeRemaining
                        (QuizSocket.quizState (Session.sock m))) ∧
        QuizTimer.isWarning t' = false ∧ QuizTimer.isCritical t' = false.
Proof.
  intros Hs Hw Hen Ht. unfold Session.render_children. rewrite Hs, Ht, Hw.
  assert (Hmv : Session.children_move (Some w)
                  (QuizPage.securityEnabled (Session.page m)) = true).
  { unfold Session.children_move. rewrite Hen.
    by destruct (QuizPage.securityEnabled (Session.page m)). }
  rewrite Hmv.
  destruct (SecurityWrapper.render _ w e) as [w' e1].
  destruct (Browser.new_object e1) as [cb1 e2].
  destruct (Browser.new_object e2) as [cb2 e3].
  pose proof (timer_mount_cells
                (QuizTimer.mkProps
                   (QuizSocket.timeRemaining (QuizSocket.quizState (Session.sock m)))
                   (Some cb1) (Some cb2)) (QuizTimer.unmount t e3)) as H.
  destruct (QuizTimer.mount _ _) as [[t' e4] calls].
  cbn in *. eexists. split; [reflexivity|]. tauto.
Qed.

(** X23. SecurityWrapper renders the page's elements inside a [div] when
    it is enabled and inside a fragment when it is not, so the security
    toggle moves them and QuizTimer is mounted anew: in every session,
    after a toggle that leaves the page mounted, the timer shows the time
    the synchronizer holds, whatever it had counted down to, and neither
    the warning nor the critical flag is set. *)
Theorem security_toggle_restarts_timer (tok sess : option string) (now : Z)
    (evs : list Session.event) :
  let '(s, e, _) := Session.session tok sess now evs in
  ∀ m t, s = Session.Live m → Session.timer m = Some t →
    ∀ m', fst (fst (Session.step_live (Session.User QuizPage.ToggleSecurity) m e))
          = Session.Live m' →
      QuizPage.securityEnabled (Session.page m')
        = negb (QuizPage.securityEnabled (Session.page m)) ∧
      ∃ t', Session.timer m' = Some t' ∧
            QuizTimer.timeRemaining t' =
              JS.or_zero (QuizSocket.timeRemaining
                            (QuizSocket.quizState (Session.sock m))) ∧
            QuizTimer.isWarning t' = false ∧ QuizTimer.isCritical t' = false.
Proof.
  pose proof (session_wired tok sess now evs) as Hinv.
  destruct (Session.session tok sess now evs) as [[s e] o].
  intros m t -> Ht m'.
  destruct (Hinv m eq_refl) as (_ & Hwd & _).
  destruct (Hwd t Ht) as (Hshow & _ & _ & w & Hw & Hen).
  cbn [Session.step_live QuizPage.step Session.user_rerenders]. rewrite Hshow.
  intros Hm'.
  pose proof (settle_page true _ e [] [] m' Hm') as Hp.
  destruct (settle_frame true _ e [] [] m' Hm') as (Htm & _). cbn zeta in Htm.
  rewrite Hp. split; [done|].
  destruct (render_children_moved
              (Session.set_page (QuizPage.toggleSecurity (Session.page m)) m) e t w)
    as (t' & Ht' & Hval); try done.
  { cbn. rewrite Hen. by destruct (QuizPage.securityEnabled (Session.page m)). }
  exists t'. split; [congruence|done].
Qed.

Lemma security_toggle_restarts_timer_witness :
  let '(s, e, _) :=
    Session.session (Some "tok"%string) (Some "sess"%string) 0
      [Session.Channel QuizSocket.Connect;
       Session.Channel (QuizSocket.QuizJoined (QuizSocket.mkQuizJoined 62 0 2));
       Session.Loaded [QuizPage.mkQuestion (Some "q1"%string)] (Some 0) 0;
       Session.CountdownTick; Session.CountdownTick] in
  ∃ m t m' t',
    s = Session.Live m ∧ Session.timer m = Some t ∧
    QuizTimer.timeRemaining t = 60 ∧ QuizTimer.isWarning t = true ∧
    fst (fst (Session.step_live (Session.User QuizPage.ToggleSecurity) m e))
      = Session.Live m' ∧
    Session.timer m' = Some t' ∧
    QuizTimer.timeRemaining t' = 62 ∧ QuizTimer.isWarning t' = false.
Proof.
  pose proof (security_toggle_restarts_timer
                (Some "tok"%string) (Some "sess"%string) 0
                [Session.Channel QuizSocket.Connect;
                 Session.Channel
                   (QuizSocket.QuizJoined (QuizSocket.mkQuizJoined 62 0 2));
                 Session.Loaded [QuizPage.mkQuestion (Some "q1"%string)] (Some 0) 0;
                 Session.CountdownTick; Session.CountdownTick]) as H.
  destruct (Session.session _ _ _ _) as [[s e] o] eqn:E.
  vm_compute in E. injection E as <- <- _.
  match type of H with
  | ∀ m t, Session.Live ?m0 = Session.Live m → _ =>
      let tm := eval vm_compute in (Session.timer m0) in
      match tm with
      | Some ?t =>
          specialize (H m0 t eq_refl eq_refl);
          destruct (fst (fst (Session.step_live _ m0 _))) as [m'|] eqn:E';
            [|vm_compute in E'; discriminate];
          destruct (H m' eq_refl) as (_ & t' & Ht' & Hv' & Hw' & _);
          exists m0, t, m', t'
      end
  end.
  split_and!;
    [reflexivity|reflexivity|reflexivity|reflexivity|exact E'|exact Ht'|exact Hv'|].
  exact Hw'.
Defined.
